(** * Lazy lists of github.com/tcard/functional: a shallow embedding

    The Go package keeps three pieces of global state: the counter
    [thunkId], the flag [memo] and the map [memoTable].  Thunks and Pairs are
    heap objects reached through pointers.  The embedding threads one
    [state] record through every operation; closures ([thunkFunc] values)
    are represented by the function literal they come from together with the
    variables that literal captures.  Recursion that Go leaves unbounded
    (forcing, loops over a list) is driven by a fuel argument. *)

From Stdlib Require Import ZArith PrimFloat.
From stdpp Require Import gmap list strings.

Open Scope Z_scope.
Set Warnings "-register-all".

(** ** Values *)

(** Go's [uint64]/[uint] and [int] arithmetic wraps around. *)
Definition wrapUint (z : Z) : Z := z mod 2 ^ 64.
Definition wrapInt (z : Z) : Z := (z + 2 ^ 63) mod 2 ^ 64 - 2 ^ 63.

(** A [*Thunk] is the identifier of the Thunk it points to, or [None] for the
    nil pointer: a Thunk is only ever created by [&Thunk{nextId(), f}] and
    never copied, so identifiers and addresses correspond one to one.
    A [*Pair] is an index into the store of allocated Pairs. *)
Abbreviation ptr := (option N).
Abbreviation pptr := (option nat).

Inductive intT := int | int8 | int16 | int32 | int64.
Inductive uintT := uint | uint8 | uint16 | uint32 | uint64 | uintptr.
Inductive floatT := float32 | float64.

#[global] Instance intT_eq_dec : EqDecision intT.
Proof. solve_decision. Defined.
#[global] Instance uintT_eq_dec : EqDecision uintT.
Proof. solve_decision. Defined.
#[global] Instance floatT_eq_dec : EqDecision floatT.
Proof. solve_decision. Defined.

(** [type I interface{}]: a dynamically typed value.  [VNil] is the nil
    interface, [VThunk] a [*Thunk] (a nested list), [VSlice] a [[]I]. *)
Inductive I :=
| VNil
| VBool (b : bool)
| VInt (t : intT) (z : Z)
| VUint (t : uintT) (z : Z)
| VFloat (t : floatT) (x : float)
| VString (s : string)
| VThunk (t : ptr)
| VSlice (xs : list I).

(** [type Pair struct { head I; tail *Thunk }] *)
Record Pair := mkPair { p_head : I; p_tail : ptr }.

(** [reflect.Kind], restricted to the kinds of the values above. *)
Module Kind.
Inductive t :=
| Invalid | Bool | Int | Int8 | Int16 | Int32 | Int64
| Uint | Uint8 | Uint16 | Uint32 | Uint64 | Uintptr
| Float32 | Float64 | Ptr | Slice | String.

#[global] Instance eq_dec : EqDecision t.
Proof. solve_decision. Defined.
End Kind.

(** [reflect.ValueOf(x).Kind()] *)
Definition kindOf (x : I) : Kind.t :=
  match x with
  | VNil => Kind.Invalid
  | VBool _ => Kind.Bool
  | VInt int _ => Kind.Int
  | VInt int8 _ => Kind.Int8
  | VInt int16 _ => Kind.Int16
  | VInt int32 _ => Kind.Int32
  | VInt int64 _ => Kind.Int64
  | VUint uint _ => Kind.Uint
  | VUint uint8 _ => Kind.Uint8
  | VUint uint16 _ => Kind.Uint16
  | VUint uint32 _ => Kind.Uint32
  | VUint uint64 _ => Kind.Uint64
  | VUint uintptr _ => Kind.Uintptr
  | VFloat float32 _ => Kind.Float32
  | VFloat float64 _ => Kind.Float64
  | VString _ => Kind.String
  | VThunk _ => Kind.Ptr
  | VSlice _ => Kind.Slice
  end.

(** The run-time panics the package can raise. *)
Inductive panic :=
| NilDereference          (* invalid memory address or nil pointer dereference *)
| IndexOutOfList          (* panic("Index out of list.") in At *)
| IndexOutOfRange         (* xs[0] on an empty slice *)
| Uncomparable            (* comparing uncomparable type in == *)
| TypeAssertion           (* x.( *Thunk) on a value of another type *)
| ReflectKind             (* reflect: call of Value.Float/Int/Uint on a value of another kind *)
| UserPanic               (* a caller-supplied function panicked *)
| BadPointer.             (* a pointer to an object that was never allocated *)

(** Go's [==] on interface values: equal dynamic types and equal values;
    two slices have the same uncomparable dynamic type, which panics. *)
Definition ifaceEq (a b : I) : panic + bool :=
  match a, b with
  | VNil, VNil => inr true
  | VBool x, VBool y => inr (bool_decide (x = y))
  | VInt t x, VInt u y => inr (bool_decide (t = u) && (x =? y))
  | VUint t x, VUint u y => inr (bool_decide (t = u) && (x =? y))
  | VFloat t x, VFloat u y => inr (bool_decide (t = u) && PrimFloat.eqb x y)
  | VString x, VString y => inr (bool_decide (x = y))
  | VThunk x, VThunk y => inr (bool_decide (x = y))
  | VSlice _, VSlice _ => inl Uncomparable
  | _, _ => inr false
  end.

(** ** Closures *)

(** The [func(...I) I] arguments of [MapN]: a caller-supplied function
    ([inl] is a panic raised inside it), the literal
    [func(xs ...I) I { return f(xs[0]) }] of [Map], and the literal
    [func(xs ...I) I { return SliceToList(xs) }] of [ZipN]. *)
Inductive mapFunc :=
| userMapN (f : list I → panic + I)
| mapAdaptor (f : I → panic + I)
| zipAdaptor.

(** The [func(I, I) I] arguments of [Reduce]: a caller-supplied function and
    the literals inside [Max], [Min] and [Reverse]. *)
Inductive reduceFunc1 :=
| userReduce (f : I → I → panic + I)
| maxFunc
| minFunc
| reverseFunc.

(** The [func(I, ...I) I] arguments of [ReduceN]: a caller-supplied function
    and the literal [func(acc I, xs ...I) I { return f(acc, xs[0]) }] of
    [Reduce]. *)
Inductive reduceFunc :=
| userReduceN (f : I → list I → panic + I)
| reduceAdaptor (f : reduceFunc1).

(** The [func() *Thunk] arguments of [DelayedLink]: those found in the
    package's tests and README (the tail of [integersFromN(n)] and the tail
    of the self-referential [fibo], which reads the package variable
    [fibo]), and a caller's function that forces the list in [fibo] the
    first time it runs:
    [func() *Thunk { if t := fibo; t != nil { fibo = nil; t.Head() }; return Empty }]. *)
Inductive tailFunc :=
| integersFromN_tail (n : Z)
| fibo_tail
| reentrant_tail.

(** [type thunkFunc func(I) *Pair]: one constructor per function literal
    that the package stores in a Thunk, with its captured variables.  [Drop]
    and [DropWhile] assign to the captured [thunk] and [n]; those
    assignments rewrite the constructor's arguments in the store. *)
Inductive thunkFunc :=
| emptyFunc
| linkFunc (head : I) (tail : ptr)
| delayedLinkFunc (head : I) (tail : tailFunc)
| appendFunc (thunk other : ptr)
| takeFunc (thunk : ptr) (n : Z)
| dropFunc (thunk : ptr) (n : Z)
| mapNFunc (f : mapFunc) (thunks : list ptr)
| filterNFunc (f : list I → panic + bool) (thunks : list ptr)
| filterFunc (thunk : ptr) (f : I → panic + bool)
| takeWhileFunc (thunk : ptr) (f : I → panic + bool)
| dropWhileFunc (thunk : ptr) (f : I → panic + bool)
| flattenFunc (thunk : ptr)
| reverseThunkFunc (thunk : ptr)
| updatingRet (initial : I) (f : I → panic + I)
| updatingTail (f : I → panic + I)
| updatingNext (h : I) (f : I → panic + I).

(** ** Global state and heap *)

Record state := mkState {
  thunkId : N;                          (* var thunkId uint64 *)
  memo : bool;                          (* var memo bool *)
  memoTable : gmap N pptr;              (* var memoTable map[uint64]*Pair *)
  thunks : gmap N thunkFunc;            (* the allocated Thunks, by id *)
  pairs : list Pair;                    (* the allocated Pairs, by address *)
  fibo : ptr;                           (* var fibo *Thunk of the tests *)
  calls : list N                        (* ghost: ids whose f was invoked by force *)
}.

Definition set_thunkId (i : N) (s : state) : state :=
  mkState i (memo s) (memoTable s) (thunks s) (pairs s) (fibo s) (calls s).
Definition set_memo (b : bool) (s : state) : state :=
  mkState (thunkId s) b (memoTable s) (thunks s) (pairs s) (fibo s) (calls s).
Definition set_memoTable (m : gmap N pptr) (s : state) : state :=
  mkState (thunkId s) (memo s) m (thunks s) (pairs s) (fibo s) (calls s).
Definition set_thunks (m : gmap N thunkFunc) (s : state) : state :=
  mkState (thunkId s) (memo s) (memoTable s) m (pairs s) (fibo s) (calls s).
Definition set_pairs (l : list Pair) (s : state) : state :=
  mkState (thunkId s) (memo s) (memoTable s) (thunks s) l (fibo s) (calls s).
Definition set_fibo (t : ptr) (s : state) : state :=
  mkState (thunkId s) (memo s) (memoTable s) (thunks s) (pairs s) t (calls s).
Definition set_calls (l : list N) (s : state) : state :=
  mkState (thunkId s) (memo s) (memoTable s) (thunks s) (pairs s) (fibo s) l.

(** ** The monad of package operations: state, panics and fuel *)

Inductive result (A : Type) :=
| Ok (a : A) (s : state)
| Panic (e : panic)
| OutOfFuel.
Arguments Ok {A} a s.
Arguments Panic {A} e.
Arguments OutOfFuel {A}.

Definition M (A : Type) : Type := state → result A.

Definition ret {A} (a : A) : M A := λ s, Ok a s.
Definition throw {A} (e : panic) : M A := λ _, Panic e.
Definition timeout {A} : M A := λ _, OutOfFuel.
Definition bind {A B} (m : M A) (k : A → M B) : M B :=
  λ s, match m s with
       | Ok a s' => k a s'
       | Panic e => Panic e
       | OutOfFuel => OutOfFuel
       end.
Definition lift {A} (r : panic + A) : M A :=
  match r with inl e => throw e | inr a => ret a end.

Notation "'let*' x ':=' m 'in' k" := (bind m (λ x, k))
  (at level 10, x name, m at level 100, k at level 200,
   format "'[v' 'let*'  x  ':='  m  'in' '/' k ']'").
Notation "m ';;' k" := (bind m (λ _, k))
  (at level 100, k at level 200, right associativity).

(** The value and the final state of a run, when there is one. *)
Definition value {A} (r : result A) : option A :=
  match r with Ok a _ => Some a | _ => None end.
Definition final {A} (r : result A) : option state :=
  match r with Ok _ s => Some s | _ => None end.

(** [func nextId() uint64 { thunkId++; return thunkId }] *)
Definition nextId : M N :=
  λ s, let i := ((thunkId s + 1) mod 2 ^ 64)%N in Ok i (set_thunkId i s).

(** [&Thunk{nextId(), f}] *)
Definition newThunk (f : thunkFunc) : M ptr :=
  let* i := nextId in
  λ s, Ok (Some i) (set_thunks (<[i := f]> (thunks s)) s).

(** [&Pair{head, tail}] *)
Definition newPair (head : I) (tail : ptr) : M pptr :=
  λ s, Ok (Some (length (pairs s))) (set_pairs (pairs s ++ [mkPair head tail]) s).

(** [*pair], as in [pair.head] and [pair.tail] *)
Definition deref (pair : pptr) : M Pair :=
  λ s, match pair with
       | None => Panic NilDereference
       | Some a => match pairs s !! a with
                   | Some p => Ok p s
                   | None => Panic BadPointer
                   end
       end.

(** [( *thunk).f], the closure stored in a Thunk *)
Definition getFunc (id : N) : M thunkFunc :=
  λ s, match thunks s !! id with
       | Some f => Ok f s
       | None => Panic BadPointer
       end.

(** Assignment to the variables captured by the closure of Thunk [id]. *)
Definition setFunc (id : N) (f : thunkFunc) : M unit :=
  λ s, Ok tt (set_thunks (<[id := f]> (thunks s)) s).

(** [memoTable[id] = ret] *)
Definition memoize (id : N) (v : pptr) : M unit :=
  λ s, Ok tt (set_memoTable (<[id := v]> (memoTable s)) s).

Definition recordCall (id : N) : M unit :=
  λ s, Ok tt (set_calls (calls s ++ [id]) s).

(** [fibo = t] *)
Definition assignFibo (t : ptr) : M unit :=
  λ s, Ok tt (set_fibo t s).

(** [func StartMemo()], [func StopMemo()], [func ResetMemo()] *)
Definition StartMemo : M unit := λ s, Ok tt (set_memo true s).
Definition StopMemo : M unit := λ s, Ok tt (set_memo false s).
Definition ResetMemo : M unit := λ s, Ok tt (set_memoTable ∅ s).

(** ** Constructors *)

(** [var Empty *Thunk]: initialised first, so it holds identifier 1. *)
Definition Empty : ptr := Some 1%N.

(** The state after package initialisation: [Empty] allocated, [init()]
    run. *)
Definition init : state :=
  mkState 1 true ∅ {[ 1%N := emptyFunc ]} [] None [].

Definition Link (head : I) (tail : ptr) : M ptr := newThunk (linkFunc head tail).

Definition DelayedLink (head : I) (tail : tailFunc) : M ptr :=
  newThunk (delayedLinkFunc head tail).

(** [List(items ...I)]: the tail is built before the head is linked. *)
Fixpoint List (items : list I) : M ptr :=
  match items with
  | [] => ret Empty
  | x :: rest => let* t := List rest in Link x t
  end.

Definition L (items : list I) : M ptr := List items.

(** The loop of [SliceToList], from the last index down to 0. *)
Fixpoint linkDown (ritems : list I) (ret_ : ptr) : M ptr :=
  match ritems with
  | [] => ret ret_
  | x :: rest => let* t := Link x ret_ in linkDown rest t
  end.

Definition SliceToList (items : I) : M ptr :=
  match items with
  | VSlice xs => linkDown (rev xs) Empty
  | _ => ret None
  end.

(** ** Operations that only allocate a Thunk *)

Definition Append (thunk other : ptr) : M ptr := newThunk (appendFunc thunk other).
Definition Take (thunk : ptr) (n : Z) : M ptr := newThunk (takeFunc thunk n).
Definition Drop (thunk : ptr) (n : Z) : M ptr := newThunk (dropFunc thunk n).
Definition MapN (f : mapFunc) (thunks : list ptr) : M ptr := newThunk (mapNFunc f thunks).
Definition Map (thunk : ptr) (f : I → panic + I) : M ptr := MapN (mapAdaptor f) [thunk].
Definition FilterN (f : list I → panic + bool) (thunks : list ptr) : M ptr :=
  newThunk (filterNFunc f thunks).
Definition Filter (thunk : ptr) (f : I → panic + bool) : M ptr :=
  newThunk (filterFunc thunk f).
Definition TakeWhile (thunk : ptr) (f : I → panic + bool) : M ptr :=
  newThunk (takeWhileFunc thunk f).
Definition DropWhile (thunk : ptr) (f : I → panic + bool) : M ptr :=
  newThunk (dropWhileFunc thunk f).
Definition ZipN (thunks : list ptr) : M ptr := MapN zipAdaptor thunks.
Definition Zip (thunk other : ptr) : M ptr := ZipN [thunk; other].
Definition Flatten (thunk : ptr) : M ptr := newThunk (flattenFunc thunk).
Definition Reverse (thunk : ptr) : M ptr := newThunk (reverseThunkFunc thunk).
Definition Updating (initial : I) (f : I → panic + I) : M ptr :=
  newThunk (updatingRet initial f).

(** ** Caller-supplied and package function literals *)

(** [xs[0]] *)
Definition index0 (xs : list I) : M I :=
  match xs with
  | [] => throw IndexOutOfRange
  | x :: _ => ret x
  end.

(** [x.( *Thunk)] *)
Definition assertThunk (x : I) : M ptr :=
  match x with
  | VThunk t => ret t
  | _ => throw TypeAssertion
  end.

Definition applyMap (f : mapFunc) (xs : list I) : M I :=
  match f with
  | userMapN g => lift (g xs)
  | mapAdaptor g => let* x := index0 xs in lift (g x)
  | zipAdaptor => let* t := SliceToList (VSlice xs) in ret (VThunk t)
  end.

(** [reflect.Value.Int], [.Uint] and [.Float]: each panics on a value of
    another kind. *)
Definition reflectInt (x : I) : M Z :=
  match x with VInt _ z => ret z | _ => throw ReflectKind end.
Definition reflectUint (x : I) : M Z :=
  match x with VUint _ z => ret z | _ => throw ReflectKind end.
Definition reflectFloat (x : I) : M float :=
  match x with VFloat _ z => ret z | _ => throw ReflectKind end.

(** The function literal folded by [Max]. *)
Definition maxStep (acc x : I) : M I :=
  if negb (bool_decide (kindOf acc = kindOf x)) then ret VNil else
  match kindOf acc with
  | Kind.Int | Kind.Int8 | Kind.Int16 | Kind.Int32 | Kind.Int64 =>
      let* a := reflectInt acc in
      let* b := reflectInt x in
      if b <=? a then ret acc else ret x
  | Kind.Uint | Kind.Uint8 | Kind.Uint16 | Kind.Uint32 =>
      let* a := reflectUint acc in
      let* b := reflectUint x in
      if b <=? a then ret acc else ret x
  | Kind.Float32 | Kind.Float64 =>
      let* acc' := reflectFloat acc in           (* acc := accV.Float() *)
      let* a := reflectFloat acc in
      let* b := reflectFloat x in
      if PrimFloat.leb b a then ret (VFloat float64 acc') else ret x
  | Kind.String =>
      let* a := reflectFloat acc in
      let* b := reflectFloat x in
      if PrimFloat.leb b a then ret acc else ret x
  | _ => ret VNil
  end.

(** The function literal folded by [Min]. *)
Definition minStep (acc x : I) : M I :=
  if negb (bool_decide (kindOf acc = kindOf x)) then ret VNil else
  match kindOf acc with
  | Kind.Int | Kind.Int8 | Kind.Int16 | Kind.Int32 | Kind.Int64 =>
      let* a := reflectInt acc in
      let* b := reflectInt x in
      if a <=? b then ret acc else ret x
  | Kind.Uint | Kind.Uint8 | Kind.Uint16 | Kind.Uint32 =>
      let* a := reflectUint acc in
      let* b := reflectUint x in
      if a <=? b then ret acc else ret x
  | Kind.Float32 | Kind.Float64 =>
      let* acc' := reflectFloat acc in
      let* a := reflectFloat acc in
      let* b := reflectFloat x in
      if PrimFloat.leb a b then ret (VFloat float64 acc') else ret x
  | Kind.String =>
      let* a := reflectFloat acc in
      let* b := reflectFloat x in
      if PrimFloat.leb a b then ret acc else ret x
  | _ => ret VNil
  end.

Definition applyReduce1 (f : reduceFunc1) (acc x : I) : M I :=
  match f with
  | userReduce g => lift (g acc x)
  | maxFunc => maxStep acc x
  | minFunc => minStep acc x
  | reverseFunc =>                               (* Link(x, acc.( *Thunk)) *)
      let* a := assertThunk acc in
      let* t := Link x a in
      ret (VThunk t)
  end.

Definition applyReduce (f : reduceFunc) (acc : I) (xs : list I) : M I :=
  match f with
  | userReduceN g => lift (g acc xs)
  | reduceAdaptor g => let* x := index0 xs in applyReduce1 g acc x
  end.

(** The summing literal of [TestFibo] and of the README:
    [ret := 0; for _, v := range xs { ret += v.(int) }; return ret]. *)
Fixpoint sumLoop (ret_ : Z) (xs : list I) : panic + I :=
  match xs with
  | [] => inr (VInt int ret_)
  | VInt int v :: rest => sumLoop (wrapInt (ret_ + v)) rest
  | _ :: _ => inl TypeAssertion
  end.
Definition sumInts (xs : list I) : panic + I := sumLoop 0 xs.

(** [totalSum] of [TestReduceN]:
    [for _, x := range xs { acc = acc.(int) + x.(int) }; return acc]. *)
Fixpoint totalSum (acc : I) (xs : list I) : panic + I :=
  match xs with
  | [] => inr acc
  | x :: rest =>
      match acc, x with
      | VInt int a, VInt int b => totalSum (VInt int (wrapInt (a + b))) rest
      | _, _ => inl TypeAssertion
      end
  end.

(** ** Forcing *)

(** The loop shared by [MapN], [ReduceN] and [FilterN]: force the lists one
    after the other, stop with "no pair" at the first exhausted one,
    otherwise collect the heads and the tails. *)
Fixpoint forceEach (frc : ptr → M pptr) (thunks : list ptr)
  : M (option (list I * list ptr)) :=
  match thunks with
  | [] => ret (Some ([], []))
  | t :: rest =>
      let* pair := frc t in
      match pair with
      | None => ret None
      | Some _ =>
          let* p := deref pair in
          let* r := forceEach frc rest in
          ret (match r with
               | None => None
               | Some (heads, tails) => Some (p_head p :: heads, p_tail p :: tails)
               end)
      end
  end.

(** [force] with the bodies of the stored closures ([call]), the
    self-recursive closures of [Drop] and [DropWhile], the [func() *Thunk]
    arguments of [DelayedLink], [ReduceN] (used by [Reverse]) and [Equals]. *)
Fixpoint force (fuel : nat) (thunk : ptr) (ctx : I) {struct fuel} : M pptr :=
  match fuel with
  | O => timeout
  | S fuel =>
      match thunk with
      | None => ret None
      | Some id =>
          λ s, if memo s then
                 match memoTable s !! id with
                 | Some v => Ok v s
                 | None =>
                     (recordCall id;;
                      let* r := call fuel id ctx in
                      memoize id r;;
                      ret r) s
                 end
               else (recordCall id;; call fuel id ctx) s
      end
  end

with call (fuel : nat) (id : N) (ctx : I) {struct fuel} : M pptr :=
  match fuel with
  | O => timeout
  | S fuel =>
      let* f := getFunc id in
      match f with
      | emptyFunc => ret None
      | linkFunc head tail => newPair head tail
      | delayedLinkFunc head tail =>
          let* t := callTail fuel tail in
          newPair head t
      | appendFunc thunk other =>
          let* pair := force fuel thunk VNil in
          match pair with
          | Some _ =>
              let* p := deref pair in
              let* t := Append (p_tail p) other in
              newPair (p_head p) t
          | None =>
              let* pair := force fuel other VNil in
              match pair with
              | Some _ =>
                  let* p := deref pair in
                  let* t := Append (p_tail p) Empty in
                  newPair (p_head p) t
              | None => ret None
              end
          end
      | takeFunc thunk n =>
          if 0 <? n then
            let* pair := force fuel thunk VNil in
            match pair with
            | Some _ =>
                let* p := deref pair in
                let* t := Take (p_tail p) (n - 1) in
                newPair (p_head p) t
            | None => ret None
            end
          else ret None
      | dropFunc _ _ => dropRet fuel id
      | mapNFunc f thunks =>
          let* r := forceEach (λ t, force fuel t VNil) thunks in
          match r with
          | None => ret None
          | Some (heads, tails) =>
              let* v := applyMap f heads in
              let* t := MapN f tails in
              newPair v t
          end
      | filterNFunc f thunks =>
          let* r := forceEach (λ t, force fuel t VNil) thunks in
          match r with
          | None => ret None
          | Some (heads, tails) =>
              let* tail := FilterN f tails in
              let* b := lift (f heads) in
              if b : bool then
                let* l := L heads in
                newPair (VThunk l) tail
              else force fuel tail VNil
          end
      | filterFunc thunk f =>
          let* pair := force fuel thunk VNil in
          match pair with
          | None => ret None
          | Some _ =>
              let* p := deref pair in
              let* tail := Filter (p_tail p) f in
              let* b := lift (f (p_head p)) in
              if b : bool then newPair (p_head p) tail
              else force fuel tail VNil
          end
      | takeWhileFunc thunk f =>
          let* pair := force fuel thunk VNil in
          match pair with
          | None => ret None
          | Some _ =>
              let* p := deref pair in
              let* b := lift (f (p_head p)) in
              if b : bool then
                let* t := TakeWhile (p_tail p) f in
                newPair (p_head p) t
              else ret None
          end
      | dropWhileFunc _ _ => dropWhileRet fuel id
      | flattenFunc thunk =>
          let* pair := force fuel thunk VNil in
          match pair with
          | Some _ =>
              let* p := deref pair in
              let* sub := assertThunk (p_head p) in
              let* pair2 := force fuel sub VNil in
              let* p2 := deref pair2 in
              let* rest := Flatten (p_tail p) in
              let* t := Append (p_tail p2) rest in
              newPair (p_head p2) t
          | None => ret None
          end
      | reverseThunkFunc thunk =>
          let* l := L [] in
          let* r := ReduceN fuel (reduceAdaptor reverseFunc) (VThunk l) [thunk] in
          let* t := assertThunk r in
          force fuel t VNil
      | updatingRet initial f =>
          let* t := newThunk (updatingNext initial f) in
          newPair initial t
      | updatingNext h f =>
          let* t := newThunk (updatingTail f) in
          force fuel t h
      | updatingTail f =>
          let* h := lift (f ctx) in
          let* t := newThunk (updatingNext h f) in
          newPair h t
      end
  end

with dropRet (fuel : nat) (id : N) {struct fuel} : M pptr :=
  match fuel with
  | O => timeout
  | S fuel =>
      let* f := getFunc id in
      match f with
      | dropFunc thunk n =>
          let* pair := force fuel thunk VNil in
          match pair with
          | Some _ =>
              if 0 <? n then
                let* p := deref pair in
                setFunc id (dropFunc (p_tail p) (n - 1));;
                dropRet fuel id
              else ret pair
          | None => ret None
          end
      | _ => throw BadPointer
      end
  end

with dropWhileRet (fuel : nat) (id : N) {struct fuel} : M pptr :=
  match fuel with
  | O => timeout
  | S fuel =>
      let* f := getFunc id in
      match f with
      | dropWhileFunc thunk g =>
          let* pair := force fuel thunk VNil in
          match pair with
          | Some _ =>
              let* p := deref pair in
              let* b := lift (g (p_head p)) in
              if b : bool then
                setFunc id (dropWhileFunc (p_tail p) g);;
                dropWhileRet fuel id
              else ret pair
          | None => ret pair
          end
      | _ => throw BadPointer
      end
  end

with callTail (fuel : nat) (tail : tailFunc) {struct fuel} : M ptr :=
  match fuel with
  | O => timeout
  | S fuel =>
      match tail with
      | integersFromN_tail n =>                  (* integersFromN(n + 1) *)
          DelayedLink (VInt int (wrapInt (n + 1)))
                      (integersFromN_tail (wrapInt (n + 1)))
      | fibo_tail =>                             (* MapN(sum, fibo, fibo.Tail()) *)
          let* f := (λ s, Ok (fibo s) s) in
          let* pair := force fuel f VNil in
          let* p := deref pair in
          MapN (userMapN sumInts) [f; p_tail p]
      | reentrant_tail =>                        (* fibo = nil; t.Head() *)
          let* t := (λ s, Ok (fibo s) s) in
          match t with
          | Some _ =>
              assignFibo None;;
              let* pair := force fuel t VNil in
              let* _ := deref pair in
              ret Empty
          | None => ret Empty
          end
      end
  end

with ReduceN (fuel : nat) (f : reduceFunc) (acc : I) (thunks : list ptr)
     {struct fuel} : M I :=
  match fuel with
  | O => timeout
  | S fuel =>
      let* r := forceEach (λ t, force fuel t VNil) thunks in
      match r with
      | None => ret acc
      | Some (heads, tails) =>
          let* acc' := applyReduce f acc heads in
          ReduceN fuel f acc' tails
      end
  end.

(** ** Eager operations *)

(** [func (thunk *Thunk) Head() I] and [Tail() *Thunk] *)
Definition Head (fuel : nat) (thunk : ptr) : M I :=
  let* pair := force fuel thunk VNil in
  let* p := deref pair in
  ret (p_head p).

Definition Tail (fuel : nat) (thunk : ptr) : M ptr :=
  let* pair := force fuel thunk VNil in
  let* p := deref pair in
  ret (p_tail p).

(** [func (thunk *Thunk) ToSlice() [](I)] *)
Fixpoint ToSlice (fuel : nat) (thunk : ptr) : M (list I) :=
  match fuel with
  | O => timeout
  | S fuel =>
      let* pair := force fuel thunk VNil in
      match pair with
      | None => ret []
      | Some _ =>
          let* p := deref pair in
          let* rest := ToSlice fuel (p_tail p) in
          ret (p_head p :: rest)
      end
  end.

(** [func (thunk *Thunk) Equals(other *Thunk) bool]: one unit of fuel per
    iteration of the loop and per nested call. *)
Fixpoint Equals (fuel : nat) (thunk other : ptr) : M bool :=
  match fuel with
  | O => timeout
  | S fuel =>
      let* pair := force fuel thunk VNil in
      let* otherPair := force fuel other VNil in
      match pair with
      | None =>
          match otherPair with
          | Some _ => ret false
          | None => ret true
          end
      | Some _ =>
          let* p := deref pair in
          match p_head p with
          | VThunk h =>
              let* o := deref otherPair in
              match p_head o with
              | VThunk oh =>
                  let* b := Equals fuel h oh in
                  if b : bool then Equals fuel (p_tail p) (p_tail o)
                  else ret false
              | _ => ret false
              end
          | x =>
              let* o := deref otherPair in
              let* b := lift (ifaceEq x (p_head o)) in
              if b : bool then Equals fuel (p_tail p) (p_tail o)
              else ret false
          end
      end
  end.

(** The [for pair != nil] loop of [Length]; [ret] is a Go [int]. *)
Fixpoint lengthLoop (fuel : nat) (pair : pptr) (ret_ : Z) : M Z :=
  match fuel with
  | O => timeout
  | S fuel =>
      match pair with
      | None => ret ret_
      | Some _ =>
          let* p := deref pair in
          let* pair' := force fuel (p_tail p) VNil in
          lengthLoop fuel pair' (wrapInt (ret_ + 1))
      end
  end.

Definition Length (fuel : nat) (thunk : ptr) : M Z :=
  let* pair := force fuel thunk VNil in
  lengthLoop fuel pair 0.

(** The [for i := uint(0); i <= n; i++] loop of [At]; [pair] is the Pair
    found by the previous iteration. *)
Fixpoint atLoop (fuel : nat) (i n : Z) (thunk : ptr) (pair : pptr) : M I :=
  match fuel with
  | O => timeout
  | S fuel =>
      if i <=? n then
        let* pair := force fuel thunk VNil in
        match pair with
        | None => throw IndexOutOfList
        | Some _ =>
            let* p := deref pair in
            atLoop fuel (wrapUint (i + 1)) n (p_tail p) pair
        end
      else
        let* p := deref pair in
        ret (p_head p)
  end.

Definition At (fuel : nat) (thunk : ptr) (n : Z) : M I :=
  atLoop fuel 0 n thunk None.

(** [func (thunk *Thunk) Reduce(f func(I, I) I, initial I) I] *)
Definition Reduce (fuel : nat) (thunk : ptr) (f : reduceFunc1) (initial : I) : M I :=
  ReduceN fuel (reduceAdaptor f) initial [thunk].

(** [func (thunk *Thunk) Max() I] and [Min() I]: the argument
    [thunk.Head()] is evaluated before [Reduce] runs. *)
Definition Max (fuel : nat) (thunk : ptr) : M I :=
  let* h := Head fuel thunk in
  Reduce fuel thunk maxFunc h.

Definition Min (fuel : nat) (thunk : ptr) : M I :=
  let* h := Head fuel thunk in
  Reduce fuel thunk minFunc h.

(** [func (thunk *Thunk) Any(f)] and [All(f)] *)
Fixpoint Any (fuel : nat) (thunk : ptr) (f : I → panic + bool) : M bool :=
  match fuel with
  | O => timeout
  | S fuel =>
      let* pair := force fuel thunk VNil in
      match pair with
      | Some _ =>
          let* p := deref pair in
          let* b := lift (f (p_head p)) in
          if b : bool then ret true else Any fuel (p_tail p) f
      | None => ret false
      end
  end.

Fixpoint All (fuel : nat) (thunk : ptr) (f : I → panic + bool) : M bool :=
  match fuel with
  | O => timeout
  | S fuel =>
      let* pair := force fuel thunk VNil in
      match pair with
      | Some _ =>
          let* p := deref pair in
          let* b := lift (f (p_head p)) in
          if b : bool then All fuel (p_tail p) f else ret false
      | None => ret true
      end
  end.

(** [func (thunk *Thunk) Last() I] *)
Definition Last (fuel : nat) (thunk : ptr) : M I :=
  let* r := Reverse thunk in
  let* t := Take r 1 in
  let* pair := force fuel t VNil in
  let* p := deref pair in
  ret (p_head p).

(** ** Programs of the test suite *)

Definition ints (zs : list Z) : list I := VInt int <$> zs.

(** [integersFromN(n)] of [TestProg] *)
Definition integersFromN (n : Z) : M ptr :=
  DelayedLink (VInt int n) (integersFromN_tail n).

(** The construction of [fibo] in [TestFibo]: the inner [DelayedLink] and
    the outer [Link] are evaluated, then the variable is assigned. *)
Definition makeFibo : M ptr :=
  let* t := DelayedLink (VInt int 1) fibo_tail in
  let* f := Link (VInt int 1) t in
  assignFibo f;;
  ret f.

(** A list whose deferred computation forces the list itself, once:
    [fibo = DelayedLink(1, func() *Thunk { if t := fibo; t != nil
    { fibo = nil; t.Head() }; return Empty })]. *)
Definition makeReentrant : M ptr :=
  let* t := DelayedLink (VInt int 1) reentrant_tail in
  assignFibo t;;
  ret t.


(** ** Auxiliary definitions for the statements *)

(** [k] successive calls [force(thunk, ctx)], collecting what each returns. *)
Fixpoint forceTimes (k : nat) (fuel : nat) (thunk : ptr) (ctx : I) : M (list pptr) :=
  match k with
  | O => ret []
  | S k =>
      let* p := force fuel thunk ctx in
      let* ps := forceTimes k fuel thunk ctx in
      ret (p :: ps)
  end.

(** How many times [force] has invoked the closure of the Thunk [id]. *)
Definition invocations (id : N) (s : state) : nat :=
  length (filter (λ j, j = id) (calls s)).

(** C1 as the specification words it: under memoization, a force of a Thunk
    that is not in the table invokes its closure exactly once. *)
Definition invoked_exactly_once : Prop :=
  ∀ fuel id ctx s p s1,
    memo s = true → memoTable s !! id = None →
    force fuel (Some id) ctx s = Ok p s1 →
    invocations id s1 = S (invocations id s).

(** The state in which a run ended ([init] when it did not return). *)
Definition state_of {A} (r : result A) : state :=
  match r with Ok _ s => s | _ => init end.

(** What a run did: its value, its panic, or nothing when the fuel ran
    out. *)
Definition outcome {A} (r : result A) : option (panic + A) :=
  match r with
  | Ok a _ => Some (inr a)
  | Panic e => Some (inl e)
  | OutOfFuel => None
  end.

(** [preserves R m]: whenever [m] returns, the final state is [R]-related to
    the initial one. *)
Definition preserves (R : state → state → Prop) {A} (m : M A) : Prop :=
  ∀ s a s', m s = Ok a s' → R s s'.

(** [refines m m']: whenever [m] ends without running out of fuel, [m'] ends
    in the same way. *)
Definition refines {A} (m m' : M A) : Prop :=
  ∀ s, m s ≠ OutOfFuel → m' s = m s.


(** ** Programs of the claims *)

(** [fibo.Take(5).ToSlice()] after the construction of [fibo]. *)
Definition fiboTake5 (fuel : nat) : M (list I) :=
  let* f := makeFibo in
  let* t := Take f 5 in
  ToSlice fuel t.

(** [TestFibo]: [l := L(1, 1, 2, 3, 5); l.Equals(fibo.Take(5))] *)
Definition TestFibo (fuel : nat) : M bool :=
  let* f := makeFibo in
  let* l := L (ints [1; 1; 2; 3; 5]) in
  let* t := Take f 5 in
  Equals fuel l t.

(** [L(xs...).Equals(L(ys...))] *)
Definition equalsOf (xs ys : list I) (fuel : nat) : M bool :=
  let* a := L xs in
  let* b := L ys in
  Equals fuel a b.

(** [L(xs...).Max()] and [L(xs...).Min()] *)
Definition maxOf (xs : list I) (fuel : nat) : M I :=
  let* a := L xs in
  Max fuel a.

Definition minOf (xs : list I) (fuel : nat) : M I :=
  let* a := L xs in
  Min fuel a.

(** [ZipN(List(1,2,3), List(4,5)).ToSlice()] *)
Definition zipExample (fuel : nat) : M (list I) :=
  let* a := List (ints [1; 2; 3]) in
  let* b := List (ints [4; 5]) in
  let* z := ZipN [a; b] in
  ToSlice fuel z.

(** [TestReduceN]: [ReduceN(totalSum, 0, L(7, 8, 9), L(4, 5, 6), prog)] with
    [prog = integersFromN(1)], the infinite stream 1, 2, 3, ... *)
Definition TestReduceN (fuel : nat) : M I :=
  let* prog := integersFromN 1 in
  let* a := L (ints [7; 8; 9]) in
  let* b := L (ints [4; 5; 6]) in
  ReduceN fuel (userReduceN totalSum) (VInt int 0) [a; b; prog].

(** The same with the stream cut to its first three elements,
    [prog.Take(3)]. *)
Definition reduceNTake3 (fuel : nat) : M I :=
  let* prog := integersFromN 1 in
  let* a := L (ints [7; 8; 9]) in
  let* b := L (ints [4; 5; 6]) in
  let* c := Take prog 3 in
  ReduceN fuel (userReduceN totalSum) (VInt int 0) [a; b; c].

(** [force(L(L(), L(1)).Flatten(), nil)] *)
Definition flattenEmptyFirst (fuel : nat) : M pptr :=
  let* a := L [] in
  let* b := L (ints [1]) in
  let* l := L [VThunk a; VThunk b] in
  let* f := Flatten l in
  force fuel f VNil.

(** [L(L(1, 2), L(3, 4)).Flatten().ToSlice()], the documented use. *)
Definition flattenDoc (fuel : nat) : M (list I) :=
  let* a := L (ints [1; 2]) in
  let* b := L (ints [3; 4]) in
  let* l := L [VThunk a; VThunk b] in
  let* f := Flatten l in
  ToSlice fuel f.

(** ** Finite lists in the heap *)

(** [cell s t x tl]: forcing [t] in [s] gives a Pair with head [x] and tail
    [tl] and runs no closure but that of [Link]: [t] is in the table with
    such a Pair, or it is not and it was built by [Link(x, tl)].  With
    memoization off only the second reading counts. *)
Definition cell (s : state) (t : ptr) (x : I) (tl : ptr) : Prop :=
  ∃ id, t = Some id ∧
    if memo s then
      (∃ a, memoTable s !! id = Some (Some a) ∧ pairs s !! a = Some (mkPair x tl)) ∨
      (memoTable s !! id = None ∧ thunks s !! id = Some (linkFunc x tl))
    else thunks s !! id = Some (linkFunc x tl).

(** [ends s t]: forcing [t] in [s] gives no Pair: [t] is nil, or in the
    table as ended, or not in the table and [Empty]'s closure. *)
Definition ends (s : state) (t : ptr) : Prop :=
  match t with
  | None => True
  | Some id =>
      if memo s then
        memoTable s !! id = Some None ∨
        (memoTable s !! id = None ∧ thunks s !! id = Some emptyFunc)
      else thunks s !! id = Some emptyFunc
  end.

(** [is_list s t xs]: the list that starts at [t] is finite and its elements
    are [xs]. *)
Fixpoint is_list (s : state) (t : ptr) (xs : list I) : Prop :=
  match xs with
  | [] => ends s t
  | x :: rest => ∃ tl, cell s t x tl ∧ is_list s tl rest
  end.

(** Identifiers above the counter are unused. *)
Definition fresh_above (s : state) : Prop :=
  ∀ i, (thunkId s < i)%N → thunks s !! i = None ∧ memoTable s !! i = None.

(** [room s k]: [k] more Thunks can be allocated before [thunkId] wraps. *)
Definition room (s : state) (k : nat) : Prop :=
  (thunkId s + N.of_nat k < 2 ^ 64)%N.

(** [fills s s']: between [s] and [s'] only Thunks of [Link] and [Empty] were
    forced: Pairs were allocated and the table received entries for such
    Thunks, each with the Pair its closure describes. *)
Definition fills (s s' : state) : Prop :=
  memo s' = memo s ∧ thunkId s' = thunkId s ∧ thunks s' = thunks s ∧
  fibo s' = fibo s ∧
  (∃ more, pairs s' = pairs s ++ more) ∧
  ∀ i, memoTable s' !! i = memoTable s !! i ∨
       (memoTable s !! i = None ∧
        ((∃ x tl a, thunks s !! i = Some (linkFunc x tl) ∧
                    memoTable s' !! i = Some (Some a) ∧
                    pairs s' !! a = Some (mkPair x tl)) ∨
         (thunks s !! i = Some emptyFunc ∧ memoTable s' !! i = Some None))).

(** [keeps s s']: every list of [s] is the same list in [s']. *)
Definition keeps (s s' : state) : Prop :=
  memo s' = memo s ∧
  (∀ t x tl, cell s t x tl → cell s' t x tl) ∧
  (∀ t, ends s t → ends s' t).

(** The Thunk [id] has not been forced under memoization. *)
Definition uncached (s : state) (id : N) : Prop :=
  memo s = true → memoTable s !! id = None.

(** ** Lists in lockstep *)

(** The heads and the tails of some lists, when none is empty. *)
Fixpoint unconsAll (xss : list (list I)) : option (list I * list (list I)) :=
  match xss with
  | [] => Some ([], [])
  | [] :: _ => None
  | (x :: xs) :: rest =>
      match unconsAll rest with
      | Some (hs, ts) => Some (x :: hs, xs :: ts)
      | None => None
      end
  end.

(** [rows n xss]: the first [n] tuples of [k]-th elements, stopping at the
    first list that is exhausted. *)
Fixpoint rows (n : nat) (xss : list (list I)) : list (list I) :=
  match n with
  | O => []
  | S n =>
      match unconsAll xss with
      | Some (hs, ts) => hs :: rows n ts
      | None => []
      end
  end.

(** The length of the shortest of some lists ([xs] and the others). *)
Definition minLength (xs : list I) (xss : list (list I)) : nat :=
  foldr (λ ys m, length ys `min` m)%nat (length xs) xss.

(** The tuples of [xs :: xss] in lockstep. *)
Definition lockstep (xs : list I) (xss : list (list I)) : list (list I) :=
  rows (length xs) (xs :: xss).

(** A left fold and a map with a function that may panic. *)
Fixpoint foldRows (f : I → list I → panic + I) (acc : I) (rs : list (list I))
  : panic + I :=
  match rs with
  | [] => inr acc
  | r :: rest =>
      match f acc r with
      | inr acc' => foldRows f acc' rest
      | inl e => inl e
      end
  end.

Fixpoint mapRows (f : list I → panic + I) (rs : list (list I)) : panic + list I :=
  match rs with
  | [] => inr []
  | r :: rest =>
      match f r with
      | inr y =>
          match mapRows f rest with
          | inr ys => inr (y :: ys)
          | inl e => inl e
          end
      | inl e => inl e
      end
  end.

(** What a run that may panic should give. *)
Definition gives {A} (r : result A) (v : panic + A) : Prop :=
  outcome r = Some v.

(** [idle s i]: the identifier [i] is part of no list of [s]: it is not in
    the table (under memoization) and holds neither [Link]'s nor [Empty]'s
    closure.  Unused identifiers and Thunks of [Take], [Append], ... that
    have not been forced are idle. *)
Definition idle (s : state) (i : N) : Prop :=
  uncached s i ∧ (∀ x tl, thunks s !! i ≠ Some (linkFunc x tl)) ∧
  thunks s !! i ≠ Some emptyFunc.

(** The state after [force] has run the closure of an uncached Thunk [id]
    from [s] and got [r] in [s1]. *)
Definition cached (s : state) (id : N) (r : pptr) (s1 : state) : state :=
  if memo s then set_memoTable (<[id := r]> (memoTable s1)) s1 else s1.

(** The state in which that closure starts. *)
Definition logged (id : N) (s : state) : state :=
  set_calls (calls s ++ [id]) s.

(** One turn of the loop of [Length]: force the current Thunk, then go on
    with what it gave. *)
Definition lengthFrom (fuel : nat) (thunk : ptr) (ret_ : Z) : M Z :=
  let* pair := force fuel thunk VNil in
  lengthLoop fuel pair ret_.


(** The states after [&Thunk{nextId(), f}] (when the counter does not wrap)
    and after [&Pair{...}]. *)
Definition alloc (f : thunkFunc) (s : state) : state :=
  set_thunks (<[(thunkId s + 1)%N := f]> (thunks s)) (set_thunkId (thunkId s + 1)%N s).

Definition push (p : Pair) (s : state) : state :=
  set_pairs (pairs s ++ [p]) s.

(** [touches X s s']: from [s] to [s'] every list is kept, Pairs stay where
    they are, unused identifiers stay unused, and of the allocated idle
    Thunks only those in [X] may have been forced or assigned to. *)
Definition touches (X : N → Prop) (s s' : state) : Prop :=
  memo s' = memo s ∧ (thunkId s ≤ thunkId s')%N ∧
  (fresh_above s → fresh_above s') ∧
  (∀ a p, pairs s !! a = Some p → pairs s' !! a = Some p) ∧
  keeps s s' ∧
  (∀ j, ¬ X j → (j ≤ thunkId s)%N → idle s j →
        thunks s' !! j = thunks s !! j ∧ idle s' j).

Definition nothing : N → Prop := λ _, False.
Definition only (id : N) : N → Prop := λ j, j = id.

(** The function a [mapFunc] computes when it does not allocate: the
    caller's function, or for [Map] the caller's function applied to
    [xs[0]]. *)
Definition pureMap (f : mapFunc) : option (list I → panic + I) :=
  match f with
  | userMapN g => Some g
  | mapAdaptor g =>
      Some (λ xs, match xs with [] => inl IndexOutOfRange | x :: _ => g x end)
  | zipAdaptor => None
  end.

(** [plain x]: [x] is not a list and [x == x] holds: a boolean, an integer,
    a string, nil, or a float that is not NaN. *)
Definition plain (x : I) : Prop :=
  match x with
  | VThunk _ => False
  | _ => ifaceEq x x = inr true
  end.

(** What a list may hold for [Equals] to find it equal to itself: a plain
    value, or a Thunk [h] that is itself a finite list of such elements. *)
Inductive elem :=
| Plain (x : I)
| Sub (h : ptr) (sub : list elem).

(** The value in the Pair. *)
Definition val (e : elem) : I :=
  match e with
  | Plain x => x
  | Sub h _ => VThunk h
  end.

(** The Pairs and ends [Equals] walks through below an element. *)
Fixpoint size (e : elem) : nat :=
  match e with
  | Plain _ => 0
  | Sub _ sub => S (length sub + sum_list (size <$> sub))
  end.

Definition sizes (es : list elem) : nat := sum_list (size <$> es).

(** [represents s e]: in [s] the element is what [e] describes. *)
Fixpoint represents (s : state) (e : elem) : Prop :=
  match e with
  | Plain x => plain x
  | Sub h sub =>
      is_list s h (val <$> sub) ∧ foldr (λ e P, represents s e ∧ P) True sub
  end.

(** [L.Take(n).Append(L.Drop(n)).Equals(L)] *)
Definition takeDropEquals (fuel : nat) (thunk : ptr) (n : Z) : M bool :=
  let* a := Take thunk n in
  let* d := Drop thunk n in
  let* p := Append a d in
  Equals fuel p thunk.

(** [L(1, L(2, 3), 4)] *)
Definition nestedExample : M ptr :=
  let* inner := L (ints [2; 3]) in
  L [VInt int 1; VThunk inner; VInt int 4].

(** C8 as the specification words it, for every finite list whatever its
    elements: [L.Take(n).Append(L.Drop(n)).Equals(L)] returns [true]. *)
Definition partition_law_for_all_lists : Prop :=
  ∀ s t xs (n : nat) fuel,
    fresh_above s → room s (3 * length xs + 4) → ends s Empty →
    is_list s t xs → Z.of_nat n < 2 ^ 64 →
    (3 * length xs + 10 ≤ fuel)%nat →
    ∃ s', takeDropEquals fuel t (Z.of_nat n) s = Ok true s'.

(** ** What the eager operations compute on the elements *)

(** [Any(f)] and [All(f)] stop at the first element that decides; a panic of
    [f] before that element is the outcome. *)
Fixpoint anyOf (f : I → panic + bool) (xs : list I) : panic + bool :=
  match xs with
  | [] => inr false
  | x :: rest =>
      match f x with
      | inl e => inl e
      | inr true => inr true
      | inr false => anyOf f rest
      end
  end.

Fixpoint allOf (f : I → panic + bool) (xs : list I) : panic + bool :=
  match xs with
  | [] => inr true
  | x :: rest =>
      match f x with
      | inl e => inl e
      | inr true => allOf f rest
      | inr false => inr false
      end
  end.

(** A run with its final state forgotten. *)
Definition answer {A} (r : result A) (v : panic + A) : Prop :=
  match r, v with
  | Ok a _, inr b => a = b
  | Panic e, inl e' => e = e'
  | _, _ => False
  end.

(** What [ToSlice] reads from [TakeWhile(f)], [DropWhile(f)] and [Filter(f)]
    of a list with the elements [xs]: [f] is asked about the elements in
    order and its first panic is the outcome. *)
Fixpoint takeWhileOf (f : I → panic + bool) (xs : list I) : panic + list I :=
  match xs with
  | [] => inr []
  | x :: rest =>
      match f x with
      | inl e => inl e
      | inr true =>
          match takeWhileOf f rest with
          | inl e => inl e
          | inr ys => inr (x :: ys)
          end
      | inr false => inr []
      end
  end.

Fixpoint dropWhileOf (f : I → panic + bool) (xs : list I) : panic + list I :=
  match xs with
  | [] => inr []
  | x :: rest =>
      match f x with
      | inl e => inl e
      | inr true => dropWhileOf f rest
      | inr false => inr (x :: rest)
      end
  end.

Fixpoint filterOf (f : I → panic + bool) (xs : list I) : panic + list I :=
  match xs with
  | [] => inr []
  | x :: rest =>
      match f x with
      | inl e => inl e
      | inr b =>
          match filterOf f rest with
          | inl e => inl e
          | inr ys => inr (if b then x :: ys else ys)
          end
      end
  end.

(** The first element [f] accepts and the elements after it. *)
Fixpoint filterHead (f : I → panic + bool) (xs : list I)
  : panic + option (I * list I) :=
  match xs with
  | [] => inr None
  | x :: rest =>
      match f x with
      | inl e => inl e
      | inr true => inr (Some (x, rest))
      | inr false => filterHead f rest
      end
  end.

(** [f] applied [n] times from [x], stopping at the first panic. *)
Fixpoint iterOf (f : I → panic + I) (n : nat) (x : I) : panic + I :=
  match n with
  | O => inr x
  | S n =>
      match f x with
      | inl e => inl e
      | inr y => iterOf f n y
      end
  end.

(** [leads s t xs u]: the list at [t] begins with cells holding [xs]; what
    follows them starts at [u], forced or not, finite or not. *)
Fixpoint leads (s : state) (t : ptr) (xs : list I) (u : ptr) : Prop :=
  match xs with
  | [] => t = u
  | x :: rest => ∃ tl, cell s t x tl ∧ leads s tl rest u
  end.

(** What a run may do to the state when memoization is off (see
    [StopMemo]): the flag stays off and the table is not written. *)
Definition table_untouched (s s' : state) : Prop :=
  memo s = false → memo s' = false ∧ memoTable s' = memoTable s.


(** [f] applied to each element in order, stopping at the first panic. *)
Fixpoint mapOf (f : I → panic + I) (xs : list I) : panic + list I :=
  match xs with
  | [] => inr []
  | x :: rest =>
      match f x with
      | inl e => inl e
      | inr y =>
          match mapOf f rest with
          | inl e => inl e
          | inr ys => inr (y :: ys)
          end
      end
  end.

(** ** Lists under construction

    What [Flatten] and [Append] leave to be forced.  [Flatten] gives the head
    of the first sub-list and [pair2.tail.Append(pair.tail.Flatten())]: a
    Thunk of [Append] over the rest of the sub-list and a Thunk of [Flatten]
    that nothing has forced yet; [Append] past its first list gives
    [pair.tail.Append(Empty)] over what its second list left.  A [pending]
    list describes such a tree of Thunks. *)
Inductive pending :=
| Forced (u : ptr) (xs : list I)
| Flattening (id : N) (t : ptr) (hs : list ptr) (yss : list (list I))
| Appending (id : N) (l r : pending).

(** The Thunk a [pending] list starts at. *)
Definition start (w : pending) : ptr :=
  match w with
  | Forced u _ => u
  | Flattening id _ _ _ => Some id
  | Appending id _ _ => Some id
  end.

(** Its Thunks of [Flatten] and [Append]. *)
Fixpoint ids (w : pending) : list N :=
  match w with
  | Forced _ _ => []
  | Flattening id _ _ _ => [id]
  | Appending id l r => id :: ids l ++ ids r
  end.

(** [built s w]: in [s] the Thunks of [w] hold the closures [w] describes and
    none has been forced; the lists they close over are finite lists, the
    elements of the list a [Flatten] closes over being the lists [hs]. *)
Fixpoint built (s : state) (w : pending) : Prop :=
  match w with
  | Forced u xs => is_list s u xs
  | Flattening id t hs yss =>
      thunks s !! id = Some (flattenFunc t) ∧ idle s id ∧
      is_list s t (VThunk <$> hs) ∧ Forall2 (is_list s) hs yss
  | Appending id l r =>
      thunks s !! id = Some (appendFunc (start l) (start r)) ∧ idle s id ∧
      built s l ∧ built s r
  end.

(** What [Flatten] delivers from sub-lists [yss]: the elements of the
    sub-lists up to the first empty one, and whether the list then ends
    ([true]) or reads the head of a nil Pair ([false]). *)
Fixpoint flatOf (yss : list (list I)) : list I * bool :=
  match yss with
  | [] => ([], true)
  | [] :: _ => ([], false)
  | (y :: ys) :: rest =>
      match flatOf rest with
      | (zs, ok) => (y :: ys ++ zs, ok)
      end
  end.

(** What a [pending] list delivers. *)
Fixpoint elements (w : pending) : list I * bool :=
  match w with
  | Forced _ xs => (xs, true)
  | Flattening _ _ _ yss => flatOf yss
  | Appending _ l r =>
      match elements l with
      | (xs, true) =>
          match elements r with
          | (ys, ok) => (xs ++ ys, ok)
          end
      | (xs, false) => (xs, false)
      end
  end.

(** The sub-lists not yet reached, the fuel one [force] takes and the Thunks
    it allocates at most. *)
Fixpoint outer (w : pending) : nat :=
  match w with
  | Forced _ _ => 0
  | Flattening _ _ hs _ => length hs
  | Appending _ l r => outer l + outer r
  end.

Fixpoint need (w : pending) : nat :=
  match w with
  | Forced _ _ => 2
  | Flattening _ _ _ _ => 4
  | Appending _ l r => 2 + need l `max` need r
  end.

Fixpoint cost (w : pending) : nat :=
  match w with
  | Forced _ _ => 0
  | Flattening _ _ _ _ => 2
  | Appending _ l r => 1 + cost l + cost r
  end.

(** [advances s s' w w']: forcing [w] from [s] gave a Pair and left [w'] to
    be forced in [s']. *)
Definition advances (s s' : state) (w w' : pending) : Prop :=
  built s' w' ∧ NoDup (ids w') ∧
  (∀ j, j ∈ ids w' → j ∈ ids w ∨ (thunkId s < j)%N) ∧
  (thunkId s' ≤ thunkId s + N.of_nat (cost w))%N ∧
  (outer w' ≤ outer w)%nat ∧
  (need w' + 2 * outer w' ≤ need w + 2 * outer w)%nat ∧
  (cost w' + outer w' ≤ cost w + outer w)%nat.

(** [L(L(1, 2), L(3), L(4, 5))] and [L(L(1), L(), L(2))] *)
Definition listsExample : M ptr :=
  let* a := L (ints [1; 2]) in
  let* b := L (ints [3]) in
  let* c := L (ints [4; 5]) in
  L [VThunk a; VThunk b; VThunk c].

Definition listsWithEmpty : M ptr :=
  let* a := L (ints [1]) in
  let* b := L [] in
  let* c := L (ints [2]) in
  L [VThunk a; VThunk b; VThunk c].

(** The tuples a testing function accepts, in order, stopping at its first
    panic; and the first accepted tuple with the tuples after it. *)
Fixpoint filterRows (f : list I → panic + bool) (rs : list (list I))
  : panic + list (list I) :=
  match rs with
  | [] => inr []
  | r :: rest =>
      match f r with
      | inl e => inl e
      | inr b =>
          match filterRows f rest with
          | inl e => inl e
          | inr ys => inr (if b then r :: ys else ys)
          end
      end
  end.

Fixpoint filterRowsHead (f : list I → panic + bool) (rs : list (list I))
  : panic + option (list I * list (list I)) :=
  match rs with
  | [] => inr None
  | r :: rest =>
      match f r with
      | inl e => inl e
      | inr true => inr (Some (r, rest))
      | inr false => filterRowsHead f rest
      end
  end.

(** ** Lists of [Link] and the memoization controls *)

Inductive memoControl := Start | Stop | Reset.

Definition control (c : memoControl) : M unit :=
  match c with
  | Start => StartMemo
  | Stop => StopMemo
  | Reset => ResetMemo
  end.

Fixpoint controls (cs : list memoControl) : M unit :=
  match cs with
  | [] => ret tt
  | c :: rest => control c;; controls rest
  end.

(** The table has nothing for [id], or what its closure gives: no Pair
    ([p = None]) or a Pair equal to [p]. *)
Definition consistent (s : state) (id : N) (p : option Pair) : Prop :=
  memoTable s !! id = None ∨
  match p with
  | None => memoTable s !! id = Some None
  | Some p => ∃ a, memoTable s !! id = Some (Some a) ∧ pairs s !! a = Some p
  end.

(** [stored s t xs]: the list at [t] is made of Thunks of [Link] holding
    [xs] and ends with nil or a Thunk like [Empty], and the table agrees with
    their closures where it has an entry. *)
Fixpoint stored (s : state) (t : ptr) (xs : list I) : Prop :=
  match xs with
  | [] =>
      match t with
      | None => True
      | Some id => thunks s !! id = Some emptyFunc ∧ consistent s id None
      end
  | x :: rest =>
      ∃ id tl, t = Some id ∧ thunks s !! id = Some (linkFunc x tl) ∧
               consistent s id (Some (mkPair x tl)) ∧ stored s tl rest
  end.
(** * Properties *)

(** ** Facts that every operation preserves

    [preserves R m]: whenever [m] returns, the final state is [R]-related to
    the initial one.  The section shows that a reflexive and transitive [R]
    that the ways of writing to the state respect is preserved by the whole
    evaluator.  The table is written by [force] only, for a Thunk that was
    not in it when the force began. *)

Lemma bind_Ok {A B} (m : M A) (k : A → M B) s b s' :
  bind m k s = Ok b s' → ∃ a s1, m s = Ok a s1 ∧ k a s1 = Ok b s'.
Proof.
  unfold bind. destruct (m s) as [a s1| |]; try discriminate. eauto.
Qed.

Section Preservation.
Variable R : state → state → Prop.
Hypothesis R_refl : ∀ s, R s s.
Hypothesis R_trans : ∀ s1 s2 s3, R s1 s2 → R s2 s3 → R s1 s3.
Hypothesis R_thunkId : ∀ s, R s (set_thunkId ((thunkId s + 1) mod 2 ^ 64)%N s).
Hypothesis R_thunks : ∀ s i f, R s (set_thunks (<[i := f]> (thunks s)) s).
Hypothesis R_pairs : ∀ s p, R s (set_pairs (pairs s ++ [p]) s).
Hypothesis R_memoize : ∀ s0 s i v,
  memoTable s0 !! i = None → R s0 s →
  R s0 (set_memoTable (<[i := v]> (memoTable s)) s).
Hypothesis R_calls : ∀ s i, R s (set_calls (calls s ++ [i]) s).
Hypothesis R_fibo : ∀ s t, R s (set_fibo t s).

Lemma preserves_ret {A} (a : A) : preserves R (ret a).
Proof. intros s b s' [= _ <-]. apply R_refl. Qed.

Lemma preserves_throw {A} e : preserves R (@throw A e).
Proof. intros s b s' [=]. Qed.

Lemma preserves_timeout {A} : preserves R (@timeout A).
Proof. intros s b s' [=]. Qed.

Lemma preserves_lift {A} (r : panic + A) : preserves R (lift r).
Proof. destruct r; [apply preserves_throw | apply preserves_ret]. Qed.

Lemma preserves_bind {A B} (m : M A) (k : A → M B) :
  preserves R m → (∀ a, preserves R (k a)) → preserves R (bind m k).
Proof.
  intros Hm Hk s b s' (a & s1 & H1 & H2)%bind_Ok.
  eapply R_trans; [eapply Hm | eapply Hk]; eauto.
Qed.

Lemma preserves_nextId : preserves R nextId.
Proof. intros s a s' [= _ <-]. apply R_thunkId. Qed.

Lemma preserves_newThunk f : preserves R (newThunk f).
Proof.
  apply preserves_bind; [apply preserves_nextId |].
  intros i s a s' [= _ <-]. apply R_thunks.
Qed.

Lemma preserves_newPair h t : preserves R (newPair h t).
Proof. intros s a s' [= _ <-]. apply R_pairs. Qed.

Lemma preserves_deref p : preserves R (deref p).
Proof.
  intros s a s'. unfold deref. destruct p as [n|]; [|discriminate].
  destruct (pairs s !! n); intros [=]; subst. apply R_refl.
Qed.

Lemma preserves_getFunc i : preserves R (getFunc i).
Proof.
  intros s a s'. unfold getFunc.
  destruct (thunks s !! i); intros [=]; subst. apply R_refl.
Qed.

Lemma preserves_setFunc i f : preserves R (setFunc i f).
Proof. intros s a s' [= _ <-]. apply R_thunks. Qed.

Lemma preserves_assignFibo t : preserves R (assignFibo t).
Proof. intros s a s' [= _ <-]. apply R_fibo. Qed.

Lemma preserves_recordCall i : preserves R (recordCall i).
Proof. intros s a s' [= _ <-]. apply R_calls. Qed.

Lemma preserves_readFibo : preserves R (λ s, Ok (fibo s) s).
Proof. intros s a s' [= _ <-]. apply R_refl. Qed.

Lemma preserves_index0 xs : preserves R (index0 xs).
Proof. destruct xs; [apply preserves_throw | apply preserves_ret]. Qed.

Lemma preserves_assertThunk x : preserves R (assertThunk x).
Proof. destruct x; first [apply preserves_throw | apply preserves_ret]. Qed.

Lemma preserves_List items : preserves R (List items).
Proof.
  induction items as [|x rest IH]; simpl; [apply preserves_ret |].
  apply preserves_bind; [exact IH | intros t; apply preserves_newThunk].
Qed.

Lemma preserves_linkDown ritems t : preserves R (linkDown ritems t).
Proof.
  revert t; induction ritems as [|x rest IH]; intros t; simpl;
    [apply preserves_ret |].
  apply preserves_bind; [apply preserves_newThunk | intros u; apply IH].
Qed.

Lemma preserves_SliceToList x : preserves R (SliceToList x).
Proof. destruct x; simpl; first [apply preserves_ret | apply preserves_linkDown]. Qed.

(** One step of goal-directed decomposition of a monadic term. *)
Ltac pres_step :=
  first
    [ apply preserves_ret | apply preserves_throw | apply preserves_timeout
    | apply preserves_lift | apply preserves_nextId | apply preserves_newThunk
    | apply preserves_newPair | apply preserves_deref | apply preserves_getFunc
    | apply preserves_setFunc | apply preserves_assignFibo
    | apply preserves_recordCall | apply preserves_readFibo
    | apply preserves_index0 | apply preserves_assertThunk
    | apply preserves_List | apply preserves_linkDown
    | apply preserves_SliceToList
    | assumption
    | apply preserves_bind; [| intros ?]
    | match goal with
      | |- preserves _ (match ?x with _ => _ end) => destruct x
      end ].
Ltac pres := repeat pres_step.

Lemma preserves_maxStep acc x : preserves R (maxStep acc x).
Proof.
  unfold maxStep, reflectInt, reflectUint, reflectFloat. pres.
Qed.

Lemma preserves_minStep acc x : preserves R (minStep acc x).
Proof.
  unfold minStep, reflectInt, reflectUint, reflectFloat. pres.
Qed.

Lemma preserves_applyMap f xs : preserves R (applyMap f xs).
Proof. unfold applyMap. pres. Qed.

Lemma preserves_applyReduce f acc xs : preserves R (applyReduce f acc xs).
Proof.
  unfold applyReduce, applyReduce1, Link. pres;
    first [apply preserves_maxStep | apply preserves_minStep].
Qed.

Lemma preserves_forceEach frc thunks :
  (∀ t, preserves R (frc t)) → preserves R (forceEach frc thunks).
Proof.
  intros Hfrc. induction thunks as [|t rest IH]; simpl; pres. apply Hfrc.
Qed.

Lemma preserves_eval fuel :
  (∀ t ctx, preserves R (force fuel t ctx)) ∧
  (∀ id ctx, preserves R (call fuel id ctx)) ∧
  (∀ id, preserves R (dropRet fuel id)) ∧
  (∀ id, preserves R (dropWhileRet fuel id)) ∧
  (∀ tl, preserves R (callTail fuel tl)) ∧
  (∀ f acc ts, preserves R (ReduceN fuel f acc ts)).
Proof.
  induction fuel as [|fuel (IHforce & IHcall & IHdrop & IHdropWhile & IHtail & IHreduce)].
  { repeat split; intros; apply preserves_timeout. }
  assert (Heach : ∀ ts, preserves R (forceEach (λ t, force fuel t VNil) ts)).
  { intros ts. apply preserves_forceEach. intros t. apply IHforce. }
  repeat split.
  - intros [id|] ctx; simpl; [|apply preserves_ret].
    intros s a s'. destruct (memo s).
    + destruct (memoTable s !! id) eqn:Hmiss.
      * intros [= _ <-]. apply R_refl.
      * intros H. apply bind_Ok in H as ([] & sa & [= <-] & H).
        apply bind_Ok in H as (r & sb & Hcall & H).
        apply bind_Ok in H as ([] & sc & [= <-] & [= _ <-]).
        apply R_memoize; [done|].
        eapply R_trans; [apply R_calls | exact (IHcall _ _ _ _ _ Hcall)].
    + revert s a s'. fold (preserves R (A:=pptr)). pres. apply IHcall.
  - intros id ctx. simpl.
    unfold Append, Take, MapN, FilterN, Filter, TakeWhile, Flatten, L.
    pres; first [apply IHforce | apply IHdrop | apply IHdropWhile
                | apply IHtail | apply IHreduce | apply Heach | apply preserves_applyMap].
  - intros id. simpl. pres; first [apply IHforce | apply IHdrop].
  - intros id. simpl. pres; first [apply IHforce | apply IHdropWhile].
  - intros tl. simpl. unfold DelayedLink, MapN. pres; apply IHforce.
  - intros f acc ts. simpl. pres;
      first [apply Heach | apply IHreduce | apply preserves_applyReduce].
Qed.

Lemma preserves_force fuel t ctx : preserves R (force fuel t ctx).
Proof. apply preserves_eval. Qed.
End Preservation.

(** Nothing the evaluator does changes the [memo] flag, and the ghost
    record of invocations only grows. *)
Lemma force_memo_flag fuel t ctx s a s' :
  force fuel t ctx s = Ok a s' → memo s' = memo s.
Proof.
  apply (preserves_force (λ s s', memo s' = memo s)); try done.
  intros s1 s2 s3 H1 H2. by rewrite H2.
Qed.

Lemma call_memo_flag fuel id ctx s a s' :
  call fuel id ctx s = Ok a s' → memo s' = memo s.
Proof.
  pose proof (preserves_eval (λ s s', memo s' = memo s)) as H.
  eapply H; try done.
  intros s1 s2 s3 H1 H2. by rewrite H2.
Qed.

Lemma call_calls_grow fuel id ctx s a s' :
  call fuel id ctx s = Ok a s' → ∃ tr, calls s' = calls s ++ tr.
Proof.
  pose proof (preserves_eval (λ s s', ∃ tr, calls s' = calls s ++ tr)) as H.
  eapply H; simpl.
  - intros s0. exists []. by rewrite app_nil_r.
  - intros s1 s2 s3 [tr1 H1] [tr2 H2]. exists (tr1 ++ tr2).
    by rewrite H2, H1, app_assoc.
  - intros s0. exists []. by rewrite app_nil_r.
  - intros s0 i f. exists []. by rewrite app_nil_r.
  - intros s0 q. exists []. by rewrite app_nil_r.
  - intros s0 s1 i v _ Htr. exact Htr.
  - intros s0 i. by exists [i].
  - intros s0 t. exists []. by rewrite app_nil_r.
Qed.

(** An entry of the table stays as it is: [force] writes the table only for
    a Thunk that was not in it when the force began. *)
Lemma force_keeps_table fuel t ctx s r s' id v :
  force fuel t ctx s = Ok r s' →
  memoTable s !! id = Some v → memoTable s' !! id = Some v.
Proof.
  intros Hforce. revert id v.
  pose proof (preserves_force
                (λ s s', ∀ id v, memoTable s !! id = Some v →
                                 memoTable s' !! id = Some v)) as H.
  eapply H; [..| exact Hforce]; try done.
  - intros s1 s2 s3 H1 H2 id v Hv. by apply H2, H1.
  - intros s0 s1 i w Hmiss Hkeep id v Hv. simpl.
    rewrite lookup_insert_ne; [by apply Hkeep | congruence].
Qed.

(** ** Memoization *)

(** What a force leaves in the table. *)
Lemma force_fills_table fuel id ctx s p s1 :
  memo s = true →
  force fuel (Some id) ctx s = Ok p s1 →
  memo s1 = true ∧ memoTable s1 !! id = Some p.
Proof.
  intros Hmemo Hforce. destruct fuel as [|fuel]; [discriminate|].
  simpl in Hforce. rewrite Hmemo in Hforce.
  destruct (memoTable s !! id) as [v|] eqn:Hv.
  - injection Hforce as <- <-. done.
  - apply bind_Ok in Hforce as ([] & sa & [= <-] & Hforce).
    apply bind_Ok in Hforce as (r & sb & Hcall & Hforce).
    apply bind_Ok in Hforce as ([] & sc & [= <-] & [= <- <-]).
    apply call_memo_flag in Hcall. simpl in *. split; [congruence|].
    apply lookup_insert_eq.
Qed.

Lemma force_hit fuel id ctx s p :
  memo s = true → memoTable s !! id = Some p →
  force (S fuel) (Some id) ctx s = Ok p s.
Proof. intros Hmemo Hv. simpl. by rewrite Hmemo, Hv. Qed.

Lemma forceTimes_hit k fuel id ctx s p :
  memo s = true → memoTable s !! id = Some p →
  forceTimes k (S fuel) (Some id) ctx s = Ok (replicate k p) s.
Proof.
  intros Hmemo Hv. induction k as [|k IH]; [done|].
  cbn [forceTimes replicate]. unfold bind at 1.
  rewrite (force_hit _ _ _ _ _ Hmemo Hv). unfold bind. by rewrite IH.
Qed.

(** C1, amended.  With memoization enabled, once a force of a Thunk has
    returned the Pair pointer [p], every later force of that Thunk, with any
    argument and any positive fuel, returns the very same pointer [p] and
    leaves the whole state as it was: no closure is invoked (the record
    [calls] is unchanged) and no Pair is allocated.  The same holds for any
    number [k] of later forces in a row, and after any other list has been
    forced in between.  When the Thunk was not in the table before the first
    force, that first force is the one that invoked the Thunk's closure: it
    appended the Thunk's id to [calls]. *)
Theorem force_memoized fuel id ctx s p s1 :
  memo s = true →
  force fuel (Some id) ctx s = Ok p s1 →
  (∀ fuel' ctx', force (S fuel') (Some id) ctx' s1 = Ok p s1) ∧
  (∀ k fuel' ctx',
     forceTimes k (S fuel') (Some id) ctx' s1 = Ok (replicate k p) s1) ∧
  (∀ fuel' t ctx' r s2,
     force fuel' t ctx' s1 = Ok r s2 →
     ∀ fuel'' ctx'', force (S fuel'') (Some id) ctx'' s2 = Ok p s2) ∧
  (memoTable s !! id = None → ∃ tr, calls s1 = calls s ++ id :: tr) ∧
  (is_Some (memoTable s !! id) → s1 = s).
Proof.
  intros Hmemo Hforce.
  destruct (force_fills_table _ _ _ _ _ _ Hmemo Hforce) as [Hmemo1 Hp].
  split; [|split; [|split; [|split]]].
  - intros fuel' ctx'. by apply force_hit.
  - intros k fuel' ctx'. by apply forceTimes_hit.
  - intros fuel' t ctx' r s2 Hother fuel'' ctx''. apply force_hit.
    + by rewrite (force_memo_flag _ _ _ _ _ _ Hother).
    + exact (force_keeps_table _ _ _ _ _ _ _ _ Hother Hp).
  - intros Hmiss. destruct fuel as [|fuel]; [discriminate|].
    simpl in Hforce. rewrite Hmemo, Hmiss in Hforce.
    apply bind_Ok in Hforce as ([] & sa & [= <-] & Hforce).
    apply bind_Ok in Hforce as (r & sb & Hcall & Hforce).
    apply bind_Ok in Hforce as ([] & sc & [= <-] & [= <- <-]).
    apply call_calls_grow in Hcall as [tr Htr]. simpl in *.
    exists tr. by rewrite Htr, <- app_assoc.
  - intros [v Hv]. destruct fuel as [|fuel]; [discriminate|].
    simpl in Hforce. rewrite Hmemo, Hv in Hforce. by injection Hforce as <- <-.
Qed.

(** A cons cell [Link(1, Empty)] forced twice. *)
Lemma force_memoized_witness :
  let s := state_of (Link (VInt int 1) Empty init) in
  ∃ p s1, force 3 (Some 2%N) VNil s = Ok p s1 ∧
          force 1 (Some 2%N) VNil s1 = Ok p s1 ∧
          calls s1 = [2%N].
Proof.
  intros s.
  destruct (force 3 (Some 2%N) VNil s) as [p s1| |] eqn:E;
    [|vm_compute in E; discriminate..].
  exists p, s1. split; [done|].
  destruct (force_memoized 3 2%N VNil s p s1 eq_refl E) as (H1 & _ & _ & H3 & _).
  split; [apply H1|].
  destruct (H3 eq_refl) as [tr Htr].
  vm_compute in E. injection E as <- <-. reflexivity.
Defined.

(** C1 as worded fails on the code.  The table is written when the closure
    has returned, so a closure that forces its own Thunk while it runs is
    invoked again: for the list of [makeReentrant], one call of [force]
    invokes the closure twice and allocates two Pairs, the second of which is
    the one that stays in the table. *)
Lemma invoked_exactly_once_counterexample :
  ¬ invoked_exactly_once ∧
  let run := (let* t := makeReentrant in force 6 t VNil) init in
  outcome run = Some (inr (Some 1%nat)) ∧
  calls (state_of run) = [2%N; 2%N] ∧
  length (pairs (state_of run)) = 2%nat ∧
  memoTable (state_of run) !! 2%N = Some (Some 1%nat).
Proof.
  split; [|by vm_compute].
  intros Honce.
  set (s := state_of (makeReentrant init)).
  destruct (force 6 (Some 2%N) VNil s) as [p s1| |] eqn:E;
    [|vm_compute in E; discriminate..].
  pose proof (Honce 6%nat 2%N VNil s p s1 eq_refl eq_refl E) as Hcount.
  vm_compute in E. injection E as <- <-. vm_compute in Hcount. discriminate Hcount.
Qed.

(** ** More fuel never changes an answer

    [refines m m']: whenever [m] ends without running out of fuel, [m'] ends
    in the same way. *)

Lemma refines_refl {A} (m : M A) : refines m m.
Proof. by intros s _. Qed.

Lemma refines_timeout {A} (m : M A) : refines timeout m.
Proof. by intros s []. Qed.

Lemma refines_bind {A B} (m m' : M A) (k k' : A → M B) :
  refines m m' → (∀ a, refines (k a) (k' a)) → refines (bind m k) (bind m' k').
Proof.
  intros Hm Hk s. unfold bind. intros H.
  rewrite Hm by (intros E; by rewrite E in H).
  destruct (m s) as [a s1| |]; try done. by apply Hk.
Qed.

Ltac refines_step :=
  first
    [ match goal with |- refines ?m ?m' => constr_eq m m'; apply refines_refl end
    | match goal with
      | |- refines timeout _ => apply refines_timeout
      | |- refines (bind _ _) (bind _ _) => apply refines_bind; [| intros ?]
      | H : context [refines] |- refines ?m _ =>
          lazymatch type of H with context [m] => apply H end
      end
    | match goal with
      | |- refines (match ?x with _ => _ end) (match ?x with _ => _ end) =>
          destruct x
      end ].
Ltac refines_auto := repeat refines_step.

Lemma refines_forceEach frc frc' thunks :
  (∀ t, refines (frc t) (frc' t)) →
  refines (forceEach frc thunks) (forceEach frc' thunks).
Proof.
  intros H. induction thunks as [|t rest IH]; simpl; refines_auto. apply H.
Qed.

Lemma refines_eval fuel :
  (∀ t ctx, refines (force fuel t ctx) (force (S fuel) t ctx)) ∧
  (∀ id ctx, refines (call fuel id ctx) (call (S fuel) id ctx)) ∧
  (∀ id, refines (dropRet fuel id) (dropRet (S fuel) id)) ∧
  (∀ id, refines (dropWhileRet fuel id) (dropWhileRet (S fuel) id)) ∧
  (∀ tl, refines (callTail fuel tl) (callTail (S fuel) tl)) ∧
  (∀ f acc ts, refines (ReduceN fuel f acc ts) (ReduceN (S fuel) f acc ts)).
Proof.
  induction fuel as [|fuel (IHforce & IHcall & IHdrop & IHdropWhile & IHtail & IHreduce)].
  { repeat split; intros; apply refines_timeout. }
  assert (Heach : ∀ ts, refines (forceEach (λ t, force fuel t VNil) ts)
                                (forceEach (λ t, force (S fuel) t VNil) ts)).
  { intros ts. apply refines_forceEach. intros t. apply IHforce. }
  repeat split.
  - intros [id|] ctx; [|apply refines_refl].
    intros s. cbn [force].
    destruct (memo s); [destruct (memoTable s !! id); [done|]|];
      revert s;
      match goal with |- ∀ s, ?m s ≠ _ → ?m' s = _ => change (refines m m') end;
      refines_auto; apply IHcall.
  - intros id ctx. cbn [call].
    refines_auto;
      first [apply IHforce | apply IHdrop | apply IHdropWhile
            | apply IHtail | apply IHreduce | apply Heach].
  - intros id. cbn [dropRet]. refines_auto; first [apply IHforce | apply IHdrop].
  - intros id. cbn [dropWhileRet]. refines_auto; first [apply IHforce | apply IHdropWhile].
  - intros tl. cbn [callTail]. refines_auto; apply IHforce.
  - intros f acc ts. cbn [ReduceN]. refines_auto; first [apply Heach | apply IHreduce].
Qed.

Lemma refines_force fuel t ctx : refines (force fuel t ctx) (force (S fuel) t ctx).
Proof. apply refines_eval. Qed.

Lemma refines_ReduceN fuel f acc ts :
  refines (ReduceN fuel f acc ts) (ReduceN (S fuel) f acc ts).
Proof. apply refines_eval. Qed.

Lemma refines_ToSlice fuel t : refines (ToSlice fuel t) (ToSlice (S fuel) t).
Proof.
  revert t. induction fuel as [|fuel IH]; intros t; [apply refines_timeout|].
  cbn [ToSlice]. refines_auto; first [apply refines_force | apply IH].
Qed.

Lemma refines_Equals fuel t u : refines (Equals fuel t u) (Equals (S fuel) t u).
Proof.
  revert t u. induction fuel as [|fuel IH]; intros t u; [apply refines_timeout|].
  cbn [Equals]. refines_auto; first [apply refines_force | apply IH].
Qed.

Lemma refines_lengthLoop fuel p r :
  refines (lengthLoop fuel p r) (lengthLoop (S fuel) p r).
Proof.
  revert p r. induction fuel as [|fuel IH]; intros p r; [apply refines_timeout|].
  cbn [lengthLoop]. refines_auto; first [apply refines_force | apply IH].
Qed.

Lemma refines_Length fuel t : refines (Length fuel t) (Length (S fuel) t).
Proof.
  unfold Length. refines_auto; first [apply refines_force | apply refines_lengthLoop].
Qed.

Lemma refines_atLoop fuel i n t p :
  refines (atLoop fuel i n t p) (atLoop (S fuel) i n t p).
Proof.
  revert i t p. induction fuel as [|fuel IH]; intros i t p; [apply refines_timeout|].
  cbn [atLoop]. refines_auto; first [apply refines_force | apply IH].
Qed.

Lemma refines_At fuel t n : refines (At fuel t n) (At (S fuel) t n).
Proof. apply refines_atLoop. Qed.

Lemma refines_Head fuel t : refines (Head fuel t) (Head (S fuel) t).
Proof. unfold Head. refines_auto. apply refines_force. Qed.

Lemma refines_Max fuel t : refines (Max fuel t) (Max (S fuel) t).
Proof.
  unfold Max, Reduce, Head. refines_auto; first [apply refines_force | apply refines_ReduceN].
Qed.

Lemma refines_Min fuel t : refines (Min fuel t) (Min (S fuel) t).
Proof.
  unfold Min, Reduce, Head. refines_auto; first [apply refines_force | apply refines_ReduceN].
Qed.

(** A run that ended with [n] units of fuel ends the same way with more. *)
Lemma enough_fuel {A} (F : nat → M A) (n n' : nat) s :
  (∀ k, refines (F k) (F (S k))) →
  (n ≤ n')%nat → F n s ≠ OutOfFuel → F n' s = F n s.
Proof.
  intros HF Hle Hn. induction Hle as [|n' Hle IH]; [done|].
  rewrite <- IH. apply HF. by rewrite IH.
Qed.

(** The same for a program that first builds its arguments. *)
Lemma enough_fuel_bind {A B} (m : M A) (F : nat → A → M B) (n n' : nat) s :
  (∀ k a, refines (F k a) (F (S k) a)) →
  (n ≤ n')%nat → bind m (F n) s ≠ OutOfFuel → bind m (F n') s = bind m (F n) s.
Proof.
  intros HF Hle. apply (enough_fuel (λ k, bind m (F k))); [|done].
  intros k. apply refines_bind; [apply refines_refl | apply HF].
Qed.

Lemma enough_fuel_outcome {A} (F : nat → M A) (n n' : nat) s v :
  (∀ k, refines (F k) (F (S k))) →
  (n ≤ n')%nat → outcome (F n s) = Some v → outcome (F n' s) = Some v.
Proof.
  intros HF Hle Hv. rewrite (enough_fuel F n n' s HF Hle); [done|].
  intros E. by rewrite E in Hv.
Qed.

(** ** The programs of the claims, run *)

(** A run of a closed program: compute it with [n] units of fuel, then carry
    the answer to any larger amount. *)
Ltac head_of t :=
  lazymatch t with
  | ?f _ => head_of f
  | _ => t
  end.

Ltac run_with n :=
  let fuel := fresh "fuel" in
  let Hle := fresh "Hle" in
  intros fuel Hle;
  match goal with
  | |- outcome (?F fuel init) = Some _ =>
      apply (enough_fuel_outcome F n fuel init);
      [ intros ?; let h := head_of F in unfold h; refines_auto;
        lazymatch goal with
        | |- refines (Equals _ _ _) _ => apply refines_Equals
        | |- refines (ToSlice _ _) _ => apply refines_ToSlice
        | |- refines (Max _ _) _ => apply refines_Max
        | |- refines (Min _ _) _ => apply refines_Min
        | |- refines (ReduceN _ _ _ _) _ => apply refines_ReduceN
        | |- refines (force _ _ _) _ => apply refines_force
        | |- refines (Length _ _) _ => apply refines_Length
        | |- refines (At _ _ _) _ => apply refines_At
        end
      | exact Hle
      | vm_compute; reflexivity ]
  end.

(** C2.  Building the self-referential [fibo] forces nothing: no closure has
    been invoked, no Pair exists and the table is empty when the variable is
    assigned.  Its first five elements are then 1, 1, 2, 3, 5, and [TestFibo]
    passes, with any fuel from 10 on. *)
Theorem fibo_first_five :
  (let s := state_of (makeFibo init) in
   outcome (makeFibo init) = Some (inr (Some 3%N)) ∧ fibo s = Some 3%N ∧
   calls s = [] ∧ pairs s = [] ∧ memoTable s = ∅ ∧
   thunks s !! 3%N = Some (linkFunc (VInt int 1) (Some 2%N)) ∧
   thunks s !! 2%N = Some (delayedLinkFunc (VInt int 1) fibo_tail)) ∧
  (∀ fuel, (10 ≤ fuel)%nat →
     outcome (fiboTake5 fuel init) = Some (inr (ints [1; 1; 2; 3; 5]))) ∧
  (∀ fuel, (10 ≤ fuel)%nat → outcome (TestFibo fuel init) = Some (inr true)).
Proof.
  split; [|split].
  - vm_compute. repeat split.
  - run_with 10%nat.
  - run_with 10%nat.
Qed.

(** C3 fails on the code.  [L(1, 2).Equals(L(1))]: the receiver is the longer
    list and the shorter one is a prefix of it.  The second iteration reads
    [otherPair.head] with [otherPair == nil]: a nil dereference instead of
    [false].  With the lists swapped, [L(1).Equals(L(1, 2))] is [false]. *)
Theorem Equals_longer_receiver_panics :
  (∀ fuel, (4 ≤ fuel)%nat →
     outcome (equalsOf (ints [1; 2]) (ints [1]) fuel init) = Some (inl NilDereference)) ∧
  (∀ fuel, (4 ≤ fuel)%nat →
     outcome (equalsOf (ints [1]) (ints [1; 2]) fuel init) = Some (inr false)).
Proof. split; run_with 4%nat. Qed.

(** C4 fails on the code for text, for [float32] and for [uint64].
    [L("b", "a").Max()] and [.Min()]: the [reflect.String] case calls
    [Value.Float] on a string, which panics.  [L(float32(1), float32(2))]:
    the shadowed [acc] turns the accumulator into a [float64], the next
    comparison sees two kinds and the result is nil.  [L(uint64(1),
    uint64(2))]: [reflect.Uint64] is in no case, the result is nil.  On
    [int], [L(1, 3, 5, 4, 2).Max()] is 5 and [L(3, 2, 5, 1, 2).Min()] is 1. *)
Theorem Max_Min_of_strings_panic :
  (∀ fuel, (4 ≤ fuel)%nat →
     outcome (maxOf [VString "b"; VString "a"] fuel init) = Some (inl ReflectKind) ∧
     outcome (minOf [VString "b"; VString "a"] fuel init) = Some (inl ReflectKind)) ∧
  (∀ fuel, (5 ≤ fuel)%nat →
     outcome (maxOf [VFloat float32 1; VFloat float32 2] fuel init) = Some (inr VNil) ∧
     outcome (minOf [VFloat float32 1; VFloat float32 2] fuel init) = Some (inr VNil)) ∧
  (∀ fuel, (5 ≤ fuel)%nat →
     outcome (maxOf [VUint uint64 1; VUint uint64 2] fuel init) = Some (inr VNil) ∧
     outcome (minOf [VUint uint64 1; VUint uint64 2] fuel init) = Some (inr VNil)) ∧
  (∀ fuel, (8 ≤ fuel)%nat →
     outcome (maxOf (ints [1; 3; 5; 4; 2]) fuel init) = Some (inr (VInt int 5)) ∧
     outcome (minOf (ints [3; 2; 5; 1; 2]) fuel init) = Some (inr (VInt int 1))).
Proof.
  split; [|split; [|split]]; intros fuel Hle; (split; revert fuel Hle);
    first [run_with 4%nat | run_with 5%nat | run_with 8%nat].
Qed.

(** C10.  [L(L(), L(1)).Flatten()]: forcing the result forces the empty first
    sub-list, gets no Pair, and reads its [head]: a nil dereference.  The
    documented [L(L(1, 2), L(3, 4)).Flatten()] is [1, 2, 3, 4]. *)
Theorem Flatten_empty_sublist_panics :
  (∀ fuel, (4 ≤ fuel)%nat →
     outcome (flattenEmptyFirst fuel init) = Some (inl NilDereference)) ∧
  (∀ fuel, (12 ≤ fuel)%nat →
     outcome (flattenDoc fuel init) = Some (inr (ints [1; 2; 3; 4]))).
Proof. split; [run_with 4%nat | run_with 12%nat]. Qed.

(** The two concrete runs of C5 and C6. *)
Lemma zipExample_length fuel :
  (8 ≤ fuel)%nat →
  ∃ ys, outcome (zipExample fuel init) = Some (inr ys) ∧ length ys = 2%nat.
Proof.
  revert fuel.
  assert (∀ fuel, (8 ≤ fuel)%nat →
    outcome (zipExample fuel init) = Some (inr [VThunk (Some 9%N); VThunk (Some 12%N)])) as H
    by run_with 8%nat.
  intros fuel Hle. eexists. split; [by apply H | done].
Qed.

Lemma TestReduceN_45 fuel :
  (8 ≤ fuel)%nat →
  outcome (TestReduceN fuel init) = Some (inr (VInt int 45)) ∧
  outcome (reduceNTake3 fuel init) = Some (inr (VInt int 45)).
Proof. intros H. split; revert fuel H; run_with 8%nat. Qed.

(** The runs above at their smallest fuel. *)
Lemma fibo_first_five_witness :
  outcome (fiboTake5 10 init) = Some (inr (ints [1; 1; 2; 3; 5])) ∧
  outcome (TestFibo 10 init) = Some (inr true).
Proof.
  destruct fibo_first_five as (_ & H1 & H2).
  split; [apply H1 | apply H2]; lia.
Defined.

Lemma Equals_longer_receiver_panics_witness :
  outcome (equalsOf (ints [1; 2]) (ints [1]) 4 init) = Some (inl NilDereference) ∧
  outcome (equalsOf (ints [1]) (ints [1; 2]) 4 init) = Some (inr false).
Proof.
  destruct Equals_longer_receiver_panics as (H1 & H2).
  split; [apply H1 | apply H2]; lia.
Defined.

Lemma Max_Min_of_strings_panic_witness :
  outcome (maxOf [VString "b"; VString "a"] 4 init) = Some (inl ReflectKind) ∧
  outcome (minOf [VString "b"; VString "a"] 4 init) = Some (inl ReflectKind).
Proof.
  destruct Max_Min_of_strings_panic as (H1 & _). apply H1. lia.
Defined.

Lemma Flatten_empty_sublist_panics_witness :
  outcome (flattenEmptyFirst 4 init) = Some (inl NilDereference).
Proof.
  destruct Flatten_empty_sublist_panics as (H1 & _). apply H1. lia.
Defined.

(** ** Lists in the heap: forcing a list built by Link *)

Lemma bind_eq {A B} (m : M A) (k : A → M B) s a s1 :
  m s = Ok a s1 → bind m k s = k a s1.
Proof. unfold bind. by intros ->. Qed.

Lemma bind_panic {A B} (m : M A) (k : A → M B) s e :
  m s = Panic e → bind m k s = Panic e.
Proof. unfold bind. by intros ->. Qed.

Lemma fills_refl s : fills s s.
Proof.
  split_and!; try done; [by exists []; rewrite app_nil_r | by left].
Qed.

Lemma fills_trans s1 s2 s3 : fills s1 s2 → fills s2 s3 → fills s1 s3.
Proof.
  intros (Hm1 & Hi1 & Ht1 & Hf1 & [more1 Hp1] & Htab1)
         (Hm2 & Hi2 & Ht2 & Hf2 & [more2 Hp2] & Htab2).
  split_and!; try congruence.
  { exists (more1 ++ more2). by rewrite Hp2, Hp1, app_assoc. }
  intros i. destruct (Htab2 i) as [Heq2 | (Hnone2 & Hfill2)].
  - rewrite Heq2. destruct (Htab1 i) as [Heq1 | (Hnone1 & [(x & tl & a & Hl & Hv & Ha) | Hfill1])].
    + by left.
    + right. split; [done|]. left. exists x, tl, a.
      split_and!; [done | done |].
      rewrite Hp2. by apply lookup_app_l_Some.
    + right. split; [done|]. by right.
  - right. rewrite Ht1 in Hfill2.
    destruct (Htab1 i) as [Heq1 | (Hnone1 & [(x & tl & a & Hl & Hv & Ha) | [_ Hv]])];
      [|congruence..].
    split; [congruence|]. done.
Qed.

Lemma fills_keeps s s' : fills s s' → keeps s s'.
Proof.
  intros (Hm & Hi & Ht & Hf & [more Hp] & Htab). split; [done|]. split.
  - intros t x tl (id & -> & Hcell). exists id. split; [done|].
    rewrite Hm, Ht. destruct (memo s); [|done].
    destruct (Htab id) as [Heq | (Hnone & [(x' & tl' & a' & Hl & Hv & Ha) | [He Hv]])].
    + rewrite Heq. destruct Hcell as [(a & Hv & Ha) | Hlink]; [|by right].
      left. exists a. split; [done|]. rewrite Hp. by apply lookup_app_l_Some.
    + destruct Hcell as [(a & Hv' & _) | [_ Hlink]]; [congruence|].
      left. exists a'. split; [done|]. congruence.
    + destruct Hcell as [(a & Hv' & _) | [_ Hlink]]; congruence.
  - intros [id|]; [|done]. simpl. rewrite Hm, Ht. destruct (memo s); [|done].
    destruct (Htab id) as [Heq | (Hnone & [(x' & tl' & a' & Hl & Hv & Ha) | [He Hv]])].
    + by rewrite Heq.
    + intros [?|[_ ?]]; congruence.
    + by left.
Qed.

Lemma fills_fresh s s' : fills s s' → fresh_above s → fresh_above s'.
Proof.
  intros (Hm & Hi & Ht & Hf & _ & Htab) Hfresh i Hi'. rewrite Hi in Hi'.
  destruct (Hfresh i Hi') as [Hti Hmi]. rewrite Ht. split; [done|].
  destruct (Htab i) as [-> | (_ & [(x & tl & a & Hl & _) | [He _]])]; congruence.
Qed.

Lemma fills_room s s' k : fills s s' → room s k → room s' k.
Proof. intros (_ & Hi & _). unfold room. by rewrite Hi. Qed.

Lemma keeps_refl s : keeps s s.
Proof. done. Qed.

Lemma keeps_trans s1 s2 s3 : keeps s1 s2 → keeps s2 s3 → keeps s1 s3.
Proof.
  intros (Hm1 & Hc1 & He1) (Hm2 & Hc2 & He2).
  split; [congruence|]. split; eauto.
Qed.

Lemma keeps_is_list s s' t xs : keeps s s' → is_list s t xs → is_list s' t xs.
Proof.
  intros (Hm & Hc & He). revert t.
  induction xs as [|x xs IH]; intros t; simpl; [apply He|].
  intros (tl & Hcell & Hrest). exists tl. split; [by apply Hc | by apply IH].
Qed.

Lemma fills_is_list s s' t xs : fills s s' → is_list s t xs → is_list s' t xs.
Proof. intros H. apply keeps_is_list. by apply fills_keeps. Qed.

Lemma fills_pairs s s' a p : fills s s' → pairs s !! a = Some p → pairs s' !! a = Some p.
Proof.
  intros (_ & _ & _ & _ & [more ->] & _) H. by apply lookup_app_l_Some.
Qed.

(** A Thunk that is neither [Link]'s nor [Empty]'s is left alone. *)
Lemma fills_uncached s s' id f :
  fills s s' → thunks s !! id = Some f →
  (∀ x tl, f ≠ linkFunc x tl) → f ≠ emptyFunc →
  uncached s id → uncached s' id.
Proof.
  intros (Hm & _ & _ & _ & _ & Htab) Hf Hlink Hempty Hun Hmemo.
  rewrite Hm in Hmemo. specialize (Hun Hmemo).
  destruct (Htab id) as [-> | (_ & [(x & tl & a & Hl & _) | [He _]])]; [done|..].
  - rewrite Hf in Hl. injection Hl as ->. by destruct (Hlink x tl).
  - congruence.
Qed.

(** Forcing a cell gives its Pair; forcing the end gives none. *)
Lemma force_cell fuel s t x tl ctx :
  (2 ≤ fuel)%nat →
  cell s t x tl →
  ∃ a s', force fuel t ctx s = Ok (Some a) s' ∧
          pairs s' !! a = Some (mkPair x tl) ∧ fills s s'.
Proof.
  intros Hfuel (id & -> & Hcell).
  destruct fuel as [|[|fuel]]; [lia..|]. cbn [force call].
  destruct (memo s) eqn:Hmemo.
  - destruct Hcell as [(a & Hv & Ha) | [Hnone Hlink]].
    + rewrite Hv. exists a, s. split; [done|]. split; [done | apply fills_refl].
    + rewrite Hnone. unfold bind, recordCall, getFunc, newPair, memoize, ret. simpl.
      rewrite Hlink. simpl. eexists _, _. split; [done|]. simpl. split.
      { by apply list_lookup_middle. }
      split_and!; simpl; try done; [by eexists|].
      intros i. destruct (decide (i = id)) as [->|Hne].
      * right. split; [done|]. left. exists x, tl, (length (pairs s)).
        split; [done|]. split; [apply lookup_insert_eq | by apply list_lookup_middle].
      * left. by apply lookup_insert_ne.
  - unfold bind, recordCall, getFunc, newPair. simpl. rewrite Hcell. simpl.
    eexists _, _. split; [done|]. simpl. split.
    { by apply list_lookup_middle. }
    split_and!; simpl; try done; [by eexists | by left].
Qed.

Lemma force_ends fuel s t ctx :
  (2 ≤ fuel)%nat →
  ends s t → ∃ s', force fuel t ctx s = Ok None s' ∧ fills s s'.
Proof.
  intros Hfuel. destruct fuel as [|[|fuel]]; [lia..|].
  destruct t as [id|]; [|intros _; exists s; split; [done | apply fills_refl]].
  simpl. intros Hends. cbn [force call].
  destruct (memo s) eqn:Hmemo.
  - destruct Hends as [Hv | [Hnone He]].
    + rewrite Hv. exists s. split; [done | apply fills_refl].
    + rewrite Hnone. unfold bind, recordCall, getFunc, memoize, ret. simpl.
      rewrite He. simpl. eexists. split; [done|].
      split_and!; simpl; try done; [by exists []; rewrite app_nil_r|].
      intros i. destruct (decide (i = id)) as [->|Hne].
      * right. split; [done|]. right. split; [done | apply lookup_insert_eq].
      * left. by apply lookup_insert_ne.
  - unfold bind, recordCall, getFunc. simpl. rewrite Hends. simpl.
    eexists. split; [done|].
    split_and!; simpl; try done; [by exists []; rewrite app_nil_r | by left].
Qed.

(** The first step of a walk over a list. *)
Lemma force_is_list fuel s t xs ctx :
  (2 ≤ fuel)%nat →
  is_list s t xs →
  ∃ r s', force fuel t ctx s = Ok r s' ∧ fills s s' ∧
    match xs with
    | [] => r = None
    | x :: rest => ∃ a tl, r = Some a ∧ pairs s' !! a = Some (mkPair x tl) ∧
                           is_list s' tl rest
    end.
Proof.
  intros Hfuel. destruct xs as [|x rest]; simpl.
  - intros (s' & Hf & Hfill)%(force_ends fuel _ _ ctx); [|done]. by exists None, s'.
  - intros (tl & Hcell & Hrest).
    destruct (force_cell fuel _ _ _ _ ctx Hfuel Hcell) as (a & s' & Hf & Ha & Hfill).
    exists (Some a), s'. split; [done|]. split; [done|].
    exists a, tl. split; [done|]. split; [done|]. by eapply fills_is_list.
Qed.

Lemma deref_eq s a p : pairs s !! a = Some p → deref (Some a) s = Ok p s.
Proof. unfold deref. by intros ->. Qed.

(** ** At *)

Lemma wrapUint_small z : 0 ≤ z < 2 ^ 64 → wrapUint z = z.
Proof. intros H. unfold wrapUint. by apply Z.mod_small. Qed.

Lemma wrapInt_small z : - 2 ^ 63 ≤ z < 2 ^ 63 → wrapInt z = z.
Proof. intros H. unfold wrapInt. rewrite Z.mod_small; lia. Qed.

(** The loop of [At] with [d] iterations still to go after this one. *)
Lemma atLoop_list xs :
  ∀ s t (d : nat) n p fuel,
    is_list s t xs → Z.of_nat d ≤ n < 2 ^ 64 →
    (d `min` length xs + 3 ≤ fuel)%nat →
    match xs !! d with
    | Some x =>
        n < 2 ^ 64 - 1 →
        ∃ s', atLoop fuel (n - Z.of_nat d) n t p s = Ok x s' ∧ fills s s'
    | None => atLoop fuel (n - Z.of_nat d) n t p s = Panic IndexOutOfList
    end.
Proof.
  induction xs as [|x rest IH]; intros s t d n p fuel Hlist Hn Hfuel;
    (destruct fuel as [|fuel]; [lia|]); cbn [atLoop];
    replace (n - Z.of_nat d <=? n) with true by (symmetry; apply Z.leb_le; lia).
  - rewrite lookup_nil.
    destruct (force_ends fuel s t VNil) as (s' & Hforce & _); [lia | done |].
    by rewrite (bind_eq _ _ _ _ _ Hforce).
  - destruct Hlist as (tl & Hcell & Hrest).
    destruct (force_cell fuel s t x tl VNil) as (a & s1 & Hforce & Ha & Hfill);
      [simpl in Hfuel; lia | done |].
    rewrite (bind_eq _ _ _ _ _ Hforce). cbn beta iota.
    rewrite (bind_eq _ _ _ _ _ (deref_eq _ _ _ Ha)). cbn [p_head p_tail].
    destruct d as [|d].
    + simpl. intros Hmax. rewrite Z.sub_0_r, wrapUint_small by lia.
      exists s1. split; [|done].
      destruct fuel as [|fuel']; [simpl in Hfuel; lia|]. cbn [atLoop].
      replace (n + 1 <=? n) with false by (symmetry; apply Z.leb_gt; lia).
      by rewrite (bind_eq _ _ _ _ _ (deref_eq _ _ _ Ha)).
    + rewrite wrapUint_small by lia.
      replace (n - Z.of_nat (S d) + 1) with (n - Z.of_nat d) by lia.
      specialize (IH s1 tl d n (Some a) fuel).
      change ((x :: rest) !! S d) with (rest !! d).
      destruct (rest !! d) as [y|].
      * intros Hmax.
        destruct IH as (s2 & Hloop & Hfill2);
          [by eapply fills_is_list | lia | simpl in *; lia | done |].
        exists s2. split; [done | by eapply fills_trans].
      * apply IH; [by eapply fills_is_list | lia | simpl in *; lia].
Qed.

(** C9.  On a finite list [xs], [At(n)] returns the element at position [n]
    when there is one, and otherwise the call itself ends in the panic
    "Index out of list.": nothing recovers it.  [n] is a Go [uint]. *)
Theorem At_in_range_or_panic s t xs n fuel :
  is_list s t xs →
  Z.of_nat (length xs) < 2 ^ 64 →
  0 ≤ n < 2 ^ 64 →
  (Z.to_nat n `min` length xs + 3 ≤ fuel)%nat →
  match xs !! Z.to_nat n with
  | Some x => ∃ s', At fuel t n s = Ok x s' ∧ fills s s'
  | None => At fuel t n s = Panic IndexOutOfList
  end.
Proof.
  intros Hlist Hlen Hn Hfuel. unfold At.
  pose proof (atLoop_list xs s t (Z.to_nat n) n None fuel Hlist) as H.
  rewrite Z2Nat.id, Z.sub_diag in H by lia.
  destruct (xs !! Z.to_nat n) as [x|] eqn:Hx.
  - apply H; [lia | done |].
    apply lookup_lt_Some in Hx. lia.
  - apply H; [lia | done].
Qed.

(** [L(1, 2, 3).At(2)] is 3 and [L(1, 2, 3).At(3)] panics. *)
Lemma At_in_range_or_panic_witness :
  let s := state_of (L (ints [1; 2; 3]) init) in
  (∃ s', At 6 (Some 4%N) 2 s = Ok (VInt int 3) s' ∧ fills s s') ∧
  At 6 (Some 4%N) 3 s = Panic IndexOutOfList.
Proof.
  intros s.
  assert (Hlist : is_list s (Some 4%N) (ints [1; 2; 3])).
  { simpl. repeat (eexists; split; [eexists; split; [done|]; right; by vm_compute|]).
    right. by vm_compute. }
  split.
  - apply (At_in_range_or_panic s (Some 4%N) (ints [1; 2; 3]) 2 6 Hlist);
      [done | done | vm_compute; lia].
  - apply (At_in_range_or_panic s (Some 4%N) (ints [1; 2; 3]) 3 6 Hlist);
      [done | done | vm_compute; lia].
Defined.

(** ** Lists in lockstep: the loop of MapN, ReduceN and FilterN *)

Lemma Forall2_is_list_fills s s' ts xss :
  fills s s' → Forall2 (is_list s) ts xss → Forall2 (is_list s') ts xss.
Proof.
  intros Hfill Hall. eapply Forall2_impl; [exact Hall|].
  intros t xs. by apply fills_is_list.
Qed.

Lemma forceEach_lists fuel ts :
  (2 ≤ fuel)%nat →
  ∀ s xss, Forall2 (is_list s) ts xss →
    ∃ r s', forceEach (λ t, force fuel t VNil) ts s = Ok r s' ∧ fills s s' ∧
      match unconsAll xss with
      | Some (hs, tls) => ∃ tails, r = Some (hs, tails) ∧ Forall2 (is_list s') tails tls
      | None => r = None
      end.
Proof.
  intros Hfuel. induction ts as [|t ts IH]; intros s xss Hall.
  - apply Forall2_nil_inv_l in Hall as ->. exists (Some ([], [])), s.
    split; [done|]. split; [apply fills_refl|]. by exists [].
  - apply Forall2_cons_inv_l in Hall as (xs & xss' & Hxs & Hall & ->).
    cbn [forceEach].
    destruct (force_is_list fuel s t xs VNil Hfuel Hxs) as (r & s1 & Hforce & Hfill1 & Hr).
    rewrite (bind_eq _ _ _ _ _ Hforce).
    destruct xs as [|x rest].
    + subst r. exists None, s1. by split.
    + destruct Hr as (a & tl & -> & Ha & Htl).
      rewrite (bind_eq _ _ _ _ _ (deref_eq _ _ _ Ha)). cbn [p_head p_tail].
      destruct (IH s1 xss' (Forall2_is_list_fills _ _ _ _ Hfill1 Hall))
        as (r' & s2 & Heach & Hfill2 & Hr').
      rewrite (bind_eq _ _ _ _ _ Heach).
      exists (match r' with
              | Some (heads, tails) => Some (x :: heads, tl :: tails)
              | None => None
              end), s2.
      split; [done|]. split; [by eapply fills_trans|].
      cbn [unconsAll]. destruct (unconsAll xss') as [[hs tls]|].
      * destruct Hr' as (tails & -> & Htails). exists (tl :: tails).
        split; [done|]. constructor; [by eapply fills_is_list | done].
      * by subst r'.
Qed.

(** The tuples of lists in lockstep are as many as the shortest list is
    long, and the [k]-th tuple holds the [k]-th element of each list. *)
Lemma foldr_min_uncons xss hs tls m :
  unconsAll xss = Some (hs, tls) →
  foldr (λ ys k, length ys `min` k)%nat (S m) xss =
  S (foldr (λ ys k, length ys `min` k)%nat m tls).
Proof.
  revert hs tls. induction xss as [|ys xss IH]; intros hs tls H.
  - by injection H as <- <-.
  - cbn [unconsAll] in H. destruct ys as [|y ys]; [done|].
    destruct (unconsAll xss) as [[hs' tls']|]; [|done].
    injection H as <- <-. cbn [foldr length]. rewrite (IH _ _ eq_refl). lia.
Qed.

Lemma foldr_min_none (xss : list (list I)) m :
  unconsAll xss = None → foldr (λ ys k, length ys `min` k)%nat m xss = 0%nat.
Proof.
  induction xss as [|ys xss IH]; intros H; [done|].
  cbn [unconsAll] in H. cbn [foldr]. destruct ys as [|y ys]; [done|].
  destruct (unconsAll xss) as [[hs' tls']|]; [done|].
  rewrite IH by done. lia.
Qed.

Lemma foldr_min_0 (xss : list (list I)) : foldr (λ ys k, length ys `min` k)%nat 0%nat xss = 0%nat.
Proof. induction xss as [|ys xss IH]; [done|]. cbn [foldr]. rewrite IH. lia. Qed.

Lemma rows_length n xs xss :
  (length xs ≤ n)%nat → length (rows n (xs :: xss)) = minLength xs xss.
Proof.
  unfold minLength. revert xs xss. induction n as [|n IH]; intros xs xss Hn.
  - destruct xs; [|simpl in Hn; lia]. cbn [rows length]. by rewrite foldr_min_0.
  - cbn [rows unconsAll]. destruct xs as [|x xs].
    + cbn [length]. by rewrite foldr_min_0.
    + destruct (unconsAll xss) as [[hs tls]|] eqn:Hun; cbn [length].
      * rewrite IH by (simpl in Hn; lia). by rewrite (foldr_min_uncons _ _ _ _ Hun).
      * by rewrite foldr_min_none.
Qed.

Lemma lockstep_length xs xss : length (lockstep xs xss) = minLength xs xss.
Proof. by apply rows_length. Qed.

Lemma unconsAll_Some xss hs tls :
  unconsAll xss = Some (hs, tls) →
  hs = (λ ys, nth 0 ys VNil) <$> xss ∧ tls = (drop 1) <$> xss.
Proof.
  revert hs tls. induction xss as [|ys xss IH]; intros hs tls H.
  - by injection H as <- <-.
  - simpl in H. destruct ys as [|y ys]; [done|].
    destruct (unconsAll xss) as [[hs' tls']|]; [|done].
    injection H as <- <-. destruct (IH _ _ eq_refl) as [-> ->].
    by split.
Qed.

Lemma rows_lookup n xss k row :
  rows n xss !! k = Some row → row = (λ ys, nth k ys VNil) <$> xss.
Proof.
  revert xss k row. induction n as [|n IH]; intros xss k row; [done|].
  cbn [rows]. destruct (unconsAll xss) as [[hs tls]|] eqn:Hun; [|done].
  apply unconsAll_Some in Hun as [-> ->].
  destruct k as [|k]; [by intros [= <-]|]. simpl. intros ->%IH.
  rewrite <- list_fmap_compose. apply list_fmap_ext. intros _ ys _. simpl.
  by destruct ys, k.
Qed.

Lemma lockstep_lookup xs xss k row :
  lockstep xs xss !! k = Some row → row = (λ ys, nth k ys VNil) <$> (xs :: xss).
Proof. apply rows_lookup. Qed.

(** ** ReduceN *)

Lemma ReduceN_lockstep g xs :
  ∀ xss t ts s acc fuel,
    is_list s t xs → Forall2 (is_list s) ts xss →
    (length xs + 3 ≤ fuel)%nat →
    match foldRows g acc (lockstep xs xss) with
    | inr v => ∃ s', ReduceN fuel (userReduceN g) acc (t :: ts) s = Ok v s' ∧ fills s s'
    | inl e => ReduceN fuel (userReduceN g) acc (t :: ts) s = Panic e
    end.
Proof.
  induction xs as [|x rest IH]; intros xss t ts s acc fuel Ht Hts Hfuel;
    (destruct fuel as [|fuel]; [lia|]); cbn [ReduceN];
    match type of Ht with
    | is_list _ _ ?xs =>
        destruct (forceEach_lists fuel (t :: ts) ltac:(simpl in Hfuel; lia) s (xs :: xss))
          as (r & s1 & Heach & Hfill & Hr); [by constructor|]
    end;
    rewrite (bind_eq _ _ _ _ _ Heach).
  - simpl in Hr. subst r. simpl. by exists s1.
  - unfold lockstep. cbn [length rows]. cbn [unconsAll] in Hr |- *.
    destruct (unconsAll xss) as [[hs tls]|].
    + destruct Hr as (tails & -> & Htails).
      apply Forall2_cons_inv_r in Htails as (tl & tails' & Htl & Htails & ->).
      cbn [foldRows]. unfold applyReduce.
      destruct (g acc (x :: hs)) as [e|acc'] eqn:Hg; simpl.
      * unfold bind, throw. done.
      * unfold bind at 1. simpl.
        specialize (IH tls tl tails' s1 acc' fuel Htl Htails ltac:(simpl in Hfuel; lia)).
        unfold lockstep in IH.
        destruct (foldRows g acc' (rows (length rest) (rest :: tls))) as [e|v].
        -- done.
        -- destruct IH as (s2 & Hred & Hfill2). exists s2.
           split; [done | by eapply fills_trans].
    + subst r. simpl. by exists s1.
Qed.

(** A list just built by [L], in a concrete state. *)
Ltac concrete_list :=
  simpl;
  repeat (eexists; split; [eexists; split; [done|]; right; by vm_compute|]);
  right; by vm_compute.

(** Arithmetic side conditions at concrete inputs. *)
Ltac concrete_side :=
  first [ done | lia | vm_compute; done | vm_compute; lia
        | unfold room; vm_compute; done | simpl; lia ].

(** C6.  [ReduceN(f, acc, t, ts...)] on finite lists is the left fold of [f]
    over the tuples of the lists in lockstep, starting from [acc]: as many
    tuples as the shortest list is long, the [k]-th made of the [k]-th
    elements.  It returns the accumulator reached when the first list is
    exhausted, forcing nothing but the cells of the lists; a panic of [f] is
    the panic of the call.  [TestReduceN], with the infinite stream as third
    list, and the same call with the stream cut by [Take(3)], give 45. *)
Theorem ReduceN_left_fold :
  (∀ g s t ts xs xss acc fuel,
     is_list s t xs → Forall2 (is_list s) ts xss →
     (length xs + 3 ≤ fuel)%nat →
     length (lockstep xs xss) = minLength xs xss ∧
     (∀ k row, lockstep xs xss !! k = Some row →
               row = (λ ys, nth k ys VNil) <$> (xs :: xss)) ∧
     match foldRows g acc (lockstep xs xss) with
     | inr v => ∃ s', ReduceN fuel (userReduceN g) acc (t :: ts) s = Ok v s' ∧
                      fills s s'
     | inl e => ReduceN fuel (userReduceN g) acc (t :: ts) s = Panic e
     end) ∧
  (∀ fuel, (8 ≤ fuel)%nat →
     outcome (TestReduceN fuel init) = Some (inr (VInt int 45)) ∧
     outcome (reduceNTake3 fuel init) = Some (inr (VInt int 45))).
Proof.
  split.
  - intros g s t ts xs xss acc fuel Ht Hts Hfuel.
    split; [apply lockstep_length|]. split; [apply lockstep_lookup|].
    by apply ReduceN_lockstep.
  - apply TestReduceN_45.
Qed.

(** [ReduceN(totalSum, 0, L(7, 8, 9), L(4, 5))] is 7+4+8+5 = 24. *)
Lemma ReduceN_left_fold_witness :
  let s := state_of ((L (ints [7; 8; 9]);; L (ints [4; 5])) init) in
  ∃ s', ReduceN 6 (userReduceN totalSum) (VInt int 0) [Some 4%N; Some 6%N] s
        = Ok (VInt int 24) s' ∧ fills s s'.
Proof.
  intros s.
  assert (H1 : is_list s (Some 4%N) (ints [7; 8; 9])) by concrete_list.
  assert (H2 : Forall2 (is_list s) [Some 6%N] [ints [4; 5]]).
  { constructor; [concrete_list | constructor]. }
  destruct (proj1 ReduceN_left_fold totalSum s (Some 4%N) [Some 6%N]
              (ints [7; 8; 9]) [ints [4; 5]] (VInt int 0) 6%nat H1 H2)
    as (_ & _ & H); [vm_compute; lia|].
  exact H.
Defined.
(** Side conditions on the sets of touched identifiers. *)
Ltac touched :=
  let j := fresh "j" in
  let Hj := fresh "Hj" in
  intros j Hj; unfold nothing, only in *; simpl in *;
  first [ contradiction | by left | by right | by subst; left
        | by subst; right | tauto | intuition (subst; auto; lia) ].


(** ** Forcing a Thunk that is not a cell *)

Lemma force_uncached fuel id ctx s :
  uncached s id →
  force (S fuel) (Some id) ctx s =
  match call fuel id ctx (logged id s) with
  | Ok r s1 => Ok r (cached s id r s1)
  | Panic e => Panic e
  | OutOfFuel => OutOfFuel
  end.
Proof.
  intros Hun. cbn [force]. unfold cached, logged. destruct (memo s) eqn:Hmemo.
  - rewrite (Hun Hmemo). unfold bind, recordCall, memoize, ret.
    by destruct (call fuel id ctx _).
  - unfold bind, recordCall. by destruct (call fuel id ctx _).
Qed.

Lemma getFunc_eq s id f : thunks s !! id = Some f → getFunc id s = Ok f s.
Proof. unfold getFunc. by intros ->. Qed.

Lemma newThunk_eq s f :
  room s 1 →
  newThunk f s =
  Ok (Some (thunkId s + 1)%N)
     (set_thunks (<[(thunkId s + 1)%N := f]> (thunks s))
        (set_thunkId (thunkId s + 1)%N s)).
Proof.
  unfold room, newThunk, nextId, bind. intros H.
  rewrite N.mod_small by lia. done.
Qed.

(** A change of state that only touches idle identifiers keeps every
    list. *)
Lemma keeps_changes s s' :
  memo s' = memo s →
  (∀ a p, pairs s !! a = Some p → pairs s' !! a = Some p) →
  (∀ i, idle s i ∨
        (thunks s' !! i = thunks s !! i ∧ memoTable s' !! i = memoTable s !! i)) →
  keeps s s'.
Proof.
  intros Hm Hp Hch. split; [done|]. split.
  - intros t x tl (id & -> & Hcell). exists id. split; [done|]. rewrite Hm.
    destruct (Hch id) as [(Hun & Hlink & _) | [Ht Hv]].
    + destruct (memo s) eqn:Hmemo.
      * destruct Hcell as [(a & Hv & _) | [_ Hl]];
          [rewrite (Hun Hmemo) in Hv; done | by destruct (Hlink x tl)].
      * by destruct (Hlink x tl).
    + rewrite Ht, Hv. destruct (memo s); [|done].
      destruct Hcell as [(a & Hv' & Ha) | Hl]; [|by right].
      left. exists a. split; [done | by apply Hp].
  - intros [id|]; [|done]. simpl. rewrite Hm.
    destruct (Hch id) as [(Hun & _ & Hempty) | [Ht Hv]].
    + destruct (memo s) eqn:Hmemo; [|done].
      intros [Hv | [_ He]]; [rewrite (Hun Hmemo) in Hv; done | done].
    + by rewrite Ht, Hv.
Qed.

Lemma fresh_idle s i : fresh_above s → (thunkId s < i)%N → idle s i.
Proof.
  intros Hfresh Hi. destruct (Hfresh i Hi) as [Ht Hv].
  split; [by intros _|]. rewrite Ht. by split.
Qed.

Lemma fresh_allocated s i f :
  fresh_above s → thunks s !! i = Some f → (i ≤ thunkId s)%N.
Proof.
  intros Hfresh Hf. destruct (decide (i ≤ thunkId s)%N) as [|Hgt]; [done|].
  destruct (Hfresh i) as [Ht _]; [lia | congruence].
Qed.

Lemma force_of_call fuel id ctx s r s1 :
  uncached s id →
  call fuel id ctx (logged id s) = Ok r s1 →
  force (S fuel) (Some id) ctx s = Ok r (cached s id r s1).
Proof. intros Hun Hcall. by rewrite force_uncached, Hcall. Qed.

Lemma newThunk_alloc s f :
  room s 1 → newThunk f s = Ok (Some (thunkId s + 1)%N) (alloc f s).
Proof. apply newThunk_eq. Qed.

Lemma newPair_push s h t :
  newPair h t s = Ok (Some (length (pairs s))) (push (mkPair h t) s).
Proof. done. Qed.

Lemma push_lookup s p : pairs (push p s) !! length (pairs s) = Some p.
Proof. by apply list_lookup_middle. Qed.

(** *** How the state moves *)

Lemma idle_same s s' j :
  memo s' = memo s →
  thunks s' !! j = thunks s !! j → memoTable s' !! j = memoTable s !! j →
  idle s j → idle s' j.
Proof.
  intros Hm Ht Hv (Hun & Hl & He). unfold idle, uncached.
  rewrite Hm, Ht, Hv. done.
Qed.

Lemma touches_refl X s : touches X s s.
Proof. split_and!; first [done | lia]. Qed.

Lemma touches_trans X Y s1 s2 s3 :
  touches X s1 s2 → touches Y s2 s3 →
  (∀ j, Y j → X j ∨ (thunkId s1 < j)%N) →
  touches X s1 s3.
Proof.
  intros (Hm1 & Hi1 & Hf1 & Hp1 & Hk1 & Hfr1) (Hm2 & Hi2 & Hf2 & Hp2 & Hk2 & Hfr2) HY.
  split_and!; [congruence | lia | auto | auto | by eapply keeps_trans |].
  intros j HX Hj Hidle. destruct (Hfr1 j HX Hj Hidle) as [Ht1 Hidle1].
  destruct (Hfr2 j) as [Ht2 Hidle2]; [|lia|done|].
  - intros [?|?]%HY; [done | lia].
  - split; [congruence | done].
Qed.

Lemma touches_weaken (X Y : N → Prop) s s' :
  (∀ j, X j → Y j) → touches X s s' → touches Y s s'.
Proof.
  intros HXY (Hm & Hi & Hf & Hp & Hk & Hfr). split_and!; try done.
  intros j HY. apply Hfr. intros HX. by apply HY, HXY.
Qed.

Lemma touches_is_list X s s' t xs : touches X s s' → is_list s t xs → is_list s' t xs.
Proof. intros (_ & _ & _ & _ & Hk & _). by apply keeps_is_list. Qed.

Lemma touches_ends X s s' t : touches X s s' → ends s t → ends s' t.
Proof. intros (_ & _ & _ & _ & (_ & _ & He) & _). apply He. Qed.

Lemma touches_fresh X s s' : touches X s s' → fresh_above s → fresh_above s'.
Proof. intros (_ & _ & Hf & _). exact Hf. Qed.

Lemma touches_pairs X s s' a p :
  touches X s s' → pairs s !! a = Some p → pairs s' !! a = Some p.
Proof. intros (_ & _ & _ & Hp & _). apply Hp. Qed.

Lemma touches_idle X s s' j f :
  touches X s s' → fresh_above s → ¬ X j →
  thunks s !! j = Some f → idle s j →
  thunks s' !! j = Some f ∧ idle s' j.
Proof.
  intros (_ & _ & _ & _ & _ & Hfr) Hfresh HX Hf Hidle.
  destruct (Hfr j HX) as [Ht Hi]; [by eapply fresh_allocated | done |].
  by rewrite Ht.
Qed.

Lemma fills_touches s s' : fills s s' → touches nothing s s'.
Proof.
  intros Hfill. pose proof Hfill as (Hm & Hi & Ht & Hfb & [more Hp] & Htab).
  split_and!; [done | lia | by apply fills_fresh
              | intros a p; by apply fills_pairs | by apply fills_keeps |].
  intros j _ _ (Hun & Hl & He). rewrite Ht. split; [done|].
  unfold idle. rewrite Ht. split_and!; [|done..].
  intros Hmemo. rewrite Hm in Hmemo.
  destruct (Htab j) as [-> | (_ & [(x & tl & a & Hlink & _) | [Hempty _]])];
    [by apply Hun | by destruct (Hl x tl) | done].
Qed.

Lemma fills_logged id s : fills s (logged id s).
Proof.
  split_and!; try done; [by exists []; rewrite app_nil_r | by left].
Qed.

Lemma fills_push p s : fills s (push p s).
Proof. split_and!; try done; [by eexists | by left]. Qed.

Lemma touches_alloc f s :
  fresh_above s → room s 1 → touches nothing s (alloc f s).
Proof.
  intros Hfresh Hroom.
  assert (Hnew : ∀ j, (j ≤ thunkId s)%N →
            thunks (alloc f s) !! j = thunks s !! j).
  { intros j Hj. simpl. apply lookup_insert_ne. lia. }
  split_and!; try done.
  - simpl. lia.
  - intros _ i Hi. simpl in *. rewrite lookup_insert_ne by lia.
    apply Hfresh. lia.
  - apply keeps_changes; try done. intros i.
    destruct (decide (i ≤ thunkId s)%N) as [Hi|Hi].
    + right. split; [by apply Hnew | done].
    + left. apply fresh_idle; [done | lia].
  - intros j _ Hj Hidle. split; [by apply Hnew|].
    eapply idle_same; [| | |exact Hidle]; [done | by apply Hnew | done].
Qed.

Lemma touches_cached s0 id r s :
  memo s0 = memo s → idle s id → is_Some (thunks s !! id) →
  touches (only id) s (cached s0 id r s).
Proof.
  intros Hm Hidle [f Hf]. unfold cached.
  destruct (memo s0) eqn:Hmemo; [|apply touches_refl].
  assert (Hne : ∀ j, j ≠ id →
            memoTable (set_memoTable (<[id:=r]> (memoTable s)) s) !! j = memoTable s !! j).
  { intros j Hj. simpl. by apply lookup_insert_ne. }
  split_and!; try done.
  - intros Hfresh i Hi. simpl.
    destruct (decide (i = id)) as [->|Hne'].
    + destruct (Hfresh id Hi) as [Ht Hv]. congruence.
    + rewrite lookup_insert_ne by done. by apply Hfresh.
  - apply keeps_changes; try done. intros i.
    destruct (decide (i = id)) as [->|Hne']; [by left|].
    right. split; [done | by apply Hne].
  - intros j Hj _ Hidle'. split; [done|].
    eapply idle_same; [| | |exact Hidle']; [done | done | apply Hne; exact Hj].
Qed.

Lemma thunks_cached s0 id r s : thunks (cached s0 id r s) = thunks s.
Proof. unfold cached. by destruct (memo s0). Qed.

Lemma pairs_cached s0 id r s : pairs (cached s0 id r s) = pairs s.
Proof. unfold cached. by destruct (memo s0). Qed.

Lemma thunkId_cached s0 id r s : thunkId (cached s0 id r s) = thunkId s.
Proof. unfold cached. by destruct (memo s0). Qed.

Lemma memo_cached s0 id r s : memo (cached s0 id r s) = memo s.
Proof. unfold cached. by destruct (memo s0). Qed.

Lemma memoTable_cached_ne s0 id r s j :
  j ≠ id → memoTable (cached s0 id r s) !! j = memoTable s !! j.
Proof.
  intros Hj. unfold cached. destruct (memo s0); [|done].
  simpl. by apply lookup_insert_ne.
Qed.

(** A Thunk just allocated is idle when its closure is neither [Link]'s nor
    [Empty]'s. *)
Lemma idle_alloc f s :
  fresh_above s → (∀ x tl, f ≠ linkFunc x tl) → f ≠ emptyFunc →
  idle (alloc f s) (thunkId s + 1)%N.
Proof.
  intros Hfresh Hl He. split_and!.
  - intros _. simpl. apply Hfresh. lia.
  - intros x tl. simpl. rewrite lookup_insert_eq. intros [= ->]. by destruct (Hl x tl).
  - simpl. rewrite lookup_insert_eq. by intros [= ->].
Qed.

(** Forcing an idle Thunk: run its closure, then cache what it gave.  The
    closure must leave its own Thunk alone. *)
Lemma force_idle fuel id f ctx s r s1 (X : N → Prop) :
  idle s id → thunks s !! id = Some f → fresh_above s → ¬ X id →
  call fuel id ctx (logged id s) = Ok r s1 →
  touches X (logged id s) s1 →
  force (S fuel) (Some id) ctx s = Ok r (cached s id r s1) ∧
  touches (λ j, j = id ∨ X j) s (cached s id r s1) ∧
  touches (only id) s1 (cached s id r s1).
Proof.
  intros Hidle Hf Hfresh HX Hcall Htouch.
  split; [apply force_of_call; [apply Hidle | done]|].
  assert (H0 : touches X s (logged id s)).
  { eapply touches_weaken; [|apply fills_touches, fills_logged]. touched. }
  pose proof (touches_trans X X _ _ _ H0 Htouch ltac:(by left)) as H1.
  destruct (touches_idle X s s1 id f H1 Hfresh HX Hf Hidle) as [Hf1 Hidle1].
  assert (H2 : touches (only id) s1 (cached s id r s1)).
  { apply touches_cached; [by destruct H1 as (-> & _) | done | by eexists]. }
  split; [|done].
  eapply (touches_trans _ (only id)).
  - eapply touches_weaken; [|exact H1]. by right.
  - exact H2.
  - intros j ->. by left; left.
Qed.

Lemma idle_cached s0 id r s j :
  j ≠ id → idle s j → idle (cached s0 id r s) j.
Proof.
  intros Hj (Hun & Hl & He). unfold idle, uncached.
  rewrite thunks_cached, memo_cached, memoTable_cached_ne by done. done.
Qed.

Lemma room_le s k k' : (k' ≤ k)%nat → room s k → room s k'.
Proof. unfold room. lia. Qed.

(** ** Take and Length *)

(** The closure of [Take]. *)
Lemma call_take fuel s id t n xs :
  (3 ≤ fuel)%nat → fresh_above s → (0 < n → xs ≠ [] → room s 1) → is_list s t xs →
  thunks s !! id = Some (takeFunc t n) →
  ∃ r s1, call fuel id VNil s = Ok r s1 ∧ touches nothing s s1 ∧
    match xs with
    | x :: rest =>
        if 0 <? n then
          ∃ a tl, r = Some a ∧ thunkId s1 = (thunkId s + 1)%N ∧
            pairs s1 !! a = Some (mkPair x (Some (thunkId s + 1)%N)) ∧
            thunks s1 !! (thunkId s + 1)%N = Some (takeFunc tl (n - 1)) ∧
            idle s1 (thunkId s + 1)%N ∧ is_list s1 tl rest
        else r = None ∧ thunkId s1 = thunkId s
    | [] => r = None ∧ thunkId s1 = thunkId s
    end.
Proof.
  intros Hfuel Hfresh Hroom Hlist Hid.
  destruct fuel as [|fuel]; [lia|]. cbn [call].
  rewrite (bind_eq _ _ _ _ _ (getFunc_eq _ _ _ Hid)).
  destruct (0 <? n) eqn:Hn.
  - destruct (force_is_list fuel s t xs VNil ltac:(lia) Hlist)
      as (r & s1 & Hforce & Hfill & Hr).
    rewrite (bind_eq _ _ _ _ _ Hforce).
    pose proof Hfill as (Hm1 & Hi1 & Ht1 & _).
    destruct xs as [|x rest].
    + subst r. exists None, s1. split; [done|]. split; [by apply fills_touches|]. done.
    + destruct Hr as (a & tl & -> & Ha & Htl).
      rewrite (bind_eq _ _ _ _ _ (deref_eq _ _ _ Ha)). cbn [p_head p_tail].
      assert (Hfresh1 : fresh_above s1) by by eapply fills_fresh.
      assert (Hroom1 : room s1 1).
      { eapply fills_room; [done|]. apply Hroom; [lia | done]. }
      unfold Take. rewrite (bind_eq _ _ _ _ _ (newThunk_alloc _ _ Hroom1)).
      rewrite newPair_push.
      eexists _, _. split; [done|]. split.
      { apply (touches_trans nothing nothing s s1); [by apply fills_touches | | touched].
        apply (touches_trans nothing nothing s1 (alloc (takeFunc tl (n - 1)) s1));
          [by apply touches_alloc | | touched].
        apply fills_touches, fills_push. }
      eexists _, tl. split; [done|]. rewrite <- Hi1.
      split_and!.
      * done.
      * apply push_lookup.
      * simpl. apply lookup_insert_eq.
      * apply (idle_alloc (takeFunc tl (n - 1)) s1); done.
      * eapply touches_is_list; [|exact Htl].
        apply (touches_trans nothing nothing s1 (alloc (takeFunc tl (n - 1)) s1));
          [by apply touches_alloc | | touched].
        apply fills_touches, fills_push.
  - exists None, s. split; [done|]. split; [apply touches_refl|].
    by destruct xs.
Qed.

Lemma force_take fuel s id t n xs :
  (4 ≤ fuel)%nat → fresh_above s → (0 < n → xs ≠ [] → room s 1) → is_list s t xs →
  thunks s !! id = Some (takeFunc t n) → idle s id →
  ∃ r s', force fuel (Some id) VNil s = Ok r s' ∧ touches (only id) s s' ∧
    match xs with
    | x :: rest =>
        if 0 <? n then
          ∃ a tl, r = Some a ∧ thunkId s' = (thunkId s + 1)%N ∧
            pairs s' !! a = Some (mkPair x (Some (thunkId s + 1)%N)) ∧
            thunks s' !! (thunkId s + 1)%N = Some (takeFunc tl (n - 1)) ∧
            idle s' (thunkId s + 1)%N ∧ is_list s' tl rest
        else r = None ∧ thunkId s' = thunkId s
    | [] => r = None ∧ thunkId s' = thunkId s
    end.
Proof.
  intros Hfuel Hfresh Hroom Hlist Hid Hidle.
  destruct fuel as [|fuel]; [lia|].
  pose proof (fills_logged id s) as Hlog.
  destruct (call_take fuel (logged id s) id t n xs) as (r & s1 & Hcall & Htouch & Hpost);
    [lia | by eapply fills_fresh | intros; by apply Hroom | by eapply fills_is_list
    | done |].
  destruct (force_idle fuel id _ VNil s r s1 nothing Hidle Hid Hfresh
              ltac:(unfold nothing; tauto) Hcall Htouch) as (Hforce & Htouch' & Hlast).
  exists r, (cached s id r s1). split; [done|]. split.
  { eapply touches_weaken; [|exact Htouch']. touched. }
  assert (Hid' : id ≠ (thunkId s + 1)%N).
  { apply (fresh_allocated _ _ _ Hfresh) in Hid. lia. }
  rewrite thunkId_cached, pairs_cached, thunks_cached.
  destruct xs as [|x rest]; [done|]. destruct (0 <? n); [|done].
  destruct Hpost as (a & tl & -> & Hi & Ha & Ht & Hidle1 & Htl).
  exists a, tl. split_and!; try done.
  - by apply idle_cached.
  - by apply (touches_is_list (only id) s1).
Qed.



Lemma lookup_snoc_Some {A} (l : list A) (x : A) a y :
  l !! a = Some y → (l ++ [x]) !! a = Some y.
Proof. intros H. by apply lookup_app_l_Some. Qed.

Lemma lengthFrom_take xs :
  ∀ s t (n : nat) id ret_ fuel,
    fresh_above s → room s (n `min` length xs) →
    is_list s t xs →
    thunks s !! id = Some (takeFunc t (Z.of_nat n)) → idle s id →
    0 ≤ ret_ → ret_ + Z.of_nat (n `min` length xs) < 2 ^ 63 →
    (n `min` length xs + 4 ≤ fuel)%nat →
    ∃ s', lengthFrom fuel (Some id) ret_ s
          = Ok (ret_ + Z.of_nat (n `min` length xs)) s' ∧
          touches (only id) s s'.
Proof.
  induction xs as [|x rest IH];
    intros s t n id ret_ fuel Hfresh Hroom Hlist Hid Hidle Hret Hmax Hfuel;
    unfold lengthFrom.
  - destruct (force_take fuel s id t (Z.of_nat n) [] ltac:(lia) Hfresh
                ltac:(done) Hlist Hid Hidle) as (r & s' & Hforce & Htouch & -> & _).
    rewrite (bind_eq _ _ _ _ _ Hforce).
    destruct fuel as [|fuel]; [lia|]. cbn [lengthLoop].
    exists s'. split; [|done]. unfold ret. do 2 f_equal. simpl. lia.
  - destruct (force_take fuel s id t (Z.of_nat n) (x :: rest) ltac:(lia) Hfresh)
      as (r & s1 & Hforce & Htouch & Hpost); [|done..|].
    { intros Hn _. eapply room_le; [|exact Hroom]. simpl. lia. }
    rewrite (bind_eq _ _ _ _ _ Hforce).
    destruct fuel as [|fuel]; [lia|]. cbn [lengthLoop].
    destruct n as [|n].
    + simpl in Hpost. destruct Hpost as [-> _]. exists s1. split; [|done].
      unfold ret. do 2 f_equal. simpl. lia.
    + replace (0 <? Z.of_nat (S n)) with true in Hpost by (symmetry; apply Z.ltb_lt; lia).
      destruct Hpost as (a & tl & -> & Hi & Ha & Ht & Hidle1 & Htl).
      rewrite (bind_eq _ _ _ _ _ (deref_eq _ _ _ Ha)). cbn [p_head p_tail].
      replace (Z.of_nat (S n) - 1) with (Z.of_nat n) in Ht by lia.
      simpl in Hroom, Hmax, Hfuel.
      destruct (IH s1 tl n (thunkId s + 1)%N (wrapInt (ret_ + 1)) fuel)
        as (s2 & Hwalk & Htouch2); try done.
      * by eapply touches_fresh.
      * unfold room in *. rewrite Hi. lia.
      * rewrite wrapInt_small by lia. lia.
      * rewrite wrapInt_small by lia. lia.
      * lia.
      * unfold lengthFrom in Hwalk. rewrite Hwalk. exists s2. split.
        -- rewrite wrapInt_small by lia. f_equal. cbn [length Nat.min]. lia.
        -- eapply touches_trans; [exact Htouch | exact Htouch2 |]. touched.
Qed.

(** Unused identifiers in a concrete state. *)
Lemma fresh_above_check s :
  map_Forall (λ i _, (i ≤ thunkId s)%N) (thunks s) →
  map_Forall (λ i _, (i ≤ thunkId s)%N) (memoTable s) →
  fresh_above s.
Proof.
  intros H1 H2 i Hi. split.
  - destruct (thunks s !! i) eqn:E; [|done]. apply H1 in E. lia.
  - destruct (memoTable s !! i) eqn:E; [|done]. apply H2 in E. lia.
Qed.

Ltac concrete_fresh :=
  apply fresh_above_check;
  (eapply bool_decide_unpack; vm_compute; constructor).

(** C7.  For a finite list [xs] and a [uint] [n], [L.Take(n).Length()] is
    [min(n, len(xs))].  The list holds fewer than 2^63 elements (the result
    is a Go [int]) and the counter of identifiers does not wrap while the
    Thunks of [Take] are allocated. *)
Theorem Take_Length s t xs (n : nat) fuel :
  fresh_above s →
  room s (S (n `min` length xs)) →
  is_list s t xs →
  Z.of_nat n < 2 ^ 64 →
  Z.of_nat (length xs) < 2 ^ 63 →
  (n `min` length xs + 4 ≤ fuel)%nat →
  ∃ s', (let* t' := Take t (Z.of_nat n) in Length fuel t') s
        = Ok (Z.of_nat (n `min` length xs)) s' ∧
        is_list s' t xs.
Proof.
  intros Hfresh Hroom Hlist Hn Hlen Hfuel.
  assert (Hroom1 : room s 1) by (eapply room_le; [|exact Hroom]; lia).
  unfold Take. rewrite (bind_eq _ _ _ _ _ (newThunk_alloc _ _ Hroom1)).
  pose proof (touches_alloc (takeFunc t (Z.of_nat n)) s Hfresh Hroom1) as Htouch.
  destruct (lengthFrom_take xs (alloc (takeFunc t (Z.of_nat n)) s) t n
              (thunkId s + 1)%N 0 fuel) as (s' & Hwalk & Htouch'); try done.
  - by eapply touches_fresh.
  - unfold room in *. simpl. lia.
  - by eapply touches_is_list.
  - simpl. apply lookup_insert_eq.
  - by apply idle_alloc.
  - lia.
  - exists s'. split; [exact Hwalk|].
    eapply touches_is_list; [exact Htouch'|]. by eapply touches_is_list.
Qed.

(** [L(1, 2, 3).Take(2).Length()] is 2 and [L(1, 2, 3).Take(5).Length()] is
    3. *)
Lemma Take_Length_witness :
  let s := state_of (L (ints [1; 2; 3]) init) in
  (∃ s', (let* t' := Take (Some 4%N) 2 in Length 6 t') s = Ok 2 s' ∧
         is_list s' (Some 4%N) (ints [1; 2; 3])) ∧
  (∃ s', (let* t' := Take (Some 4%N) 5 in Length 7 t') s = Ok 3 s' ∧
         is_list s' (Some 4%N) (ints [1; 2; 3])).
Proof.
  intros s.
  assert (Hlist : is_list s (Some 4%N) (ints [1; 2; 3])) by concrete_list.
  assert (Hfresh : fresh_above s) by concrete_fresh.
  split.
  - apply (Take_Length s (Some 4%N) (ints [1; 2; 3]) 2 6 Hfresh); try done;
      vm_compute; lia.
  - apply (Take_Length s (Some 4%N) (ints [1; 2; 3]) 5 7 Hfresh); try done;
      vm_compute; lia.
Defined.

(** ** MapN and ToSlice *)

Lemma applyMap_pure f g xs s :
  pureMap f = Some g → applyMap f xs s = lift (g xs) s.
Proof.
  destruct f as [g'|g'|]; intros [= <-]; [done|].
  unfold applyMap, index0. by destruct xs.
Qed.

(** The closure of [MapN] for a function that does not allocate. *)
Lemma call_mapN fuel s id f g ts xss :
  (3 ≤ fuel)%nat → fresh_above s →
  (is_Some (unconsAll xss) → room s 1) →
  pureMap f = Some g →
  Forall2 (is_list s) ts xss →
  thunks s !! id = Some (mapNFunc f ts) →
  match unconsAll xss with
  | None => ∃ s1, call fuel id VNil s = Ok None s1 ∧ touches nothing s s1 ∧
                  thunkId s1 = thunkId s
  | Some (hs, tls) =>
      match g hs with
      | inl e => call fuel id VNil s = Panic e
      | inr v =>
          ∃ a tails s1, call fuel id VNil s = Ok (Some a) s1 ∧
            touches nothing s s1 ∧ thunkId s1 = (thunkId s + 1)%N ∧
            pairs s1 !! a = Some (mkPair v (Some (thunkId s + 1)%N)) ∧
            thunks s1 !! (thunkId s + 1)%N = Some (mapNFunc f tails) ∧
            idle s1 (thunkId s + 1)%N ∧ Forall2 (is_list s1) tails tls
      end
  end.
Proof.
  intros Hfuel Hfresh Hroom Hg Hall Hid.
  destruct fuel as [|fuel]; [lia|]. cbn [call].
  rewrite (bind_eq _ _ _ _ _ (getFunc_eq _ _ _ Hid)).
  destruct (forceEach_lists fuel ts ltac:(lia) s xss Hall)
    as (r & s1 & Heach & Hfill & Hr).
  rewrite (bind_eq _ _ _ _ _ Heach).
  pose proof Hfill as (Hm1 & Hi1 & Ht1 & _).
  destruct (unconsAll xss) as [[hs tls]|].
  - destruct Hr as (tails & -> & Htails).
    specialize (Hroom ltac:(by eexists)).
    pose proof (applyMap_pure f g hs s1 Hg) as Happ.
    destruct (g hs) as [e|v]; simpl in Happ; [by apply bind_panic|].
    rewrite (bind_eq _ _ _ _ _ Happ).
    assert (Hfresh1 : fresh_above s1) by by eapply fills_fresh.
    assert (Hroom1 : room s1 1) by by eapply fills_room.
    unfold MapN. rewrite (bind_eq _ _ _ _ _ (newThunk_alloc _ _ Hroom1)).
    rewrite newPair_push.
    assert (Htouch : touches nothing s1 (push (mkPair v (Some (thunkId s1 + 1)%N))
                                              (alloc (mapNFunc f tails) s1))).
    { apply (touches_trans nothing nothing s1 (alloc (mapNFunc f tails) s1));
        [by apply touches_alloc | | touched].
      apply fills_touches, fills_push. }
    eexists _, tails, _. split; [done|]. rewrite <- Hi1. split_and!.
    + apply (touches_trans nothing nothing s s1); [by apply fills_touches | done | touched].
    + done.
    + apply push_lookup.
    + simpl. apply lookup_insert_eq.
    + apply (idle_alloc (mapNFunc f tails) s1); done.
    + eapply Forall2_impl; [exact Htails|]. intros t xs.
      by apply (touches_is_list nothing).
  - subst r. exists s1. split; [done|]. split; [by apply fills_touches | done].
Qed.

Lemma ToSlice_mapN f g xs :
  pureMap f = Some g →
  ∀ xss s t ts id fuel,
    fresh_above s → room s (length xs) →
    is_list s t xs → Forall2 (is_list s) ts xss →
    thunks s !! id = Some (mapNFunc f (t :: ts)) → idle s id →
    (length xs + 5 ≤ fuel)%nat →
    match mapRows g (lockstep xs xss) with
    | inr ys => ∃ s', ToSlice fuel (Some id) s = Ok ys s' ∧ touches (only id) s s'
    | inl e => ToSlice fuel (Some id) s = Panic e
    end.
Proof.
  intros Hg.
  induction xs as [|x rest IH];
    intros xss s t ts id fuel Hfresh Hroom Ht Hts Hid Hidle Hfuel;
    (destruct fuel as [|fuel]; [lia|]); cbn [ToSlice];
    (destruct fuel as [|fuel]; [lia|]);
    pose proof (fills_logged id s) as Hlog;
    match type of Ht with
    | is_list _ _ ?xs =>
        pose proof (call_mapN fuel (logged id s) id f g (t :: ts) (xs :: xss)
                      ltac:(simpl in Hfuel; lia) (fills_fresh _ _ Hlog Hfresh)) as Hcall
    end.
  - destruct Hcall as (s1 & Hcall & Htouch & Hi);
      [first [done | by intros [? [=]]
             | constructor; [by eapply fills_is_list | by eapply Forall2_is_list_fills]]..|].
    destruct (force_idle fuel id _ VNil s None s1 nothing Hidle Hid Hfresh
                ltac:(unfold nothing; tauto) Hcall Htouch) as (Hforce & Htouch' & _).
    rewrite (bind_eq _ _ _ _ _ Hforce). simpl.
    eexists. split; [done|]. eapply touches_weaken; [|exact Htouch']. touched.
  - unfold lockstep. cbn [length rows unconsAll] in Hcall |- *.
    destruct (unconsAll xss) as [[hs tls]|]; cbn [mapRows].
    + destruct (g (x :: hs)) as [e|v].
      * rewrite (bind_panic _ _ _ e); [done|].
        rewrite force_uncached by apply Hidle. rewrite Hcall; try done.
        -- intros _. eapply fills_room; [done|]. eapply room_le; [|exact Hroom].
           simpl. lia.
        -- constructor; [by eapply fills_is_list | by eapply Forall2_is_list_fills].
      * destruct Hcall as (a & tails & s1 & Hcall & Htouch & Hi & Ha & Hnext & Hidle1 & Htails);
          try done.
        { intros _. eapply fills_room; [done|]. eapply room_le; [|exact Hroom].
          simpl. lia. }
        { constructor; [by eapply fills_is_list | by eapply Forall2_is_list_fills]. }
        apply Forall2_cons_inv_r in Htails as (tl & tails' & Htl & Htails & ->).
        destruct (force_idle fuel id _ VNil s (Some a) s1 nothing Hidle Hid Hfresh
                    ltac:(unfold nothing; tauto) Hcall Htouch)
          as (Hforce & Htouch' & Hlast).
        rewrite (bind_eq _ _ _ _ _ Hforce). cbn beta iota.
        assert (Ha' : pairs (cached s id (Some a) s1) !! a
                      = Some (mkPair v (Some (thunkId s + 1)%N)))
          by by rewrite pairs_cached.
        rewrite (bind_eq _ _ _ _ _ (deref_eq _ _ _ Ha')). cbn [p_head p_tail].
        assert (Hid' : id ≠ (thunkId s + 1)%N).
        { apply (fresh_allocated _ _ _ Hfresh) in Hid. lia. }
        specialize (IH tls (cached s id (Some a) s1) tl tails' (thunkId s + 1)%N (S fuel)).
        unfold lockstep in IH.
        assert (Hpre : match mapRows g (rows (length rest) (rest :: tls)) with
                       | inr ys => ∃ s', ToSlice (S fuel) (Some (thunkId s + 1)%N)
                                           (cached s id (Some a) s1) = Ok ys s' ∧
                                         touches (only (thunkId s + 1)%N)
                                           (cached s id (Some a) s1) s'
                       | inl e => ToSlice (S fuel) (Some (thunkId s + 1)%N)
                                    (cached s id (Some a) s1) = Panic e
                       end).
        { apply IH.
          - exact (touches_fresh _ _ _ Htouch' Hfresh).
          - unfold room in *. rewrite thunkId_cached. simpl in *. lia.
          - exact (touches_is_list _ _ _ _ _ Hlast Htl).
          - eapply Forall2_impl; [exact Htails|]. intros ??.
            by apply (touches_is_list (only id) s1).
          - by rewrite thunks_cached.
          - by apply idle_cached.
          - simpl in Hfuel. lia. }
        destruct (mapRows g (rows (length rest) (rest :: tls))) as [e|ys].
        -- by rewrite (bind_panic _ _ _ e).
        -- destruct Hpre as (s' & Hrest & Htouch2).
           rewrite (bind_eq _ _ _ _ _ Hrest). exists s'. split; [done|].
           eapply (touches_trans _ _ s _ s'); [|exact Htouch2|].
           ++ eapply touches_weaken; [|exact Htouch']. touched.
           ++ intros j ->. right. lia.
    + destruct Hcall as (s1 & Hcall & Htouch & Hi);
      [first [done | by intros [? [=]]
             | constructor; [by eapply fills_is_list | by eapply Forall2_is_list_fills]]..|].
      destruct (force_idle fuel id _ VNil s None s1 nothing Hidle Hid Hfresh
                  ltac:(unfold nothing; tauto) Hcall Htouch) as (Hforce & Htouch' & _).
      rewrite (bind_eq _ _ _ _ _ Hforce). simpl.
      eexists. split; [done|]. eapply touches_weaken; [|exact Htouch']. touched.
Qed.

(** *** ZipN: the tuples are fresh lists *)

Lemma is_list_alloc_link s x tl ys :
  fresh_above s → room s 1 → is_list s tl ys →
  is_list (alloc (linkFunc x tl) s) (Some (thunkId s + 1)%N) (x :: ys).
Proof.
  intros Hfresh Hroom Hys. exists tl. split.
  - exists (thunkId s + 1)%N. split; [done|]. simpl.
    destruct (Hfresh (thunkId s + 1)%N ltac:(lia)) as [_ Hv].
    rewrite lookup_insert_eq. destruct (memo s); [by right | done].
  - eapply touches_is_list; [by apply touches_alloc | done].
Qed.

Lemma linkDown_spec ritems :
  ∀ s acc ys,
    fresh_above s → room s (length ritems) → is_list s acc ys →
    ∃ t s', linkDown ritems acc s = Ok t s' ∧ touches nothing s s' ∧
            thunkId s' = (thunkId s + N.of_nat (length ritems))%N ∧
            is_list s' t (rev ritems ++ ys).
Proof.
  induction ritems as [|x rest IH]; intros s acc ys Hfresh Hroom Hys.
  - exists acc, s. split; [done|]. split; [apply touches_refl|].
    split; [simpl; lia | done].
  - cbn [linkDown]. unfold Link.
    assert (Hroom1 : room s 1) by (eapply room_le; [|exact Hroom]; simpl; lia).
    rewrite (bind_eq _ _ _ _ _ (newThunk_alloc _ _ Hroom1)).
    pose proof (touches_alloc (linkFunc x acc) s Hfresh Hroom1) as Htouch.
    destruct (IH (alloc (linkFunc x acc) s) (Some (thunkId s + 1)%N) (x :: ys))
      as (t & s' & Hlink & Htouch' & Hi & Ht).
    + by eapply touches_fresh.
    + unfold room in *. simpl in *. lia.
    + by apply is_list_alloc_link.
    + exists t, s'. split; [done|]. split.
      * eapply touches_trans; [exact Htouch | exact Htouch' | touched].
      * split; [simpl in *; lia|]. simpl. by rewrite <- app_assoc.
Qed.

Lemma SliceToList_spec s xs :
  fresh_above s → room s (length xs) → ends s Empty →
  ∃ t s', SliceToList (VSlice xs) s = Ok t s' ∧ touches nothing s s' ∧
          thunkId s' = (thunkId s + N.of_nat (length xs))%N ∧ is_list s' t xs.
Proof.
  intros Hfresh Hroom Hends. simpl.
  destruct (linkDown_spec (rev xs) s Empty [] Hfresh) as (t & s' & H1 & H2 & H3 & H4);
    [by rewrite length_rev | done |].
  exists t, s'. rewrite length_rev, rev_involutive, app_nil_r in *. done.
Qed.

(** The closure of [ZipN]. *)
Lemma call_zipN fuel s id ts xss :
  (3 ≤ fuel)%nat → fresh_above s →
  (is_Some (unconsAll xss) → room s (S (length ts))) →
  ends s Empty →
  Forall2 (is_list s) ts xss →
  thunks s !! id = Some (mapNFunc zipAdaptor ts) →
  match unconsAll xss with
  | None => ∃ s1, call fuel id VNil s = Ok None s1 ∧ touches nothing s s1 ∧
                  thunkId s1 = thunkId s
  | Some (hs, tls) =>
      ∃ a l tails s1, call fuel id VNil s = Ok (Some a) s1 ∧
        touches nothing s s1 ∧
        thunkId s1 = (thunkId s + N.of_nat (S (length ts)))%N ∧
        pairs s1 !! a = Some (mkPair (VThunk l) (Some (thunkId s1))) ∧
        is_list s1 l hs ∧
        thunks s1 !! thunkId s1 = Some (mapNFunc zipAdaptor tails) ∧
        idle s1 (thunkId s1) ∧ Forall2 (is_list s1) tails tls
  end.
Proof.
  intros Hfuel Hfresh Hroom Hends Hall Hid.
  destruct fuel as [|fuel]; [lia|]. cbn [call].
  rewrite (bind_eq _ _ _ _ _ (getFunc_eq _ _ _ Hid)).
  destruct (forceEach_lists fuel ts ltac:(lia) s xss Hall)
    as (r & s1 & Heach & Hfill & Hr).
  rewrite (bind_eq _ _ _ _ _ Heach).
  pose proof Hfill as (Hm1 & Hi1 & Ht1 & _).
  destruct (unconsAll xss) as [[hs tls]|] eqn:Hun.
  - destruct Hr as (tails & -> & Htails).
    specialize (Hroom ltac:(by eexists)).
    assert (Hlen : length hs = length ts).
    { apply unconsAll_Some in Hun as [-> _]. rewrite length_fmap.
      symmetry. by eapply Forall2_length. }
    assert (Hfresh1 : fresh_above s1) by by eapply fills_fresh.
    destruct (SliceToList_spec s1 hs Hfresh1) as (l & s2 & Hslice & Htouch2 & Hi2 & Hl).
    { eapply fills_room; [done|]. eapply room_le; [|exact Hroom]. lia. }
    { apply (touches_ends nothing s s1); [by apply fills_touches | done]. }
    assert (Happ : applyMap zipAdaptor hs s1 = Ok (VThunk l) s2).
    { unfold applyMap. by rewrite (bind_eq _ _ _ _ _ Hslice). }
    rewrite (bind_eq _ _ _ _ _ Happ).
    assert (Hfresh2 : fresh_above s2) by by eapply touches_fresh.
    assert (Hroom2 : room s2 1).
    { unfold room in *. rewrite Hi2, Hi1. lia. }
    unfold MapN. rewrite (bind_eq _ _ _ _ _ (newThunk_alloc _ _ Hroom2)).
    rewrite newPair_push.
    assert (Htouch3 : touches nothing s2 (push (mkPair (VThunk l) (Some (thunkId s2 + 1)%N))
                                               (alloc (mapNFunc zipAdaptor tails) s2))).
    { apply (touches_trans nothing nothing s2 (alloc (mapNFunc zipAdaptor tails) s2));
        [by apply touches_alloc | | touched].
      apply fills_touches, fills_push. }
    assert (Htouch13 : touches nothing s1 (push (mkPair (VThunk l) (Some (thunkId s2 + 1)%N))
                                                (alloc (mapNFunc zipAdaptor tails) s2))).
    { eapply touches_trans; [exact Htouch2 | exact Htouch3 | touched]. }
    eexists _, l, tails, _. split; [done|]. split_and!.
    + apply (touches_trans nothing nothing s s1); [by apply fills_touches | done | touched].
    + simpl. rewrite Hi2, Hi1, Hlen. lia.
    + apply push_lookup.
    + by apply (touches_is_list nothing s2).
    + simpl. apply lookup_insert_eq.
    + apply (idle_alloc (mapNFunc zipAdaptor tails) s2); done.
    + eapply Forall2_impl; [exact Htails|]. intros t xs.
      by apply (touches_is_list nothing).
  - subst r. exists s1. split; [done|]. split; [by apply fills_touches | done].
Qed.

Lemma ToSlice_zipN xs :
  ∀ xss s t ts id fuel,
    fresh_above s → room s (length xs * (length ts + 2)) → ends s Empty →
    is_list s t xs → Forall2 (is_list s) ts xss →
    thunks s !! id = Some (mapNFunc zipAdaptor (t :: ts)) → idle s id →
    (length xs + 5 ≤ fuel)%nat →
    ∃ ys s', ToSlice fuel (Some id) s = Ok ys s' ∧ touches (only id) s s' ∧
      Forall2 (λ row y, ∃ l, y = VThunk l ∧ is_list s' l row) (lockstep xs xss) ys.
Proof.
  induction xs as [|x rest IH];
    intros xss s t ts id fuel Hfresh Hroom Hends Ht Hts Hid Hidle Hfuel;
    (destruct fuel as [|fuel]; [lia|]); cbn [ToSlice];
    (destruct fuel as [|fuel]; [lia|]);
    pose proof (fills_logged id s) as Hlog;
    match type of Ht with
    | is_list _ _ ?xs =>
        pose proof (call_zipN fuel (logged id s) id (t :: ts) (xs :: xss)
                      ltac:(simpl in Hfuel; lia) (fills_fresh _ _ Hlog Hfresh)) as Hcall
    end;
    assert (Hends0 : ends (logged id s) Empty)
      by (apply (touches_ends nothing s); [by apply fills_touches | done]);
    assert (Hall0 : Forall2 (is_list (logged id s)) (t :: ts) (_ :: xss))
      by (constructor; [by eapply fills_is_list | by eapply Forall2_is_list_fills]).
  - destruct Hcall as (s1 & Hcall & Htouch & Hi); [by intros [? [=]] | done..|].
    destruct (force_idle fuel id _ VNil s None s1 nothing Hidle Hid Hfresh
                ltac:(unfold nothing; tauto) Hcall Htouch) as (Hforce & Htouch' & _).
    rewrite (bind_eq _ _ _ _ _ Hforce). simpl.
    eexists [], _. split; [done|]. split; [|constructor].
    eapply touches_weaken; [|exact Htouch']. touched.
  - unfold lockstep. cbn [length rows unconsAll] in Hcall |- *.
    destruct (unconsAll xss) as [[hs tls]|] eqn:Hun.
    + destruct Hcall as (a & l & tails & s1 & Hcall & Htouch & Hi & Ha & Hl & Hnext
                         & Hidle1 & Htails); [|done..|].
      { intros _. eapply fills_room; [done|]. eapply room_le; [|exact Hroom].
        simpl. lia. }
      apply Forall2_cons_inv_r in Htails as (tl & tails' & Htl & Htails & ->).
      assert (Hlen : length tails' = length ts).
      { apply Forall2_length in Htails, Hts. apply unconsAll_Some in Hun as [_ ->].
        rewrite length_fmap in Htails. lia. }
      destruct (force_idle fuel id _ VNil s (Some a) s1 nothing Hidle Hid Hfresh
                  ltac:(unfold nothing; tauto) Hcall Htouch)
        as (Hforce & Htouch' & Hlast).
      rewrite (bind_eq _ _ _ _ _ Hforce). cbn beta iota.
      assert (Ha' : pairs (cached s id (Some a) s1) !! a
                    = Some (mkPair (VThunk l) (Some (thunkId s1))))
        by by rewrite pairs_cached.
      rewrite (bind_eq _ _ _ _ _ (deref_eq _ _ _ Ha')). cbn [p_head p_tail].
      simpl in Hi.
      assert (Hid' : id ≠ thunkId s1).
      { apply (fresh_allocated _ _ _ Hfresh) in Hid. lia. }
      destruct (IH tls (cached s id (Some a) s1) tl tails' (thunkId s1) (S fuel))
        as (ys & s' & Hrest & Htouch2 & Hrows).
      * exact (touches_fresh _ _ _ Htouch' Hfresh).
      * unfold room in *. rewrite thunkId_cached, Hi, Hlen. simpl in Hroom. lia.
      * exact (touches_ends _ _ _ _ Htouch' Hends).
      * exact (touches_is_list _ _ _ _ _ Hlast Htl).
      * eapply Forall2_impl; [exact Htails|]. intros ??.
        by apply (touches_is_list (only id) s1).
      * by rewrite thunks_cached.
      * by apply idle_cached.
      * simpl in Hfuel. lia.
      * rewrite (bind_eq _ _ _ _ _ Hrest). eexists (_ :: ys), s'. split; [done|]. split.
        -- eapply (touches_trans _ _ s _ s'); [|exact Htouch2|].
           ++ eapply touches_weaken; [|exact Htouch']. touched.
           ++ intros j ->. right. lia.
        -- constructor; [|done]. exists l. split; [done|].
           apply (touches_is_list _ _ _ _ _ Htouch2).
           exact (touches_is_list _ _ _ _ _ Hlast Hl).
    + destruct Hcall as (s1 & Hcall & Htouch & Hi); [by intros [? [=]] | done..|].
      destruct (force_idle fuel id _ VNil s None s1 nothing Hidle Hid Hfresh
                  ltac:(unfold nothing; tauto) Hcall Htouch) as (Hforce & Htouch' & _).
      rewrite (bind_eq _ _ _ _ _ Hforce). simpl.
      eexists [], _. split; [done|]. split; [|constructor].
      eapply touches_weaken; [|exact Htouch']. touched.
Qed.

Lemma mapRows_Forall2 g rs ys :
  mapRows g rs = inr ys → Forall2 (λ row y, g row = inr y) rs ys.
Proof.
  revert ys. induction rs as [|r rs IH]; intros ys; simpl.
  - intros [= <-]. constructor.
  - destruct (g r) as [e|y] eqn:Hg; [done|].
    destruct (mapRows g rs) as [e|ys']; [done|].
    intros [= <-]. constructor; [done | by apply IH].
Qed.

(** C5.  On finite lists [t, ts...] with elements [xs, xss...], the list
    [MapN(f, t, ts...)] converted by [ToSlice] has as many elements as the
    shortest input, and its [k]-th element is [f] applied to the [k]-th
    elements of all inputs; a panic of [f] is the panic of the conversion.
    This holds for a caller's [f] and for the adaptor of [Map].  For [ZipN]
    the [k]-th element is a fresh list of those [k]-th elements.
    [ZipN(List(1,2,3), List(4,5)).ToSlice()] has length 2. *)
Theorem MapN_shortest_input :
  (∀ f g s t ts xs xss fuel,
     pureMap f = Some g →
     fresh_above s → room s (S (length xs)) →
     is_list s t xs → Forall2 (is_list s) ts xss →
     (length xs + 5 ≤ fuel)%nat →
     length (lockstep xs xss) = minLength xs xss ∧
     (∀ k row, lockstep xs xss !! k = Some row →
               row = (λ ys, nth k ys VNil) <$> (xs :: xss)) ∧
     match mapRows g (lockstep xs xss) with
     | inr ys =>
         ∃ s', (let* m := MapN f (t :: ts) in ToSlice fuel m) s = Ok ys s' ∧
               length ys = minLength xs xss ∧
               Forall2 (λ row y, g row = inr y) (lockstep xs xss) ys
     | inl e => (let* m := MapN f (t :: ts) in ToSlice fuel m) s = Panic e
     end) ∧
  (∀ s t ts xs xss fuel,
     fresh_above s → room s (S (length xs * (length ts + 2))) → ends s Empty →
     is_list s t xs → Forall2 (is_list s) ts xss →
     (length xs + 5 ≤ fuel)%nat →
     ∃ ys s', (let* z := ZipN (t :: ts) in ToSlice fuel z) s = Ok ys s' ∧
              length ys = minLength xs xss ∧
              Forall2 (λ row y, ∃ l, y = VThunk l ∧ is_list s' l row)
                      (lockstep xs xss) ys) ∧
  (∀ fuel, (8 ≤ fuel)%nat →
     ∃ ys, outcome (zipExample fuel init) = Some (inr ys) ∧ length ys = 2%nat).
Proof.
  split; [|split].
  - intros f g s t ts xs xss fuel Hg Hfresh Hroom Ht Hts Hfuel.
    split; [apply lockstep_length|]. split; [apply lockstep_lookup|].
    assert (Hroom1 : room s 1) by (eapply room_le; [|exact Hroom]; lia).
    unfold MapN. rewrite (bind_eq _ _ _ _ _ (newThunk_alloc _ _ Hroom1)).
    pose proof (touches_alloc (mapNFunc f (t :: ts)) s Hfresh Hroom1) as Htouch.
    pose proof (ToSlice_mapN f g xs Hg xss (alloc (mapNFunc f (t :: ts)) s) t ts
                  (thunkId s + 1)%N fuel) as Hwalk.
    destruct (mapRows g (lockstep xs xss)) as [e|ys] eqn:Hrows.
    + apply Hwalk; try done.
      * by eapply touches_fresh.
      * unfold room in *. simpl. lia.
      * by eapply touches_is_list.
      * eapply Forall2_impl; [exact Hts|]. intros ??. by apply (touches_is_list nothing).
      * simpl. apply lookup_insert_eq.
      * by apply idle_alloc.
    + destruct Hwalk as (s' & Hslice & _); try done.
      * by eapply touches_fresh.
      * unfold room in *. simpl. lia.
      * by eapply touches_is_list.
      * eapply Forall2_impl; [exact Hts|]. intros ??. by apply (touches_is_list nothing).
      * simpl. apply lookup_insert_eq.
      * by apply idle_alloc.
      * exists s'. split; [done|]. apply mapRows_Forall2 in Hrows.
        split; [|done]. rewrite <- lockstep_length. symmetry. by eapply Forall2_length.
  - intros s t ts xs xss fuel Hfresh Hroom Hends Ht Hts Hfuel.
    assert (Hroom1 : room s 1) by (eapply room_le; [|exact Hroom]; lia).
    unfold ZipN, MapN. rewrite (bind_eq _ _ _ _ _ (newThunk_alloc _ _ Hroom1)).
    pose proof (touches_alloc (mapNFunc zipAdaptor (t :: ts)) s Hfresh Hroom1) as Htouch.
    destruct (ToSlice_zipN xs xss (alloc (mapNFunc zipAdaptor (t :: ts)) s) t ts
                (thunkId s + 1)%N fuel) as (ys & s' & Hslice & _ & Hrows); try done.
    + by eapply touches_fresh.
    + unfold room in *. simpl. lia.
    + by eapply touches_ends.
    + by eapply touches_is_list.
    + eapply Forall2_impl; [exact Hts|]. intros ??. by apply (touches_is_list nothing).
    + simpl. apply lookup_insert_eq.
    + by apply idle_alloc.
    + exists ys, s'. split; [done|]. split; [|done].
      rewrite <- lockstep_length. symmetry. by eapply Forall2_length.
  - apply zipExample_length.
Qed.

(** [MapN(sum, L(1, 2, 3), L(4, 5)).ToSlice()] is [5, 7]. *)
Lemma MapN_shortest_input_witness :
  let s := state_of ((L (ints [1; 2; 3]);; L (ints [4; 5])) init) in
  ∃ s', (let* m := MapN (userMapN sumInts) [Some 4%N; Some 6%N] in ToSlice 8 m) s
        = Ok (ints [5; 7]) s' ∧
        length (ints [5; 7]) = minLength (ints [1; 2; 3]) [ints [4; 5]].
Proof.
  intros s.
  assert (H1 : is_list s (Some 4%N) (ints [1; 2; 3])) by concrete_list.
  assert (H2 : Forall2 (is_list s) [Some 6%N] [ints [4; 5]]).
  { constructor; [concrete_list | constructor]. }
  assert (Hfresh : fresh_above s) by concrete_fresh.
  destruct (proj1 MapN_shortest_input (userMapN sumInts) sumInts s (Some 4%N)
              [Some 6%N] (ints [1; 2; 3]) [ints [4; 5]] 8%nat eq_refl Hfresh)
    as (_ & _ & H); [concrete_side..|].
  destruct H as (s' & Hrun & Hlen & _). exists s'. split; [exact Hrun | exact Hlen].
Defined.

(** ** Drop *)

(** A Pair on a fresh Thunk. *)
Lemma alloc_push_spec f h s :
  fresh_above s → room s 1 →
  (∀ x tl, f ≠ linkFunc x tl) → f ≠ emptyFunc →
  let s' := push (mkPair h (Some (thunkId s + 1)%N)) (alloc f s) in
  touches nothing s s' ∧ thunkId s' = (thunkId s + 1)%N ∧
  pairs s' !! length (pairs s) = Some (mkPair h (Some (thunkId s + 1)%N)) ∧
  thunks s' !! (thunkId s + 1)%N = Some f ∧ idle s' (thunkId s + 1)%N.
Proof.
  intros Hfresh Hroom Hl He s'. split_and!.
  - apply (touches_trans nothing nothing s (alloc f s));
      [by apply touches_alloc | | touched].
    apply fills_touches, fills_push.
  - done.
  - apply (push_lookup (alloc f s)).
  - simpl. apply lookup_insert_eq.
  - by apply (idle_alloc f s).
Qed.

(** Forcing an idle Thunk whose closure assigns to its own variables. *)
Lemma force_idle_self fuel id ctx s r s1 (X : N → Prop) :
  idle s id → fresh_above s →
  call fuel id ctx (logged id s) = Ok r s1 →
  touches X (logged id s) s1 →
  idle s1 id → is_Some (thunks s1 !! id) →
  force (S fuel) (Some id) ctx s = Ok r (cached s id r s1) ∧
  touches (λ j, j = id ∨ X j) s (cached s id r s1) ∧
  touches (only id) s1 (cached s id r s1).
Proof.
  intros Hidle Hfresh Hcall Htouch Hidle1 Hf1.
  split; [apply force_of_call; [apply Hidle | done]|].
  assert (H0 : touches X s (logged id s)).
  { eapply touches_weaken; [|apply fills_touches, fills_logged]. touched. }
  pose proof (touches_trans X X _ _ _ H0 Htouch ltac:(by left)) as H1.
  assert (H2 : touches (only id) s1 (cached s id r s1)).
  { apply touches_cached; [by destruct H1 as (-> & _) | done | done]. }
  split; [|done].
  eapply (touches_trans _ (only id)).
  - eapply touches_weaken; [|exact H1]. by right.
  - exact H2.
  - intros j ->. by left; left.
Qed.

Lemma touches_setFunc id f f' s :
  thunks s !! id = Some f → idle s id →
  touches (only id) s (set_thunks (<[id := f']> (thunks s)) s).
Proof.
  intros Hf Hidle.
  assert (Hne : ∀ j, j ≠ id →
            thunks (set_thunks (<[id:=f']> (thunks s)) s) !! j = thunks s !! j).
  { intros j Hj. simpl. by apply lookup_insert_ne. }
  split_and!; try done.
  - intros Hfresh i Hi. simpl.
    destruct (decide (i = id)) as [->|Hne'].
    + destruct (Hfresh id Hi) as [Ht Hv]. congruence.
    + rewrite lookup_insert_ne by done. by apply Hfresh.
  - apply keeps_changes; try done. intros i.
    destruct (decide (i = id)) as [->|Hne']; [by left|].
    right. split; [by apply Hne | done].
  - intros j Hj _ Hidle'. split; [by apply Hne|].
    eapply idle_same; [| | |exact Hidle']; [done | by apply Hne | done].
Qed.

(** The loop of [Drop]'s closure: skip [n] cells, then give the Pair of the
    next one. *)
Lemma dropRet_spec xs :
  ∀ s id t (n : nat) fuel,
    is_list s t xs → fresh_above s →
    thunks s !! id = Some (dropFunc t (Z.of_nat n)) → idle s id →
    (n `min` length xs + 3 ≤ fuel)%nat →
    ∃ r s', dropRet fuel id s = Ok r s' ∧ touches (only id) s s' ∧
      thunkId s' = thunkId s ∧ idle s' id ∧ is_Some (thunks s' !! id) ∧
      match drop n xs with
      | [] => r = None
      | x :: rest => ∃ a tl, r = Some a ∧ pairs s' !! a = Some (mkPair x tl) ∧
                             is_list s' tl rest
      end.
Proof.
  induction xs as [|x rest IH]; intros s id t n fuel Hlist Hfresh Hid Hidle Hfuel;
    (destruct fuel as [|fuel]; [lia|]); cbn [dropRet];
    rewrite (bind_eq _ _ _ _ _ (getFunc_eq _ _ _ Hid)); cbn beta iota;
    (destruct (force_is_list fuel s t _ VNil ltac:(lia) Hlist)
       as (r & s1 & Hforce & Hfill & Hr));
    rewrite (bind_eq _ _ _ _ _ Hforce);
    pose proof (fills_touches _ _ Hfill) as Htouch;
    pose proof Hfill as (_ & Hi1 & Ht1 & _);
    destruct (touches_idle _ _ _ _ _ Htouch Hfresh ltac:(unfold nothing; tauto) Hid Hidle)
      as [Hid1 Hidle1].
  - subst r. exists None, s1. split; [done|]. split.
    { eapply touches_weaken; [|exact Htouch]. touched. }
    split; [done|]. split; [done|]. split; [by eexists|]. by rewrite drop_nil.
  - destruct Hr as (a & tl & -> & Ha & Htl). cbn beta iota.
    destruct n as [|n].
    + replace (0 <? Z.of_nat 0) with false by done.
      exists (Some a), s1. split; [done|]. split.
      { eapply touches_weaken; [|exact Htouch]. touched. }
      split; [done|]. split; [done|]. split; [by eexists|].
      rewrite drop_0. by exists a, tl.
    + replace (0 <? Z.of_nat (S n)) with true by (symmetry; apply Z.ltb_lt; lia).
      rewrite (bind_eq _ _ _ _ _ (deref_eq _ _ _ Ha)). cbn [p_tail].
      replace (Z.of_nat (S n) - 1) with (Z.of_nat n) by lia.
      unfold bind at 1, setFunc.
      pose proof (touches_setFunc id _ (dropFunc tl (Z.of_nat n)) s1 Hid1 Hidle1) as Hset.
      destruct (IH (set_thunks (<[id := dropFunc tl (Z.of_nat n)]> (thunks s1)) s1)
                  id tl n fuel) as (r & s2 & Hloop & Htouch2 & Hi2 & Hidle2 & Hid2 & Hr).
      * by eapply touches_is_list.
      * eapply touches_fresh; [exact Hset|]. by eapply touches_fresh.
      * simpl. apply lookup_insert_eq.
      * destruct Hidle1 as (Hun & _ & _). split; [done|]. simpl.
        rewrite lookup_insert_eq. split; [by intros ?? [=] | by intros [=]].
      * simpl in Hfuel. lia.
      * exists r, s2. split; [done|]. split.
        { eapply (touches_trans _ (only id) s s1).
          - eapply touches_weaken; [|exact Htouch]. touched.
          - eapply (touches_trans _ (only id)); [exact Hset | exact Htouch2 | touched].
          - touched. }
        split; [simpl in Hi2; congruence|]. done.
Qed.

(** Forcing the Thunk of [Drop]. *)
Lemma force_drop fuel s id t (n : nat) xs :
  is_list s t xs → fresh_above s →
  thunks s !! id = Some (dropFunc t (Z.of_nat n)) → idle s id →
  (n `min` length xs + 5 ≤ fuel)%nat →
  ∃ r s', force fuel (Some id) VNil s = Ok r s' ∧ touches (only id) s s' ∧
    thunkId s' = thunkId s ∧
    match drop n xs with
    | [] => r = None
    | x :: rest => ∃ a tl, r = Some a ∧ pairs s' !! a = Some (mkPair x tl) ∧
                           is_list s' tl rest
    end.
Proof.
  intros Hlist Hfresh Hid Hidle Hfuel.
  destruct fuel as [|[|fuel]]; [lia..|].
  pose proof (fills_logged id s) as Hlog.
  destruct (dropRet_spec xs (logged id s) id t n fuel)
    as (r & s1 & Hloop & Htouch & Hi & Hidle1 & Hid1 & Hr);
    [by eapply fills_is_list | by eapply fills_fresh | done | | lia |].
  { eapply touches_idle; [by apply fills_touches | done | | done | done].
    unfold nothing. tauto. }
  assert (Hcall : call (S fuel) id VNil (logged id s) = Ok r s1).
  { cbn [call]. by rewrite (bind_eq _ _ _ _ _ (getFunc_eq (logged id s) _ _ Hid)). }
  destruct (force_idle_self (S fuel) id VNil s r s1 (only id) Hidle Hfresh Hcall Htouch
              Hidle1 Hid1) as (Hforce & Htouch' & Hlast).
  exists r, (cached s id r s1). split; [done|]. split.
  { eapply touches_weaken; [|exact Htouch']. touched. }
  rewrite thunkId_cached, pairs_cached. split; [done|].
  destruct (drop n xs) as [|x rest]; [done|].
  destruct Hr as (a & tl & -> & Ha & Htl). exists a, tl.
  split; [done|]. split; [done|]. by apply (touches_is_list (only id) s1).
Qed.

(** ** Equals *)

Lemma Equals_nil fuel thunk other s s1 s2 :
  force fuel thunk VNil s = Ok None s1 →
  force fuel other VNil s1 = Ok None s2 →
  Equals (S fuel) thunk other s = Ok true s2.
Proof.
  intros H1 H2. cbn [Equals].
  rewrite (bind_eq _ _ _ _ _ H1), (bind_eq _ _ _ _ _ H2). done.
Qed.

(** One turn of the loop, for two Pairs with the same head: a plain value, or
    a list that [Equals] finds equal to itself. *)
Lemma Equals_cons fuel thunk other s a o s1 s2 e tl otl :
  force fuel thunk VNil s = Ok (Some a) s1 →
  force fuel other VNil s1 = Ok (Some o) s2 →
  pairs s2 !! a = Some (mkPair (val e) tl) →
  pairs s2 !! o = Some (mkPair (val e) otl) →
  match e with
  | Plain x => plain x
  | Sub h _ => ∃ s3, Equals fuel h h s2 = Ok true s3 ∧ fills s2 s3
  end →
  ∃ s3, fills s2 s3 ∧ Equals (S fuel) thunk other s = Equals fuel tl otl s3.
Proof.
  intros H1 H2 Ha Ho He. cbn [Equals].
  rewrite (bind_eq _ _ _ _ _ H1), (bind_eq _ _ _ _ _ H2). cbn beta iota.
  rewrite (bind_eq _ _ _ _ _ (deref_eq _ _ _ Ha)). cbn [p_head p_tail].
  destruct e as [x | h sub]; cbn [val] in *.
  - exists s2. split; [apply fills_refl|].
    destruct x; try done;
      rewrite (bind_eq _ _ _ _ _ (deref_eq _ _ _ Ho)); cbn [p_head p_tail];
      unfold plain in He; unfold bind at 1; rewrite He; done.
  - destruct He as (s3 & Heq & Hfill). exists s3. split; [done|].
    rewrite (bind_eq _ _ _ _ _ (deref_eq _ _ _ Ho)). cbn [p_head p_tail].
    by rewrite (bind_eq _ _ _ _ _ Heq).
Qed.

(** The elements of nested lists. *)
Lemma elem_nested_ind (P : elem → Prop) :
  (∀ x, P (Plain x)) → (∀ h sub, Forall P sub → P (Sub h sub)) → ∀ e, P e.
Proof.
  intros HP HS. fix IH 1. intros [x | h sub]; [apply HP|].
  apply HS. induction sub as [|e sub IHsub]; constructor; [apply IH | exact IHsub].
Qed.

Lemma represents_Sub s h sub :
  represents s (Sub h sub) ↔ is_list s h (val <$> sub) ∧ Forall (represents s) sub.
Proof.
  cbn [represents].
  assert (Hall : foldr (λ e P, represents s e ∧ P) True sub ↔ Forall (represents s) sub).
  { induction sub as [|e sub IHsub]; cbn [foldr]; [by split; [constructor|] |].
    rewrite Forall_cons. tauto. }
  tauto.
Qed.

Lemma size_Sub h sub : size (Sub h sub) = S (length sub + sizes sub).
Proof. done. Qed.

Lemma sizes_cons e es : sizes (e :: es) = (size e + sizes es)%nat.
Proof. done. Qed.

Lemma sizes_nil : sizes [] = 0%nat.
Proof. done. Qed.

Lemma represents_keeps s s' e : keeps s s' → represents s e → represents s' e.
Proof.
  intros Hkeeps. induction e as [x | h sub IH] using elem_nested_ind; [done|].
  rewrite !represents_Sub. intros [Hh Hsub]. split; [by eapply keeps_is_list|].
  rewrite Forall_forall in IH. rewrite Forall_forall in Hsub. apply Forall_forall.
  intros e He. apply IH; [done | by apply Hsub].
Qed.

Lemma Forall_represents_fills s s' es :
  fills s s' → Forall (represents s) es → Forall (represents s') es.
Proof.
  intros Hfill Hes. eapply Forall_impl; [exact Hes|].
  intros e. by apply represents_keeps, fills_keeps.
Qed.

Lemma Forall_represents_touches X s s' es :
  touches X s s' → Forall (represents s) es → Forall (represents s') es.
Proof.
  intros (_ & _ & _ & _ & Hk & _) Hes. eapply Forall_impl; [exact Hes|].
  intros e. by apply represents_keeps.
Qed.

(** Two lists with the same elements, each equal to itself, are equal; only
    Thunks of [Link] and [Empty] are forced. *)
Lemma Equals_cells n :
  ∀ es s h h' fuel,
    (sizes es + length es ≤ n)%nat →
    is_list s h (val <$> es) → is_list s h' (val <$> es) →
    Forall (represents s) es → (n + 3 ≤ fuel)%nat →
    ∃ s', Equals fuel h h' s = Ok true s' ∧ fills s s'.
Proof.
  induction n as [|n IH]; intros es s h h' fuel Hn Hh Hh' Hes Hfuel;
    (destruct fuel as [|fuel]; [lia|]);
    (destruct es as [|e es'];
     [|rewrite sizes_cons in Hn; cbn [length] in Hn; try lia]).
  1, 2: destruct (force_ends fuel s h VNil ltac:(lia) Hh) as (s1 & Hf1 & Hfill1);
    destruct (force_ends fuel s1 h' VNil ltac:(lia)) as (s2 & Hf2 & Hfill2);
    [exact (fills_is_list _ _ _ [] Hfill1 Hh')|];
    exists s2; split; [by eapply Equals_nil | by eapply fills_trans].
  destruct (force_is_list fuel s h _ VNil ltac:(lia) Hh)
    as (r1 & s1 & Hf1 & Hfill1 & (a & tl & -> & Ha & Htl)).
  destruct (force_is_list fuel s1 h' _ VNil ltac:(lia) (fills_is_list _ _ _ _ Hfill1 Hh'))
    as (r2 & s2 & Hf2 & Hfill2 & (o & otl & -> & Ho & Hotl)).
  apply Forall_cons in Hes as [He Hes].
  pose proof (fills_trans _ _ _ Hfill1 Hfill2) as Hfill12.
  destruct (Equals_cons fuel h h' s a o s1 s2 e tl otl Hf1 Hf2
              (fills_pairs _ _ _ _ Hfill2 Ha) Ho) as (s3 & Hfill3 & Heq).
  { destruct e as [x | g sub]; [done|].
    apply represents_Sub in He as [Hg Hsub]. rewrite size_Sub in Hn.
    apply (IH sub s2 g g fuel); [lia | by eapply fills_is_list..| | lia].
    by eapply Forall_represents_fills. }
  rewrite Heq.
  destruct (IH es' s3 tl otl fuel) as (s4 & Heq4 & Hfill4); [lia | | | | lia |].
  - apply (fills_is_list _ _ _ _ Hfill3). by apply (fills_is_list _ _ _ _ Hfill2).
  - by apply (fills_is_list _ _ _ _ Hfill3).
  - apply (Forall_represents_fills _ _ _ Hfill3). by eapply Forall_represents_fills.
  - exists s4. split; [done|]. eapply fills_trans; [exact Hfill12|]. by eapply fills_trans.
Qed.

(** A finite list is equal to itself. *)
Lemma Equals_refl s t es fuel :
  is_list s t (val <$> es) → Forall (represents s) es →
  (sizes es + length es + 3 ≤ fuel)%nat →
  ∃ s', Equals fuel t t s = Ok true s' ∧ fills s s'.
Proof. intros Ht Hes Hfuel. by apply (Equals_cells (sizes es + length es) es). Qed.

Lemma Equals_cons_elem fuel thunk other s a o s1 s2 e tl otl :
  force fuel thunk VNil s = Ok (Some a) s1 →
  force fuel other VNil s1 = Ok (Some o) s2 →
  pairs s2 !! a = Some (mkPair (val e) tl) →
  pairs s2 !! o = Some (mkPair (val e) otl) →
  represents s2 e → (size e + 2 ≤ fuel)%nat →
  ∃ s3, fills s2 s3 ∧ Equals (S fuel) thunk other s = Equals fuel tl otl s3.
Proof.
  intros H1 H2 Ha Ho He Hfuel. apply (Equals_cons _ _ _ _ _ _ _ _ e _ _ H1 H2 Ha Ho).
  destruct e as [x | g sub]; [done|].
  apply represents_Sub in He as [Hg Hsub]. rewrite size_Sub in Hfuel.
  apply (Equals_cells (sizes sub + length sub) sub); first [done | lia].
Qed.

(** The closure of [Append], given what forcing its two lists gives. *)
Lemma call_append_left fuel s id thunk other a s1 y tl :
  thunks s !! id = Some (appendFunc thunk other) →
  force fuel thunk VNil s = Ok (Some a) s1 →
  pairs s1 !! a = Some (mkPair y tl) → room s1 1 →
  call (S fuel) id VNil s =
  Ok (Some (length (pairs s1)))
     (push (mkPair y (Some (thunkId s1 + 1)%N)) (alloc (appendFunc tl other) s1)).
Proof.
  intros Hid Hforce Ha Hroom. cbn [call].
  rewrite (bind_eq _ _ _ _ _ (getFunc_eq _ _ _ Hid)). cbn beta iota.
  rewrite (bind_eq _ _ _ _ _ Hforce). cbn beta iota.
  rewrite (bind_eq _ _ _ _ _ (deref_eq _ _ _ Ha)). cbn [p_head p_tail].
  unfold Append. by rewrite (bind_eq _ _ _ _ _ (newThunk_alloc _ _ Hroom)).
Qed.

Lemma call_append_right fuel s id thunk other s1 a s2 y tl :
  thunks s !! id = Some (appendFunc thunk other) →
  force fuel thunk VNil s = Ok None s1 →
  force fuel other VNil s1 = Ok (Some a) s2 →
  pairs s2 !! a = Some (mkPair y tl) → room s2 1 →
  call (S fuel) id VNil s =
  Ok (Some (length (pairs s2)))
     (push (mkPair y (Some (thunkId s2 + 1)%N)) (alloc (appendFunc tl Empty) s2)).
Proof.
  intros Hid Hforce Hforce2 Ha Hroom. cbn [call].
  rewrite (bind_eq _ _ _ _ _ (getFunc_eq _ _ _ Hid)). cbn beta iota.
  rewrite (bind_eq _ _ _ _ _ Hforce). cbn beta iota.
  rewrite (bind_eq _ _ _ _ _ Hforce2). cbn beta iota.
  rewrite (bind_eq _ _ _ _ _ (deref_eq _ _ _ Ha)). cbn [p_head p_tail].
  unfold Append. by rewrite (bind_eq _ _ _ _ _ (newThunk_alloc _ _ Hroom)).
Qed.

Lemma call_append_none fuel s id thunk other s1 s2 :
  thunks s !! id = Some (appendFunc thunk other) →
  force fuel thunk VNil s = Ok None s1 →
  force fuel other VNil s1 = Ok None s2 →
  call (S fuel) id VNil s = Ok None s2.
Proof.
  intros Hid Hforce Hforce2. cbn [call].
  rewrite (bind_eq _ _ _ _ _ (getFunc_eq _ _ _ Hid)). cbn beta iota.
  rewrite (bind_eq _ _ _ _ _ Hforce). cbn beta iota.
  by rewrite (bind_eq _ _ _ _ _ Hforce2).
Qed.

(** The facts about the state in which a closure starts. *)
Lemma logged_fresh id s : fresh_above s → fresh_above (logged id s).
Proof. apply fills_fresh, fills_logged. Qed.

Lemma logged_is_list id s t xs : is_list s t xs → is_list (logged id s) t xs.
Proof. apply fills_is_list, fills_logged. Qed.

Lemma logged_ends id s t : ends s t → ends (logged id s) t.
Proof. apply (touches_ends nothing), fills_touches, fills_logged. Qed.

Lemma logged_idle id s j : idle s j → idle (logged id s) j.
Proof. done. Qed.

(** A list with [Empty] appended, against the list itself. *)
Lemma Equals_append_cells es :
  ∀ s p v w fuel,
    fresh_above s → room s (length es) → ends s Empty →
    is_list s v (val <$> es) → is_list s w (val <$> es) →
    Forall (represents s) es →
    thunks s !! p = Some (appendFunc v Empty) → idle s p →
    (length es + sizes es + 6 ≤ fuel)%nat →
    ∃ s', Equals fuel (Some p) w s = Ok true s' ∧ touches (only p) s s'.
Proof.
  induction es as [|e rest IH];
    intros s p v w fuel Hfresh Hroom Hends Hv Hw Hes Hp Hidle Hfuel;
    (destruct fuel as [|[|[|fuel]]]; [lia..|]);
    (destruct (force_is_list fuel (logged p s) v _ VNil ltac:(lia)
                 (logged_is_list _ _ _ _ Hv)) as (r1 & s1 & Hforce1 & Hfill1 & Hr1)).
  - simpl in Hr1. subst r1.
    destruct (force_ends fuel s1 Empty VNil ltac:(simpl in Hfuel; lia))
      as (s2 & Hforce2 & Hfill2).
    { apply (touches_ends nothing (logged p s)); [by apply fills_touches|].
      by apply logged_ends. }
    pose proof (call_append_none _ (logged p s) _ _ _ _ _ Hp Hforce1 Hforce2) as Hcall.
    assert (Htouch : touches nothing (logged p s) s2).
    { apply fills_touches. by eapply fills_trans. }
    destruct (force_idle (S fuel) p _ VNil s None s2 nothing Hidle Hp Hfresh
                ltac:(unfold nothing; tauto) Hcall Htouch) as (Hforce & Htouch' & _).
    destruct (force_ends (S (S fuel)) (cached s p None s2) w VNil ltac:(lia))
      as (s3 & Hforce3 & Hfill3).
    { exact (touches_ends _ _ _ _ Htouch' Hw). }
    exists s3. split; [by eapply Equals_nil|].
    eapply (touches_trans _ nothing); [|by apply fills_touches | touched].
    eapply touches_weaken; [|exact Htouch']. touched.
  - destruct Hr1 as (a1 & vtl & -> & Ha1 & Hvtl).
    rewrite sizes_cons in Hfuel. cbn [length] in Hfuel.
    apply Forall_cons in Hes as [He Hes].
    pose proof (fills_touches _ _ Hfill1) as Htouch1.
    assert (Hfresh1 : fresh_above s1) by (eapply fills_fresh; [done | by apply logged_fresh]).
    assert (Hroom1 : room s1 1).
    { eapply fills_room; [done|]. eapply room_le; [|exact Hroom]. simpl. lia. }
    pose proof (call_append_left _ (logged p s) _ _ _ _ _ _ _ Hp Hforce1 Ha1 Hroom1) as Hcall.
    destruct (alloc_push_spec (appendFunc vtl Empty) (val e) s1 Hfresh1 Hroom1
                ltac:(done) ltac:(done)) as (Htouch2 & Hi2 & Ha2 & Hp2 & Hidle2).
    set (s2 := push (mkPair (val e) (Some (thunkId s1 + 1)%N))
                    (alloc (appendFunc vtl Empty) s1)) in *.
    assert (Htouch12 : touches nothing (logged p s) s2).
    { eapply touches_trans; [exact Htouch1 | exact Htouch2 | touched]. }
    destruct (force_idle (S fuel) p _ VNil s _ s2 nothing Hidle Hp Hfresh
                ltac:(unfold nothing; tauto) Hcall Htouch12) as (Hforce & Htouch' & Hlast).
    set (s3 := cached s p (Some (length (pairs s1))) s2) in *.
    assert (Hp' : p ≠ (thunkId s1 + 1)%N).
    { apply (fresh_allocated _ _ _ Hfresh) in Hp.
      destruct Hfill1 as (_ & -> & _). simpl. lia. }
    destruct (force_is_list (S (S fuel)) s3 w (val <$> (e :: rest)) VNil ltac:(lia))
      as (r3 & s3' & Hforce3 & Hfill3' & (o & wtl & -> & Ho & Hwtl)).
    { exact (touches_is_list _ _ _ _ _ Htouch' Hw). }
    assert (Hfresh3 : fresh_above s3) by exact (touches_fresh _ _ _ Htouch' Hfresh).
    destruct (Equals_cons_elem _ _ _ _ _ _ _ _ e _ _ Hforce Hforce3
                (fills_pairs _ _ _ _ Hfill3' ltac:(by unfold s3; rewrite pairs_cached)) Ho)
      as (s4 & Hfill4 & Hturn); [|lia|].
    { apply (represents_keeps s); [|done]. apply (keeps_trans _ s3); [apply Htouch'|].
      by apply fills_keeps. }
    rewrite Hturn.
    pose proof (fills_trans _ _ _ Hfill3' Hfill4) as Hfill3.
    pose proof (fills_touches _ _ Hfill3) as Htouch3.
    apply (fills_is_list _ _ _ _ Hfill4) in Hwtl.
    assert (Hidle3 : idle s3 (thunkId s1 + 1)%N) by by apply idle_cached.
    assert (Hp3 : thunks s3 !! (thunkId s1 + 1)%N = Some (appendFunc vtl Empty))
      by by unfold s3; rewrite thunks_cached.
    destruct (touches_idle _ _ _ _ _ Htouch3 Hfresh3 ltac:(unfold nothing; tauto) Hp3 Hidle3)
      as [Hp4 Hidle4].
    destruct (IH s4 (thunkId s1 + 1)%N vtl wtl (S (S fuel))) as (s5 & Heq & Htouch5);
      try done.
    + by eapply touches_fresh.
    + eapply fills_room; [done|]. unfold room in *. unfold s3. rewrite thunkId_cached.
      destruct Hfill1 as (_ & Hi1 & _). simpl in *. lia.
    + apply (touches_ends _ _ _ _ Htouch3). exact (touches_ends _ _ _ _ Htouch' Hends).
    + apply (touches_is_list _ _ _ _ _ Htouch3). apply (touches_is_list _ _ _ _ _ Hlast).
      by apply (touches_is_list _ _ _ _ _ Htouch2).
    + apply (Forall_represents_touches _ _ _ _ Htouch3).
      exact (Forall_represents_touches _ _ _ _ Htouch' Hes).
    + lia.
    + exists s5. split; [done|].
      eapply (touches_trans _ _ s s4); [|exact Htouch5|].
      * eapply (touches_trans _ nothing); [|exact Htouch3 | touched].
        eapply touches_weaken; [|exact Htouch']. touched.
      * intros j ->. right. destruct Hfill1 as (_ & -> & _). simpl. lia.
Qed.

(** [take m us] is exhausted: the rest of the appended list is what [Drop]
    gives. *)
Lemma Equals_drop_phase s p a d u w t0 (m n0 : nat) us es0 fuel :
  us = [] ∨ m = 0%nat →
  fresh_above s → room s (S (length es0)) → ends s Empty →
  is_list s u us → is_list s w (val <$> drop n0 es0) → is_list s t0 (val <$> es0) →
  Forall (represents s) (drop n0 es0) →
  thunks s !! p = Some (appendFunc (Some a) (Some d)) → idle s p →
  thunks s !! a = Some (takeFunc u (Z.of_nat m)) → idle s a →
  thunks s !! d = Some (dropFunc t0 (Z.of_nat n0)) → idle s d →
  (2 * length es0 + sizes (drop n0 es0) + 10 ≤ fuel)%nat →
  ∃ s', Equals fuel (Some p) w s = Ok true s' ∧
        touches (λ j, j = p ∨ j = a ∨ j = d) s s'.
Proof.
  intros Hdone Hfresh Hroom Hends Hu Hw Ht0 Hes Hp Hidlep Ha Hidlea Hd Hidled Hfuel.
  destruct fuel as [|[|[|fuel]]]; [lia..|].
  assert (Hpa : p ≠ a) by (intros ->; congruence).
  assert (Hpd : p ≠ d) by (intros ->; congruence).
  assert (Had : a ≠ d) by (intros ->; congruence).
  (* the Thunk of Take gives nothing *)
  destruct (force_take fuel (logged p s) a u (Z.of_nat m) us ltac:(lia)
              (logged_fresh _ _ Hfresh)) as (r1 & s1 & Hforce1 & Htouch1 & Hr1);
    [|by apply logged_is_list | done | done |].
  { intros Hm Hus. destruct Hdone; [done | lia]. }
  assert (Hr1' : r1 = None ∧ thunkId s1 = thunkId s).
  { destruct us as [|y us']; [done|]. destruct Hdone as [? | ->]; [done|]. done. }
  destruct Hr1' as [-> Hi1]. clear Hr1.
  assert (Hfresh1 : fresh_above s1)
    by exact (touches_fresh _ _ _ Htouch1 (logged_fresh _ _ Hfresh)).
  destruct (touches_idle _ _ _ d _ Htouch1 (logged_fresh _ _ Hfresh)
              ltac:(unfold only; congruence) Hd Hidled) as [Hd1 Hidled1].
  (* the Thunk of Drop *)
  destruct (force_drop fuel s1 d t0 n0 (val <$> es0))
    as (r2 & s2 & Hforce2 & Htouch2 & Hi2 & Hr2);
    [by apply (touches_is_list _ _ _ _ _ Htouch1), logged_is_list | done..
    | rewrite length_fmap; lia |].
  rewrite <- fmap_drop in Hr2.
  assert (Htouch12 : touches (λ j, j = a ∨ j = d) (logged p s) s2).
  { eapply (touches_trans _ (only d) _ s1); [|exact Htouch2 | touched].
    eapply touches_weaken; [|exact Htouch1]. touched. }
  assert (Hfresh2 : fresh_above s2) by exact (touches_fresh _ _ _ Htouch2 Hfresh1).
  destruct (drop n0 es0) as [|e rest] eqn:Hdrop; simpl in Hr2.
  - subst r2.
    pose proof (call_append_none _ (logged p s) _ _ _ _ _ Hp Hforce1 Hforce2) as Hcall.
    destruct (force_idle (S fuel) p _ VNil s None s2 (λ j, j = a ∨ j = d) Hidlep Hp Hfresh
                ltac:(simpl; intros [?|?]; congruence) Hcall Htouch12)
      as (Hforce & Htouch' & _).
    destruct (force_ends (S (S fuel)) (cached s p None s2) w VNil ltac:(lia))
      as (s3 & Hforce3 & Hfill3).
    { exact (touches_ends _ _ _ _ Htouch' Hw). }
    exists s3. split; [by eapply Equals_nil|].
    eapply (touches_trans _ nothing); [exact Htouch' | by apply fills_touches | touched].
  - destruct Hr2 as (a2 & tl2 & -> & Ha2 & Htl2).
    rewrite sizes_cons in Hfuel.
    apply Forall_cons in Hes as [He Hes].
    assert (Hroom2 : room s2 1).
    { unfold room in *. rewrite Hi2, Hi1. lia. }
    pose proof (call_append_right _ (logged p s) _ _ _ _ _ _ _ _ Hp Hforce1 Hforce2 Ha2 Hroom2) as Hcall.
    destruct (alloc_push_spec (appendFunc tl2 Empty) (val e) s2 Hfresh2 Hroom2
                ltac:(done) ltac:(done)) as (Htouch3 & Hi3 & Ha3 & Hp3 & Hidle3).
    set (s3 := push (mkPair (val e) (Some (thunkId s2 + 1)%N))
                    (alloc (appendFunc tl2 Empty) s2)) in *.
    assert (Htouch13 : touches (λ j, j = a ∨ j = d) (logged p s) s3).
    { eapply (touches_trans _ nothing); [exact Htouch12 | exact Htouch3 | touched]. }
    destruct (force_idle (S fuel) p _ VNil s _ s3 (λ j, j = a ∨ j = d) Hidlep Hp Hfresh
                ltac:(simpl; intros [?|?]; congruence) Hcall Htouch13)
      as (Hforce & Htouch' & Hlast).
    set (s4 := cached s p (Some (length (pairs s2))) s3) in *.
    assert (Hp' : p ≠ (thunkId s2 + 1)%N).
    { apply (fresh_allocated _ _ _ Hfresh) in Hp. lia. }
    destruct (force_is_list (S (S fuel)) s4 w (val <$> (e :: rest)) VNil ltac:(lia))
      as (r5 & s4' & Hforce5 & Hfill5' & (o & wtl & -> & Ho & Hwtl)).
    { exact (touches_is_list _ _ _ _ _ Htouch' Hw). }
    assert (Hfresh4 : fresh_above s4) by exact (touches_fresh _ _ _ Htouch' Hfresh).
    destruct (Equals_cons_elem _ _ _ _ _ _ _ _ e _ _ Hforce Hforce5
                (fills_pairs _ _ _ _ Hfill5' ltac:(by unfold s4; rewrite pairs_cached)) Ho)
      as (s5 & Hfill5a & Hturn); [|lia|].
    { apply (represents_keeps s); [|done]. apply (keeps_trans _ s4); [apply Htouch'|].
      by apply fills_keeps. }
    rewrite Hturn.
    pose proof (fills_trans _ _ _ Hfill5' Hfill5a) as Hfill5.
    pose proof (fills_touches _ _ Hfill5) as Htouch5.
    apply (fills_is_list _ _ _ _ Hfill5a) in Hwtl.
    assert (Hidle4 : idle s4 (thunkId s2 + 1)%N) by by apply idle_cached.
    assert (Hp4 : thunks s4 !! (thunkId s2 + 1)%N = Some (appendFunc tl2 Empty))
      by by unfold s4; rewrite thunks_cached.
    destruct (touches_idle _ _ _ _ _ Htouch5 Hfresh4 ltac:(unfold nothing; tauto) Hp4 Hidle4)
      as [Hp5 Hidle5].
    assert (Hlen : (length rest < length es0)%nat).
    { assert (length (drop n0 es0) ≤ length es0)%nat by (rewrite length_drop; lia).
      rewrite Hdrop in H. simpl in H. lia. }
    destruct (Equals_append_cells rest s5 (thunkId s2 + 1)%N tl2 wtl (S (S fuel)))
      as (s6 & Heq & Htouch6); try done.
    + by eapply touches_fresh.
    + eapply fills_room; [done|]. unfold room in *. unfold s4. rewrite thunkId_cached.
      simpl in *. lia.
    + apply (touches_ends _ _ _ _ Htouch5). exact (touches_ends _ _ _ _ Htouch' Hends).
    + apply (touches_is_list _ _ _ _ _ Htouch5). apply (touches_is_list _ _ _ _ _ Hlast).
      by apply (touches_is_list _ _ _ _ _ Htouch3).
    + apply (Forall_represents_touches _ _ _ _ Htouch5).
      exact (Forall_represents_touches _ _ _ _ Htouch' Hes).
    + lia.
    + exists s6. split; [done|].
      eapply (touches_trans _ _ s s5); [|exact Htouch6|].
      * eapply (touches_trans _ nothing); [exact Htouch' | exact Htouch5 | touched].
      * intros j ->. right. lia.
Qed.

(** The list [Take(m)] of [u] followed by [Drop(n0)] of [t0], against a list
    with those elements. *)
Lemma Equals_take_drop us :
  ∀ s p a d u w t0 (m n0 : nat) es0 fuel,
    fresh_above s → room s (2 * length us + length es0 + 1) → ends s Empty →
    is_list s u (val <$> us) → is_list s w (val <$> (take m us ++ drop n0 es0)) →
    is_list s t0 (val <$> es0) →
    Forall (represents s) (take m us ++ drop n0 es0) →
    thunks s !! p = Some (appendFunc (Some a) (Some d)) → idle s p →
    thunks s !! a = Some (takeFunc u (Z.of_nat m)) → idle s a →
    thunks s !! d = Some (dropFunc t0 (Z.of_nat n0)) → idle s d →
    (length us + 2 * length es0 + sizes (take m us ++ drop n0 es0) + 10 ≤ fuel)%nat →
    ∃ s', Equals fuel (Some p) w s = Ok true s' ∧
          touches (λ j, j = p ∨ j = a ∨ j = d) s s'.
Proof.
  induction us as [|e us' IH];
    intros s p a d u w t0 m n0 es0 fuel Hfresh Hroom Hends Hu Hw Ht0 Hes
           Hp Hidlep Ha Hidlea Hd Hidled Hfuel.
  - rewrite take_nil in Hw, Hes, Hfuel. rewrite app_nil_l in Hw, Hes, Hfuel.
    cbn [length] in Hfuel.
    apply (Equals_drop_phase s p a d u w t0 m n0 [] es0 fuel); try done;
      first [by left | eapply room_le; [|exact Hroom]; simpl; lia | lia].
  - destruct m as [|m].
    { rewrite take_0 in Hw, Hes, Hfuel. rewrite app_nil_l in Hw, Hes, Hfuel.
      cbn [length] in Hfuel.
      apply (Equals_drop_phase s p a d u w t0 0 n0 (val <$> (e :: us')) es0 fuel);
        try done;
        first [by right | eapply room_le; [|exact Hroom]; simpl; lia | lia]. }
    cbn [take] in Hw, Hes, Hfuel. rewrite <- app_comm_cons in Hw, Hes, Hfuel.
    rewrite sizes_cons in Hfuel. cbn [length] in Hfuel, Hroom.
    destruct fuel as [|[|[|fuel]]]; [lia..|].
    assert (Hpa : p ≠ a) by (intros ->; congruence).
    assert (Hpd : p ≠ d) by (intros ->; congruence).
    assert (Had : a ≠ d) by (intros ->; congruence).
    destruct (force_take fuel (logged p s) a u (Z.of_nat (S m)) (val <$> (e :: us'))
                ltac:(lia) (logged_fresh _ _ Hfresh))
      as (r1 & s1 & Hforce1 & Htouch1 & Hr1);
      [|by apply logged_is_list | done | done |].
    { intros _ _. eapply room_le; [|exact Hroom]. simpl. lia. }
    rewrite fmap_cons in Hr1.
    replace (0 <? Z.of_nat (S m)) with true in Hr1 by (symmetry; apply Z.ltb_lt; lia).
    destruct Hr1 as (a1 & utl & -> & Hi1 & Ha1 & Ha' & Hidlea' & Hutl).
    replace (Z.of_nat (S m) - 1) with (Z.of_nat m) in Ha' by lia.
    change (thunkId (logged p s)) with (thunkId s) in Hi1, Ha1, Ha', Hidlea'.
    assert (Hfresh1 : fresh_above s1)
      by exact (touches_fresh _ _ _ Htouch1 (logged_fresh _ _ Hfresh)).
    assert (Hroom1 : room s1 1).
    { unfold room in *. rewrite Hi1. lia. }
    pose proof (call_append_left _ (logged p s) _ _ _ _ _ _ _ Hp Hforce1 Ha1 Hroom1) as Hcall.
    destruct (alloc_push_spec (appendFunc (Some (thunkId s + 1)%N) (Some d)) (val e) s1
                Hfresh1 Hroom1 ltac:(done) ltac:(done))
      as (Htouch2 & Hi2 & Ha2 & Hp2 & Hidle2).
    set (s2 := push (mkPair (val e) (Some (thunkId s1 + 1)%N))
                    (alloc (appendFunc (Some (thunkId s + 1)%N) (Some d)) s1)) in *.
    assert (Htouch12 : touches (only a) (logged p s) s2).
    { eapply (touches_trans _ nothing); [exact Htouch1 | exact Htouch2 | touched]. }
    destruct (force_idle (S fuel) p _ VNil s _ s2 (only a) Hidlep Hp Hfresh
                ltac:(unfold only; congruence) Hcall Htouch12)
      as (Hforce & Htouch' & Hlast).
    set (s3 := cached s p (Some (length (pairs s1))) s2) in *.
    assert (Hfresh3 : fresh_above s3) by exact (touches_fresh _ _ _ Htouch' Hfresh).
    destruct (force_is_list (S (S fuel)) s3 w _ VNil ltac:(lia)
                (touches_is_list _ _ _ _ _ Htouch' Hw))
      as (r4 & s3' & Hforce4 & Hfill4' & (o & wtl & -> & Ho & Hwtl)).
    apply Forall_cons in Hes as [He Hes].
    destruct (Equals_cons_elem _ _ _ _ _ _ _ _ e _ _ Hforce Hforce4
                (fills_pairs _ _ _ _ Hfill4' ltac:(by unfold s3; rewrite pairs_cached)) Ho)
      as (s4 & Hfill4a & Hturn); [|lia|].
    { apply (represents_keeps s); [|done]. apply (keeps_trans _ s3); [apply Htouch'|].
      by apply fills_keeps. }
    rewrite Hturn.
    pose proof (fills_trans _ _ _ Hfill4' Hfill4a) as Hfill4.
    pose proof (fills_touches _ _ Hfill4) as Htouch4.
    apply (fills_is_list _ _ _ _ Hfill4a) in Hwtl.
    assert (Hallocp : (p ≤ thunkId s)%N) by exact (fresh_allocated _ _ _ Hfresh Hp).
    (* the three pending Thunks in the state of the next turn *)
    assert (Hnext : ∀ j f, j ≠ p → thunks s2 !! j = Some f → idle s2 j →
                      thunks s4 !! j = Some f ∧ idle s4 j).
    { intros j f Hj Hf Hidlej.
      apply (touches_idle _ _ _ _ _ Htouch4 Hfresh3 ltac:(unfold nothing; tauto)).
      - by unfold s3; rewrite thunks_cached.
      - by apply idle_cached. }
    destruct (touches_idle _ _ _ d _ Htouch12 (logged_fresh _ _ Hfresh)
                ltac:(unfold only; congruence) Hd Hidled) as [Hd2 Hidled2].
    destruct (Hnext d _ ltac:(congruence) Hd2 Hidled2) as [Hd4 Hidled4].
    destruct (touches_idle _ _ _ (thunkId s + 1)%N _ Htouch2 Hfresh1
                ltac:(unfold nothing; tauto) Ha' Hidlea') as [Ha2' Hidlea2].
    destruct (Hnext (thunkId s + 1)%N _ ltac:(lia) Ha2' Hidlea2) as [Ha4 Hidlea4].
    destruct (Hnext (thunkId s1 + 1)%N _ ltac:(lia) Hp2 Hidle2) as [Hp4 Hidlep4].
    destruct (IH s4 (thunkId s1 + 1)%N (thunkId s + 1)%N d utl wtl t0 m n0 es0 (S (S fuel)))
      as (s5 & Heq & Htouch5); try done.
    + by eapply touches_fresh.
    + eapply fills_room; [done|]. unfold room in *. unfold s3. rewrite thunkId_cached.
      simpl in *. lia.
    + apply (touches_ends _ _ _ _ Htouch4). exact (touches_ends _ _ _ _ Htouch' Hends).
    + apply (touches_is_list _ _ _ _ _ Htouch4). apply (touches_is_list _ _ _ _ _ Hlast).
      by apply (touches_is_list _ _ _ _ _ Htouch2).
    + apply (touches_is_list _ _ _ _ _ Htouch4). exact (touches_is_list _ _ _ _ _ Htouch' Ht0).
    + apply (Forall_represents_touches _ _ _ _ Htouch4).
      exact (Forall_represents_touches _ _ _ _ Htouch' Hes).
    + lia.
    + exists s5. split; [done|].
      eapply (touches_trans _ _ s s4); [|exact Htouch5|].
      * eapply (touches_trans _ nothing); [|exact Htouch4 | touched].
        eapply touches_weaken; [|exact Htouch']. touched.
      * intros j [-> | [-> | ->]]; [right; lia | right; lia | by left; right; right].
Qed.

(** ** The take/drop partition law *)

(** C8, amended.  For a finite list whose elements are plain values (equal
    to themselves under [==]: booleans, integers, strings, nil, floats other
    than NaN) or finite lists of such elements, nested to any depth, and a
    [uint] [n], [L.Take(n).Append(L.Drop(n)).Equals(L)] returns [true], and
    [L] is still the same list afterwards. *)
Theorem Take_Append_Drop_Equals s t es (n : nat) fuel :
  fresh_above s → room s (3 * length es + 4) → ends s Empty →
  is_list s t (val <$> es) → Forall (represents s) es →
  Z.of_nat n < 2 ^ 64 →
  (3 * length es + sizes es + 10 ≤ fuel)%nat →
  ∃ s', takeDropEquals fuel t (Z.of_nat n) s = Ok true s' ∧
        is_list s' t (val <$> es).
Proof.
  intros Hfresh Hroom Hends Hlist Hes Hn Hfuel. unfold takeDropEquals, Take, Drop, Append.
  assert (Hroom1 : room s 1) by (eapply room_le; [|exact Hroom]; lia).
  rewrite (bind_eq _ _ _ _ _ (newThunk_alloc _ _ Hroom1)).
  pose proof (touches_alloc (takeFunc t (Z.of_nat n)) s Hfresh Hroom1) as Htouch1.
  set (s1 := alloc (takeFunc t (Z.of_nat n)) s) in *.
  assert (Hfresh1 : fresh_above s1) by by eapply touches_fresh.
  assert (Hroom2 : room s1 1) by (unfold room in *; simpl; lia).
  rewrite (bind_eq _ _ _ _ _ (newThunk_alloc _ _ Hroom2)).
  pose proof (touches_alloc (dropFunc t (Z.of_nat n)) s1 Hfresh1 Hroom2) as Htouch2.
  set (s2 := alloc (dropFunc t (Z.of_nat n)) s1) in *.
  assert (Hfresh2 : fresh_above s2) by by eapply touches_fresh.
  assert (Hroom3 : room s2 1) by (unfold room in *; simpl; lia).
  rewrite (bind_eq _ _ _ _ _ (newThunk_alloc _ _ Hroom3)).
  pose proof (touches_alloc (appendFunc (Some (thunkId s + 1)%N) (Some (thunkId s1 + 1)%N))
                s2 Hfresh2 Hroom3) as Htouch3.
  set (s3 := alloc (appendFunc (Some (thunkId s + 1)%N) (Some (thunkId s1 + 1)%N)) s2) in *.
  assert (Htouch : touches nothing s s3).
  { apply (touches_trans nothing nothing s s1); [exact Htouch1 | | touched].
    apply (touches_trans nothing nothing s1 s2); [exact Htouch2 | exact Htouch3 | touched]. }
  assert (Hlist3 : is_list s3 t (val <$> es))
    by exact (touches_is_list _ _ _ _ _ Htouch Hlist).
  (* the three Thunks *)
  assert (Ha1 : thunks s1 !! (thunkId s + 1)%N = Some (takeFunc t (Z.of_nat n)))
    by (simpl; apply lookup_insert_eq).
  assert (Hidlea1 : idle s1 (thunkId s + 1)%N) by by apply idle_alloc.
  destruct (touches_idle _ _ _ _ _ Htouch2 Hfresh1 ltac:(unfold nothing; tauto) Ha1 Hidlea1)
    as [Ha2 Hidlea2].
  destruct (touches_idle _ _ _ _ _ Htouch3 Hfresh2 ltac:(unfold nothing; tauto) Ha2 Hidlea2)
    as [Ha3 Hidlea3].
  assert (Hd2 : thunks s2 !! (thunkId s1 + 1)%N = Some (dropFunc t (Z.of_nat n)))
    by (simpl; apply lookup_insert_eq).
  assert (Hidled2 : idle s2 (thunkId s1 + 1)%N) by by apply idle_alloc.
  destruct (touches_idle _ _ _ _ _ Htouch3 Hfresh2 ltac:(unfold nothing; tauto) Hd2 Hidled2)
    as [Hd3 Hidled3].
  assert (Hp3 : thunks s3 !! (thunkId s2 + 1)%N
                = Some (appendFunc (Some (thunkId s + 1)%N) (Some (thunkId s1 + 1)%N)))
    by (simpl; apply lookup_insert_eq).
  assert (Hidlep3 : idle s3 (thunkId s2 + 1)%N) by by apply idle_alloc.
  destruct (Equals_take_drop es s3 (thunkId s2 + 1)%N (thunkId s + 1)%N (thunkId s1 + 1)%N
              t t t n n es fuel) as (s' & Heq & Htouch'); try done.
  - exact (touches_fresh _ _ _ Htouch Hfresh).
  - unfold room in *. simpl. lia.
  - exact (touches_ends _ _ _ _ Htouch Hends).
  - by rewrite take_drop.
  - rewrite take_drop. exact (Forall_represents_touches _ _ _ _ Htouch Hes).
  - rewrite take_drop. lia.
  - exists s'. split; [done|]. exact (touches_is_list _ _ _ _ _ Htouch' Hlist3).
Qed.

(** [l.Take(2).Append(l.Drop(2)).Equals(l)] for [l := L(1, L(2, 3), 4)] *)
Lemma Take_Append_Drop_Equals_witness :
  let s := state_of (nestedExample init) in
  let es := [Plain (VInt int 1);
             Sub (Some 3%N) [Plain (VInt int 2); Plain (VInt int 3)];
             Plain (VInt int 4)] in
  ∃ s', takeDropEquals 23 (Some 6%N) 2 s = Ok true s' ∧
        is_list s' (Some 6%N) (val <$> es).
Proof.
  intros s es.
  assert (Hlist : is_list s (Some 6%N) (val <$> es)) by concrete_list.
  assert (Hsub : is_list s (Some 3%N) (ints [2; 3])) by concrete_list.
  assert (Hfresh : fresh_above s) by concrete_fresh.
  assert (Hends : ends s Empty) by (right; by vm_compute).
  assert (Hes : Forall (represents s) es).
  { repeat first [apply Forall_cons; split | apply Forall_nil];
      first [exact (conj Hsub (conj eq_refl (conj eq_refl Logic.I))) | reflexivity]. }
  apply (Take_Append_Drop_Equals s (Some 6%N) es 2 23 Hfresh);
    first [done | concrete_side].
Defined.

(** C8 as worded fails on the code.  [L([]I{}).Take(0).Append(L.Drop(0))
    .Equals(L)] compares a slice with itself: [==] on two values of the same
    uncomparable type panics.  With a NaN element the comparison is false. *)
Lemma partition_law_counterexample :
  ¬ partition_law_for_all_lists ∧
  outcome ((let* l := L [VSlice []] in takeDropEquals 13 l 0) init)
    = Some (inl Uncomparable) ∧
  outcome ((let* l := L [VFloat float64 nan] in takeDropEquals 13 l 0) init)
    = Some (inr false).
Proof.
  split; [|split; vm_compute; reflexivity].
  intros Hlaw.
  set (s := state_of (L [VSlice []] init)).
  assert (Hlist : is_list s (Some 2%N) [VSlice []]) by concrete_list.
  assert (Hfresh : fresh_above s) by concrete_fresh.
  assert (Hends : ends s Empty) by (right; by vm_compute).
  destruct (Hlaw s (Some 2%N) [VSlice []] 0%nat 13%nat Hfresh) as (s' & Hrun);
    [concrete_side.. | done | done | concrete_side |].
  vm_compute in Hrun. discriminate Hrun.
Qed.

(** * Further properties of the package *)

(** ** Lists built by [List] and read back *)

Lemma List_spec items :
  ∀ s, fresh_above s → room s (length items) → ends s Empty →
    ∃ t s', List items s = Ok t s' ∧ touches nothing s s' ∧
            thunkId s' = (thunkId s + N.of_nat (length items))%N ∧
            is_list s' t items.
Proof.
  induction items as [|x rest IH]; intros s Hfresh Hroom Hends.
  - exists Empty, s. split; [done|]. split; [apply touches_refl|].
    split; [simpl; lia | done].
  - cbn [List length] in *.
    destruct (IH s) as (t & s1 & HL & Htouch & Hi & Hlist);
      [done | eapply room_le; [|exact Hroom]; lia | done |].
    rewrite (bind_eq _ _ _ _ _ HL). unfold Link.
    assert (Hfresh1 : fresh_above s1) by by eapply touches_fresh.
    assert (Hroom1 : room s1 1) by (unfold room in *; lia).
    rewrite (newThunk_alloc _ _ Hroom1).
    eexists _, _. split; [done|]. split_and!.
    + eapply touches_trans; [exact Htouch | by apply touches_alloc | touched].
    + simpl. lia.
    + by apply is_list_alloc_link.
Qed.

Lemma ToSlice_list xs :
  ∀ s t fuel,
    is_list s t xs → (length xs + 3 ≤ fuel)%nat →
    ∃ s', ToSlice fuel t s = Ok xs s' ∧ fills s s'.
Proof.
  induction xs as [|x rest IH]; intros s t fuel Hlist Hfuel;
    (destruct fuel as [|fuel]; [lia|]); cbn [ToSlice length] in *;
    destruct (force_is_list fuel s t _ VNil ltac:(lia) Hlist)
      as (r & s1 & Hforce & Hfill & Hr);
    rewrite (bind_eq _ _ _ _ _ Hforce).
  - subst r. by exists s1.
  - destruct Hr as (a & tl & -> & Ha & Htl). cbn beta iota.
    rewrite (bind_eq _ _ _ _ _ (deref_eq _ _ _ Ha)). cbn [p_head p_tail].
    destruct (IH s1 tl fuel Htl) as (s2 & Hrest & Hfill2); [lia|].
    rewrite (bind_eq _ _ _ _ _ Hrest). exists s2.
    split; [done | by eapply fills_trans].
Qed.

(** X1.  [ToSlice] of a finite list returns its elements in order; only Thunks
    of [Link] and [Empty] are forced and the list is the same list
    afterwards. *)
Theorem ToSlice_of_list s t xs fuel :
  is_list s t xs → (length xs + 3 ≤ fuel)%nat →
  ∃ s', ToSlice fuel t s = Ok xs s' ∧ fills s s' ∧ is_list s' t xs.
Proof.
  intros Hlist Hfuel.
  destruct (ToSlice_list xs s t fuel Hlist Hfuel) as (s' & Hrun & Hfill).
  exists s'. split; [done|]. split; [done | by eapply fills_is_list].
Qed.

Lemma ToSlice_of_list_witness :
  let s := state_of (L (ints [1; 2; 3]) init) in
  ∃ s', ToSlice 6 (Some 4%N) s = Ok (ints [1; 2; 3]) s' ∧ fills s s' ∧
        is_list s' (Some 4%N) (ints [1; 2; 3]).
Proof.
  intros s.
  assert (Hlist : is_list s (Some 4%N) (ints [1; 2; 3])) by concrete_list.
  apply (ToSlice_of_list s (Some 4%N) (ints [1; 2; 3]) 6 Hlist). simpl. lia.
Defined.

(** X2.  [List(items...)] (and [L]) followed by [ToSlice] gives [items]
    back, in any state in which [Empty] is intact and the counter of
    identifiers has room for one Thunk per item. *)
Theorem List_ToSlice_round_trip items s fuel :
  fresh_above s → room s (length items) → ends s Empty →
  (length items + 3 ≤ fuel)%nat →
  ∃ s', (let* t := L items in ToSlice fuel t) s = Ok items s'.
Proof.
  intros Hfresh Hroom Hends Hfuel. unfold L.
  destruct (List_spec items s Hfresh Hroom Hends) as (t & s1 & HL & _ & _ & Hlist).
  rewrite (bind_eq _ _ _ _ _ HL).
  destruct (ToSlice_list items s1 t fuel Hlist Hfuel) as (s' & Hrun & _).
  by exists s'.
Qed.

Lemma List_ToSlice_round_trip_witness :
  ∃ s', (let* t := L [VString "a"; VNil; VSlice [VBool true]] in ToSlice 6 t) init
        = Ok [VString "a"; VNil; VSlice [VBool true]] s'.
Proof.
  apply (List_ToSlice_round_trip [VString "a"; VNil; VSlice [VBool true]] init 6).
  - concrete_fresh.
  - unfold room. vm_compute. done.
  - right. by vm_compute.
  - simpl. lia.
Defined.

(** X3.  [SliceToList] of a slice followed by [ToSlice] gives the slice back;
    [SliceToList] of anything that is not a slice is the nil list, whose
    [ToSlice] is empty. *)
Theorem SliceToList_ToSlice_round_trip x s fuel :
  fresh_above s → ends s Empty →
  (∀ xs, x = VSlice xs → room s (length xs) ∧ (length xs + 3 ≤ fuel)%nat) →
  (2 ≤ fuel)%nat →
  ∃ s', (let* t := SliceToList x in ToSlice fuel t) s
        = Ok (match x with VSlice xs => xs | _ => [] end) s'.
Proof.
  intros Hfresh Hends Hslice Hfuel.
  destruct x as [| ? | ? ? | ? ? | ? ? | ? | ? | xs];
    try (destruct fuel as [|[|fuel]]; [lia..|]; by exists s).
  destruct (Hslice xs eq_refl) as [Hroom Hfuel'].
  destruct (SliceToList_spec s xs Hfresh Hroom Hends) as (t & s1 & HS & _ & _ & Hlist).
  rewrite (bind_eq _ _ _ _ _ HS).
  destruct (ToSlice_list xs s1 t fuel Hlist Hfuel') as (s' & Hrun & _).
  by exists s'.
Qed.

Lemma SliceToList_ToSlice_round_trip_witness :
  (∃ s', (let* t := SliceToList (VSlice (ints [7; 8])) in ToSlice 5 t) init
         = Ok (ints [7; 8]) s') ∧
  (∃ s', (let* t := SliceToList (VInt int 7) in ToSlice 5 t) init = Ok [] s').
Proof.
  split.
  - apply (SliceToList_ToSlice_round_trip (VSlice (ints [7; 8])) init 5);
      [concrete_fresh | right; by vm_compute | | lia].
    intros xs [= <-]. split; [unfold room; by vm_compute | simpl; lia].
  - apply (SliceToList_ToSlice_round_trip (VInt int 7) init 5);
      [concrete_fresh | right; by vm_compute | done | lia].
Defined.

(** ** Length, Head and Tail *)

Lemma lengthFrom_list xs :
  ∀ s t ret_ fuel,
    is_list s t xs → 0 ≤ ret_ → ret_ + Z.of_nat (length xs) < 2 ^ 63 →
    (length xs + 3 ≤ fuel)%nat →
    ∃ s', lengthFrom fuel t ret_ s = Ok (ret_ + Z.of_nat (length xs)) s' ∧
          fills s s'.
Proof.
  induction xs as [|x rest IH]; intros s t ret_ fuel Hlist Hret Hmax Hfuel;
    unfold lengthFrom; cbn [length] in *;
    destruct (force_is_list fuel s t _ VNil ltac:(lia) Hlist)
      as (r & s1 & Hforce & Hfill & Hr);
    rewrite (bind_eq _ _ _ _ _ Hforce);
    (destruct fuel as [|fuel]; [lia|]); cbn [lengthLoop].
  - subst r. exists s1. split; [|done]. unfold ret. do 2 f_equal. lia.
  - destruct Hr as (a & tl & -> & Ha & Htl).
    rewrite (bind_eq _ _ _ _ _ (deref_eq _ _ _ Ha)). cbn [p_head p_tail].
    rewrite wrapInt_small by lia.
    destruct (IH s1 tl (ret_ + 1) fuel Htl) as (s2 & Hwalk & Hfill2); [lia..|].
    unfold lengthFrom in Hwalk. rewrite Hwalk. exists s2. split.
    + f_equal. lia.
    + by eapply fills_trans.
Qed.

(** X4.  [Length] of a finite list of fewer than 2^63 elements is the number
    of its elements. *)
Theorem Length_of_list s t xs fuel :
  is_list s t xs → Z.of_nat (length xs) < 2 ^ 63 →
  (length xs + 3 ≤ fuel)%nat →
  ∃ s', Length fuel t s = Ok (Z.of_nat (length xs)) s' ∧ is_list s' t xs.
Proof.
  intros Hlist Hlen Hfuel.
  destruct (lengthFrom_list xs s t 0 fuel Hlist) as (s' & Hrun & Hfill);
    [lia | lia | done |].
  exists s'. split; [exact Hrun | by eapply fills_is_list].
Qed.

Lemma Length_of_list_witness :
  let s := state_of (L (ints [1; 2; 3]) init) in
  ∃ s', Length 6 (Some 4%N) s = Ok 3 s' ∧ is_list s' (Some 4%N) (ints [1; 2; 3]).
Proof.
  intros s.
  assert (Hlist : is_list s (Some 4%N) (ints [1; 2; 3])) by concrete_list.
  apply (Length_of_list s (Some 4%N) (ints [1; 2; 3]) 6 Hlist); simpl; lia.
Defined.

(** X5.  [Head] and [Tail] of a non-empty finite list return its first
    element and the list of the other elements; on an empty list (and on the
    nil list) both panic with a nil pointer dereference. *)
Theorem Head_Tail_of_list s t xs fuel :
  is_list s t xs → (2 ≤ fuel)%nat →
  match xs with
  | [] => Head fuel t s = Panic NilDereference ∧
          Tail fuel t s = Panic NilDereference
  | x :: rest =>
      (∃ s', Head fuel t s = Ok x s' ∧ fills s s') ∧
      (∃ tl s', Tail fuel t s = Ok tl s' ∧ fills s s' ∧ is_list s' tl rest)
  end.
Proof.
  intros Hlist Hfuel. unfold Head, Tail.
  destruct (force_is_list fuel s t xs VNil Hfuel Hlist) as (r & s1 & Hforce & Hfill & Hr).
  rewrite !(bind_eq _ _ _ _ _ Hforce).
  destruct xs as [|x rest].
  - by subst r.
  - destruct Hr as (a & tl & -> & Ha & Htl).
    rewrite !(bind_eq _ _ _ _ _ (deref_eq _ _ _ Ha)). cbn [p_head p_tail].
    split; [by exists s1 | by exists tl, s1].
Qed.

Lemma Head_Tail_of_list_witness :
  let s := state_of (L (ints [1; 2; 3]) init) in
  ((∃ s', Head 2 (Some 4%N) s = Ok (VInt int 1) s' ∧ fills s s') ∧
   (∃ tl s', Tail 2 (Some 4%N) s = Ok tl s' ∧ fills s s' ∧
             is_list s' tl (ints [2; 3]))) ∧
  Head 2 Empty s = Panic NilDereference ∧ Tail 2 Empty s = Panic NilDereference.
Proof.
  intros s.
  assert (Hlist : is_list s (Some 4%N) (ints [1; 2; 3])) by concrete_list.
  assert (Hends : is_list s Empty []) by (right; by vm_compute).
  split.
  - exact (Head_Tail_of_list s (Some 4%N) (ints [1; 2; 3]) 2 Hlist ltac:(lia)).
  - exact (Head_Tail_of_list s Empty [] 2 Hends ltac:(lia)).
Defined.

(** ** Any and All *)

Lemma Any_list f xs :
  ∀ s t fuel,
    is_list s t xs → (length xs + 3 ≤ fuel)%nat →
    answer (Any fuel t f s) (anyOf f xs).
Proof.
  induction xs as [|x rest IH]; intros s t fuel Hlist Hfuel;
    (destruct fuel as [|fuel]; [lia|]); cbn [Any anyOf length] in *;
    destruct (force_is_list fuel s t _ VNil ltac:(lia) Hlist)
      as (r & s1 & Hforce & Hfill & Hr);
    rewrite (bind_eq _ _ _ _ _ Hforce).
  - by subst r.
  - destruct Hr as (a & tl & -> & Ha & Htl). cbn beta iota.
    rewrite (bind_eq _ _ _ _ _ (deref_eq _ _ _ Ha)). cbn [p_head p_tail].
    destruct (f x) as [e | [|]]; [done | done |].
    unfold bind at 1. simpl. apply IH; [done | lia].
Qed.

Lemma All_list f xs :
  ∀ s t fuel,
    is_list s t xs → (length xs + 3 ≤ fuel)%nat →
    answer (All fuel t f s) (allOf f xs).
Proof.
  induction xs as [|x rest IH]; intros s t fuel Hlist Hfuel;
    (destruct fuel as [|fuel]; [lia|]); cbn [All allOf length] in *;
    destruct (force_is_list fuel s t _ VNil ltac:(lia) Hlist)
      as (r & s1 & Hforce & Hfill & Hr);
    rewrite (bind_eq _ _ _ _ _ Hforce).
  - by subst r.
  - destruct Hr as (a & tl & -> & Ha & Htl). cbn beta iota.
    rewrite (bind_eq _ _ _ _ _ (deref_eq _ _ _ Ha)). cbn [p_head p_tail].
    destruct (f x) as [e | [|]]; [done | | done].
    unfold bind at 1. simpl. apply IH; [done | lia].
Qed.

(** X6.  On a finite list [Any(f)] is true when [f] accepts some element and
    [All(f)] when it accepts every element; both ask [f] about the elements
    in order and stop at the first one that decides, so a panic of [f] is the
    outcome only when no earlier element decided. *)
Theorem Any_All_of_list s t xs f fuel :
  is_list s t xs → (length xs + 3 ≤ fuel)%nat →
  answer (Any fuel t f s) (anyOf f xs) ∧ answer (All fuel t f s) (allOf f xs).
Proof.
  intros Hlist Hfuel. split; [by apply Any_list | by apply All_list].
Qed.

Lemma Any_All_of_list_witness :
  let s := state_of (L [VInt int 1; VInt int 5; VString "x"] init) in
  let big x := match x with VInt _ z => inr (2 <? z) | _ => inl TypeAssertion end in
  let small x := match x with VInt _ z => inr (z <? 9) | _ => inl TypeAssertion end in
  (answer (Any 6 (Some 4%N) big s) (inr true) ∧
   answer (All 6 (Some 4%N) big s) (inr false)) ∧
  (answer (Any 6 (Some 4%N) small s) (inr true) ∧
   answer (All 6 (Some 4%N) small s) (inl TypeAssertion)).
Proof.
  intros s big small.
  assert (Hlist : is_list s (Some 4%N) [VInt int 1; VInt int 5; VString "x"])
    by concrete_list.
  split.
  - exact (Any_All_of_list s (Some 4%N) _ big 6 Hlist ltac:(simpl; lia)).
  - exact (Any_All_of_list s (Some 4%N) _ small 6 Hlist ltac:(simpl; lia)).
Defined.

(** ** Equals where two lists stop agreeing *)

(** The loop of [Equals] over a common prefix. *)
Lemma Equals_common es :
  ∀ s t u xs ys k,
    is_list s t ((val <$> es) ++ xs) → is_list s u ((val <$> es) ++ ys) →
    Forall (represents s) es → (sizes es + 2 ≤ k)%nat →
    ∃ s' t' u', fills s s' ∧ is_list s' t' xs ∧ is_list s' u' ys ∧
                Equals (length es + k) t u s = Equals k t' u' s'.
Proof.
  induction es as [|e es IH]; intros s t u xs ys k Ht Hu Hes Hk.
  - exists s, t, u. split; [apply fills_refl | done].
  - rewrite sizes_cons in Hk. rewrite fmap_cons, <- app_comm_cons in Ht, Hu.
    apply Forall_cons in Hes as [He Hes]. cbn [length].
    change (S (length es) + k)%nat with (S (length es + k)).
    destruct (force_is_list (length es + k) s t _ VNil ltac:(lia) Ht)
      as (r1 & s1 & Hf1 & Hfill1 & (a & tl & -> & Ha & Htl)).
    destruct (force_is_list (length es + k) s1 u _ VNil ltac:(lia)
                (fills_is_list _ _ _ _ Hfill1 Hu))
      as (r2 & s2 & Hf2 & Hfill2 & (o & utl & -> & Ho & Hutl)).
    pose proof (fills_trans _ _ _ Hfill1 Hfill2) as Hfill12.
    destruct (Equals_cons_elem _ _ _ _ _ _ _ _ e _ _ Hf1 Hf2
                (fills_pairs _ _ _ _ Hfill2 Ha) Ho) as (s3 & Hfill3 & Hturn).
    { apply (represents_keeps s); [by apply fills_keeps | done]. }
    { lia. }
    rewrite Hturn.
    pose proof (fills_trans _ _ _ Hfill12 Hfill3) as Hfill13.
    destruct (IH s3 tl utl xs ys k) as (s' & t' & u' & Hfill' & Ht' & Hu' & Heq).
    + apply (fills_is_list _ _ _ _ Hfill3). by apply (fills_is_list _ _ _ _ Hfill2).
    + by apply (fills_is_list _ _ _ _ Hfill3).
    + by apply (Forall_represents_fills s).
    + lia.
    + exists s', t', u'. split; [by eapply fills_trans | done].
Qed.

(** X7.  [Equals] after a common prefix of elements that are equal to
    themselves: when both lists end there it returns true; when only the
    receiver ends it returns false; when only the argument ends the loop
    reads [otherPair.head] through a nil pointer and panics; when the next
    two elements are values that [==] tells apart, or a list against a value
    that is not a list, it returns false, and when [==] panics on them (two
    slices) so does [Equals]. *)
Theorem Equals_after_common_prefix s t u es xs ys fuel :
  is_list s t ((val <$> es) ++ xs) → is_list s u ((val <$> es) ++ ys) →
  Forall (represents s) es → (length es + sizes es + 4 ≤ fuel)%nat →
  match xs, ys with
  | [], [] => ∃ s', Equals fuel t u s = Ok true s'
  | [], _ :: _ => ∃ s', Equals fuel t u s = Ok false s'
  | _ :: _, [] => Equals fuel t u s = Panic NilDereference
  | VThunk _ :: _, VThunk _ :: _ => True
  | VThunk _ :: _, _ :: _ => ∃ s', Equals fuel t u s = Ok false s'
  | x :: _, y :: _ =>
      match ifaceEq x y with
      | inl e => Equals fuel t u s = Panic e
      | inr false => ∃ s', Equals fuel t u s = Ok false s'
      | inr true => True
      end
  end.
Proof.
  intros Ht Hu Hes Hfuel.
  destruct (Equals_common es s t u xs ys (fuel - length es) Ht Hu Hes ltac:(lia))
    as (s' & t' & u' & Hfill & Ht' & Hu' & Heq).
  replace (length es + (fuel - length es))%nat with fuel in Heq by lia.
  rewrite Heq. clear Heq.
  destruct (fuel - length es)%nat as [|k] eqn:Hk; [lia|]. cbn [Equals].
  destruct (force_is_list k s' t' xs VNil ltac:(lia) Ht')
    as (r1 & s1 & Hf1 & Hfill1 & Hr1).
  destruct (force_is_list k s1 u' ys VNil ltac:(lia) (fills_is_list _ _ _ _ Hfill1 Hu'))
    as (r2 & s2 & Hf2 & Hfill2 & Hr2).
  rewrite (bind_eq _ _ _ _ _ Hf1), (bind_eq _ _ _ _ _ Hf2).
  destruct xs as [|x xs]; [subst r1 | destruct Hr1 as (a & tl & -> & Ha & Htl)];
    (destruct ys as [|y ys]; [subst r2 | destruct Hr2 as (o & utl & -> & Ho & Hutl)]);
    cbn beta iota.
  - by exists s2.
  - by exists s2.
  - rewrite (bind_eq _ _ _ _ _ (deref_eq _ _ _ (fills_pairs _ _ _ _ Hfill2 Ha))).
    cbn [p_head p_tail]. by destruct x.
  - rewrite (bind_eq _ _ _ _ _ (deref_eq _ _ _ (fills_pairs _ _ _ _ Hfill2 Ha))).
    cbn [p_head p_tail].
    destruct x; rewrite (bind_eq _ _ _ _ _ (deref_eq _ _ _ Ho)); cbn [p_head p_tail];
      destruct y; try done; try (by exists s2);
      unfold bind at 1; simpl;
      repeat match goal with
             | |- context [bool_decide ?P] => destruct (bool_decide P)
             | |- context [Z.eqb ?a ?b] => destruct (Z.eqb a b)
             | |- context [PrimFloat.eqb ?a ?b] => destruct (PrimFloat.eqb a b)
             end; simpl; try done; by exists s2.
Qed.

Lemma Equals_after_common_prefix_witness :
  let s := state_of ((L (ints [1; 2]);; L (ints [1]);; L [VInt int 1; VSlice []]) init) in
  (* L(1).Equals(L(1, 2)), L(1, 2).Equals(L(1)), L(1, []I{}).Equals(L(1, []I{})) *)
  (∃ s', Equals 6 (Some 4%N) (Some 3%N) s = Ok false s') ∧
  Equals 6 (Some 3%N) (Some 4%N) s = Panic NilDereference ∧
  Equals 6 (Some 6%N) (Some 6%N) s = Panic Uncomparable.
Proof.
  intros s.
  assert (H12 : is_list s (Some 3%N) (ints [1; 2])) by concrete_list.
  assert (H1 : is_list s (Some 4%N) (ints [1])) by concrete_list.
  assert (H1s : is_list s (Some 6%N) [VInt int 1; VSlice []]) by concrete_list.
  assert (Hes : Forall (represents s) [Plain (VInt int 1)])
    by (repeat constructor).
  split_and!.
  - exact (Equals_after_common_prefix s (Some 4%N) (Some 3%N) [Plain (VInt int 1)]
             [] [VInt int 2] 6 H1 H12 Hes ltac:(vm_compute; lia)).
  - exact (Equals_after_common_prefix s (Some 3%N) (Some 4%N) [Plain (VInt int 1)]
             [VInt int 2] [] 6 H12 H1 Hes ltac:(vm_compute; lia)).
  - exact (Equals_after_common_prefix s (Some 6%N) (Some 6%N) [Plain (VInt int 1)]
             [VSlice []] [VSlice []] 6 H1s H1s Hes ltac:(vm_compute; lia)).
Defined.

(** ** Max and Min *)

(** [Reduce] over a finite list with a function literal whose steps are
    known. *)
Lemma Reduce_steps (g : reduceFunc1) (P : I → Prop) (h : I → I → I) xs :
  (∀ acc x s, P acc → x ∈ xs → applyReduce1 g acc x s = Ok (h acc x) s ∧ P (h acc x)) →
  ∀ s t acc fuel,
    is_list s t xs → P acc → (length xs + 3 ≤ fuel)%nat →
    ∃ s', Reduce fuel t g acc s = Ok (foldl h acc xs) s' ∧ fills s s'.
Proof.
  unfold Reduce.
  induction xs as [|x rest IH]; intros Hstep s t acc fuel Hlist Hacc Hfuel;
    (destruct fuel as [|fuel]; [lia|]); cbn [ReduceN length] in *;
    match type of Hlist with
    | is_list _ _ ?xs =>
        destruct (forceEach_lists fuel [t] ltac:(lia) s [xs])
          as (r & s1 & Heach & Hfill & Hr); [by repeat constructor|]
    end;
    rewrite (bind_eq _ _ _ _ _ Heach); simpl in Hr.
  - subst r. by exists s1.
  - destruct Hr as (tails & -> & Htails).
    apply Forall2_cons_inv_r in Htails as (tl & tails' & Htl & Htails & ->).
    apply Forall2_nil_inv_r in Htails as ->.
    cbn [applyReduce index0]. unfold bind at 2. cbn [ret].
    destruct (Hstep acc x s1 Hacc ltac:(left)) as [Hx Hacc'].
    unfold bind at 1. rewrite Hx.
    destruct (IH ltac:(intros; apply Hstep; [done | by right]) s1 tl (h acc x) fuel
                Htl Hacc' ltac:(lia)) as (s2 & Hred & Hfill2).
    exists s2. split; [exact Hred | by eapply fills_trans].
Qed.

Lemma maxStep_ints ty a b s :
  maxStep (VInt ty a) (VInt ty b) s = Ok (VInt ty (Z.max a b)) s.
Proof.
  unfold maxStep. rewrite bool_decide_eq_true_2 by done.
  destruct ty; simpl; unfold bind, ret; simpl;
    (destruct (b <=? a) eqn:E; [apply Z.leb_le in E | apply Z.leb_gt in E]);
    do 2 f_equal; lia.
Qed.

Lemma minStep_ints ty a b s :
  minStep (VInt ty a) (VInt ty b) s = Ok (VInt ty (Z.min a b)) s.
Proof.
  unfold minStep. rewrite bool_decide_eq_true_2 by done.
  destruct ty; simpl; unfold bind, ret; simpl;
    (destruct (a <=? b) eqn:E; [apply Z.leb_le in E | apply Z.leb_gt in E]);
    do 2 f_equal; lia.
Qed.

Lemma foldl_ints ty (op : Z → Z → Z) a zs :
  foldl (λ acc x, match acc, x with
                  | VInt _ c, VInt _ d => VInt ty (op c d)
                  | _, _ => VNil
                  end) (VInt ty a) (VInt ty <$> zs)
  = VInt ty (foldl op a zs).
Proof. revert a. induction zs as [|z zs IH]; intros a; [done|]. simpl. apply IH. Qed.

Lemma foldl_max_spec zs : ∀ a,
  foldl Z.max a zs ∈ a :: zs ∧ Forall (λ x, x ≤ foldl Z.max a zs) (a :: zs).
Proof.
  induction zs as [|z zs IH]; intros a; simpl.
  - split; [by left | constructor; [lia | constructor]].
  - destruct (IH (Z.max a z)) as [Hin Hall].
    apply Forall_cons in Hall as [Hm Hall]. split.
    + apply elem_of_cons in Hin as [Heq | Hin]; [|by right; right].
      rewrite Heq. destruct (Z.max_spec a z) as [[_ ->] | [_ ->]];
        [right; left | left]; done.
    + constructor; [lia|]. constructor; [lia | done].
Qed.

Lemma foldl_min_spec zs : ∀ a,
  foldl Z.min a zs ∈ a :: zs ∧ Forall (λ x, foldl Z.min a zs ≤ x) (a :: zs).
Proof.
  induction zs as [|z zs IH]; intros a; simpl.
  - split; [by left | constructor; [lia | constructor]].
  - destruct (IH (Z.min a z)) as [Hin Hall].
    apply Forall_cons in Hall as [Hm Hall]. split.
    + apply elem_of_cons in Hin as [Heq | Hin]; [|by right; right].
      rewrite Heq. destruct (Z.min_spec a z) as [[_ ->] | [_ ->]];
        [left | right; left]; done.
    + constructor; [lia|]. constructor; [lia | done].
Qed.

Lemma Reduce_ints g ty (op : Z → Z → Z) zs :
  (∀ a b s, applyReduce1 g (VInt ty a) (VInt ty b) s = Ok (VInt ty (op a b)) s) →
  ∀ s t a fuel,
    is_list s t (VInt ty <$> zs) → (length zs + 3 ≤ fuel)%nat →
    ∃ s', Reduce fuel t g (VInt ty a) s = Ok (VInt ty (foldl op a zs)) s' ∧
          fills s s'.
Proof.
  intros Hg s t a fuel Hlist Hfuel.
  rewrite <- foldl_ints.
  apply (Reduce_steps g (λ acc, ∃ c, acc = VInt ty c)); [|done | by eexists |].
  - intros acc x s0 [c ->] (d & -> & _)%list_elem_of_fmap. split; [apply Hg | by eexists].
  - by rewrite length_fmap.
Qed.

Lemma Head_cons fuel s t x rest :
  is_list s t (x :: rest) → (2 ≤ fuel)%nat →
  ∃ s', Head fuel t s = Ok x s' ∧ fills s s'.
Proof.
  intros Hlist Hfuel. unfold Head.
  destruct (force_is_list fuel s t _ VNil Hfuel Hlist)
    as (r & s1 & Hforce & Hfill & (a & tl & -> & Ha & Htl)).
  rewrite (bind_eq _ _ _ _ _ Hforce), (bind_eq _ _ _ _ _ (deref_eq _ _ _ Ha)).
  by exists s1.
Qed.

Lemma Head_nil fuel s t :
  is_list s t [] → (2 ≤ fuel)%nat → Head fuel t s = Panic NilDereference.
Proof.
  intros Hlist Hfuel. unfold Head.
  destruct (force_is_list fuel s t [] VNil Hfuel Hlist) as (r & s1 & Hforce & _ & ->).
  by rewrite (bind_eq _ _ _ _ _ Hforce).
Qed.

(** X8.  On a non-empty finite list of integers of one signed type, [Max]
    returns an element that no element exceeds and [Min] an element that
    exceeds none. *)
Theorem Max_Min_of_ints s t ty z zs fuel :
  is_list s t (VInt ty <$> z :: zs) → (length zs + 4 ≤ fuel)%nat →
  (∃ m s', Max fuel t s = Ok (VInt ty m) s' ∧
           m ∈ z :: zs ∧ Forall (λ x, x ≤ m) (z :: zs)) ∧
  (∃ m s', Min fuel t s = Ok (VInt ty m) s' ∧
           m ∈ z :: zs ∧ Forall (λ x, m ≤ x) (z :: zs)).
Proof.
  intros Hlist Hfuel. unfold Max, Min.
  destruct (Head_cons fuel s t _ _ Hlist ltac:(lia))
    as (s1 & Hhead & Hfill).
  rewrite !(bind_eq _ _ _ _ _ Hhead).
  pose proof (fills_is_list _ _ _ _ Hfill Hlist) as Hlist1.
  split.
  - destruct (Reduce_ints maxFunc ty Z.max (z :: zs) (maxStep_ints ty) s1 t z fuel
                Hlist1 ltac:(simpl; lia)) as (s' & Hred & _).
    exists (foldl Z.max z (z :: zs)), s'. split; [exact Hred|].
    simpl. rewrite Z.max_id. apply foldl_max_spec.
  - destruct (Reduce_ints minFunc ty Z.min (z :: zs) (minStep_ints ty) s1 t z fuel
                Hlist1 ltac:(simpl; lia)) as (s' & Hred & _).
    exists (foldl Z.min z (z :: zs)), s'. split; [exact Hred|].
    simpl. rewrite Z.min_id. apply foldl_min_spec.
Qed.

Lemma Max_Min_of_ints_witness :
  let s := state_of (L (ints [2; 7; 5]) init) in
  (∃ m s', Max 6 (Some 4%N) s = Ok (VInt int m) s' ∧
           m ∈ [2; 7; 5] ∧ Forall (λ x, x ≤ m) [2; 7; 5]) ∧
  (∃ m s', Min 6 (Some 4%N) s = Ok (VInt int m) s' ∧
           m ∈ [2; 7; 5] ∧ Forall (λ x, m ≤ x) [2; 7; 5]).
Proof.
  intros s.
  assert (Hlist : is_list s (Some 4%N) (VInt int <$> [2; 7; 5])) by concrete_list.
  exact (Max_Min_of_ints s (Some 4%N) int 2 [7; 5] 6 Hlist ltac:(simpl; lia)).
Defined.

(** X9.  [Max] and [Min] of an empty list panic: their argument
    [thunk.Head()] reads the head through a nil pointer. *)
Theorem Max_Min_of_empty s t fuel :
  is_list s t [] → (2 ≤ fuel)%nat →
  Max fuel t s = Panic NilDereference ∧ Min fuel t s = Panic NilDereference.
Proof.
  intros Hlist Hfuel. unfold Max, Min.
  by rewrite !(bind_panic _ _ _ _ (Head_nil fuel s t Hlist Hfuel)).
Qed.

Lemma Max_Min_of_empty_witness :
  Max 2 Empty init = Panic NilDereference ∧ Min 2 Empty init = Panic NilDereference.
Proof.
  apply (Max_Min_of_empty init Empty 2); [right; by vm_compute | lia].
Defined.

(** ** Take, Drop and Append, read back with ToSlice *)

Lemma ToSlice_take xs :
  ∀ s t (n : nat) id fuel,
    fresh_above s → room s (n `min` length xs) →
    is_list s t xs →
    thunks s !! id = Some (takeFunc t (Z.of_nat n)) → idle s id →
    (n `min` length xs + 5 ≤ fuel)%nat →
    ∃ s', ToSlice fuel (Some id) s = Ok (take n xs) s' ∧ touches (only id) s s'.
Proof.
  induction xs as [|x rest IH];
    intros s t n id fuel Hfresh Hroom Hlist Hid Hidle Hfuel;
    (destruct fuel as [|fuel]; [lia|]); cbn [ToSlice].
  - destruct (force_take fuel s id t (Z.of_nat n) [] ltac:(lia) Hfresh
                ltac:(done) Hlist Hid Hidle) as (r & s' & Hforce & Htouch & -> & _).
    rewrite (bind_eq _ _ _ _ _ Hforce). rewrite take_nil. by exists s'.
  - destruct (force_take fuel s id t (Z.of_nat n) (x :: rest) ltac:(lia) Hfresh)
      as (r & s1 & Hforce & Htouch & Hpost); [|done..|].
    { intros Hn _. eapply room_le; [|exact Hroom]. simpl. lia. }
    rewrite (bind_eq _ _ _ _ _ Hforce).
    destruct n as [|n].
    + simpl in Hpost. destruct Hpost as [-> _]. by exists s1.
    + replace (0 <? Z.of_nat (S n)) with true in Hpost by (symmetry; apply Z.ltb_lt; lia).
      destruct Hpost as (a & tl & -> & Hi & Ha & Ht & Hidle1 & Htl). cbn beta iota.
      rewrite (bind_eq _ _ _ _ _ (deref_eq _ _ _ Ha)). cbn [p_head p_tail].
      replace (Z.of_nat (S n) - 1) with (Z.of_nat n) in Ht by lia.
      cbn [length Nat.min] in Hroom, Hfuel.
      destruct (IH s1 tl n (thunkId s + 1)%N fuel) as (s2 & Hrest & Htouch2); try done.
      * by eapply touches_fresh.
      * unfold room in *. rewrite Hi. lia.
      * lia.
      * rewrite (bind_eq _ _ _ _ _ Hrest). exists s2. split; [done|].
        eapply touches_trans; [exact Htouch | exact Htouch2 |]. touched.
Qed.

(** X10.  For a finite list [xs] and a [uint] [n], [L.Take(n).ToSlice()] is
    the first [n] elements of [xs] (all of them when there are fewer), and
    [L] is the same list afterwards. *)
Theorem Take_ToSlice s t xs (n : nat) fuel :
  fresh_above s → room s (S (n `min` length xs)) →
  is_list s t xs → Z.of_nat n < 2 ^ 64 →
  (n `min` length xs + 5 ≤ fuel)%nat →
  ∃ s', (let* t' := Take t (Z.of_nat n) in ToSlice fuel t') s = Ok (take n xs) s' ∧
        is_list s' t xs.
Proof.
  intros Hfresh Hroom Hlist Hn Hfuel.
  assert (Hroom1 : room s 1) by (eapply room_le; [|exact Hroom]; lia).
  unfold Take. rewrite (bind_eq _ _ _ _ _ (newThunk_alloc _ _ Hroom1)).
  pose proof (touches_alloc (takeFunc t (Z.of_nat n)) s Hfresh Hroom1) as Htouch.
  destruct (ToSlice_take xs (alloc (takeFunc t (Z.of_nat n)) s) t n
              (thunkId s + 1)%N fuel) as (s' & Hrun & Htouch'); try done.
  - by eapply touches_fresh.
  - unfold room in *. simpl. lia.
  - by eapply touches_is_list.
  - simpl. apply lookup_insert_eq.
  - by apply idle_alloc.
  - exists s'. split; [exact Hrun|].
    eapply touches_is_list; [exact Htouch'|]. by eapply touches_is_list.
Qed.

Lemma Take_ToSlice_witness :
  let s := state_of (L (ints [1; 2; 3]) init) in
  (∃ s', (let* t' := Take (Some 4%N) 2 in ToSlice 7 t') s = Ok (ints [1; 2]) s' ∧
         is_list s' (Some 4%N) (ints [1; 2; 3])) ∧
  (∃ s', (let* t' := Take (Some 4%N) 5 in ToSlice 8 t') s = Ok (ints [1; 2; 3]) s' ∧
         is_list s' (Some 4%N) (ints [1; 2; 3])).
Proof.
  intros s.
  assert (Hlist : is_list s (Some 4%N) (ints [1; 2; 3])) by concrete_list.
  assert (Hfresh : fresh_above s) by concrete_fresh.
  split.
  - apply (Take_ToSlice s (Some 4%N) (ints [1; 2; 3]) 2 7 Hfresh);
      first [done | concrete_side].
  - apply (Take_ToSlice s (Some 4%N) (ints [1; 2; 3]) 5 8 Hfresh);
      first [done | concrete_side].
Defined.

(** X11.  For a finite list [xs] and a [uint] [n], [L.Drop(n).ToSlice()] is
    [xs] without its first [n] elements (empty when there are fewer), and
    [L] is the same list afterwards. *)
Theorem Drop_ToSlice s t xs (n : nat) fuel :
  fresh_above s → room s 1 →
  is_list s t xs → Z.of_nat n < 2 ^ 64 →
  (length xs + 6 ≤ fuel)%nat →
  ∃ s', (let* t' := Drop t (Z.of_nat n) in ToSlice fuel t') s = Ok (drop n xs) s' ∧
        is_list s' t xs.
Proof.
  intros Hfresh Hroom Hlist Hn Hfuel.
  unfold Drop. rewrite (bind_eq _ _ _ _ _ (newThunk_alloc _ _ Hroom)).
  pose proof (touches_alloc (dropFunc t (Z.of_nat n)) s Hfresh Hroom) as Htouch.
  set (s1 := alloc (dropFunc t (Z.of_nat n)) s) in *.
  assert (Hlist1 : is_list s1 t xs) by by eapply touches_is_list.
  destruct fuel as [|fuel]; [lia|]. cbn [ToSlice].
  destruct (force_drop fuel s1 (thunkId s + 1)%N t n xs Hlist1)
    as (r & s2 & Hforce & Htouch2 & _ & Hr).
  - by eapply touches_fresh.
  - simpl. apply lookup_insert_eq.
  - by apply idle_alloc.
  - lia.
  - rewrite (bind_eq _ _ _ _ _ Hforce).
    pose proof (touches_is_list _ _ _ _ _ Htouch2 Hlist1) as Hlist2.
    assert (Hlen : (length (drop n xs) ≤ length xs)%nat) by (rewrite length_drop; lia).
    destruct (drop n xs) as [|x rest].
    + subst r. by exists s2.
    + destruct Hr as (a & tl & -> & Ha & Htl). cbn beta iota.
      rewrite (bind_eq _ _ _ _ _ (deref_eq _ _ _ Ha)). cbn [p_head p_tail].
      destruct (ToSlice_list rest s2 tl fuel Htl) as (s3 & Hrest & Hfill);
        [simpl in Hlen; lia|].
      rewrite (bind_eq _ _ _ _ _ Hrest). exists s3. split; [done|].
      by eapply fills_is_list.
Qed.

Lemma Drop_ToSlice_witness :
  let s := state_of (L (ints [1; 2; 3]) init) in
  (∃ s', (let* t' := Drop (Some 4%N) 2 in ToSlice 9 t') s = Ok (ints [3]) s' ∧
         is_list s' (Some 4%N) (ints [1; 2; 3])) ∧
  (∃ s', (let* t' := Drop (Some 4%N) 5 in ToSlice 9 t') s = Ok [] s' ∧
         is_list s' (Some 4%N) (ints [1; 2; 3])).
Proof.
  intros s.
  assert (Hlist : is_list s (Some 4%N) (ints [1; 2; 3])) by concrete_list.
  assert (Hfresh : fresh_above s) by concrete_fresh.
  split.
  - apply (Drop_ToSlice s (Some 4%N) (ints [1; 2; 3]) 2 9 Hfresh);
      first [done | concrete_side].
  - apply (Drop_ToSlice s (Some 4%N) (ints [1; 2; 3]) 5 9 Hfresh);
      first [done | concrete_side].
Defined.

(** The list of [Append]: the elements of [u], then those of [v]. *)
Lemma ToSlice_append k :
  ∀ xs ys s p u v fuel,
    (length xs + length ys ≤ k)%nat →
    fresh_above s → room s k → ends s Empty →
    is_list s u xs → is_list s v ys →
    thunks s !! p = Some (appendFunc u v) → idle s p →
    (k + 6 ≤ fuel)%nat →
    ∃ s', ToSlice fuel (Some p) s = Ok (xs ++ ys) s' ∧ touches (only p) s s'.
Proof.
  induction k as [|k IH];
    intros xs ys s p u v fuel Hk Hfresh Hroom Hends Hu Hv Hp Hidle Hfuel;
    (destruct fuel as [|[|[|fuel]]]; [lia..|]); cbn [ToSlice];
    (destruct (force_is_list fuel (logged p s) u _ VNil ltac:(lia)
                 (logged_is_list _ _ _ _ Hu)) as (r1 & s1 & Hforce1 & Hfill1 & Hr1));
    pose proof (fills_touches _ _ Hfill1) as Htouch1;
    (assert (Hfresh1 : fresh_above s1)
       by (eapply fills_fresh; [done | by apply logged_fresh]));
    (assert (Hi1 : thunkId s1 = thunkId s) by (by destruct Hfill1 as (_ & -> & _)));
    (destruct xs as [|x xs];
     [subst r1 | destruct Hr1 as (a1 & utl & -> & Ha1 & Hutl); cbn [length] in Hk; try lia]).
  1, 2:
    destruct (force_is_list fuel s1 v _ VNil ltac:(lia)
                (fills_is_list _ _ _ _ Hfill1 (logged_is_list _ _ _ _ Hv)))
      as (r2 & s2 & Hforce2 & Hfill2 & Hr2);
    pose proof (fills_touches _ _ Hfill2) as Htouch2;
    (assert (Hfresh2 : fresh_above s2) by (by eapply fills_fresh));
    (assert (Hi2 : thunkId s2 = thunkId s) by (by destruct Hfill2 as (_ & -> & _)));
    (assert (Htouch12 : touches nothing (logged p s) s2)
       by (eapply touches_trans; [exact Htouch1 | exact Htouch2 | touched]));
    (destruct ys as [|y ys];
     [subst r2 | destruct Hr2 as (a2 & vtl & -> & Ha2 & Hvtl); cbn [length] in Hk; try lia]).
  1, 2:
    pose proof (call_append_none _ (logged p s) _ _ _ _ _ Hp Hforce1 Hforce2) as Hcall;
    destruct (force_idle (S fuel) p _ VNil s None s2 nothing Hidle Hp Hfresh
                ltac:(unfold nothing; tauto) Hcall Htouch12) as (Hforce & Htouch' & _);
    rewrite (bind_eq _ _ _ _ _ Hforce); eexists; (split; [done|]);
    eapply touches_weaken; [|exact Htouch']; touched.
  - (* the first list is exhausted: an element of the second *)
    assert (Hroom2 : room s2 1) by (unfold room in *; lia).
    pose proof (call_append_right _ (logged p s) _ _ _ _ _ _ _ _ Hp Hforce1 Hforce2
                  Ha2 Hroom2) as Hcall.
    destruct (alloc_push_spec (appendFunc vtl Empty) y s2 Hfresh2 Hroom2
                ltac:(done) ltac:(done)) as (Htouch3 & Hi3 & Ha3 & Hp3 & Hidle3).
    set (s3 := push (mkPair y (Some (thunkId s2 + 1)%N))
                    (alloc (appendFunc vtl Empty) s2)) in *.
    assert (Htouch13 : touches nothing (logged p s) s3).
    { eapply touches_trans; [exact Htouch12 | exact Htouch3 | touched]. }
    destruct (force_idle (S fuel) p _ VNil s _ s3 nothing Hidle Hp Hfresh
                ltac:(unfold nothing; tauto) Hcall Htouch13) as (Hforce & Htouch' & Hlast).
    set (s4 := cached s p (Some (length (pairs s2))) s3) in *.
    rewrite (bind_eq _ _ _ _ _ Hforce). cbn beta iota.
    rewrite (bind_eq _ _ _ _ _ (deref_eq s4 _ _
               ltac:(unfold s4; rewrite pairs_cached; exact Ha3))).
    cbn [p_head p_tail].
    assert (Hp' : p ≠ (thunkId s2 + 1)%N).
    { apply (fresh_allocated _ _ _ Hfresh) in Hp. lia. }
    destruct (IH ys [] s4 (thunkId s2 + 1)%N vtl Empty (S (S fuel)))
      as (s5 & Hrest & Htouch5).
    + simpl. lia.
    + exact (touches_fresh _ _ _ Htouch' Hfresh).
    + unfold room in *. unfold s4. rewrite thunkId_cached. lia.
    + exact (touches_ends _ _ _ _ Htouch' Hends).
    + apply (touches_is_list _ _ _ _ _ Hlast). by apply (touches_is_list _ _ _ _ _ Htouch3).
    + exact (touches_ends _ _ _ _ Htouch' Hends).
    + by unfold s4; rewrite thunks_cached.
    + by apply idle_cached.
    + lia.
    + rewrite (bind_eq _ _ _ _ _ Hrest). rewrite app_nil_r. exists s5. split; [done|].
      eapply (touches_trans _ _ s s4); [|exact Htouch5|].
      * eapply touches_weaken; [|exact Htouch']. touched.
      * intros j ->. right. lia.
  - (* an element of the first list *)
    assert (Hroom1 : room s1 1) by (unfold room in *; lia).
    pose proof (call_append_left _ (logged p s) _ _ _ _ _ _ _ Hp Hforce1 Ha1 Hroom1)
      as Hcall.
    destruct (alloc_push_spec (appendFunc utl v) x s1 Hfresh1 Hroom1
                ltac:(done) ltac:(done)) as (Htouch2 & Hi2 & Ha2 & Hp2 & Hidle2).
    set (s2 := push (mkPair x (Some (thunkId s1 + 1)%N))
                    (alloc (appendFunc utl v) s1)) in *.
    assert (Htouch12 : touches nothing (logged p s) s2).
    { eapply touches_trans; [exact Htouch1 | exact Htouch2 | touched]. }
    destruct (force_idle (S fuel) p _ VNil s _ s2 nothing Hidle Hp Hfresh
                ltac:(unfold nothing; tauto) Hcall Htouch12) as (Hforce & Htouch' & Hlast).
    set (s3 := cached s p (Some (length (pairs s1))) s2) in *.
    rewrite (bind_eq _ _ _ _ _ Hforce). cbn beta iota.
    rewrite (bind_eq _ _ _ _ _ (deref_eq s3 _ _
               ltac:(unfold s3; rewrite pairs_cached; exact Ha2))).
    cbn [p_head p_tail].
    assert (Hp' : p ≠ (thunkId s1 + 1)%N).
    { apply (fresh_allocated _ _ _ Hfresh) in Hp. lia. }
    destruct (IH xs ys s3 (thunkId s1 + 1)%N utl v (S (S fuel)))
      as (s4 & Hrest & Htouch4).
    + lia.
    + exact (touches_fresh _ _ _ Htouch' Hfresh).
    + unfold room in *. unfold s3. rewrite thunkId_cached. lia.
    + exact (touches_ends _ _ _ _ Htouch' Hends).
    + apply (touches_is_list _ _ _ _ _ Hlast). by apply (touches_is_list _ _ _ _ _ Htouch2).
    + exact (touches_is_list _ _ _ _ _ Htouch' Hv).
    + by unfold s3; rewrite thunks_cached.
    + by apply idle_cached.
    + lia.
    + rewrite (bind_eq _ _ _ _ _ Hrest). exists s4. split; [done|].
      eapply (touches_trans _ _ s s3); [|exact Htouch4|].
      * eapply touches_weaken; [|exact Htouch']. touched.
      * intros j ->. right. lia.
Qed.

(** X12.  For finite lists, [xs.Append(ys).ToSlice()] is the elements of [xs]
    followed by those of [ys]; both lists are the same lists afterwards. *)
Theorem Append_ToSlice s u v xs ys fuel :
  fresh_above s → room s (S (length xs + length ys)) → ends s Empty →
  is_list s u xs → is_list s v ys →
  (length xs + length ys + 6 ≤ fuel)%nat →
  ∃ s', (let* t := Append u v in ToSlice fuel t) s = Ok (xs ++ ys) s' ∧
        is_list s' u xs ∧ is_list s' v ys.
Proof.
  intros Hfresh Hroom Hends Hu Hv Hfuel.
  assert (Hroom1 : room s 1) by (eapply room_le; [|exact Hroom]; lia).
  unfold Append. rewrite (bind_eq _ _ _ _ _ (newThunk_alloc _ _ Hroom1)).
  pose proof (touches_alloc (appendFunc u v) s Hfresh Hroom1) as Htouch.
  destruct (ToSlice_append (length xs + length ys) xs ys (alloc (appendFunc u v) s)
              (thunkId s + 1)%N u v fuel) as (s' & Hrun & Htouch'); try done.
  - by eapply touches_fresh.
  - unfold room in *. simpl. lia.
  - by eapply touches_ends.
  - by eapply touches_is_list.
  - by eapply touches_is_list.
  - simpl. apply lookup_insert_eq.
  - by apply idle_alloc.
  - exists s'. split; [exact Hrun|].
    split; (eapply touches_is_list; [exact Htouch'|]; by eapply touches_is_list).
Qed.

Lemma Append_ToSlice_witness :
  let s := state_of ((L (ints [1; 2]);; L (ints [3])) init) in
  ∃ s', (let* t := Append (Some 3%N) (Some 4%N) in ToSlice 9 t) s
        = Ok (ints [1; 2; 3]) s' ∧
        is_list s' (Some 3%N) (ints [1; 2]) ∧ is_list s' (Some 4%N) (ints [3]).
Proof.
  intros s.
  assert (Hu : is_list s (Some 3%N) (ints [1; 2])) by concrete_list.
  assert (Hv : is_list s (Some 4%N) (ints [3])) by concrete_list.
  assert (Hfresh : fresh_above s) by concrete_fresh.
  assert (Hends : ends s Empty) by (right; by vm_compute).
  apply (Append_ToSlice s (Some 3%N) (Some 4%N) (ints [1; 2]) (ints [3]) 9 Hfresh);
    first [done | concrete_side].
Defined.

(** ** TakeWhile, DropWhile and Filter *)

Lemma force_idle_panic fuel id ctx s e :
  idle s id → call fuel id ctx (logged id s) = Panic e →
  force (S fuel) (Some id) ctx s = Panic e.
Proof. intros Hidle Hcall. rewrite force_uncached by apply Hidle. by rewrite Hcall. Qed.

(** The closure of [TakeWhile]. *)
Lemma call_takeWhile fuel s id t f xs :
  (3 ≤ fuel)%nat → fresh_above s → (xs ≠ [] → room s 1) → is_list s t xs →
  thunks s !! id = Some (takeWhileFunc t f) →
  match xs with
  | [] => ∃ s1, call fuel id VNil s = Ok None s1 ∧ touches nothing s s1
  | x :: rest =>
      match f x with
      | inl e => call fuel id VNil s = Panic e
      | inr false => ∃ s1, call fuel id VNil s = Ok None s1 ∧ touches nothing s s1
      | inr true =>
          ∃ a tl s1, call fuel id VNil s = Ok (Some a) s1 ∧ touches nothing s s1 ∧
            thunkId s1 = (thunkId s + 1)%N ∧
            pairs s1 !! a = Some (mkPair x (Some (thunkId s + 1)%N)) ∧
            thunks s1 !! (thunkId s + 1)%N = Some (takeWhileFunc tl f) ∧
            idle s1 (thunkId s + 1)%N ∧ is_list s1 tl rest
      end
  end.
Proof.
  intros Hfuel Hfresh Hroom Hlist Hid.
  destruct fuel as [|fuel]; [lia|]. cbn [call].
  rewrite (bind_eq _ _ _ _ _ (getFunc_eq _ _ _ Hid)).
  destruct (force_is_list fuel s t xs VNil ltac:(lia) Hlist)
    as (r & s1 & Hforce & Hfill & Hr).
  rewrite (bind_eq _ _ _ _ _ Hforce).
  pose proof Hfill as (Hm1 & Hi1 & Ht1 & _).
  destruct xs as [|x rest].
  - subst r. exists s1. split; [done | by apply fills_touches].
  - destruct Hr as (a & tl & -> & Ha & Htl).
    rewrite (bind_eq _ _ _ _ _ (deref_eq _ _ _ Ha)). cbn [p_head p_tail].
    destruct (f x) as [e | [|]]; [done | |].
    + unfold bind at 1. cbn [lift ret].
      assert (Hfresh1 : fresh_above s1) by by eapply fills_fresh.
      assert (Hroom1 : room s1 1) by (eapply fills_room; [done | by apply Hroom]).
      unfold TakeWhile. rewrite (bind_eq _ _ _ _ _ (newThunk_alloc _ _ Hroom1)).
      rewrite newPair_push.
      destruct (alloc_push_spec (takeWhileFunc tl f) x s1 Hfresh1 Hroom1
                  ltac:(done) ltac:(done)) as (Htouch2 & Hi2 & Ha2 & Hp2 & Hidle2).
      eexists _, tl, _. split; [done|]. rewrite <- Hi1. split_and!; try done.
      * eapply touches_trans; [by apply fills_touches | exact Htouch2 | touched].
      * by eapply touches_is_list.
    + exists s1. split; [done | by apply fills_touches].
Qed.

Lemma ToSlice_takeWhile f xs :
  ∀ s t id fuel,
    fresh_above s → room s (length xs) → is_list s t xs →
    thunks s !! id = Some (takeWhileFunc t f) → idle s id →
    (length xs + 5 ≤ fuel)%nat →
    match takeWhileOf f xs with
    | inl e => ToSlice fuel (Some id) s = Panic e
    | inr ys => ∃ s', ToSlice fuel (Some id) s = Ok ys s' ∧ touches (only id) s s'
    end.
Proof.
  induction xs as [|x rest IH]; intros s t id fuel Hfresh Hroom Hlist Hid Hidle Hfuel;
    (destruct fuel as [|[|fuel]]; [cbn [length] in Hfuel; lia..|]);
    cbn [ToSlice takeWhileOf length] in *;
    match type of Hlist with
    | is_list _ _ ?l =>
        pose proof (call_takeWhile fuel (logged id s) id t f l ltac:(lia)
                      (logged_fresh _ _ Hfresh)
                      ltac:(intros Hne; first [done | eapply room_le; [|exact Hroom]; simpl; lia])
                      (logged_is_list _ _ _ _ Hlist) Hid) as Hcall
    end; cbn beta iota in Hcall.
  - destruct Hcall as (s1 & Hcall & Htouch).
    destruct (force_idle fuel id _ VNil s None s1 nothing Hidle Hid Hfresh
                ltac:(unfold nothing; tauto) Hcall Htouch) as (Hforce & Htouch' & _).
    rewrite (bind_eq _ _ _ _ _ Hforce). eexists. split; [done|].
    eapply touches_weaken; [|exact Htouch']. touched.
  - destruct (f x) as [e | [|]].
    + by rewrite (bind_panic _ _ _ _ (force_idle_panic _ _ _ _ _ Hidle Hcall)).
    + destruct Hcall as (a & tl & s1 & Hcall & Htouch & Hi & Ha & Ht & Hidle1 & Htl).
      destruct (force_idle fuel id _ VNil s _ s1 nothing Hidle Hid Hfresh
                  ltac:(unfold nothing; tauto) Hcall Htouch) as (Hforce & Htouch' & Hlast).
      set (s2 := cached s id (Some a) s1) in *.
      rewrite (bind_eq _ _ _ _ _ Hforce). cbn beta iota.
      rewrite (bind_eq _ _ _ _ _ (deref_eq s2 _ _
                 ltac:(unfold s2; rewrite pairs_cached; exact Ha))).
      cbn [p_head p_tail].
      assert (Hid' : id ≠ (thunkId s + 1)%N).
      { apply (fresh_allocated _ _ _ Hfresh) in Hid. lia. }
      change (thunkId (logged id s)) with (thunkId s) in *.
      specialize (IH s2 tl (thunkId s + 1)%N (S fuel)
                    (touches_fresh _ _ _ Htouch' Hfresh)
                    ltac:(unfold room in *; unfold s2; rewrite thunkId_cached; lia)
                    (touches_is_list _ _ _ _ _ Hlast Htl)
                    ltac:(by unfold s2; rewrite thunks_cached)
                    ltac:(by apply idle_cached) ltac:(lia)).
      destruct (takeWhileOf f rest) as [e|ys].
      * by rewrite (bind_panic _ _ _ _ IH).
      * destruct IH as (s3 & Hrest & Htouch3).
        rewrite (bind_eq _ _ _ _ _ Hrest). exists s3. split; [done|].
        eapply (touches_trans _ _ s s2); [|exact Htouch3|].
        -- eapply touches_weaken; [|exact Htouch']. touched.
        -- intros j ->. right. lia.
    + destruct Hcall as (s1 & Hcall & Htouch).
      destruct (force_idle fuel id _ VNil s None s1 nothing Hidle Hid Hfresh
                  ltac:(unfold nothing; tauto) Hcall Htouch) as (Hforce & Htouch' & _).
      rewrite (bind_eq _ _ _ _ _ Hforce). eexists. split; [done|].
      eapply touches_weaken; [|exact Htouch']. touched.
Qed.

(** X13.  [L.TakeWhile(f).ToSlice()] is the longest prefix of [L] whose
    elements [f] accepts: [f] is asked about the elements in order up to the
    first one it rejects, and a panic of [f] on one of those is the
    outcome. *)
Theorem TakeWhile_ToSlice s t xs f fuel :
  fresh_above s → room s (S (length xs)) → is_list s t xs →
  (length xs + 5 ≤ fuel)%nat →
  match takeWhileOf f xs with
  | inl e => (let* t' := TakeWhile t f in ToSlice fuel t') s = Panic e
  | inr ys => ∃ s', (let* t' := TakeWhile t f in ToSlice fuel t') s = Ok ys s' ∧
                    is_list s' t xs
  end.
Proof.
  intros Hfresh Hroom Hlist Hfuel.
  assert (Hroom1 : room s 1) by (eapply room_le; [|exact Hroom]; lia).
  unfold TakeWhile. rewrite (bind_eq _ _ _ _ _ (newThunk_alloc _ _ Hroom1)).
  pose proof (touches_alloc (takeWhileFunc t f) s Hfresh Hroom1) as Htouch.
  pose proof (ToSlice_takeWhile f xs (alloc (takeWhileFunc t f) s) t
                (thunkId s + 1)%N fuel) as H.
  destruct (takeWhileOf f xs) as [e|ys].
  - apply H; try done.
    + by eapply touches_fresh.
    + unfold room in *. simpl. lia.
    + by eapply touches_is_list.
    + simpl. apply lookup_insert_eq.
    + by apply idle_alloc.
  - destruct H as (s' & Hrun & Htouch'); try done.
    + by eapply touches_fresh.
    + unfold room in *. simpl. lia.
    + by eapply touches_is_list.
    + simpl. apply lookup_insert_eq.
    + by apply idle_alloc.
    + exists s'. split; [exact Hrun|].
      eapply touches_is_list; [exact Htouch'|]. by eapply touches_is_list.
Qed.

Lemma TakeWhile_ToSlice_witness :
  let s := state_of (L [VInt int 1; VInt int 5; VString "x"] init) in
  let small x := match x with VInt _ z => inr (z <? 3) | _ => inl TypeAssertion end in
  let any x := match x with VInt _ z => inr true | _ => inl TypeAssertion end in
  (∃ s', (let* t' := TakeWhile (Some 4%N) small in ToSlice 8 t') s
         = Ok [VInt int 1] s' ∧
         is_list s' (Some 4%N) [VInt int 1; VInt int 5; VString "x"]) ∧
  (let* t' := TakeWhile (Some 4%N) any in ToSlice 8 t') s = Panic TypeAssertion.
Proof.
  intros s small any.
  assert (Hlist : is_list s (Some 4%N) [VInt int 1; VInt int 5; VString "x"])
    by concrete_list.
  assert (Hfresh : fresh_above s) by concrete_fresh.
  assert (Hroom : room s (S (length [VInt int 1; VInt int 5; VString "x"])))
    by (unfold room; by vm_compute).
  split.
  - exact (TakeWhile_ToSlice s (Some 4%N) _ small 8 Hfresh Hroom Hlist
             ltac:(simpl; lia)).
  - exact (TakeWhile_ToSlice s (Some 4%N) _ any 8 Hfresh Hroom Hlist
             ltac:(simpl; lia)).
Defined.

(** The loop of [DropWhile]'s closure. *)
Lemma dropWhileRet_spec f xs :
  ∀ s id t fuel,
    is_list s t xs → fresh_above s →
    thunks s !! id = Some (dropWhileFunc t f) → idle s id →
    (length xs + 3 ≤ fuel)%nat →
    match dropWhileOf f xs with
    | inl e => dropWhileRet fuel id s = Panic e
    | inr ys =>
        ∃ r s', dropWhileRet fuel id s = Ok r s' ∧ touches (only id) s s' ∧
          thunkId s' = thunkId s ∧ idle s' id ∧ is_Some (thunks s' !! id) ∧
          match ys with
          | [] => r = None
          | y :: rest => ∃ a tl, r = Some a ∧ pairs s' !! a = Some (mkPair y tl) ∧
                                 is_list s' tl rest
          end
    end.
Proof.
  induction xs as [|x rest IH]; intros s id t fuel Hlist Hfresh Hid Hidle Hfuel;
    (destruct fuel as [|fuel]; [lia|]); cbn [dropWhileRet dropWhileOf length] in *;
    rewrite (bind_eq _ _ _ _ _ (getFunc_eq _ _ _ Hid)); cbn beta iota;
    (destruct (force_is_list fuel s t _ VNil ltac:(lia) Hlist)
       as (r & s1 & Hforce & Hfill & Hr));
    rewrite (bind_eq _ _ _ _ _ Hforce);
    pose proof (fills_touches _ _ Hfill) as Htouch;
    pose proof Hfill as (_ & Hi1 & Ht1 & _);
    destruct (touches_idle _ _ _ _ _ Htouch Hfresh ltac:(unfold nothing; tauto) Hid Hidle)
      as [Hid1 Hidle1].
  - subst r. exists None, s1. split; [done|]. split.
    { eapply touches_weaken; [|exact Htouch]. touched. }
    split; [done|]. split; [done|]. split; [by eexists | done].
  - destruct Hr as (a & tl & -> & Ha & Htl). cbn beta iota.
    rewrite (bind_eq _ _ _ _ _ (deref_eq _ _ _ Ha)). cbn [p_head p_tail].
    destruct (f x) as [e | [|]]; [done | |].
    + unfold bind at 1. cbn [lift ret]. unfold bind at 1, setFunc.
      pose proof (touches_setFunc id _ (dropWhileFunc tl f) s1 Hid1 Hidle1) as Hset.
      specialize (IH (set_thunks (<[id := dropWhileFunc tl f]> (thunks s1)) s1) id tl fuel).
      destruct (dropWhileOf f rest) as [e|ys].
      * apply IH.
        -- by eapply touches_is_list.
        -- eapply touches_fresh; [exact Hset|]. by eapply touches_fresh.
        -- simpl. apply lookup_insert_eq.
        -- destruct Hidle1 as (Hun & _ & _). split; [done|]. simpl.
           rewrite lookup_insert_eq. split; [by intros ?? [=] | by intros [=]].
        -- lia.
      * destruct IH as (r & s2 & Hloop & Htouch2 & Hi2 & Hidle2 & Hid2 & Hr).
        -- by eapply touches_is_list.
        -- eapply touches_fresh; [exact Hset|]. by eapply touches_fresh.
        -- simpl. apply lookup_insert_eq.
        -- destruct Hidle1 as (Hun & _ & _). split; [done|]. simpl.
           rewrite lookup_insert_eq. split; [by intros ?? [=] | by intros [=]].
        -- lia.
        -- exists r, s2. split; [done|]. split.
           { eapply (touches_trans _ (only id) s s1).
             - eapply touches_weaken; [|exact Htouch]. touched.
             - eapply (touches_trans _ (only id)); [exact Hset | exact Htouch2 | touched].
             - touched. }
           split; [simpl in Hi2; congruence|]. done.
    + exists (Some a), s1. split; [done|]. split.
      { eapply touches_weaken; [|exact Htouch]. touched. }
      split; [done|]. split; [done|]. split; [by eexists|]. by exists a, tl.
Qed.

Lemma dropWhileOf_length f xs ys :
  dropWhileOf f xs = inr ys → (length ys ≤ length xs)%nat.
Proof.
  revert ys. induction xs as [|x rest IH]; intros ys; simpl.
  - by intros [= <-].
  - destruct (f x) as [e | [|]]; [done | | by intros [= <-]].
    intros H. apply IH in H. lia.
Qed.

(** X14.  [L.DropWhile(f).ToSlice()] is [L] from the first element that [f]
    rejects on: [f] is asked about the elements in order up to that one, and
    a panic of [f] on one of those is the outcome. *)
Theorem DropWhile_ToSlice s t xs f fuel :
  fresh_above s → room s 1 → is_list s t xs →
  (length xs + 6 ≤ fuel)%nat →
  match dropWhileOf f xs with
  | inl e => (let* t' := DropWhile t f in ToSlice fuel t') s = Panic e
  | inr ys => ∃ s', (let* t' := DropWhile t f in ToSlice fuel t') s = Ok ys s' ∧
                    is_list s' t xs
  end.
Proof.
  intros Hfresh Hroom Hlist Hfuel.
  unfold DropWhile. rewrite (bind_eq _ _ _ _ _ (newThunk_alloc _ _ Hroom)).
  pose proof (touches_alloc (dropWhileFunc t f) s Hfresh Hroom) as Htouch.
  set (s1 := alloc (dropWhileFunc t f) s) in *.
  assert (Hlist1 : is_list s1 t xs) by by eapply touches_is_list.
  assert (Hfresh1 : fresh_above s1) by by eapply touches_fresh.
  assert (Hid : thunks s1 !! (thunkId s + 1)%N = Some (dropWhileFunc t f))
    by (simpl; apply lookup_insert_eq).
  assert (Hidle : idle s1 (thunkId s + 1)%N) by by apply idle_alloc.
  destruct fuel as [|[|[|fuel]]]; [lia..|]. cbn [ToSlice].
  pose proof (dropWhileRet_spec f xs (logged (thunkId s + 1)%N s1) (thunkId s + 1)%N
                t fuel (logged_is_list _ _ _ _ Hlist1) (logged_fresh _ _ Hfresh1) Hid
                (logged_idle _ _ _ Hidle) ltac:(lia)) as Hloop.
  assert (Hcall : call (S fuel) (thunkId s + 1)%N VNil (logged (thunkId s + 1)%N s1)
                  = dropWhileRet fuel (thunkId s + 1)%N (logged (thunkId s + 1)%N s1)).
  { cbn [call].
    by rewrite (bind_eq _ _ _ _ _ (getFunc_eq (logged (thunkId s + 1)%N s1) _ _ Hid)). }
  destruct (dropWhileOf f xs) as [e|ys] eqn:Hspec.
  - rewrite Hloop in Hcall.
    by rewrite (bind_panic _ _ _ _ (force_idle_panic _ _ _ _ _ Hidle Hcall)).
  - destruct Hloop as (r & s2 & Hloop & Htouch2 & _ & Hidle2 & Hid2 & Hr).
    rewrite Hloop in Hcall.
    destruct (force_idle_self (S fuel) _ VNil s1 r s2 (only (thunkId s + 1)%N) Hidle Hfresh1
                Hcall Htouch2 Hidle2 Hid2) as (Hforce & Htouch' & Hlast).
    rewrite (bind_eq _ _ _ _ _ Hforce).
    pose proof (touches_is_list _ _ _ _ _ Htouch' Hlist1) as Hlist3.
    destruct ys as [|y rest].
    + subst r. by eexists.
    + destruct Hr as (a & tl & -> & Ha & Htl). cbn beta iota.
      rewrite (bind_eq _ _ _ _ _ (deref_eq (cached s1 _ _ s2) _ _
                 ltac:(rewrite pairs_cached; exact Ha))).
      cbn [p_head p_tail].
      destruct (ToSlice_list rest _ tl (S (S fuel)) (touches_is_list _ _ _ _ _ Hlast Htl))
        as (s3 & Hrest & Hfill).
      { apply dropWhileOf_length in Hspec. simpl in Hspec. lia. }
      rewrite (bind_eq _ _ _ _ _ Hrest). exists s3. split; [done|].
      by eapply fills_is_list.
Qed.

Lemma DropWhile_ToSlice_witness :
  let s := state_of (L [VInt int 1; VInt int 5; VString "x"] init) in
  let small x := match x with VInt _ z => inr (z <? 3) | _ => inl TypeAssertion end in
  let any x := match x with VInt _ z => inr true | _ => inl TypeAssertion end in
  (∃ s', (let* t' := DropWhile (Some 4%N) small in ToSlice 9 t') s
         = Ok [VInt int 5; VString "x"] s' ∧
         is_list s' (Some 4%N) [VInt int 1; VInt int 5; VString "x"]) ∧
  (let* t' := DropWhile (Some 4%N) any in ToSlice 9 t') s = Panic TypeAssertion.
Proof.
  intros s small any.
  assert (Hlist : is_list s (Some 4%N) [VInt int 1; VInt int 5; VString "x"])
    by concrete_list.
  assert (Hfresh : fresh_above s) by concrete_fresh.
  assert (Hroom : room s 1) by (unfold room; by vm_compute).
  split.
  - exact (DropWhile_ToSlice s (Some 4%N) _ small 9 Hfresh Hroom Hlist
             ltac:(simpl; lia)).
  - exact (DropWhile_ToSlice s (Some 4%N) _ any 9 Hfresh Hroom Hlist
             ltac:(simpl; lia)).
Defined.

(** *** Filter *)

Lemma filterOf_head f xs :
  filterOf f xs =
  match filterHead f xs with
  | inl e => inl e
  | inr None => inr []
  | inr (Some (x, rest)) =>
      match filterOf f rest with
      | inl e => inl e
      | inr ys => inr (x :: ys)
      end
  end.
Proof.
  induction xs as [|x rest IH]; [done|]. simpl.
  destruct (f x) as [e | [|]]; [done | done |].
  rewrite <- IH. by destruct (filterOf f rest).
Qed.

Lemma filterHead_length f xs x rest :
  filterHead f xs = inr (Some (x, rest)) → (length rest < length xs)%nat.
Proof.
  induction xs as [|y ys IH]; simpl; [done|].
  destruct (f y) as [e | [|]]; [done | intros [= _ <-]; lia |].
  intros H. apply IH in H. lia.
Qed.

(** Forcing the Thunk of [Filter]: the rejected elements are skipped by
    forcing the Thunks of their tails, one inside the other. *)
Lemma force_filter f xs :
  ∀ s id t fuel,
    fresh_above s → room s (length xs) → is_list s t xs →
    thunks s !! id = Some (filterFunc t f) → idle s id →
    (2 * length xs + 4 ≤ fuel)%nat →
    match filterHead f xs with
    | inl e => force fuel (Some id) VNil s = Panic e
    | inr None =>
        ∃ s', force fuel (Some id) VNil s = Ok None s' ∧ touches (only id) s s'
    | inr (Some (x, rest)) =>
        ∃ a tid tl s', force fuel (Some id) VNil s = Ok (Some a) s' ∧
          touches (only id) s s' ∧
          (thunkId s' ≤ thunkId s + N.of_nat (length xs - length rest))%N ∧
          (thunkId s < tid ≤ thunkId s')%N ∧
          pairs s' !! a = Some (mkPair x (Some tid)) ∧
          thunks s' !! tid = Some (filterFunc tl f) ∧ idle s' tid ∧
          is_list s' tl rest
    end.
Proof.
  induction xs as [|x rest0 IH]; intros s id t fuel Hfresh Hroom Hlist Hid Hidle Hfuel;
    (destruct fuel as [|[|fuel]]; [cbn [length] in Hfuel; lia..|]);
    cbn [filterHead length] in *;
    (destruct (force_is_list fuel (logged id s) t _ VNil ltac:(lia)
                 (logged_is_list _ _ _ _ Hlist)) as (r1 & s1 & Hforce1 & Hfill1 & Hr1));
    pose proof (fills_touches _ _ Hfill1) as Htouch1;
    (assert (Hfresh1 : fresh_above s1)
       by (eapply fills_fresh; [done | by apply logged_fresh]));
    (assert (Hi1 : thunkId s1 = thunkId s) by (by destruct Hfill1 as (_ & -> & _)));
    (assert (Hcall0 : call (S fuel) id VNil (logged id s)
                      = (match r1 with
                         | None => ret None
                         | Some _ =>
                             let* p := deref r1 in
                             let* tail := Filter (p_tail p) f in
                             let* b := lift (f (p_head p)) in
                             if b : bool then newPair (p_head p) tail
                             else force fuel tail VNil
                         end) s1)
       by (cbn [call];
           rewrite (bind_eq _ _ _ _ _ (getFunc_eq (logged id s) _ _ Hid));
           by rewrite (bind_eq _ _ _ _ _ Hforce1))).
  - subst r1.
    destruct (force_idle (S fuel) id _ VNil s None s1 nothing Hidle Hid Hfresh
                ltac:(unfold nothing; tauto) Hcall0 Htouch1) as (Hforce & Htouch' & _).
    eexists. split; [exact Hforce|]. eapply touches_weaken; [|exact Htouch']. touched.
  - destruct Hr1 as (a1 & tl0 & -> & Ha1 & Htl0).
    rewrite (bind_eq _ _ _ _ _ (deref_eq _ _ _ Ha1)) in Hcall0. cbn [p_head p_tail] in Hcall0.
    assert (Hroom1 : room s1 1) by (unfold room in *; lia).
    unfold Filter in Hcall0. rewrite (bind_eq _ _ _ _ _ (newThunk_alloc _ _ Hroom1)) in Hcall0.
    pose proof (touches_alloc (filterFunc tl0 f) s1 Hfresh1 Hroom1) as Htouch2.
    set (s2 := alloc (filterFunc tl0 f) s1) in *.
    assert (Hfresh2 : fresh_above s2) by by eapply touches_fresh.
    assert (Hid2 : thunks s2 !! (thunkId s1 + 1)%N = Some (filterFunc tl0 f))
      by (simpl; apply lookup_insert_eq).
    assert (Hidle2 : idle s2 (thunkId s1 + 1)%N) by by apply idle_alloc.
    assert (Htl2 : is_list s2 tl0 rest0) by by eapply touches_is_list.
    assert (Htouch12 : touches nothing (logged id s) s2).
    { eapply touches_trans; [exact Htouch1 | exact Htouch2 | touched]. }
    assert (Hid' : id ≠ (thunkId s1 + 1)%N).
    { apply (fresh_allocated _ _ _ Hfresh) in Hid. lia. }
    destruct (f x) as [e | [|]].
    + by apply force_idle_panic.
    + (* accepted *)
      unfold bind at 1 in Hcall0. cbn [lift ret] in Hcall0. rewrite newPair_push in Hcall0.
      pose proof (fills_touches _ _ (fills_push (mkPair x (Some (thunkId s1 + 1)%N)) s2))
        as Htouch3.
      set (s3 := push (mkPair x (Some (thunkId s1 + 1)%N)) s2) in *.
      assert (Htouch13 : touches nothing (logged id s) s3).
      { eapply touches_trans; [exact Htouch12 | exact Htouch3 | touched]. }
      destruct (force_idle (S fuel) id _ VNil s _ s3 nothing Hidle Hid Hfresh
                  ltac:(unfold nothing; tauto) Hcall0 Htouch13)
        as (Hforce & Htouch' & Hlast).
      eexists _, (thunkId s1 + 1)%N, tl0, _. split; [exact Hforce|]. split_and!.
      * eapply touches_weaken; [|exact Htouch']. touched.
      * rewrite thunkId_cached. simpl. lia.
      * lia.
      * rewrite thunkId_cached. simpl. lia.
      * rewrite pairs_cached. apply push_lookup.
      * by rewrite thunks_cached.
      * apply idle_cached; [done|].
        by apply (touches_idle _ _ _ _ _ Htouch3 Hfresh2 ltac:(unfold nothing; tauto) Hid2).
      * apply (touches_is_list _ _ _ _ _ Hlast). by apply (touches_is_list _ _ _ _ _ Htouch3).
    + (* rejected: the Thunk of the tail is forced *)
      unfold bind at 1 in Hcall0. cbn [lift ret] in Hcall0.
      specialize (IH s2 (thunkId s1 + 1)%N tl0 fuel Hfresh2
                    ltac:(unfold room in *; simpl; lia) Htl2 Hid2 Hidle2 ltac:(lia)).
      destruct (filterHead f rest0) as [e | [[y rest]|]] eqn:Hhead.
      * rewrite IH in Hcall0. by apply force_idle_panic.
      * destruct IH as (a & tid & tl & s3 & Hinner & Htouch3 & Hi3 & Htid & Ha & Ht & Hidle3 & Htl).
        rewrite Hinner in Hcall0.
        assert (Htouch13 : touches nothing (logged id s) s3).
        { eapply touches_trans; [exact Htouch12 | exact Htouch3 |].
          intros j ->. right. simpl. lia. }
        destruct (force_idle (S fuel) id _ VNil s _ s3 nothing Hidle Hid Hfresh
                    ltac:(unfold nothing; tauto) Hcall0 Htouch13)
          as (Hforce & Htouch' & Hlast).
        eexists a, tid, tl, _. split; [exact Hforce|].
        change (thunkId s2) with (thunkId s1 + 1)%N in *.
        split_and!.
        -- eapply touches_weaken; [|exact Htouch']. touched.
        -- rewrite thunkId_cached.
           apply filterHead_length in Hhead. lia.
        -- lia.
        -- rewrite thunkId_cached. lia.
        -- by rewrite pairs_cached.
        -- by rewrite thunks_cached.
        -- apply idle_cached; [|done]. apply (fresh_allocated _ _ _ Hfresh) in Hid. lia.
        -- by apply (touches_is_list _ _ _ _ _ Hlast).
      * destruct IH as (s3 & Hinner & Htouch3).
        rewrite Hinner in Hcall0.
        assert (Htouch13 : touches nothing (logged id s) s3).
        { eapply touches_trans; [exact Htouch12 | exact Htouch3 |].
          intros j ->. right. simpl. lia. }
        destruct (force_idle (S fuel) id _ VNil s _ s3 nothing Hidle Hid Hfresh
                    ltac:(unfold nothing; tauto) Hcall0 Htouch13)
          as (Hforce & Htouch' & _).
        eexists. split; [exact Hforce|]. eapply touches_weaken; [|exact Htouch']. touched.
Qed.

Lemma ToSlice_filter f k :
  ∀ xs s id t fuel,
    (length xs ≤ k)%nat →
    fresh_above s → room s (length xs) → is_list s t xs →
    thunks s !! id = Some (filterFunc t f) → idle s id →
    (2 * length xs + 5 ≤ fuel)%nat →
    match filterOf f xs with
    | inl e => ToSlice fuel (Some id) s = Panic e
    | inr ys => ∃ s', ToSlice fuel (Some id) s = Ok ys s' ∧ touches (only id) s s'
    end.
Proof.
  induction k as [|k IH]; intros xs s id t fuel Hk Hfresh Hroom Hlist Hid Hidle Hfuel;
    (destruct fuel as [|fuel]; [lia|]); cbn [ToSlice]; rewrite filterOf_head;
    pose proof (force_filter f xs s id t fuel Hfresh Hroom Hlist Hid Hidle ltac:(lia))
      as Hforce;
    destruct (filterHead f xs) as [e | [[x rest]|]] eqn:Hhead;
    try (by rewrite (bind_panic _ _ _ _ Hforce));
    try (destruct Hforce as (s' & Hforce & Htouch);
         rewrite (bind_eq _ _ _ _ _ Hforce); by exists s');
    pose proof (filterHead_length _ _ _ _ Hhead) as Hlen; [lia|].
  destruct Hforce as (a & tid & tl & s1 & Hforce & Htouch & Hi & Htid & Ha & Ht & Hidle1 & Htl).
  rewrite (bind_eq _ _ _ _ _ Hforce). cbn beta iota.
  rewrite (bind_eq _ _ _ _ _ (deref_eq _ _ _ Ha)). cbn [p_head p_tail].
  specialize (IH rest s1 tid tl fuel ltac:(lia) (touches_fresh _ _ _ Htouch Hfresh)
                ltac:(unfold room in *; lia) Htl Ht Hidle1 ltac:(lia)).
  destruct (filterOf f rest) as [e|ys].
  - by rewrite (bind_panic _ _ _ _ IH).
  - destruct IH as (s2 & Hrest & Htouch2).
    rewrite (bind_eq _ _ _ _ _ Hrest). exists s2. split; [done|].
    eapply (touches_trans _ _ s s1); [exact Htouch | exact Htouch2 |].
    intros j ->. right. lia.
Qed.

(** X15.  [L.Filter(f).ToSlice()] is the elements of [L] that [f] accepts, in
    their order; [f] is asked about every element in order and its first
    panic is the outcome. *)
Theorem Filter_ToSlice s t xs f fuel :
  fresh_above s → room s (S (length xs)) → is_list s t xs →
  (2 * length xs + 5 ≤ fuel)%nat →
  match filterOf f xs with
  | inl e => (let* t' := Filter t f in ToSlice fuel t') s = Panic e
  | inr ys => ∃ s', (let* t' := Filter t f in ToSlice fuel t') s = Ok ys s' ∧
                    is_list s' t xs
  end.
Proof.
  intros Hfresh Hroom Hlist Hfuel.
  assert (Hroom1 : room s 1) by (eapply room_le; [|exact Hroom]; lia).
  unfold Filter. rewrite (bind_eq _ _ _ _ _ (newThunk_alloc _ _ Hroom1)).
  pose proof (touches_alloc (filterFunc t f) s Hfresh Hroom1) as Htouch.
  pose proof (ToSlice_filter f (length xs) xs (alloc (filterFunc t f) s)
                (thunkId s + 1)%N t fuel ltac:(lia)
                (touches_fresh _ _ _ Htouch Hfresh)
                ltac:(unfold room in *; simpl; lia)
                (touches_is_list _ _ _ _ _ Htouch Hlist)
                ltac:(simpl; apply lookup_insert_eq)
                ltac:(by apply idle_alloc) Hfuel) as H.
  destruct (filterOf f xs) as [e|ys]; [exact H|].
  destruct H as (s' & Hrun & Htouch'). exists s'. split; [exact Hrun|].
  eapply touches_is_list; [exact Htouch'|]. by eapply touches_is_list.
Qed.

Lemma Filter_ToSlice_witness :
  let s := state_of (L (ints [1; 5; 2; 7]) init) in
  let big x := match x with VInt _ z => inr (2 <? z) | _ => inl TypeAssertion end in
  let str x := match x with VString _ => inr true | _ => inl TypeAssertion end in
  (∃ s', (let* t' := Filter (Some 5%N) big in ToSlice 13 t') s
         = Ok (ints [5; 7]) s' ∧
         is_list s' (Some 5%N) (ints [1; 5; 2; 7])) ∧
  (let* t' := Filter (Some 5%N) str in ToSlice 13 t') s = Panic TypeAssertion.
Proof.
  intros s big str.
  assert (Hlist : is_list s (Some 5%N) (ints [1; 5; 2; 7])) by concrete_list.
  assert (Hfresh : fresh_above s) by concrete_fresh.
  assert (Hroom : room s (S (length (ints [1; 5; 2; 7]))))
    by (unfold room; by vm_compute).
  split.
  - exact (Filter_ToSlice s (Some 5%N) _ big 13 Hfresh Hroom Hlist ltac:(simpl; lia)).
  - exact (Filter_ToSlice s (Some 5%N) _ str 13 Hfresh Hroom Hlist ltac:(simpl; lia)).
Defined.

(** ** Reverse and Last *)

(** The fold of [Reverse]: each element is linked in front of the
    accumulated list. *)
Lemma ReduceN_reverse xs :
  ∀ s t acc ys fuel,
    fresh_above s → room s (length xs) →
    is_list s t xs → is_list s acc ys →
    (length xs + 3 ≤ fuel)%nat →
    ∃ r s', ReduceN fuel (reduceAdaptor reverseFunc) (VThunk acc) [t] s
            = Ok (VThunk r) s' ∧
            touches nothing s s' ∧
            thunkId s' = (thunkId s + N.of_nat (length xs))%N ∧
            is_list s' r (rev_append xs ys).
Proof.
  induction xs as [|x rest IH]; intros s t acc ys fuel Hfresh Hroom Ht Hacc Hfuel;
    (destruct fuel as [|fuel]; [lia|]); cbn [ReduceN length rev_append] in *;
    match type of Ht with
    | is_list _ _ ?l =>
        destruct (forceEach_lists fuel [t] ltac:(lia) s [l])
          as (r & s1 & Heach & Hfill & Hr); [by repeat constructor|]
    end;
    rewrite (bind_eq _ _ _ _ _ Heach); simpl in Hr;
    pose proof (fills_touches _ _ Hfill) as Htouch1;
    pose proof Hfill as (_ & Hi1 & _).
  - subst r. exists acc, s1. split; [done|]. split; [done|].
    split; [lia | by eapply fills_is_list].
  - destruct Hr as (tails & -> & Htails).
    apply Forall2_cons_inv_r in Htails as (tl & tails' & Htl & Htails & ->).
    apply Forall2_nil_inv_r in Htails as ->.
    cbn [applyReduce index0 applyReduce1 assertThunk]. unfold bind at 2. cbn [ret].
    unfold bind at 2. cbn [ret]. unfold Link.
    assert (Hfresh1 : fresh_above s1) by by eapply fills_fresh.
    assert (Hroom1 : room s1 1) by (unfold room in *; lia).
    unfold bind at 1. unfold bind at 1. rewrite (newThunk_alloc _ _ Hroom1). cbn [ret].
    pose proof (touches_alloc (linkFunc x acc) s1 Hfresh1 Hroom1) as Htouch2.
    destruct (IH (alloc (linkFunc x acc) s1) tl (Some (thunkId s1 + 1)%N) (x :: ys) fuel)
      as (r & s2 & Hred & Htouch3 & Hi3 & Hr).
    + by eapply touches_fresh.
    + unfold room in *. simpl. lia.
    + by eapply touches_is_list.
    + apply is_list_alloc_link; [done | done | by eapply fills_is_list].
    + lia.
    + exists r, s2. split; [exact Hred|]. split_and!.
      * eapply (touches_trans nothing nothing); [exact Htouch1 | | touched].
        eapply (touches_trans nothing nothing); [exact Htouch2 | exact Htouch3 | touched].
      * simpl in Hi3. lia.
      * done.
Qed.

(** Forcing the Thunk of [Reverse]: the whole list is walked and linked in
    reverse, then the first Thunk of the result is forced. *)
Lemma force_reverse fuel s id t xs :
  fresh_above s → room s (length xs) → ends s Empty → is_list s t xs →
  thunks s !! id = Some (reverseThunkFunc t) → idle s id →
  (length xs + 5 ≤ fuel)%nat →
  ∃ r s', force fuel (Some id) VNil s = Ok r s' ∧ touches (only id) s s' ∧
    thunkId s' = (thunkId s + N.of_nat (length xs))%N ∧
    match reverse xs with
    | [] => r = None
    | y :: ys => ∃ a tl, r = Some a ∧ pairs s' !! a = Some (mkPair y tl) ∧
                         is_list s' tl ys
    end.
Proof.
  intros Hfresh Hroom Hends Hlist Hid Hidle Hfuel.
  destruct fuel as [|[|fuel]]; [lia..|].
  destruct (ReduceN_reverse xs (logged id s) t Empty [] fuel
              (logged_fresh _ _ Hfresh) Hroom (logged_is_list _ _ _ _ Hlist)
              (logged_ends _ _ _ Hends) ltac:(lia))
    as (tr & s1 & Hred & Htouch1 & Hi1 & Hrev).
  change (rev_append xs []) with (reverse xs) in Hrev.
  destruct (force_is_list fuel s1 tr (reverse xs) VNil ltac:(lia) Hrev)
    as (r & s2 & Hforce2 & Hfill2 & Hr).
  assert (Hcall : call (S fuel) id VNil (logged id s) = Ok r s2).
  { cbn [call]. rewrite (bind_eq _ _ _ _ _ (getFunc_eq (logged id s) _ _ Hid)).
    cbn [L List]. unfold bind at 1. cbn [ret].
    rewrite (bind_eq _ _ _ _ _ Hred). cbn [assertThunk]. unfold bind at 1. cbn [ret].
    exact Hforce2. }
  assert (Htouch12 : touches nothing (logged id s) s2).
  { eapply touches_trans; [exact Htouch1 | by apply fills_touches | touched]. }
  destruct (force_idle (S fuel) id _ VNil s r s2 nothing Hidle Hid Hfresh
              ltac:(unfold nothing; tauto) Hcall Htouch12) as (Hforce & Htouch' & Hlast).
  exists r, (cached s id r s2). split; [exact Hforce|]. split.
  { eapply touches_weaken; [|exact Htouch']. touched. }
  rewrite thunkId_cached, pairs_cached. split.
  { destruct Hfill2 as (_ & -> & _). exact Hi1. }
  destruct (reverse xs) as [|y ys]; [done|].
  destruct Hr as (a & tl & -> & Ha & Htl). exists a, tl.
  split; [done|]. split; [done|]. by apply (touches_is_list (only id) s2).
Qed.

(** X16.  For a finite list, [L.Reverse().ToSlice()] is the elements of [L]
    in reverse order, and [L] is the same list afterwards. *)
Theorem Reverse_ToSlice s t xs fuel :
  fresh_above s → room s (S (length xs)) → ends s Empty → is_list s t xs →
  (length xs + 6 ≤ fuel)%nat →
  ∃ s', (let* r := Reverse t in ToSlice fuel r) s = Ok (reverse xs) s' ∧
        is_list s' t xs.
Proof.
  intros Hfresh Hroom Hends Hlist Hfuel.
  assert (Hroom1 : room s 1) by (eapply room_le; [|exact Hroom]; lia).
  unfold Reverse. rewrite (bind_eq _ _ _ _ _ (newThunk_alloc _ _ Hroom1)).
  pose proof (touches_alloc (reverseThunkFunc t) s Hfresh Hroom1) as Htouch.
  set (s1 := alloc (reverseThunkFunc t) s) in *.
  destruct fuel as [|fuel]; [lia|]. cbn [ToSlice].
  destruct (force_reverse fuel s1 (thunkId s + 1)%N t xs)
    as (r & s2 & Hforce & Htouch2 & _ & Hr).
  - by eapply touches_fresh.
  - unfold room in *. simpl. lia.
  - by eapply touches_ends.
  - by eapply touches_is_list.
  - simpl. apply lookup_insert_eq.
  - by apply idle_alloc.
  - lia.
  - rewrite (bind_eq _ _ _ _ _ Hforce).
    assert (Hlist2 : is_list s2 t xs).
    { eapply touches_is_list; [exact Htouch2|]. by eapply touches_is_list. }
    assert (Hlen : length (reverse xs) = length xs) by apply length_reverse.
    destruct (reverse xs) as [|y ys].
    + subst r. by exists s2.
    + destruct Hr as (a & tl & -> & Ha & Htl). cbn beta iota.
      rewrite (bind_eq _ _ _ _ _ (deref_eq _ _ _ Ha)). cbn [p_head p_tail].
      destruct (ToSlice_list ys s2 tl fuel Htl) as (s3 & Hrest & Hfill);
        [simpl in Hlen; lia|].
      rewrite (bind_eq _ _ _ _ _ Hrest). exists s3. split; [done|].
      by eapply fills_is_list.
Qed.

Lemma Reverse_ToSlice_witness :
  let s := state_of (L (ints [1; 2; 3]) init) in
  ∃ s', (let* r := Reverse (Some 4%N) in ToSlice 9 r) s = Ok (ints [3; 2; 1]) s' ∧
        is_list s' (Some 4%N) (ints [1; 2; 3]).
Proof.
  intros s.
  assert (Hlist : is_list s (Some 4%N) (ints [1; 2; 3])) by concrete_list.
  assert (Hfresh : fresh_above s) by concrete_fresh.
  assert (Hends : ends s Empty) by (right; by vm_compute).
  assert (Hroom : room s (S (length (ints [1; 2; 3])))) by (unfold room; by vm_compute).
  exact (Reverse_ToSlice s (Some 4%N) (ints [1; 2; 3]) 9 Hfresh Hroom Hends Hlist
           ltac:(simpl; lia)).
Defined.

(** X17.  [Last] of a non-empty finite list is its last element; [Last] of an
    empty list panics with a nil pointer dereference. *)
Theorem Last_of_list s t xs fuel :
  fresh_above s → room s (length xs + 3) → ends s Empty → is_list s t xs →
  (length xs + 8 ≤ fuel)%nat →
  match last xs with
  | Some y => ∃ s', Last fuel t s = Ok y s' ∧ is_list s' t xs
  | None => Last fuel t s = Panic NilDereference
  end.
Proof.
  intros Hfresh Hroom Hends Hlist Hfuel. unfold Last.
  assert (Hroom1 : room s 1) by (eapply room_le; [|exact Hroom]; lia).
  unfold Reverse. rewrite (bind_eq _ _ _ _ _ (newThunk_alloc _ _ Hroom1)).
  pose proof (touches_alloc (reverseThunkFunc t) s Hfresh Hroom1) as Htouch1.
  set (s1 := alloc (reverseThunkFunc t) s) in *.
  assert (Hfresh1 : fresh_above s1) by by eapply touches_fresh.
  assert (Hroom2 : room s1 1) by (unfold room in *; simpl; lia).
  unfold Take. rewrite (bind_eq _ _ _ _ _ (newThunk_alloc _ _ Hroom2)).
  pose proof (touches_alloc (takeFunc (Some (thunkId s + 1)%N) 1) s1 Hfresh1 Hroom2)
    as Htouch2.
  set (s2 := alloc (takeFunc (Some (thunkId s + 1)%N) 1) s1) in *.
  assert (Hfresh2 : fresh_above s2) by by eapply touches_fresh.
  assert (Hr1 : thunks s1 !! (thunkId s + 1)%N = Some (reverseThunkFunc t))
    by (simpl; apply lookup_insert_eq).
  assert (Hidle1 : idle s1 (thunkId s + 1)%N) by by apply idle_alloc.
  destruct (touches_idle _ _ _ _ _ Htouch2 Hfresh1 ltac:(unfold nothing; tauto) Hr1 Hidle1)
    as [Hr2 Hidler2].
  assert (Ht2 : thunks s2 !! (thunkId s1 + 1)%N = Some (takeFunc (Some (thunkId s + 1)%N) 1))
    by (simpl; apply lookup_insert_eq).
  assert (Hidle2 : idle s2 (thunkId s1 + 1)%N) by by apply idle_alloc.
  assert (Hlist2 : is_list s2 t xs).
  { eapply touches_is_list; [exact Htouch2|]. by eapply touches_is_list. }
  destruct fuel as [|[|fuel]]; [lia..|].
  (* the closure of Take(1) forces the reversed list *)
  destruct (force_reverse fuel (logged (thunkId s1 + 1)%N s2) (thunkId s + 1)%N t xs)
    as (r & s3 & Hforce3 & Htouch3 & Hi3 & Hr).
  - by apply logged_fresh.
  - unfold room in *. simpl. lia.
  - apply logged_ends. eapply touches_ends; [exact Htouch2|]. by eapply touches_ends.
  - by apply logged_is_list.
  - exact Hr2.
  - by apply logged_idle.
  - lia.
  - assert (Hlist3 : is_list s3 t xs)
      by exact (touches_is_list _ _ _ _ _ Htouch3 (logged_is_list _ _ _ _ Hlist2)).
    assert (Hne : (thunkId s1 + 1)%N ≠ (thunkId s + 1)%N) by (simpl; lia).
    rewrite <- head_reverse.
    destruct (reverse xs) as [|y ys]; cbn [head].
    + subst r.
      assert (Hcall : call (S fuel) (thunkId s1 + 1)%N VNil
                        (logged (thunkId s1 + 1)%N s2) = Ok None s3).
      { cbn [call].
        rewrite (bind_eq _ _ _ _ _ (getFunc_eq (logged (thunkId s1 + 1)%N s2) _ _ Ht2)).
        cbn beta iota. replace (0 <? 1) with true by done.
        by rewrite (bind_eq _ _ _ _ _ Hforce3). }
      unfold bind at 1. rewrite force_uncached by apply Hidle2. by rewrite Hcall.
    + destruct Hr as (a & tl & -> & Ha & Htl).
      assert (Hfresh3 : fresh_above s3)
        by exact (touches_fresh _ _ _ Htouch3 (logged_fresh _ _ Hfresh2)).
      assert (Hroom3 : room s3 1).
      { unfold room in *. rewrite Hi3. simpl. lia. }
      assert (Hcall : call (S fuel) (thunkId s1 + 1)%N VNil
                        (logged (thunkId s1 + 1)%N s2)
                      = Ok (Some (length (pairs s3)))
                           (push (mkPair y (Some (thunkId s3 + 1)%N))
                                 (alloc (takeFunc tl (1 - 1)) s3))).
      { cbn [call].
        rewrite (bind_eq _ _ _ _ _ (getFunc_eq (logged (thunkId s1 + 1)%N s2) _ _ Ht2)).
        cbn beta iota. replace (0 <? 1) with true by done.
        rewrite (bind_eq _ _ _ _ _ Hforce3). cbn beta iota.
        rewrite (bind_eq _ _ _ _ _ (deref_eq _ _ _ Ha)). cbn [p_head p_tail].
        unfold Take. by rewrite (bind_eq _ _ _ _ _ (newThunk_alloc _ _ Hroom3)). }
      destruct (alloc_push_spec (takeFunc tl (1 - 1)) y s3 Hfresh3 Hroom3
                  ltac:(done) ltac:(done)) as (Htouch4 & _ & Ha4 & _).
      set (s4 := push (mkPair y (Some (thunkId s3 + 1)%N))
                      (alloc (takeFunc tl (1 - 1)) s3)) in *.
      assert (Htouch34 : touches (only (thunkId s + 1)%N)
                           (logged (thunkId s1 + 1)%N s2) s4).
      { eapply (touches_trans _ nothing); [exact Htouch3 | exact Htouch4 | touched]. }
      destruct (force_idle (S fuel) (thunkId s1 + 1)%N _ VNil s2 _ s4
                  (only (thunkId s + 1)%N) Hidle2 Ht2 Hfresh2
                  ltac:(unfold only; congruence) Hcall Htouch34)
        as (Hforce & Htouch' & _).
      rewrite (bind_eq _ _ _ _ _ Hforce).
      rewrite (bind_eq _ _ _ _ _ (deref_eq (cached s2 _ _ s4) _ _
                 ltac:(rewrite pairs_cached; exact Ha4))).
      eexists. split; [done|]. exact (touches_is_list _ _ _ _ _ Htouch' Hlist2).
Qed.

Lemma Last_of_list_witness :
  let s := state_of (L (ints [1; 2; 3]) init) in
  (∃ s', Last 11 (Some 4%N) s = Ok (VInt int 3) s' ∧
         is_list s' (Some 4%N) (ints [1; 2; 3])) ∧
  Last 8 Empty s = Panic NilDereference.
Proof.
  intros s.
  assert (Hlist : is_list s (Some 4%N) (ints [1; 2; 3])) by concrete_list.
  assert (Hfresh : fresh_above s) by concrete_fresh.
  assert (Hends : ends s Empty) by (right; by vm_compute).
  assert (Hroom : room s (length (ints [1; 2; 3]) + 3)) by (unfold room; by vm_compute).
  assert (Hroom0 : room s (length (@nil I) + 3)) by (unfold room; by vm_compute).
  split.
  - exact (Last_of_list s (Some 4%N) (ints [1; 2; 3]) 11 Hfresh Hroom Hends Hlist
             ltac:(simpl; lia)).
  - exact (Last_of_list s Empty [] 8 Hfresh Hroom0 Hends Hends ltac:(simpl; lia)).
Defined.

(** ** Updating *)

(** Forcing a tail of [Updating]: a Thunk for the function literal [tail] is
    allocated and forced with the previous element as its argument. *)
Lemma force_updatingNext fuel s id h f :
  fresh_above s → room s 2 →
  thunks s !! id = Some (updatingNext h f) → idle s id →
  (5 ≤ fuel)%nat →
  match f h with
  | inl e => force fuel (Some id) VNil s = Panic e
  | inr h' =>
      ∃ a s', force fuel (Some id) VNil s = Ok (Some a) s' ∧
        touches (only id) s s' ∧ thunkId s' = (thunkId s + 2)%N ∧
        pairs s' !! a = Some (mkPair h' (Some (thunkId s + 2)%N)) ∧
        thunks s' !! (thunkId s + 2)%N = Some (updatingNext h' f) ∧
        idle s' (thunkId s + 2)%N
  end.
Proof.
  intros Hfresh Hroom Hid Hidle Hfuel.
  destruct fuel as [|[|[|[|fuel]]]]; [lia..|].
  assert (Hroom1 : room (logged id s) 1) by (unfold room in *; simpl; lia).
  pose proof (touches_alloc (updatingTail f) (logged id s) (logged_fresh _ _ Hfresh) Hroom1)
    as Htouch1.
  set (s1 := alloc (updatingTail f) (logged id s)) in *.
  assert (Hfresh1 : fresh_above s1) by (eapply touches_fresh; [done | by apply logged_fresh]).
  assert (Ha1 : thunks s1 !! (thunkId s + 1)%N = Some (updatingTail f))
    by (simpl; apply lookup_insert_eq).
  assert (Hidle1 : idle s1 (thunkId s + 1)%N)
    by (apply (idle_alloc (updatingTail f) (logged id s)); [by apply logged_fresh | done..]).
  assert (Hcall0 : call (S (S (S fuel))) id VNil (logged id s)
                   = force (S (S fuel)) (Some (thunkId s + 1)%N) h s1).
  { cbn [call]. rewrite (bind_eq _ _ _ _ _ (getFunc_eq (logged id s) _ _ Hid)).
    cbn beta iota. by rewrite (bind_eq _ _ _ _ _ (newThunk_alloc _ _ Hroom1)). }
  assert (Hcall1 : call (S fuel) (thunkId s + 1)%N h (logged (thunkId s + 1)%N s1)
                   = (let* h' := lift (f h) in
                      let* t := newThunk (updatingNext h' f) in
                      newPair h' t) (logged (thunkId s + 1)%N s1)).
  { cbn [call]. by rewrite (bind_eq _ _ _ _ _ (getFunc_eq (logged _ s1) _ _ Ha1)). }
  destruct (f h) as [e|h'].
  - apply force_idle_panic; [done|]. rewrite Hcall0.
    apply force_idle_panic; [done|]. by rewrite Hcall1.
  - unfold bind at 1 in Hcall1. cbn [lift ret] in Hcall1.
    assert (Hroom2 : room (logged (thunkId s + 1)%N s1) 1) by (unfold room in *; simpl; lia).
    rewrite (bind_eq _ _ _ _ _ (newThunk_alloc _ _ Hroom2)) in Hcall1.
    rewrite newPair_push in Hcall1.
    destruct (alloc_push_spec (updatingNext h' f) h' (logged (thunkId s + 1)%N s1)
                (logged_fresh _ _ Hfresh1) Hroom2 ltac:(done) ltac:(done))
      as (Htouch2 & Hi2 & Ha2 & Hp2 & Hidle2).
    change (thunkId (logged (thunkId s + 1)%N s1)) with (thunkId s + 1)%N in *.
    change (pairs (logged (thunkId s + 1)%N s1)) with (pairs s) in *.
    set (s2 := push (mkPair h' (Some (thunkId s + 1 + 1)%N))
                    (alloc (updatingNext h' f) (logged (thunkId s + 1)%N s1))) in *.
    destruct (force_idle (S fuel) (thunkId s + 1)%N _ h s1 _ s2 nothing Hidle1 Ha1 Hfresh1
                ltac:(unfold nothing; tauto) Hcall1 Htouch2)
      as (Hforce1 & Htouch1' & Hlast1).
    set (s3 := cached s1 (thunkId s + 1)%N (Some (length (pairs s))) s2) in *.
    rewrite Hforce1 in Hcall0.
    assert (Htouch03 : touches nothing (logged id s) s3).
    { eapply (touches_trans nothing); [exact Htouch1 | exact Htouch1' |].
      intros j [-> | []]. right. simpl. lia. }
    destruct (force_idle (S (S (S fuel))) id _ VNil s _ s3 nothing Hidle Hid Hfresh
                ltac:(unfold nothing; tauto) Hcall0 Htouch03)
      as (Hforce & Htouch' & Hlast).
    assert (Hne : id ≠ (thunkId s + 2)%N).
    { apply (fresh_allocated _ _ _ Hfresh) in Hid. lia. }
    replace (thunkId s + 1 + 1)%N with (thunkId s + 2)%N in * by lia.
    eexists _, _. split; [exact Hforce|]. split_and!.
    + eapply touches_weaken; [|exact Htouch']. touched.
    + rewrite thunkId_cached. unfold s3. rewrite thunkId_cached. simpl. lia.
    + rewrite pairs_cached. unfold s3. rewrite pairs_cached. exact Ha2.
    + rewrite thunks_cached. unfold s3. rewrite thunks_cached. exact Hp2.
    + apply idle_cached; [done|]. apply idle_cached; [lia | exact Hidle2].
Qed.

(** The loop of [At] along the tails of [Updating], [d] elements before the
    one asked for. *)
Lemma atLoop_updating f (n : Z) d :
  ∀ s id h p fuel,
    fresh_above s → room s (2 * S d) →
    thunks s !! id = Some (updatingNext h f) → idle s id →
    Z.of_nat d ≤ n < 2 ^ 64 - 1 →
    (d + 7 ≤ fuel)%nat →
    match iterOf f (S d) h with
    | inl e => atLoop fuel (n - Z.of_nat d) n (Some id) p s = Panic e
    | inr y => ∃ s', atLoop fuel (n - Z.of_nat d) n (Some id) p s = Ok y s'
    end.
Proof.
  induction d as [|d IH]; intros s id h p fuel Hfresh Hroom Hid Hidle Hn Hfuel;
    (destruct fuel as [|fuel]; [lia|]); cbn [atLoop iterOf];
    (replace (n - Z.of_nat _ <=? n) with true by (symmetry; apply Z.leb_le; lia));
    pose proof (force_updatingNext fuel s id h f Hfresh
                  ltac:(eapply room_le; [|exact Hroom]; lia) Hid Hidle ltac:(lia))
      as Hforce;
    (destruct (f h) as [e|h']; [by rewrite (bind_panic _ _ _ _ Hforce)|]);
    destruct Hforce as (a & s1 & Hforce & Htouch & Hi & Ha & Ht & Hidle1);
    rewrite (bind_eq _ _ _ _ _ Hforce); cbn beta iota;
    rewrite (bind_eq _ _ _ _ _ (deref_eq _ _ _ Ha)); cbn [p_head p_tail];
    rewrite wrapUint_small by lia.
  - rewrite Z.sub_0_r. destruct fuel as [|fuel]; [lia|]. cbn [atLoop].
    replace (n + 1 <=? n) with false by (symmetry; apply Z.leb_gt; lia).
    rewrite (bind_eq _ _ _ _ _ (deref_eq _ _ _ Ha)). by exists s1.
  - replace (n - Z.of_nat (S d) + 1) with (n - Z.of_nat d) by lia.
    apply IH; try done.
    + by eapply touches_fresh.
    + unfold room in *. rewrite Hi. lia.
    + lia.
    + lia.
Qed.

(** X18.  The element at position [n] of [Updating(initial, f)] is [f]
    applied [n] times to [initial]; when one of those applications panics,
    so does [At(n)].  [n] is a [uint] below its largest value. *)
Theorem Updating_At s initial f (n : nat) fuel :
  fresh_above s → room s (2 * n + 2) →
  Z.of_nat n < 2 ^ 64 - 1 →
  (n + 8 ≤ fuel)%nat →
  match iterOf f n initial with
  | inl e => (let* u := Updating initial f in At fuel u (Z.of_nat n)) s = Panic e
  | inr y => ∃ s', (let* u := Updating initial f in At fuel u (Z.of_nat n)) s = Ok y s'
  end.
Proof.
  intros Hfresh Hroom Hn Hfuel.
  assert (Hroom1 : room s 1) by (eapply room_le; [|exact Hroom]; lia).
  unfold Updating. rewrite (bind_eq _ _ _ _ _ (newThunk_alloc _ _ Hroom1)).
  pose proof (touches_alloc (updatingRet initial f) s Hfresh Hroom1) as Htouch0.
  set (s0 := alloc (updatingRet initial f) s) in *.
  assert (Hfresh0 : fresh_above s0) by by eapply touches_fresh.
  assert (Hu : thunks s0 !! (thunkId s + 1)%N = Some (updatingRet initial f))
    by (simpl; apply lookup_insert_eq).
  assert (Hidle0 : idle s0 (thunkId s + 1)%N) by by apply idle_alloc.
  destruct fuel as [|[|[|fuel]]]; [lia..|]. unfold At. cbn [atLoop].
  replace (0 <=? Z.of_nat n) with true by (symmetry; apply Z.leb_le; lia).
  (* the first Pair *)
  assert (Hroom0 : room (logged (thunkId s + 1)%N s0) 1) by (unfold room in *; simpl; lia).
  assert (Hcall : call (S fuel) (thunkId s + 1)%N VNil (logged (thunkId s + 1)%N s0)
                  = Ok (Some (length (pairs s)))
                       (push (mkPair initial (Some (thunkId s + 1 + 1)%N))
                          (alloc (updatingNext initial f) (logged (thunkId s + 1)%N s0)))).
  { cbn [call]. rewrite (bind_eq _ _ _ _ _ (getFunc_eq (logged _ s0) _ _ Hu)).
    cbn beta iota. by rewrite (bind_eq _ _ _ _ _ (newThunk_alloc _ _ Hroom0)). }
  destruct (alloc_push_spec (updatingNext initial f) initial (logged (thunkId s + 1)%N s0)
              (logged_fresh _ _ Hfresh0) Hroom0 ltac:(done) ltac:(done))
    as (Htouch1 & Hi1 & Ha1 & Hp1 & Hidle1).
  change (thunkId (logged (thunkId s + 1)%N s0)) with (thunkId s + 1)%N in *.
  change (pairs (logged (thunkId s + 1)%N s0)) with (pairs s) in *.
  set (s1 := push (mkPair initial (Some (thunkId s + 1 + 1)%N))
                  (alloc (updatingNext initial f) (logged (thunkId s + 1)%N s0))) in *.
  destruct (force_idle (S fuel) (thunkId s + 1)%N _ VNil s0 _ s1 nothing Hidle0 Hu Hfresh0
              ltac:(unfold nothing; tauto) Hcall Htouch1) as (Hforce & Htouch' & Hlast).
  set (s2 := cached s0 (thunkId s + 1)%N (Some (length (pairs s))) s1) in *.
  rewrite (bind_eq _ _ _ _ _ Hforce). cbn beta iota.
  assert (Ha2 : pairs s2 !! length (pairs s)
                = Some (mkPair initial (Some (thunkId s + 1 + 1)%N)))
    by (unfold s2; rewrite pairs_cached; exact Ha1).
  rewrite (bind_eq _ _ _ _ _ (deref_eq _ _ _ Ha2)). cbn [p_head p_tail].
  rewrite wrapUint_small by lia.
  destruct n as [|n].
  - cbn [atLoop iterOf]. replace (0 + 1 <=? Z.of_nat 0) with false by done.
    rewrite (bind_eq _ _ _ _ _ (deref_eq _ _ _ Ha2)). by exists s2.
  - pose proof (atLoop_updating f (Z.of_nat (S n)) n s2 (thunkId s + 1 + 1)%N initial
                  (Some (length (pairs s))) (S (S fuel))) as Hloop.
    replace (Z.of_nat (S n) - Z.of_nat n) with (0 + 1) in Hloop by lia.
    apply Hloop.
    + exact (touches_fresh _ _ _ Htouch' Hfresh0).
    + unfold room in *. unfold s2. rewrite thunkId_cached. simpl. lia.
    + by unfold s2; rewrite thunks_cached.
    + apply idle_cached; [lia | exact Hidle1].
    + lia.
    + lia.
Qed.

Lemma Updating_At_witness :
  let succ x := match x with VInt t z => inr (VInt t (z + 1)) | _ => inl TypeAssertion end in
  (* naturals := Updating(0, func(x I) I { return x.(int) + 1 }); naturals.At(3) *)
  (∃ s', (let* u := Updating (VInt int 0) succ in At 11 u 3) init = Ok (VInt int 3) s') ∧
  (let* u := Updating (VString "a") succ in At 11 u 3) init = Panic TypeAssertion.
Proof.
  intros succ.
  assert (Hfresh : fresh_above init) by concrete_fresh.
  assert (Hroom : room init (2 * 3 + 2)) by (unfold room; by vm_compute).
  split.
  - exact (Updating_At init (VInt int 0) succ 3 11 Hfresh Hroom ltac:(simpl; lia)
             ltac:(lia)).
  - exact (Updating_At init (VString "a") succ 3 11 Hfresh Hroom ltac:(simpl; lia)
             ltac:(lia)).
Defined.

(** ** What is not forced *)

Lemma keeps_leads s s' t xs u : keeps s s' → leads s t xs u → leads s' t xs u.
Proof.
  intros (Hm & Hc & He). revert t.
  induction xs as [|x xs IH]; intros t; simpl; [done|].
  intros (tl & Hcell & Hrest). exists tl. split; [by apply Hc | by apply IH].
Qed.

Lemma touches_leads X s s' t xs u : touches X s s' → leads s t xs u → leads s' t xs u.
Proof. intros (_ & _ & _ & _ & Hk & _). by apply keeps_leads. Qed.

(** The Thunks of [Take(n)] along [n] cells: the [n]-th one gives no Pair
    without forcing its list. *)
Lemma ToSlice_take_cells xs :
  ∀ s t u id fuel,
    fresh_above s → room s (length xs) → leads s t xs u →
    thunks s !! id = Some (takeFunc t (Z.of_nat (length xs))) → idle s id →
    (length xs + 5 ≤ fuel)%nat →
    ∃ s', ToSlice fuel (Some id) s = Ok xs s' ∧ touches (only id) s s'.
Proof.
  induction xs as [|x rest IH]; intros s t u id fuel Hfresh Hroom Hleads Hid Hidle Hfuel;
    (destruct fuel as [|[|[|fuel]]]; [cbn [length] in Hfuel; lia..|]);
    cbn [ToSlice length] in *.
  - assert (Hcall : call (S fuel) id VNil (logged id s) = Ok None (logged id s)).
    { cbn [call]. by rewrite (bind_eq _ _ _ _ _ (getFunc_eq (logged id s) _ _ Hid)). }
    destruct (force_idle (S fuel) id _ VNil s None _ nothing Hidle Hid Hfresh
                ltac:(unfold nothing; tauto) Hcall (touches_refl _ _))
      as (Hforce & Htouch' & _).
    rewrite (bind_eq _ _ _ _ _ Hforce). eexists. split; [done|].
    eapply touches_weaken; [|exact Htouch']. touched.
  - destruct Hleads as (tl & Hcell & Hrest).
    destruct (force_cell fuel (logged id s) t x tl VNil ltac:(lia))
      as (a & s1 & Hforce1 & Ha & Hfill).
    { destruct (fills_keeps _ _ (fills_logged id s)) as (_ & Hc & _). by apply Hc. }
    pose proof (fills_touches _ _ Hfill) as Htouch1.
    assert (Hfresh1 : fresh_above s1)
      by (eapply fills_fresh; [done | by apply logged_fresh]).
    assert (Hi1 : thunkId s1 = thunkId s) by (by destruct Hfill as (_ & -> & _)).
    assert (Hroom1 : room s1 1) by (unfold room in *; lia).
    assert (Hcall : call (S fuel) id VNil (logged id s)
                    = Ok (Some (length (pairs s1)))
                         (push (mkPair x (Some (thunkId s1 + 1)%N))
                               (alloc (takeFunc tl (Z.of_nat (S (length rest)) - 1)) s1))).
    { cbn [call]. rewrite (bind_eq _ _ _ _ _ (getFunc_eq (logged id s) _ _ Hid)).
      cbn beta iota.
      replace (0 <? Z.of_nat (S (length rest))) with true
        by (symmetry; apply Z.ltb_lt; lia).
      rewrite (bind_eq _ _ _ _ _ Hforce1). cbn beta iota.
      rewrite (bind_eq _ _ _ _ _ (deref_eq _ _ _ Ha)). cbn [p_head p_tail].
      unfold Take. by rewrite (bind_eq _ _ _ _ _ (newThunk_alloc _ _ Hroom1)). }
    replace (Z.of_nat (S (length rest)) - 1) with (Z.of_nat (length rest)) in Hcall by lia.
    destruct (alloc_push_spec (takeFunc tl (Z.of_nat (length rest))) x s1 Hfresh1 Hroom1
                ltac:(done) ltac:(done)) as (Htouch2 & Hi2 & Ha2 & Hp2 & Hidle2).
    set (s2 := push (mkPair x (Some (thunkId s1 + 1)%N))
                    (alloc (takeFunc tl (Z.of_nat (length rest))) s1)) in *.
    assert (Htouch12 : touches nothing (logged id s) s2).
    { eapply touches_trans; [exact Htouch1 | exact Htouch2 | touched]. }
    destruct (force_idle (S fuel) id _ VNil s _ s2 nothing Hidle Hid Hfresh
                ltac:(unfold nothing; tauto) Hcall Htouch12) as (Hforce & Htouch' & Hlast).
    set (s3 := cached s id (Some (length (pairs s1))) s2) in *.
    rewrite (bind_eq _ _ _ _ _ Hforce). cbn beta iota.
    rewrite (bind_eq _ _ _ _ _ (deref_eq s3 _ _
               ltac:(unfold s3; rewrite pairs_cached; exact Ha2))).
    cbn [p_head p_tail].
    assert (Hne : id ≠ (thunkId s1 + 1)%N).
    { apply (fresh_allocated _ _ _ Hfresh) in Hid. lia. }
    destruct (IH s3 tl u (thunkId s1 + 1)%N (S (S fuel))) as (s4 & Hrun & Htouch4).
    + exact (touches_fresh _ _ _ Htouch' Hfresh).
    + unfold room in *. unfold s3. rewrite thunkId_cached. lia.
    + exact (touches_leads _ _ _ _ _ _ Htouch' Hrest).
    + by unfold s3; rewrite thunks_cached.
    + by apply idle_cached.
    + lia.
    + rewrite (bind_eq _ _ _ _ _ Hrun). exists s4. split; [done|].
      eapply (touches_trans _ _ s s3); [|exact Htouch4|].
      * eapply touches_weaken; [|exact Htouch']. touched.
      * intros j ->. right. lia.
Qed.

(** X19.  [Take(n)] reads exactly [n] cells: for a list that begins with the
    [n] elements [xs], whatever follows them (an endless list, a Thunk that
    would not return), [L.Take(n).ToSlice()] is [xs], and a Thunk that has
    not been forced before is not forced by it. *)
Theorem Take_forces_a_prefix s t xs u fuel :
  fresh_above s → room s (S (length xs)) → leads s t xs u →
  Z.of_nat (length xs) < 2 ^ 64 →
  (length xs + 5 ≤ fuel)%nat →
  ∃ s', (let* t' := Take t (Z.of_nat (length xs)) in ToSlice fuel t') s = Ok xs s' ∧
        leads s' t xs u ∧
        ∀ j f, thunks s !! j = Some f → idle s j → thunks s' !! j = Some f ∧ idle s' j.
Proof.
  intros Hfresh Hroom Hleads Hn Hfuel.
  assert (Hroom1 : room s 1) by (eapply room_le; [|exact Hroom]; lia).
  unfold Take. rewrite (bind_eq _ _ _ _ _ (newThunk_alloc _ _ Hroom1)).
  pose proof (touches_alloc (takeFunc t (Z.of_nat (length xs))) s Hfresh Hroom1) as Htouch.
  set (s1 := alloc (takeFunc t (Z.of_nat (length xs))) s) in *.
  assert (Hfresh1 : fresh_above s1) by by eapply touches_fresh.
  destruct (ToSlice_take_cells xs s1 t u (thunkId s + 1)%N fuel) as (s' & Hrun & Htouch');
    try done.
  - unfold room in *. simpl. lia.
  - by eapply touches_leads.
  - simpl. apply lookup_insert_eq.
  - by apply idle_alloc.
  - exists s'. split; [exact Hrun|]. split.
    + eapply touches_leads; [exact Htouch'|]. by eapply touches_leads.
    + intros j f Hj Hidle.
      destruct (touches_idle _ _ _ _ _ Htouch Hfresh ltac:(unfold nothing; tauto) Hj Hidle)
        as [Hj1 Hidle1].
      apply (touches_idle _ _ _ _ _ Htouch' Hfresh1); [|done | done].
      unfold only. apply (fresh_allocated _ _ _ Hfresh) in Hj. lia.
Qed.

Lemma Take_forces_a_prefix_witness :
  (* l := Link(1, Link(2, integersFromN(3))); l.Take(2).ToSlice() *)
  let s := state_of ((let* t := integersFromN 3 in
                      let* t2 := Link (VInt int 2) t in
                      Link (VInt int 1) t2) init) in
  ∃ s', (let* t' := Take (Some 4%N) 2 in ToSlice 7 t') s = Ok (ints [1; 2]) s' ∧
        leads s' (Some 4%N) (ints [1; 2]) (Some 2%N) ∧
        thunks s' !! 2%N = Some (delayedLinkFunc (VInt int 3) (integersFromN_tail 3)) ∧
        idle s' 2%N.
Proof.
  intros s.
  assert (Hleads : leads s (Some 4%N) (ints [1; 2]) (Some 2%N)).
  { simpl. repeat (eexists; split; [eexists; split; [done|]; right; by vm_compute|]). done. }
  assert (Hfresh : fresh_above s) by concrete_fresh.
  assert (Hroom : room s (S (length (ints [1; 2])))) by (unfold room; by vm_compute).
  destruct (Take_forces_a_prefix s (Some 4%N) (ints [1; 2]) (Some 2%N) 7 Hfresh Hroom Hleads
              ltac:(simpl; lia) ltac:(simpl; lia)) as (s' & Hrun & Hleads' & Hrest).
  exists s'. split; [exact Hrun|]. split; [exact Hleads'|].
  apply Hrest; [by vm_compute|].
  split_and!; [by vm_compute | by vm_compute | by vm_compute].
Defined.

(** X20.  [Any] and [All] stop at the first element that decides: on a list
    that begins with elements [xs] none of which decides, followed by one
    that does, they return without forcing what follows it, endless or
    not. *)
Theorem Any_All_stop s t xs y u f fuel :
  leads s t (xs ++ [y]) u → (length xs + 3 ≤ fuel)%nat →
  (anyOf f xs = inr false → f y = inr true →
   ∃ s', Any fuel t f s = Ok true s' ∧ fills s s') ∧
  (allOf f xs = inr true → f y = inr false →
   ∃ s', All fuel t f s = Ok false s' ∧ fills s s').
Proof.
  revert s t fuel. induction xs as [|x rest IH]; intros s t fuel Hleads Hfuel;
    (destruct fuel as [|fuel]; [lia|]); cbn [Any All anyOf allOf length app] in *;
    destruct Hleads as (tl & Hcell & Hrest);
    (destruct (force_cell fuel s t _ tl VNil ltac:(lia) Hcell)
       as (a & s1 & Hforce & Ha & Hfill));
    rewrite !(bind_eq _ _ _ _ _ Hforce); cbn beta iota;
    rewrite !(bind_eq _ _ _ _ _ (deref_eq _ _ _ Ha)); cbn [p_head p_tail].
  - split; intros _ ->; by exists s1.
  - destruct (IH s1 tl fuel (keeps_leads _ _ _ _ _ (fills_keeps _ _ Hfill) Hrest)
                ltac:(lia)) as [Hany Hall].
    destruct (f x) as [e | [|]]; (split; [intros Hx Hy | intros Hx Hy]); try done.
    + destruct (Hall Hx Hy) as (s2 & Hrun & Hfill2). exists s2.
      split; [exact Hrun | by eapply fills_trans].
    + destruct (Hany Hx Hy) as (s2 & Hrun & Hfill2). exists s2.
      split; [exact Hrun | by eapply fills_trans].
Qed.

Lemma Any_All_stop_witness :
  let s := state_of ((let* t := integersFromN 3 in
                      let* t2 := Link (VInt int 2) t in
                      Link (VInt int 1) t2) init) in
  let even x := match x with VInt _ z => inr (Z.even z) | _ => inl TypeAssertion end in
  (∃ s', Any 4 (Some 4%N) even s = Ok true s' ∧ fills s s') ∧
  (∃ s', All 3 (Some 4%N) even s = Ok false s' ∧ fills s s').
Proof.
  intros s even.
  assert (H2 : leads s (Some 4%N) ([VInt int 1] ++ [VInt int 2]) (Some 2%N)).
  { simpl. repeat (eexists; split; [eexists; split; [done|]; right; by vm_compute|]). done. }
  assert (H1 : leads s (Some 4%N) ([] ++ [VInt int 1]) (Some 3%N)).
  { simpl. repeat (eexists; split; [eexists; split; [done|]; right; by vm_compute|]). done. }
  split.
  - exact (proj1 (Any_All_stop s (Some 4%N) [VInt int 1] (VInt int 2) (Some 2%N) even 4
                    H2 ltac:(simpl; lia)) eq_refl eq_refl).
  - exact (proj2 (Any_All_stop s (Some 4%N) [] (VInt int 1) (Some 3%N) even 3
                    H1 ltac:(simpl; lia)) eq_refl eq_refl).
Defined.

(** ** What no run does *)

(** X21.  [ReduceN] called with no list never returns a value: it calls
    itself again and again, unless the function panics. *)
Theorem ReduceN_without_lists fuel f acc s :
  ∀ v s', ReduceN fuel f acc [] s ≠ Ok v s'.
Proof.
  revert acc s. induction fuel as [|fuel IH]; intros acc s v s'; [done|].
  cbn [ReduceN forceEach]. unfold bind at 1. cbn [ret].
  destruct f as [g|g]; cbn [applyReduce index0].
  - unfold bind. destruct (g acc []) as [e|acc']; simpl; [done | apply IH].
  - done.
Qed.



(** ** Memoization stopped *)

Lemma table_untouched_refl s : table_untouched s s.
Proof. by intros H. Qed.

Lemma table_untouched_trans s1 s2 s3 :
  table_untouched s1 s2 → table_untouched s2 s3 → table_untouched s1 s3.
Proof.
  intros H1 H2 Hoff. destruct (H1 Hoff) as [Hm1 Ht1].
  destruct (H2 Hm1) as [Hm2 Ht2]. split; [done | congruence].
Qed.

Lemma table_untouched_thunkId s :
  table_untouched s (set_thunkId ((thunkId s + 1) mod 2 ^ 64)%N s).
Proof. by intros H. Qed.

Lemma table_untouched_thunks s i f :
  table_untouched s (set_thunks (<[i := f]> (thunks s)) s).
Proof. by intros H. Qed.

Lemma table_untouched_pairs s p : table_untouched s (set_pairs (pairs s ++ [p]) s).
Proof. by intros H. Qed.

Lemma table_untouched_calls s i : table_untouched s (set_calls (calls s ++ [i]) s).
Proof. by intros H. Qed.

Lemma table_untouched_fibo s t : table_untouched s (set_fibo t s).
Proof. by intros H. Qed.

Ltac untouched_side :=
  solve [ exact table_untouched_refl | exact table_untouched_trans
        | exact table_untouched_thunkId | exact table_untouched_thunks
        | exact table_untouched_pairs | exact table_untouched_calls
        | exact table_untouched_fibo ].

Ltac untouched_step :=
  first
    [ assumption
    | first [ apply preserves_ret | apply preserves_throw | apply preserves_timeout
            | apply preserves_lift | apply preserves_nextId | apply preserves_newThunk
            | apply preserves_newPair | apply preserves_deref | apply preserves_getFunc
            | apply preserves_setFunc | apply preserves_assignFibo
            | apply preserves_recordCall | apply preserves_readFibo
            | apply preserves_index0 | apply preserves_assertThunk
            | apply preserves_List | apply preserves_linkDown
            | apply preserves_SliceToList | apply preserves_applyMap
            | apply preserves_applyReduce ];
      try untouched_side
    | apply preserves_bind; [untouched_side | | intros ?]
    | match goal with
      | |- preserves _ (match ?x with _ => _ end) => destruct x
      end ].
Ltac untouched := repeat untouched_step.

(** With the flag off, [force] runs the closure and returns: the branch that
    writes the table is not taken, whatever the closure forces in turn. *)
Lemma eval_table_untouched fuel :
  (∀ t ctx, preserves table_untouched (force fuel t ctx)) ∧
  (∀ id ctx, preserves table_untouched (call fuel id ctx)) ∧
  (∀ id, preserves table_untouched (dropRet fuel id)) ∧
  (∀ id, preserves table_untouched (dropWhileRet fuel id)) ∧
  (∀ tl, preserves table_untouched (callTail fuel tl)) ∧
  (∀ f acc ts, preserves table_untouched (ReduceN fuel f acc ts)).
Proof.
  induction fuel as [|fuel (IHforce & IHcall & IHdrop & IHdropWhile & IHtail & IHreduce)].
  { split_and!; [intros t ctx | intros id ctx | intros id | intros id | intros tl
                | intros f acc ts]; apply preserves_timeout. }
  assert (Heach : ∀ ts, preserves table_untouched
                          (forceEach (λ t, force fuel t VNil) ts)).
  { intros ts. apply preserves_forceEach; try untouched_side. intros t. apply IHforce. }
  split_and!.
  - intros [id|] ctx; simpl; [|apply preserves_ret; untouched_side].
    intros s a s' Hrun Hoff. rewrite Hoff in Hrun.
    apply bind_Ok in Hrun as ([] & sa & [= <-] & Hcall).
    exact (IHcall _ _ _ _ _ Hcall Hoff).
  - intros id ctx. simpl.
    unfold Append, Take, MapN, FilterN, Filter, TakeWhile, Flatten, L.
    untouched; first [apply IHforce | apply IHdrop | apply IHdropWhile
                     | apply IHtail | apply IHreduce | apply Heach].
  - intros id. simpl. untouched; first [apply IHforce | apply IHdrop].
  - intros id. simpl. untouched; first [apply IHforce | apply IHdropWhile].
  - intros tl. simpl. unfold DelayedLink, MapN. untouched; apply IHforce.
  - intros f acc ts. simpl. untouched; first [apply Heach | apply IHreduce].
Qed.

(** X23.  After [StopMemo], no call of [force] writes the memoization table,
    whatever it runs, and every call invokes the closure of its Thunk: forcing
    a cell twice builds two Pairs, at different addresses, with the same
    head and tail. *)
Theorem force_without_memo fuel id ctx s r s' :
  memo s = false →
  force fuel (Some id) ctx s = Ok r s' →
  memo s' = false ∧ memoTable s' = memoTable s ∧
  (∃ tr, calls s' = calls s ++ id :: tr) ∧
  (∀ x tl, thunks s !! id = Some (linkFunc x tl) →
     r = Some (length (pairs s)) ∧
     force 2 (Some id) ctx s' = Ok (Some (S (length (pairs s))))
                                   (push (mkPair x tl) (logged id s')) ∧
     pairs (push (mkPair x tl) (logged id s')) = pairs s ++ [mkPair x tl; mkPair x tl]).
Proof.
  intros Hoff Hrun.
  destruct (proj1 (eval_table_untouched fuel) _ _ _ _ _ Hrun Hoff) as [Hoff' Htable].
  split; [done|]. split; [done|].
  destruct fuel as [|fuel]; [discriminate|]. cbn [force] in Hrun. rewrite Hoff in Hrun.
  apply bind_Ok in Hrun as ([] & sa & [= <-] & Hcall). split.
  - apply call_calls_grow in Hcall as [tr Htr]. exists tr.
    rewrite Htr. simpl. by rewrite <- app_assoc.
  - intros x tl Hlink. destruct fuel as [|fuel]; [discriminate|].
    cbn [call] in Hcall. unfold bind, getFunc in Hcall. simpl in Hcall.
    rewrite Hlink in Hcall. unfold newPair in Hcall. simpl in Hcall.
    injection Hcall as <- <-. split; [done|].
    cbn [force call]. simpl. unfold bind, recordCall, getFunc, newPair. simpl.
    rewrite Hlink. simpl. rewrite Hoff, length_app. simpl.
    replace (length (pairs s) + 1)%nat with (S (length (pairs s))) by lia.
    split; [done|]. by rewrite <- app_assoc.
Qed.

Lemma force_without_memo_witness :
  let s := state_of ((let* t := Link (VInt int 1) Empty in StopMemo;; ret t) init) in
  ∃ r s', force 2 (Some 2%N) VNil s = Ok r s' ∧
    memoTable s' = ∅ ∧ r = Some 0%nat ∧
    (∃ s'', force 2 (Some 2%N) VNil s' = Ok (Some 1%nat) s'' ∧
            pairs s'' = [mkPair (VInt int 1) Empty; mkPair (VInt int 1) Empty]).
Proof.
  intros s.
  destruct (force 2 (Some 2%N) VNil s) as [r s'| |] eqn:E;
    [|vm_compute in E; discriminate..].
  destruct (force_without_memo 2 2%N VNil s r s' eq_refl E) as (_ & Htable & _ & Hlink).
  destruct (Hlink (VInt int 1) Empty eq_refl) as (Hr & Hagain & Hpairs).
  exists r, s'. split; [done|]. split; [exact Htable|]. split; [exact Hr|].
  eexists. split; [exact Hagain | exact Hpairs].
Defined.

(** ** Map *)

Lemma lockstep_single xs : lockstep xs [] = (λ x, [x]) <$> xs.
Proof.
  unfold lockstep. induction xs as [|x rest IH]; [done|].
  simpl. f_equal. exact IH.
Qed.

Lemma mapRows_single f xs :
  mapRows (λ ys, match ys with [] => inl IndexOutOfRange | y :: _ => f y end)
          ((λ x, [x]) <$> xs) = mapOf f xs.
Proof.
  induction xs as [|x rest IH]; [done|].
  rewrite fmap_cons. cbn [mapRows mapOf]. destruct (f x); [done|]. by rewrite IH.
Qed.

(** X24.  [L.Map(f).ToSlice()] on a finite list is [f] applied to each
    element, in order; the first panic of [f] is the outcome.  [L] is the
    same list afterwards. *)
Theorem Map_ToSlice s t xs f fuel :
  fresh_above s → room s (S (length xs)) → is_list s t xs →
  (length xs + 5 ≤ fuel)%nat →
  match mapOf f xs with
  | inl e => (let* m := Map t f in ToSlice fuel m) s = Panic e
  | inr ys => ∃ s', (let* m := Map t f in ToSlice fuel m) s = Ok ys s' ∧
                    length ys = length xs ∧ is_list s' t xs
  end.
Proof.
  intros Hfresh Hroom Hlist Hfuel. unfold Map, MapN.
  assert (Hroom1 : room s 1) by (eapply room_le; [|exact Hroom]; lia).
  rewrite (bind_eq _ _ _ _ _ (newThunk_alloc _ _ Hroom1)).
  pose proof (touches_alloc (mapNFunc (mapAdaptor f) [t]) s Hfresh Hroom1) as Htouch.
  set (s1 := alloc (mapNFunc (mapAdaptor f) [t]) s) in *.
  pose proof (ToSlice_mapN (mapAdaptor f) _ xs eq_refl [] s1 t [] (thunkId s + 1)%N fuel
                (touches_fresh _ _ _ Htouch Hfresh)) as Hrun.
  rewrite lockstep_single, mapRows_single in Hrun.
  assert (Hlen : ∀ ys, mapOf f xs = inr ys → length ys = length xs).
  { clear. induction xs as [|x rest IH]; intros ys; simpl; [by intros [= <-]|].
    destruct (f x); [done|]. destruct (mapOf f rest) as [|zs]; [done|].
    intros [= <-]. simpl. f_equal. by apply IH. }
  destruct (mapOf f xs) as [e|ys].
  - apply Hrun; try done.
    + unfold room in *. simpl. lia.
    + by apply (touches_is_list nothing s).
    + simpl. apply lookup_insert_eq.
    + by apply idle_alloc.
  - destruct Hrun as (s' & Hs' & Htouch'); try done.
    + unfold room in *. simpl. lia.
    + by apply (touches_is_list nothing s).
    + simpl. apply lookup_insert_eq.
    + by apply idle_alloc.
    + exists s'. split; [done|]. split; [by apply Hlen|].
      eapply touches_is_list; [exact Htouch'|]. by apply (touches_is_list nothing s).
Qed.

(** [L(1, 2, 3).Map(func(x I) I { return x.(int) > 2 })], and a function
    that panics on the second element *)
Lemma Map_ToSlice_witness :
  let s := state_of (L (ints [1; 2; 3]) init) in
  let big x := match x with VInt _ z => inr (VBool (2 <? z)) | _ => inl TypeAssertion end in
  let one x := match x with VInt _ 1 => inr x | _ => inl UserPanic end in
  (∃ s', (let* m := Map (Some 4%N) big in ToSlice 8 m) s
         = Ok [VBool false; VBool false; VBool true] s' ∧
         length [VBool false; VBool false; VBool true] = length (ints [1; 2; 3]) ∧
         is_list s' (Some 4%N) (ints [1; 2; 3])) ∧
  (let* m := Map (Some 4%N) one in ToSlice 8 m) s = Panic UserPanic.
Proof.
  intros s big one.
  assert (Hlist : is_list s (Some 4%N) (ints [1; 2; 3])) by concrete_list.
  assert (Hfresh : fresh_above s) by concrete_fresh.
  assert (Hroom : room s (S (length (ints [1; 2; 3])))) by (unfold room; by vm_compute).
  split.
  - exact (Map_ToSlice s (Some 4%N) _ big 8 Hfresh Hroom Hlist ltac:(simpl; lia)).
  - exact (Map_ToSlice s (Some 4%N) _ one 8 Hfresh Hroom Hlist ltac:(simpl; lia)).
Defined.

(** ** Flatten *)

Lemma built_touches (X : N → Prop) s s' w :
  touches X s s' → fresh_above s → (∀ j, j ∈ ids w → ¬ X j) →
  built s w → built s' w.
Proof.
  intros Htouch Hfresh.
  induction w as [u xs | id t hs yss | id l IHl r IHr]; intros HX; simpl.
  - by apply (touches_is_list X s).
  - intros (Hid & Hidle & Ht & Hhs).
    destruct (touches_idle _ _ _ _ _ Htouch Hfresh (HX id ltac:(set_solver)) Hid Hidle)
      as [Hid' Hidle'].
    split_and!; try done.
    + by apply (touches_is_list X s).
    + eapply Forall2_impl; [exact Hhs|]. intros ??. by apply (touches_is_list X s).
  - intros (Hid & Hidle & Hl & Hr).
    destruct (touches_idle _ _ _ _ _ Htouch Hfresh (HX id ltac:(set_solver)) Hid Hidle)
      as [Hid' Hidle'].
    split_and!; try done.
    + apply IHl; [|done]. intros j Hj. apply HX. simpl. set_solver.
    + apply IHr; [|done]. intros j Hj. apply HX. simpl. set_solver.
Qed.

Lemma built_logged id s w : fresh_above s → built s w → built (logged id s) w.
Proof.
  intros Hfresh. apply (built_touches nothing); [|done|by intros j _ []].
  apply fills_touches, fills_logged.
Qed.

Lemma built_allocated s w j :
  fresh_above s → built s w → j ∈ ids w → (j ≤ thunkId s)%N.
Proof.
  intros Hfresh. induction w as [u xs | id t hs yss | id l IHl r IHr]; simpl.
  - intros _ Hj. by apply elem_of_nil in Hj.
  - intros (Hid & _) Hj. apply list_elem_of_singleton in Hj as ->.
    by eapply fresh_allocated.
  - intros (Hid & _ & Hl & Hr) Hj.
    apply elem_of_cons in Hj as [->|Hj]; [by eapply fresh_allocated|].
    apply elem_of_app in Hj as [Hj|Hj]; [by apply IHl | by apply IHr].
Qed.

Lemma need_ge w : (2 ≤ need w)%nat.
Proof. destruct w; simpl; lia. Qed.

(** [Append] over a list under construction that gives a Pair: the Pair's
    head, and [Append] over what is left. *)
Lemma force_append_left fuel s id l r a s1 l' x :
  thunks s !! id = Some (appendFunc (start l) (start r)) → idle s id →
  built s r → NoDup (id :: ids l ++ ids r) → fresh_above s →
  room s (cost (Appending id l r)) →
  force fuel (start l) VNil (logged id s) = Ok (Some a) s1 →
  touches (λ j, j ∈ ids l) (logged id s) s1 →
  pairs s1 !! a = Some (mkPair x (start l')) →
  advances (logged id s) s1 l l' →
  ∃ a' s', force (S (S fuel)) (Some id) VNil s = Ok (Some a') s' ∧
    touches (λ j, j ∈ ids (Appending id l r)) s s' ∧
    pairs s' !! a' = Some (mkPair x (Some (thunkId s1 + 1)%N)) ∧
    advances s s' (Appending id l r) (Appending (thunkId s1 + 1)%N l' r).
Proof.
  intros Hid Hidle Hr Hdup Hfresh Hroom Hforce1 Htouch1 Ha
         (Hl' & Hdup' & Hids' & Hi1 & Ho & Hn & Hc).
  apply NoDup_cons in Hdup as [Hnid Hdup].
  apply NoDup_app in Hdup as (Hdupl & Hdisj & Hdupr).
  pose proof (logged_fresh id s Hfresh) as Hfresh0.
  assert (Hfresh1 : fresh_above s1) by exact (touches_fresh _ _ _ Htouch1 Hfresh0).
  cbn [cost] in Hroom. change (thunkId (logged id s)) with (thunkId s) in Hi1, Hids'.
  assert (Hroom1 : room s1 1) by (unfold room in *; lia).
  pose proof (call_append_left _ (logged id s) _ _ _ _ _ _ _ Hid Hforce1 Ha Hroom1) as Hcall.
  destruct (alloc_push_spec (appendFunc (start l') (start r)) x s1 Hfresh1 Hroom1
              ltac:(done) ltac:(done)) as (Htouch2 & Hi2 & Ha2 & Hp2 & Hidle2).
  set (s2 := push (mkPair x (Some (thunkId s1 + 1)%N))
                  (alloc (appendFunc (start l') (start r)) s1)) in *.
  assert (Hfresh2 : fresh_above s2) by exact (touches_fresh _ _ _ Htouch2 Hfresh1).
  assert (Htouch02 : touches (λ j, j ∈ ids l) (logged id s) s2).
  { eapply touches_trans; [exact Htouch1 | exact Htouch2 | by intros j []]. }
  assert (Hnl : id ∉ ids l) by set_solver.
  destruct (force_idle (S fuel) id _ VNil s _ s2 (λ j, j ∈ ids l) Hidle Hid Hfresh
              Hnl Hcall Htouch02) as (Hforce & Htouch' & Hlast).
  set (s' := cached s id (Some (length (pairs s1))) s2) in *.
  assert (Hle : (id ≤ thunkId s)%N) by exact (fresh_allocated _ _ _ Hfresh Hid).
  assert (Hle1 : (thunkId s ≤ thunkId s1)%N) by (destruct Htouch1 as (_ & H & _); exact H).
  assert (Hr1 : built s1 r).
  { apply (built_touches _ (logged id s) s1 r Htouch1 Hfresh0).
    - intros j Hj Hj'. by apply (Hdisj j).
    - by apply built_logged. }
  assert (Hrle : ∀ j, j ∈ ids r → (j ≤ thunkId s)%N)
    by (intros j; by apply built_allocated).
  assert (Hlle : ∀ j, j ∈ ids l' → (j ≤ thunkId s1)%N)
    by (intros j; by apply built_allocated).
  exists (length (pairs s1)), s'. split; [done|]. split.
  { eapply touches_weaken; [|exact Htouch']. simpl.
    intros j [->|Hj]; apply elem_of_cons; [by left|].
    right. apply elem_of_app. by left. }
  split. { unfold s'. rewrite pairs_cached. exact Ha2. }
  unfold advances. split_and!.
  - simpl. split_and!.
    + unfold s'. rewrite thunks_cached. exact Hp2.
    + apply idle_cached; [lia | done].
    + apply (built_touches (only id) s2 s' l' Hlast Hfresh2).
      * intros j Hj ->. destruct (Hids' _ Hj) as [?|?]; [done | lia].
      * apply (built_touches nothing s1 s2 l' Htouch2 Hfresh1); [by intros j _ [] | done].
    + apply (built_touches (only id) s2 s' r Hlast Hfresh2).
      * intros j Hj ->. set_solver.
      * apply (built_touches nothing s1 s2 r Htouch2 Hfresh1); [by intros j _ [] | done].
  - simpl. apply NoDup_cons. split.
    + intros Hin. apply elem_of_app in Hin as [Hin|Hin].
      * apply Hlle in Hin. lia.
      * apply Hrle in Hin. lia.
    + apply NoDup_app. split_and!; [done | | done].
      intros j Hj Hj'. destruct (Hids' _ Hj) as [?|?]; [by apply (Hdisj j)|].
      apply Hrle in Hj'. lia.
  - simpl. intros j Hj. apply elem_of_cons in Hj as [->|Hj]; [right; lia|].
    apply elem_of_app in Hj as [Hj|Hj].
    + destruct (Hids' _ Hj) as [?|?]; [left; set_solver | by right].
    + left. set_solver.
  - unfold s'. rewrite thunkId_cached, Hi2. simpl. lia.
  - simpl. lia.
  - simpl. lia.
  - simpl. lia.
Qed.

(** [Append] past its first list, over a second list under construction that
    gives a Pair: the Pair's head, and [pair.tail.Append(Empty)]. *)
Lemma force_append_right fuel s id l r s1 a s2 r' x :
  thunks s !! id = Some (appendFunc (start l) (start r)) → idle s id →
  NoDup (id :: ids l ++ ids r) → fresh_above s → ends s Empty →
  room s (cost (Appending id l r)) →
  force fuel (start l) VNil (logged id s) = Ok None s1 →
  touches (λ j, j ∈ ids l) (logged id s) s1 → thunkId s1 = thunkId s →
  force fuel (start r) VNil s1 = Ok (Some a) s2 →
  touches (λ j, j ∈ ids r) s1 s2 →
  pairs s2 !! a = Some (mkPair x (start r')) →
  advances s1 s2 r r' →
  ∃ a' s', force (S (S fuel)) (Some id) VNil s = Ok (Some a') s' ∧
    touches (λ j, j ∈ ids (Appending id l r)) s s' ∧
    pairs s' !! a' = Some (mkPair x (Some (thunkId s2 + 1)%N)) ∧
    advances s s' (Appending id l r)
             (Appending (thunkId s2 + 1)%N r' (Forced Empty [])).
Proof.
  intros Hid Hidle Hdup Hfresh Hends Hroom Hforce1 Htouch1 Hi1 Hforce2 Htouch2 Ha
         (Hr' & Hdup' & Hids' & Hi2 & Ho & Hn & Hc).
  apply NoDup_cons in Hdup as [Hnid Hdup].
  apply NoDup_app in Hdup as (Hdupl & Hdisj & Hdupr).
  pose proof (logged_fresh id s Hfresh) as Hfresh0.
  assert (Hfresh1 : fresh_above s1) by exact (touches_fresh _ _ _ Htouch1 Hfresh0).
  assert (Hfresh2 : fresh_above s2) by exact (touches_fresh _ _ _ Htouch2 Hfresh1).
  cbn [cost] in Hroom. rewrite Hi1 in Hi2, Hids'.
  assert (Hroom2 : room s2 1) by (unfold room in *; lia).
  pose proof (call_append_right _ (logged id s) _ _ _ _ _ _ _ _ Hid Hforce1 Hforce2
                Ha Hroom2) as Hcall.
  destruct (alloc_push_spec (appendFunc (start r') Empty) x s2 Hfresh2 Hroom2
              ltac:(done) ltac:(done)) as (Htouch3 & Hi3 & Ha3 & Hp3 & Hidle3).
  set (s3 := push (mkPair x (Some (thunkId s2 + 1)%N))
                  (alloc (appendFunc (start r') Empty) s2)) in *.
  assert (Hfresh3 : fresh_above s3) by exact (touches_fresh _ _ _ Htouch3 Hfresh2).
  assert (Htouch03 : touches (λ j, j ∈ ids l ++ ids r) (logged id s) s3).
  { eapply (touches_trans _ (λ j, j ∈ ids r) _ s1).
    - eapply touches_weaken; [|exact Htouch1]. set_solver.
    - eapply touches_trans; [exact Htouch2 | exact Htouch3 | by intros j []].
    - intros j Hj. left. set_solver. }
  destruct (force_idle (S fuel) id _ VNil s _ s3 (λ j, j ∈ ids l ++ ids r) Hidle Hid Hfresh
              Hnid Hcall Htouch03) as (Hforce & Htouch' & Hlast).
  set (s' := cached s id (Some (length (pairs s2))) s3) in *.
  assert (Hle : (id ≤ thunkId s)%N) by exact (fresh_allocated _ _ _ Hfresh Hid).
  assert (Hle2 : (thunkId s ≤ thunkId s2)%N).
  { destruct Htouch2 as (_ & H & _). lia. }
  assert (Hrle : ∀ j, j ∈ ids r' → (j ≤ thunkId s2)%N)
    by (intros j; by apply built_allocated).
  exists (length (pairs s2)), s'. split; [done|]. split.
  { eapply touches_weaken; [|exact Htouch']. simpl.
    intros j [->|Hj]; apply elem_of_cons; [by left | by right]. }
  split. { unfold s'. rewrite pairs_cached. exact Ha3. }
  unfold advances. split_and!.
  - simpl. split_and!.
    + unfold s'. rewrite thunks_cached. exact Hp3.
    + apply idle_cached; [lia | done].
    + apply (built_touches (only id) s3 s' r' Hlast Hfresh3).
      * intros j Hj ->. destruct (Hids' _ Hj) as [?|?]; [set_solver | lia].
      * apply (built_touches nothing s2 s3 r' Htouch3 Hfresh2); [by intros j _ [] | done].
    + exact (touches_ends _ _ _ _ Htouch' Hends).
  - simpl. rewrite app_nil_r. apply NoDup_cons. split; [|done].
    intros Hin. apply Hrle in Hin. lia.
  - simpl. rewrite app_nil_r. intros j Hj.
    apply elem_of_cons in Hj as [->|Hj]; [right; lia|].
    destruct (Hids' _ Hj) as [?|?]; [left; set_solver | by right].
  - unfold s'. rewrite thunkId_cached, Hi3. simpl. lia.
  - simpl. lia.
  - simpl. pose proof (need_ge r'). lia.
  - simpl. lia.
Qed.

(** Forcing a list under construction: no Pair when it delivers nothing more
    and ends, a nil dereference when it delivers nothing more and an empty
    sub-list is next, and otherwise the Pair of its first element and of
    what is left under construction. *)
Lemma force_pending w :
  ∀ s fuel,
    built s w → NoDup (ids w) → fresh_above s → ends s Empty →
    room s (cost w) → (need w ≤ fuel)%nat →
    match elements w with
    | ([], true) =>
        ∃ s', force fuel (start w) VNil s = Ok None s' ∧
              touches (λ j, j ∈ ids w) s s' ∧ thunkId s' = thunkId s
    | ([], false) => force fuel (start w) VNil s = Panic NilDereference
    | (x :: rest, ok) =>
        ∃ a s' w', force fuel (start w) VNil s = Ok (Some a) s' ∧
                   touches (λ j, j ∈ ids w) s s' ∧
                   pairs s' !! a = Some (mkPair x (start w')) ∧
                   elements w' = (rest, ok) ∧ advances s s' w w'
    end.
Proof.
  induction w as [u xs | id t hs yss | id l IHl r IHr];
    intros s fuel Hbuilt Hdup Hfresh Hends Hroom Hfuel.
  - (* a finite list *)
    cbn [built need elements start] in *.
    destruct (force_is_list fuel s u xs VNil Hfuel Hbuilt) as (r & s' & Hforce & Hfill & Hr).
    pose proof (fills_touches _ _ Hfill) as Htouch.
    assert (Hi : thunkId s' = thunkId s) by (by destruct Hfill as (_ & -> & _)).
    destruct xs as [|x rest].
    + subst r. exists s'. split; [done|]. split; [|done].
      eapply touches_weaken; [|exact Htouch]. by intros j [].
    + destruct Hr as (a & tl & -> & Ha & Htl). exists a, s', (Forced tl rest).
      split; [done|]. split.
      { eapply touches_weaken; [|exact Htouch]. by intros j []. }
      split; [done|]. split; [done|].
      unfold advances. simpl. split_and!; try done; try lia.
      intros j Hj. by apply elem_of_nil in Hj.
  - (* a Thunk of Flatten *)
    cbn [built need cost elements start] in *.
    destruct Hbuilt as (Hid & Hidle & Ht & Hhs).
    destruct fuel as [|[|fuel]]; [lia..|].
    pose proof (fills_logged id s) as Hlog.
    pose proof (logged_fresh id s Hfresh) as Hfresh0.
    destruct (force_is_list fuel (logged id s) t _ VNil ltac:(lia)
                (logged_is_list _ _ _ _ Ht)) as (r1 & s1 & Hforce1 & Hfill1 & Hr1).
    pose proof (fills_touches _ _ Hfill1) as Htouch1.
    assert (Hi1 : thunkId s1 = thunkId s) by (by destruct Hfill1 as (_ & -> & _)).
    assert (Hle : (id ≤ thunkId s)%N) by exact (fresh_allocated _ _ _ Hfresh Hid).
    destruct hs as [|h hs].
    + apply Forall2_nil_inv_l in Hhs as ->. simpl in Hr1. subst r1. cbn [flatOf].
      assert (Hcall : call (S fuel) id VNil (logged id s) = Ok None s1).
      { cbn [call]. rewrite (bind_eq _ _ _ _ _ (getFunc_eq (logged id s) _ _ Hid)).
        by rewrite (bind_eq _ _ _ _ _ Hforce1). }
      destruct (force_idle (S fuel) id _ VNil s None s1 nothing Hidle Hid Hfresh
                  ltac:(by intros []) Hcall Htouch1) as (Hforce & Htouch' & _).
      eexists. split; [exact Hforce|]. split.
      * eapply touches_weaken; [|exact Htouch'].
        intros j [->|[]]. by apply list_elem_of_singleton.
      * by rewrite thunkId_cached.
    + apply Forall2_cons_inv_l in Hhs as (ys & yss' & Hh & Hhs & ->).
      rewrite fmap_cons in Hr1. destruct Hr1 as (a & tl & -> & Ha & Htl).
      assert (Hfresh1 : fresh_above s1) by (by eapply fills_fresh).
      assert (Hh1 : is_list s1 h ys).
      { eapply fills_is_list; [exact Hfill1|]. by apply logged_is_list. }
      destruct (force_is_list fuel s1 h ys VNil ltac:(lia) Hh1)
        as (r2 & s2 & Hforce2 & Hfill2 & Hr2).
      pose proof (fills_touches _ _ Hfill2) as Htouch2.
      assert (Hi2 : thunkId s2 = thunkId s) by (by destruct Hfill2 as (_ & -> & _)).
      assert (Hfresh2 : fresh_above s2) by (by eapply fills_fresh).
      destruct ys as [|y ys].
      * (* an empty sub-list *)
        subst r2. cbn [flatOf]. apply force_idle_panic; [done|].
        cbn [call]. rewrite (bind_eq _ _ _ _ _ (getFunc_eq (logged id s) _ _ Hid)).
        rewrite (bind_eq _ _ _ _ _ Hforce1). cbn beta iota.
        rewrite (bind_eq _ _ _ _ _ (deref_eq _ _ _ Ha)). cbn [p_head p_tail assertThunk].
        unfold bind at 1. cbn [ret].
        by rewrite (bind_eq _ _ _ _ _ Hforce2).
      * destruct Hr2 as (a2 & tl2 & -> & Ha2 & Htl2).
        cbn [flatOf]. destruct (flatOf yss') as [zs ok] eqn:Hflat.
        assert (Hroom2 : room s2 1) by (unfold room in *; lia).
        pose proof (touches_alloc (flattenFunc tl) s2 Hfresh2 Hroom2) as Htouch3.
        set (s3 := alloc (flattenFunc tl) s2) in *.
        assert (Hfresh3 : fresh_above s3) by exact (touches_fresh _ _ _ Htouch3 Hfresh2).
        assert (Hroom3 : room s3 1) by (unfold room in *; simpl; lia).
        assert (Hf3 : thunks s3 !! (thunkId s2 + 1)%N = Some (flattenFunc tl))
          by (simpl; apply lookup_insert_eq).
        assert (Hidlef3 : idle s3 (thunkId s2 + 1)%N) by by apply idle_alloc.
        destruct (alloc_push_spec (appendFunc tl2 (Some (thunkId s2 + 1)%N)) y s3
                    Hfresh3 Hroom3 ltac:(done) ltac:(done))
          as (Htouch5 & Hi5 & Ha5 & Hp5 & Hidle5).
        set (s5 := push (mkPair y (Some (thunkId s3 + 1)%N))
                        (alloc (appendFunc tl2 (Some (thunkId s2 + 1)%N)) s3)) in *.
        assert (Hfresh5 : fresh_above s5) by exact (touches_fresh _ _ _ Htouch5 Hfresh3).
        destruct (touches_idle _ _ _ _ _ Htouch5 Hfresh3 ltac:(by intros []) Hf3 Hidlef3)
          as [Hf5 Hidlef5].
        assert (Hcall : call (S fuel) id VNil (logged id s)
                        = Ok (Some (length (pairs s3))) s5).
        { cbn [call]. rewrite (bind_eq _ _ _ _ _ (getFunc_eq (logged id s) _ _ Hid)).
          rewrite (bind_eq _ _ _ _ _ Hforce1). cbn beta iota.
          rewrite (bind_eq _ _ _ _ _ (deref_eq _ _ _ Ha)). cbn [p_head p_tail assertThunk].
          unfold bind at 1. cbn [ret].
          rewrite (bind_eq _ _ _ _ _ Hforce2).
          rewrite (bind_eq _ _ _ _ _ (deref_eq _ _ _ Ha2)). cbn [p_head p_tail].
          unfold Flatten. rewrite (bind_eq _ _ _ _ _ (newThunk_alloc _ _ Hroom2)).
          unfold Append. rewrite (bind_eq _ _ _ _ _ (newThunk_alloc _ _ Hroom3)).
          by rewrite newPair_push. }
        assert (Htouch05 : touches nothing (logged id s) s5).
        { eapply (touches_trans nothing nothing); [exact Htouch1 | | by intros j []].
          eapply (touches_trans nothing nothing); [exact Htouch2 | | by intros j []].
          eapply (touches_trans nothing nothing);
            [exact Htouch3 | exact Htouch5 | by intros j []]. }
        assert (Htouch25 : touches nothing s2 s5).
        { eapply (touches_trans nothing nothing);
            [exact Htouch3 | exact Htouch5 | by intros j []]. }
        destruct (force_idle (S fuel) id _ VNil s _ s5 nothing Hidle Hid Hfresh
                    ltac:(by intros []) Hcall Htouch05) as (Hforce & Htouch' & Hlast).
        set (s' := cached s id (Some (length (pairs s3))) s5) in *.
        assert (Hi3 : thunkId s3 = (thunkId s + 1)%N) by (simpl; by rewrite Hi2).
        exists (length (pairs s3)), s',
          (Appending (thunkId s3 + 1)%N (Forced tl2 ys)
                     (Flattening (thunkId s2 + 1)%N tl hs yss')).
        split; [done|]. split.
        { eapply touches_weaken; [|exact Htouch'].
          intros j [->|[]]. by apply list_elem_of_singleton. }
        split. { unfold s'. rewrite pairs_cached. exact Ha5. }
        split. { cbn [elements]. by rewrite Hflat. }
        unfold advances. split_and!.
        -- cbn [built start]. split_and!.
           ++ unfold s'. rewrite thunks_cached. exact Hp5.
           ++ apply idle_cached; [lia | done].
           ++ apply (touches_is_list _ _ _ _ _ Hlast).
              by apply (touches_is_list _ _ _ _ _ Htouch25).
           ++ unfold s'. rewrite thunks_cached. exact Hf5.
           ++ apply idle_cached; [lia | done].
           ++ apply (touches_is_list _ _ _ _ _ Hlast).
              apply (touches_is_list _ _ _ _ _ Htouch25).
              by eapply fills_is_list.
           ++ eapply Forall2_impl; [exact Hhs|]. intros u us Hu.
              apply (touches_is_list _ _ _ _ _ Htouch'). exact Hu.
        -- simpl. apply NoDup_cons. split; [|apply NoDup_singleton].
           intros Hin. apply list_elem_of_singleton in Hin. simpl in Hin. lia.
        -- simpl. intros j Hj. right.
           apply elem_of_cons in Hj as [->|Hj]; [simpl; lia|].
           apply list_elem_of_singleton in Hj as ->. lia.
        -- unfold s'. rewrite thunkId_cached, Hi5. simpl. lia.
        -- simpl. lia.
        -- simpl. lia.
        -- simpl. lia.
  - (* a Thunk of Append *)
    cbn [built need cost start] in *.
    destruct Hbuilt as (Hid & Hidle & Hl & Hr).
    destruct fuel as [|[|fuel]]; [lia..|].
    pose proof Hdup as Hdup0.
    simpl in Hdup. apply NoDup_cons in Hdup as [Hnid Hdup].
    apply NoDup_app in Hdup as (Hdupl & Hdisj & Hdupr).
    pose proof (logged_fresh id s Hfresh) as Hfresh0.
    specialize (IHl (logged id s) fuel (built_logged id s l Hfresh Hl) Hdupl Hfresh0
                    (logged_ends _ _ _ Hends)
                    ltac:(unfold room in *; simpl; lia) ltac:(lia)).
    cbn [elements].
    destruct (elements l) as [[|x rest] [|]] eqn:Hel.
    + (* the first list ends *)
      destruct IHl as (s1 & Hforce1 & Htouch1 & Hi1).
      change (thunkId (logged id s)) with (thunkId s) in Hi1.
      assert (Hfresh1 : fresh_above s1) by exact (touches_fresh _ _ _ Htouch1 Hfresh0).
      assert (Hr1 : built s1 r).
      { apply (built_touches _ (logged id s) s1 r Htouch1 Hfresh0).
        - intros j Hj Hj'. by apply (Hdisj j).
        - by apply built_logged. }
      specialize (IHr s1 fuel Hr1 Hdupr Hfresh1
                      (touches_ends _ _ _ _ Htouch1 (logged_ends _ _ _ Hends))
                      ltac:(unfold room in *; lia) ltac:(lia)).
      destruct (elements r) as [[|y rest] [|]] eqn:Her; cbn [app].
      * destruct IHr as (s2 & Hforce2 & Htouch2 & Hi2).
        pose proof (call_append_none _ (logged id s) _ _ _ _ _ Hid Hforce1 Hforce2) as Hcall.
        assert (Htouch02 : touches (λ j, j ∈ ids l ++ ids r) (logged id s) s2).
        { eapply (touches_trans _ (λ j, j ∈ ids r) _ s1).
          - eapply touches_weaken; [|exact Htouch1]. intros j Hj. apply elem_of_app. by left.
          - exact Htouch2.
          - intros j Hj. left. apply elem_of_app. by right. }
        destruct (force_idle (S fuel) id _ VNil s None s2 (λ j, j ∈ ids l ++ ids r)
                    Hidle Hid Hfresh Hnid Hcall Htouch02) as (Hforce & Htouch' & _).
        eexists. split; [exact Hforce|]. split.
        -- eapply touches_weaken; [|exact Htouch']. simpl.
           intros j [->|Hj]; apply elem_of_cons; [by left | by right].
        -- rewrite thunkId_cached. lia.
      * apply force_idle_panic; [done|].
        cbn [call]. rewrite (bind_eq _ _ _ _ _ (getFunc_eq (logged id s) _ _ Hid)).
        rewrite (bind_eq _ _ _ _ _ Hforce1). cbn beta iota.
        by rewrite (bind_panic _ _ _ _ IHr).
      * destruct IHr as (a & s2 & r' & Hforce2 & Htouch2 & Ha & Her' & Hadv).
        destruct (force_append_right fuel s id l r s1 a s2 r' y Hid Hidle Hdup0 Hfresh
                    Hends Hroom Hforce1 Htouch1 Hi1 Hforce2 Htouch2 Ha Hadv)
          as (a' & s' & Hforce & Htouch' & Ha' & Hadv').
        exists a', s', (Appending (thunkId s2 + 1)%N r' (Forced Empty [])).
        split; [done|]. split; [done|]. split; [done|]. split; [|done].
        cbn [elements]. rewrite Her'. by rewrite app_nil_r.
      * destruct IHr as (a & s2 & r' & Hforce2 & Htouch2 & Ha & Her' & Hadv).
        destruct (force_append_right fuel s id l r s1 a s2 r' y Hid Hidle Hdup0 Hfresh
                    Hends Hroom Hforce1 Htouch1 Hi1 Hforce2 Htouch2 Ha Hadv)
          as (a' & s' & Hforce & Htouch' & Ha' & Hadv').
        exists a', s', (Appending (thunkId s2 + 1)%N r' (Forced Empty [])).
        split; [done|]. split; [done|]. split; [done|]. split; [|done].
        cbn [elements]. by rewrite Her'.
    + (* an empty sub-list is next in the first list *)
      apply force_idle_panic; [done|].
      cbn [call]. rewrite (bind_eq _ _ _ _ _ (getFunc_eq (logged id s) _ _ Hid)).
      by rewrite (bind_panic _ _ _ _ IHl).
    + (* an element of the first list, which ends later *)
      destruct IHl as (a & s1 & l' & Hforce1 & Htouch1 & Ha & Hel' & Hadv).
      destruct (force_append_left fuel s id l r a s1 l' x Hid Hidle Hr Hdup0 Hfresh
                  Hroom Hforce1 Htouch1 Ha Hadv) as (a' & s' & Hforce & Htouch' & Ha' & Hadv').
      destruct (elements r) as [ys okr] eqn:Her. cbn [app].
      exists a', s', (Appending (thunkId s1 + 1)%N l' r).
      split; [done|]. split; [done|]. split; [done|]. split; [|done].
      cbn [elements]. by rewrite Hel', Her.
    + (* an element of the first list, which fails later *)
      destruct IHl as (a & s1 & l' & Hforce1 & Htouch1 & Ha & Hel' & Hadv).
      destruct (force_append_left fuel s id l r a s1 l' x Hid Hidle Hr Hdup0 Hfresh
                  Hroom Hforce1 Htouch1 Ha Hadv) as (a' & s' & Hforce & Htouch' & Ha' & Hadv').
      exists a', s', (Appending (thunkId s1 + 1)%N l' r).
      split; [done|]. split; [done|]. split; [done|]. split; [|done].
      cbn [elements]. by rewrite Hel'.
Qed.

(** [ToSlice] of a list under construction. *)
Lemma ToSlice_pending n :
  ∀ w s fuel,
    (length (elements w).1 ≤ n)%nat →
    built s w → NoDup (ids w) → fresh_above s → ends s Empty →
    room s (S n * (cost w + outer w)) →
    (need w + 2 * outer w + n + 1 ≤ fuel)%nat →
    match elements w with
    | (xs, true) => ∃ s', ToSlice fuel (start w) s = Ok xs s' ∧ touches (λ _, True) s s'
    | (_, false) => ToSlice fuel (start w) s = Panic NilDereference
    end.
Proof.
  induction n as [|n IH]; intros w s fuel Hn Hbuilt Hdup Hfresh Hends Hroom Hfuel;
    (destruct fuel as [|fuel]; [lia|]); cbn [ToSlice];
    (assert (Hroom0 : room s (cost w)) by (eapply room_le; [|exact Hroom]; lia));
    pose proof (force_pending w s fuel Hbuilt Hdup Hfresh Hends Hroom0 ltac:(lia)) as Hstep;
    destruct (elements w) as [[|x rest] [|]] eqn:Hel; cbn [fst length] in Hn; try lia.
  1, 3: destruct Hstep as (s' & Hforce & Htouch & _);
    rewrite (bind_eq _ _ _ _ _ Hforce); exists s'; (split; [done|]);
    eapply touches_weaken; [|exact Htouch]; done.
  1, 2: by rewrite (bind_panic _ _ _ _ Hstep).
  all: destruct Hstep as (a & s' & w' & Hforce & Htouch & Ha & Hel' & Hadv);
    rewrite (bind_eq _ _ _ _ _ Hforce); cbn beta iota;
    rewrite (bind_eq _ _ _ _ _ (deref_eq _ _ _ Ha)); cbn [p_head p_tail];
    destruct Hadv as (Hbuilt' & Hdup' & _ & Hi' & Ho & Hneed & Hcost);
    (assert (Hroom' : room s' (S n * (cost w' + outer w')))
      by (assert (cost w + S n * (cost w' + outer w') ≤ S (S n) * (cost w + outer w))%nat
            by nia; unfold room in *; lia));
    pose proof (IH w' s' fuel ltac:(rewrite Hel'; simpl; lia) Hbuilt' Hdup'
                  (touches_fresh _ _ _ Htouch Hfresh) (touches_ends _ _ _ _ Htouch Hends)
                  Hroom' ltac:(lia)) as Hrest;
    rewrite Hel' in Hrest.
  - destruct Hrest as (s'' & Hrest & Htouch'). rewrite (bind_eq _ _ _ _ _ Hrest).
    exists s''. split; [done|].
    eapply (touches_trans _ _ s s'); [|exact Htouch'|by left].
    eapply touches_weaken; [|exact Htouch]. done.
  - by rewrite (bind_panic _ _ _ _ Hrest).
Qed.

Lemma flatOf_length yss : (length (flatOf yss).1 ≤ length (concat yss))%nat.
Proof.
  induction yss as [|[|y ys] rest IH]; cbn [flatOf concat]; [simpl; lia..|].
  destruct (flatOf rest) as [zs ok]. simpl in *. rewrite !length_app. lia.
Qed.

Lemma flatOf_concat yss : [] ∉ yss → flatOf yss = (concat yss, true).
Proof.
  induction yss as [|[|y ys] rest IH]; intros Hno; cbn [flatOf concat]; [done| |].
  - exfalso. apply Hno. by left.
  - rewrite IH; [done|]. intros Hin. apply Hno. by right.
Qed.

Lemma flatOf_empty yss : [] ∈ yss → (flatOf yss).2 = false.
Proof.
  induction yss as [|[|y ys] rest IH]; intros Hin; cbn [flatOf]; [|done|].
  - by apply elem_of_nil in Hin.
  - apply elem_of_cons in Hin as [?|Hin]; [done|].
    specialize (IH Hin). by destruct (flatOf rest).
Qed.

(** X25.  For a finite list of finite lists, [L.Flatten().ToSlice()] is the
    elements of the sub-lists, in order, when no sub-list is empty; when some
    sub-list is empty it panics with a nil pointer dereference, reading the
    head of the Pair that the empty sub-list does not have. *)
Theorem Flatten_ToSlice s t hs yss fuel :
  fresh_above s → room s (S ((length (concat yss) + 1) * (length hs + 2))) →
  ends s Empty →
  is_list s t (VThunk <$> hs) → Forall2 (is_list s) hs yss →
  (length (concat yss) + 2 * length hs + 5 ≤ fuel)%nat →
  ([] ∉ yss →
   ∃ s', (let* f := Flatten t in ToSlice fuel f) s = Ok (concat yss) s' ∧
         is_list s' t (VThunk <$> hs) ∧ Forall2 (is_list s') hs yss) ∧
  ([] ∈ yss →
   (let* f := Flatten t in ToSlice fuel f) s = Panic NilDereference).
Proof.
  intros Hfresh Hroom Hends Ht Hhs Hfuel. unfold Flatten.
  assert (Hroom1 : room s 1) by (eapply room_le; [|exact Hroom]; lia).
  rewrite (bind_eq _ _ _ _ _ (newThunk_alloc _ _ Hroom1)).
  pose proof (touches_alloc (flattenFunc t) s Hfresh Hroom1) as Htouch.
  set (s1 := alloc (flattenFunc t) s) in *.
  set (w := Flattening (thunkId s + 1)%N t hs yss).
  assert (Hbuilt : built s1 w).
  { simpl. split_and!.
    - apply lookup_insert_eq.
    - by apply idle_alloc.
    - by apply (touches_is_list nothing s).
    - eapply Forall2_impl; [exact Hhs|]. intros ??. by apply (touches_is_list nothing s). }
  pose proof (ToSlice_pending (length (concat yss)) w s1 fuel (flatOf_length yss) Hbuilt
                (NoDup_singleton _) (touches_fresh _ _ _ Htouch Hfresh)
                (touches_ends _ _ _ _ Htouch Hends)
                ltac:(unfold room in *; simpl; lia) ltac:(simpl; lia)) as Hrun.
  cbn [elements w start] in Hrun. split.
  - intros Hno. rewrite (flatOf_concat _ Hno) in Hrun.
    destruct Hrun as (s' & Hrun & Htouch'). exists s'. split; [done|]. split.
    + apply (touches_is_list _ _ _ _ _ Htouch'). by apply (touches_is_list nothing s).
    + eapply Forall2_impl; [exact Hhs|]. intros ?? Hu.
      apply (touches_is_list _ _ _ _ _ Htouch'). by apply (touches_is_list nothing s).
  - intros Hin. pose proof (flatOf_empty _ Hin) as Hbad.
    destruct (flatOf yss) as [xs [|]]; [done | exact Hrun].
Qed.

(** [L(L(1, 2), L(3), L(4, 5)).Flatten()] and [L(L(1), L(), L(2)).Flatten()] *)
Lemma Flatten_ToSlice_witness :
  (let s := state_of (listsExample init) in
   let hs := [Some 3%N; Some 4%N; Some 6%N] in
   ∃ s', (let* f := Flatten (Some 9%N) in ToSlice 16 f) s
         = Ok (concat [ints [1; 2]; ints [3]; ints [4; 5]]) s' ∧
         is_list s' (Some 9%N) (VThunk <$> hs) ∧
         Forall2 (is_list s') hs [ints [1; 2]; ints [3]; ints [4; 5]]) ∧
  (let* f := Flatten (Some 6%N) in ToSlice 13 f) (state_of (listsWithEmpty init))
  = Panic NilDereference.
Proof.
  split.
  - intros s hs.
    assert (Hfresh : fresh_above s) by concrete_fresh.
    assert (Hends : ends s Empty) by (right; by vm_compute).
    assert (Ht : is_list s (Some 9%N) (VThunk <$> hs)) by concrete_list.
    assert (Ha : is_list s (Some 3%N) (ints [1; 2])) by concrete_list.
    assert (Hb : is_list s (Some 4%N) (ints [3])) by concrete_list.
    assert (Hc : is_list s (Some 6%N) (ints [4; 5])) by concrete_list.
    assert (Hhs : Forall2 (is_list s) hs [ints [1; 2]; ints [3]; ints [4; 5]])
      by (repeat constructor; done).
    assert (Hroom : room s (S ((length (concat [ints [1; 2]; ints [3]; ints [4; 5]]) + 1)
                               * (length hs + 2))))
      by (unfold room; by vm_compute).
    assert (Hno : [] ∉ [ints [1; 2]; ints [3]; ints [4; 5]]).
    { intros Hin. repeat (apply elem_of_cons in Hin as [Hin|Hin]; [discriminate Hin|]).
      by apply elem_of_nil in Hin. }
    destruct (Flatten_ToSlice s (Some 9%N) hs _ 16 Hfresh Hroom Hends Ht Hhs
                ltac:(simpl; lia)) as [Hok _].
    exact (Hok Hno).
  - set (s := state_of (listsWithEmpty init)).
    set (hs := [Some 2%N; Empty; Some 3%N]).
    assert (Hfresh : fresh_above s) by concrete_fresh.
    assert (Hends : ends s Empty) by (right; by vm_compute).
    assert (Ht : is_list s (Some 6%N) (VThunk <$> hs)) by concrete_list.
    assert (Ha : is_list s (Some 2%N) (ints [1])) by concrete_list.
    assert (Hc : is_list s (Some 3%N) (ints [2])) by concrete_list.
    assert (Hhs : Forall2 (is_list s) hs [ints [1]; []; ints [2]])
      by (repeat constructor; done).
    assert (Hroom : room s (S ((length (concat [ints [1]; []; ints [2]]) + 1)
                               * (length hs + 2))))
      by (unfold room; by vm_compute).
    destruct (Flatten_ToSlice s (Some 6%N) hs _ 13 Hfresh Hroom Hends Ht Hhs
                ltac:(simpl; lia)) as [_ Hbad].
    apply Hbad. apply elem_of_cons. right. by left.
Defined.

(** ** FilterN *)

Lemma filterRows_head f rs :
  filterRows f rs =
  match filterRowsHead f rs with
  | inl e => inl e
  | inr None => inr []
  | inr (Some (r, rest)) =>
      match filterRows f rest with
      | inl e => inl e
      | inr ys => inr (r :: ys)
      end
  end.
Proof.
  induction rs as [|r rest IH]; [done|]. simpl.
  destruct (f r) as [e | [|]]; [done | done |].
  rewrite <- IH. by destruct (filterRows f rest).
Qed.

Lemma lockstep_cons x rest xss hs tls :
  unconsAll xss = Some (hs, tls) →
  lockstep (x :: rest) xss = (x :: hs) :: lockstep rest tls.
Proof. intros Hun. unfold lockstep. cbn [length rows unconsAll]. by rewrite Hun. Qed.

Lemma lockstep_none x rest xss :
  unconsAll xss = None → lockstep (x :: rest) xss = [].
Proof. intros Hun. unfold lockstep. cbn [length rows unconsAll]. by rewrite Hun. Qed.

(** Forcing the Thunk of [FilterN]: the rejected tuples are skipped by
    forcing the Thunks of their tails, one inside the other; an accepted
    tuple is given as a new list [L(heads...)]. *)
Lemma force_filterN f xs :
  ∀ xss s id t ts fuel,
    fresh_above s → room s (length xs * (length ts + 2)) → ends s Empty →
    is_list s t xs → Forall2 (is_list s) ts xss →
    thunks s !! id = Some (filterNFunc f (t :: ts)) → idle s id →
    (2 * length xs + 4 ≤ fuel)%nat →
    match filterRowsHead f (lockstep xs xss) with
    | inl e => force fuel (Some id) VNil s = Panic e
    | inr None =>
        ∃ s', force fuel (Some id) VNil s = Ok None s' ∧ touches (only id) s s'
    | inr (Some (row, rest)) =>
        ∃ a l tid tl tails xs' xss' s',
          force fuel (Some id) VNil s = Ok (Some a) s' ∧
          touches (only id) s s' ∧
          (thunkId s' ≤ thunkId s
                        + N.of_nat ((length xs - length xs') * (length ts + 2)))%N ∧
          (thunkId s < tid ≤ thunkId s')%N ∧
          pairs s' !! a = Some (mkPair (VThunk l) (Some tid)) ∧
          is_list s' l row ∧
          thunks s' !! tid = Some (filterNFunc f (tl :: tails)) ∧ idle s' tid ∧
          is_list s' tl xs' ∧ Forall2 (is_list s') tails xss' ∧
          length tails = length ts ∧
          rest = lockstep xs' xss' ∧ (length xs' < length xs)%nat
    end.
Proof.
  induction xs as [|x rest0 IH];
    intros xss s id t ts fuel Hfresh Hroom Hends Ht Hts Hid Hidle Hfuel;
    (destruct fuel as [|[|fuel]]; [cbn [length] in Hfuel; lia..|]);
    pose proof (fills_logged id s) as Hlog;
    match type of Ht with
    | is_list _ _ ?xs =>
        assert (Hall0 : Forall2 (is_list (logged id s)) (t :: ts) (xs :: xss))
          by (constructor; [by eapply fills_is_list | by eapply Forall2_is_list_fills]);
        destruct (forceEach_lists fuel (t :: ts) ltac:(lia) (logged id s) (xs :: xss) Hall0)
          as (r1 & s1 & Heach & Hfill1 & Hr1)
    end;
    pose proof (fills_touches _ _ Hfill1) as Htouch1;
    (assert (Hfresh1 : fresh_above s1)
       by (eapply fills_fresh; [done | by apply logged_fresh]));
    (assert (Hi1 : thunkId s1 = thunkId s) by (by destruct Hfill1 as (_ & -> & _)));
    (assert (Hcall0 : call (S fuel) id VNil (logged id s)
                      = (match r1 with
                         | None => ret None
                         | Some (heads, tails) =>
                             let* tail := FilterN f tails in
                             let* b := lift (f heads) in
                             if b : bool then
                               let* l := L heads in
                               newPair (VThunk l) tail
                             else force fuel tail VNil
                         end) s1)
       by (cbn [call];
           rewrite (bind_eq _ _ _ _ _ (getFunc_eq (logged id s) _ _ Hid));
           by rewrite (bind_eq _ _ _ _ _ Heach))).
  - (* the first list is empty *)
    cbn [unconsAll] in Hr1. subst r1. unfold lockstep. cbn [length rows filterRowsHead].
    destruct (force_idle (S fuel) id _ VNil s None s1 nothing Hidle Hid Hfresh
                ltac:(unfold nothing; tauto) Hcall0 Htouch1) as (Hforce & Htouch' & _).
    eexists. split; [exact Hforce|]. eapply touches_weaken; [|exact Htouch']. touched.
  - cbn [unconsAll] in Hr1.
    destruct (unconsAll xss) as [[hs tls]|] eqn:Hun.
    2: { (* another list is empty *)
      subst r1. rewrite (lockstep_none _ _ _ Hun). cbn [filterRowsHead].
      destruct (force_idle (S fuel) id _ VNil s None s1 nothing Hidle Hid Hfresh
                  ltac:(unfold nothing; tauto) Hcall0 Htouch1) as (Hforce & Htouch' & _).
      eexists. split; [exact Hforce|]. eapply touches_weaken; [|exact Htouch']. touched. }
    rewrite (lockstep_cons _ _ _ _ _ Hun). cbn [filterRowsHead length].
    destruct Hr1 as (tails0 & -> & Htails0).
    apply Forall2_cons_inv_r in Htails0 as (tl0 & tails & Htl0 & Htails & ->).
    assert (Hlen : length tails = length ts).
    { apply Forall2_length in Htails, Hts. apply unconsAll_Some in Hun as [_ ->].
      rewrite length_fmap in Htails. lia. }
    assert (Hlenh : length hs = length ts).
    { apply unconsAll_Some in Hun as [-> _]. rewrite length_fmap.
      symmetry. by eapply Forall2_length. }
    cbn [length] in Hroom, Hfuel.
    assert (Hroom1 : room s1 1) by (unfold room in *; lia).
    unfold FilterN in Hcall0.
    rewrite (bind_eq _ _ _ _ _ (newThunk_alloc _ _ Hroom1)) in Hcall0.
    pose proof (touches_alloc (filterNFunc f (tl0 :: tails)) s1 Hfresh1 Hroom1) as Htouch2.
    set (s2 := alloc (filterNFunc f (tl0 :: tails)) s1) in *.
    assert (Hfresh2 : fresh_above s2) by by eapply touches_fresh.
    assert (Hid2 : thunks s2 !! (thunkId s1 + 1)%N = Some (filterNFunc f (tl0 :: tails)))
      by (simpl; apply lookup_insert_eq).
    assert (Hidle2 : idle s2 (thunkId s1 + 1)%N) by by apply idle_alloc.
    assert (Htl2 : is_list s2 tl0 rest0) by by eapply touches_is_list.
    assert (Htails2 : Forall2 (is_list s2) tails tls).
    { eapply Forall2_impl; [exact Htails|]. intros ??. by apply (touches_is_list nothing). }
    assert (Hends2 : ends s2 Empty).
    { apply (touches_ends nothing s1); [done|].
      apply (touches_ends nothing (logged id s)); [done|]. by apply logged_ends. }
    assert (Htouch12 : touches nothing (logged id s) s2).
    { eapply touches_trans; [exact Htouch1 | exact Htouch2 | touched]. }
    assert (Hid' : id ≠ (thunkId s1 + 1)%N).
    { apply (fresh_allocated _ _ _ Hfresh) in Hid. lia. }
    assert (Hi2 : thunkId s2 = (thunkId s + 1)%N) by (simpl; by rewrite Hi1).
    destruct (f (x :: hs)) as [e | [|]].
    + by apply force_idle_panic.
    + (* accepted *)
      unfold bind at 1 in Hcall0. cbn [lift ret] in Hcall0.
      destruct (List_spec (x :: hs) s2 Hfresh2) as (l & s3 & HL & Htouch3 & Hi3 & Hl);
        [unfold room in *; cbn [length]; lia | done |].
      unfold L in Hcall0. rewrite (bind_eq _ _ _ _ _ HL) in Hcall0.
      rewrite newPair_push in Hcall0.
      assert (Hfresh3 : fresh_above s3) by by eapply touches_fresh.
      pose proof (fills_touches _ _ (fills_push (mkPair (VThunk l) (Some (thunkId s1 + 1)%N)) s3))
        as Htouch4.
      set (s4 := push (mkPair (VThunk l) (Some (thunkId s1 + 1)%N)) s3) in *.
      assert (Htouch24 : touches nothing s2 s4).
      { eapply touches_trans; [exact Htouch3 | exact Htouch4 | touched]. }
      assert (Htouch04 : touches nothing (logged id s) s4).
      { eapply touches_trans; [exact Htouch12 | exact Htouch24 | touched]. }
      destruct (force_idle (S fuel) id _ VNil s _ s4 nothing Hidle Hid Hfresh
                  ltac:(unfold nothing; tauto) Hcall0 Htouch04)
        as (Hforce & Htouch' & Hlast).
      destruct (touches_idle _ _ _ _ _ Htouch24 Hfresh2 ltac:(unfold nothing; tauto)
                  Hid2 Hidle2) as [Hid4 Hidle4].
      cbn [length] in Hi3.
      eexists _, l, (thunkId s1 + 1)%N, tl0, tails, rest0, tls, _.
      split; [exact Hforce|]. split_and!.
      * eapply touches_weaken; [|exact Htouch']. touched.
      * rewrite thunkId_cached. change (thunkId s4) with (thunkId s3).
        rewrite Hi3, Hi2, Hlenh.
        replace (S (length rest0) - length rest0)%nat with 1%nat by lia. lia.
      * lia.
      * rewrite thunkId_cached. change (thunkId s4) with (thunkId s3). lia.
      * rewrite pairs_cached. apply push_lookup.
      * apply (touches_is_list _ _ _ _ _ Hlast). by apply (touches_is_list _ _ _ _ _ Htouch4).
      * by rewrite thunks_cached.
      * by apply idle_cached.
      * apply (touches_is_list _ _ _ _ _ Hlast). by apply (touches_is_list _ _ _ _ _ Htouch24).
      * eapply Forall2_impl; [exact Htails2|]. intros ?? Hu.
        apply (touches_is_list _ _ _ _ _ Hlast). by apply (touches_is_list _ _ _ _ _ Htouch24).
      * done.
      * done.
      * lia.
    + (* rejected: the Thunk of the tails is forced *)
      unfold bind at 1 in Hcall0. cbn [lift ret] in Hcall0.
      specialize (IH tls s2 (thunkId s1 + 1)%N tl0 tails fuel Hfresh2
                    ltac:(unfold room in *; rewrite Hlen; simpl; lia) Hends2 Htl2 Htails2
                    Hid2 Hidle2 ltac:(lia)).
      destruct (filterRowsHead f (lockstep rest0 tls)) as [e | [[row rest]|]] eqn:Hhead.
      * rewrite IH in Hcall0. by apply force_idle_panic.
      * destruct IH as (a & l & tid & tl & tails' & xs' & xss' & s3 & Hinner & Htouch3 & Hi3
                        & Htid & Ha & Hl & Htd & Hidle3 & Htl & Htails' & Hlen' & Hrest & Hlt).
        rewrite Hinner in Hcall0.
        assert (Htouch13 : touches nothing (logged id s) s3).
        { eapply touches_trans; [exact Htouch12 | exact Htouch3 |].
          intros j ->. right. simpl. lia. }
        destruct (force_idle (S fuel) id _ VNil s _ s3 nothing Hidle Hid Hfresh
                    ltac:(unfold nothing; tauto) Hcall0 Htouch13)
          as (Hforce & Htouch' & Hlast).
        eexists a, l, tid, tl, tails', xs', xss', _. split; [exact Hforce|].
        rewrite Hlen in Hi3.
        split_and!.
        -- eapply touches_weaken; [|exact Htouch']. touched.
        -- rewrite thunkId_cached.
           assert (1 * (length ts + 2) + (length rest0 - length xs') * (length ts + 2)
                   = (S (length rest0) - length xs') * (length ts + 2))%nat as <- by nia.
           lia.
        -- lia.
        -- rewrite thunkId_cached. lia.
        -- by rewrite pairs_cached.
        -- by apply (touches_is_list _ _ _ _ _ Hlast).
        -- by rewrite thunks_cached.
        -- apply idle_cached; [|done]. apply (fresh_allocated _ _ _ Hfresh) in Hid. lia.
        -- by apply (touches_is_list _ _ _ _ _ Hlast).
        -- eapply Forall2_impl; [exact Htails'|]. intros ??.
           by apply (touches_is_list _ _ _ _ _ Hlast).
        -- lia.
        -- done.
        -- lia.
      * destruct IH as (s3 & Hinner & Htouch3).
        rewrite Hinner in Hcall0.
        assert (Htouch13 : touches nothing (logged id s) s3).
        { eapply touches_trans; [exact Htouch12 | exact Htouch3 |].
          intros j ->. right. simpl. lia. }
        destruct (force_idle (S fuel) id _ VNil s _ s3 nothing Hidle Hid Hfresh
                    ltac:(unfold nothing; tauto) Hcall0 Htouch13)
          as (Hforce & Htouch' & _).
        eexists. split; [exact Hforce|]. eapply touches_weaken; [|exact Htouch']. touched.
Qed.

Lemma ToSlice_filterN f k :
  ∀ xs xss s id t ts fuel,
    (length xs ≤ k)%nat →
    fresh_above s → room s (length xs * (length ts + 2)) → ends s Empty →
    is_list s t xs → Forall2 (is_list s) ts xss →
    thunks s !! id = Some (filterNFunc f (t :: ts)) → idle s id →
    (2 * length xs + 5 ≤ fuel)%nat →
    match filterRows f (lockstep xs xss) with
    | inl e => ToSlice fuel (Some id) s = Panic e
    | inr rows =>
        ∃ ys s', ToSlice fuel (Some id) s = Ok ys s' ∧ touches (only id) s s' ∧
                 Forall2 (λ row y, ∃ l, y = VThunk l ∧ is_list s' l row) rows ys
    end.
Proof.
  induction k as [|k IH];
    intros xs xss s id t ts fuel Hk Hfresh Hroom Hends Ht Hts Hid Hidle Hfuel;
    (destruct fuel as [|fuel]; [lia|]); cbn [ToSlice]; rewrite filterRows_head;
    pose proof (force_filterN f xs xss s id t ts fuel Hfresh Hroom Hends Ht Hts Hid Hidle
                  ltac:(lia)) as Hforce;
    destruct (filterRowsHead f (lockstep xs xss)) as [e | [[row rest]|]] eqn:Hhead;
    try (by rewrite (bind_panic _ _ _ _ Hforce));
    try (destruct Hforce as (s' & Hforce & Htouch);
         rewrite (bind_eq _ _ _ _ _ Hforce); exists [], s';
         split; [done|]; split; [done | constructor]);
    destruct Hforce as (a & l & tid & tl & tails & xs' & xss' & s1 & Hforce & Htouch & Hi
                        & Htid & Ha & Hl & Htd & Hidle1 & Htl & Htails & Hlen & -> & Hlt);
    [lia|].
  rewrite (bind_eq _ _ _ _ _ Hforce). cbn beta iota.
  rewrite (bind_eq _ _ _ _ _ (deref_eq _ _ _ Ha)). cbn [p_head p_tail].
  assert (Hroom1 : room s1 (length xs' * (length tails + 2))).
  { rewrite Hlen.
    assert ((length xs - length xs') * (length ts + 2) + length xs' * (length ts + 2)
            = length xs * (length ts + 2))%nat by nia.
    unfold room in *. lia. }
  specialize (IH xs' xss' s1 tid tl tails fuel ltac:(lia)
                (touches_fresh _ _ _ Htouch Hfresh) Hroom1
                (touches_ends _ _ _ _ Htouch Hends) Htl Htails Htd Hidle1 ltac:(lia)).
  destruct (filterRows f (lockstep xs' xss')) as [e|rows].
  - by rewrite (bind_panic _ _ _ _ IH).
  - destruct IH as (ys & s2 & Hrest & Htouch2 & Hrows).
    rewrite (bind_eq _ _ _ _ _ Hrest). exists (VThunk l :: ys), s2. split; [done|]. split.
    + eapply (touches_trans _ _ s s1); [exact Htouch | exact Htouch2 |].
      intros j ->. right. lia.
    + constructor; [|done]. exists l. split; [done|].
      by apply (touches_is_list _ _ _ _ _ Htouch2).
Qed.

(** X26.  [FilterN(f, t, ts...).ToSlice()] on finite lists is a list of new
    lists, one for each tuple of the lists in lockstep that [f] accepts, in
    order, holding the elements of the tuple; [f] is asked about every tuple
    up to the end of the shortest list and its first panic is the outcome.
    The lists are the same lists afterwards. *)
Theorem FilterN_ToSlice f s t ts xs xss fuel :
  fresh_above s → room s (S (length xs * (length ts + 2))) → ends s Empty →
  is_list s t xs → Forall2 (is_list s) ts xss →
  (2 * length xs + 5 ≤ fuel)%nat →
  match filterRows f (lockstep xs xss) with
  | inl e => (let* m := FilterN f (t :: ts) in ToSlice fuel m) s = Panic e
  | inr rows =>
      ∃ ys s', (let* m := FilterN f (t :: ts) in ToSlice fuel m) s = Ok ys s' ∧
               Forall2 (λ row y, ∃ l, y = VThunk l ∧ is_list s' l row) rows ys ∧
               is_list s' t xs ∧ Forall2 (is_list s') ts xss
  end.
Proof.
  intros Hfresh Hroom Hends Ht Hts Hfuel.
  assert (Hroom1 : room s 1) by (eapply room_le; [|exact Hroom]; lia).
  unfold FilterN. rewrite (bind_eq _ _ _ _ _ (newThunk_alloc _ _ Hroom1)).
  pose proof (touches_alloc (filterNFunc f (t :: ts)) s Hfresh Hroom1) as Htouch.
  assert (Hts1 : Forall2 (is_list (alloc (filterNFunc f (t :: ts)) s)) ts xss).
  { eapply Forall2_impl; [exact Hts|]. intros ??. by apply (touches_is_list nothing). }
  pose proof (ToSlice_filterN f (length xs) xs xss (alloc (filterNFunc f (t :: ts)) s)
                (thunkId s + 1)%N t ts fuel ltac:(lia)
                (touches_fresh _ _ _ Htouch Hfresh)
                ltac:(unfold room in *; simpl; lia)
                (touches_ends _ _ _ _ Htouch Hends)
                (touches_is_list _ _ _ _ _ Htouch Ht) Hts1
                ltac:(simpl; apply lookup_insert_eq)
                ltac:(by apply idle_alloc) Hfuel) as H.
  destruct (filterRows f (lockstep xs xss)) as [e|rows]; [exact H|].
  destruct H as (ys & s' & Hrun & Htouch' & Hrows). exists ys, s'.
  split; [exact Hrun|]. split; [exact Hrows|]. split.
  - eapply touches_is_list; [exact Htouch'|]. by eapply touches_is_list.
  - eapply Forall2_impl; [exact Hts1|]. intros u us Hu.
    exact (touches_is_list _ _ _ _ _ Htouch' Hu).
Qed.

(** [FilterN(f, L(1, 2, 3), L(4, 5, 6, 7))] for [f] true of the tuples whose
    first element is odd, and for an [f] that asserts strings *)
Lemma FilterN_ToSlice_witness :
  let s := state_of ((let* a := L (ints [1; 2; 3]) in L (ints [4; 5; 6; 7])) init) in
  let odd xs := match xs with
                | VInt _ z :: _ => inr (Z.odd z)
                | _ => inl TypeAssertion
                end in
  let str xs := match xs with
                | VString _ :: _ => inr true
                | _ => inl TypeAssertion
                end in
  (∃ ys s', (let* m := FilterN odd [Some 4%N; Some 8%N] in ToSlice 11 m) s = Ok ys s' ∧
            Forall2 (λ row y, ∃ l, y = VThunk l ∧ is_list s' l row)
                    [ints [1; 4]; ints [3; 6]] ys ∧
            is_list s' (Some 4%N) (ints [1; 2; 3]) ∧
            Forall2 (is_list s') [Some 8%N] [ints [4; 5; 6; 7]]) ∧
  (let* m := FilterN str [Some 4%N; Some 8%N] in ToSlice 11 m) s = Panic TypeAssertion.
Proof.
  intros s odd str.
  assert (Hfresh : fresh_above s) by concrete_fresh.
  assert (Hends : ends s Empty) by (right; by vm_compute).
  assert (Ha : is_list s (Some 4%N) (ints [1; 2; 3])) by concrete_list.
  assert (Hb : is_list s (Some 8%N) (ints [4; 5; 6; 7])) by concrete_list.
  assert (Hts : Forall2 (is_list s) [Some 8%N] [ints [4; 5; 6; 7]])
    by (repeat constructor; done).
  assert (Hroom : room s (S (length (ints [1; 2; 3]) * (length [Some 8%N] + 2))))
    by (unfold room; by vm_compute).
  split.
  - exact (FilterN_ToSlice odd s (Some 4%N) _ _ _ 11 Hfresh Hroom Hends Ha Hts
             ltac:(simpl; lia)).
  - exact (FilterN_ToSlice str s (Some 4%N) _ _ _ 11 Hfresh Hroom Hends Ha Hts
             ltac:(simpl; lia)).
Defined.

(** ** StartMemo, StopMemo, ResetMemo *)

Lemma stored_is_list s t xs : stored s t xs → is_list s t xs.
Proof.
  revert t. induction xs as [|x rest IH]; intros t; simpl.
  - destruct t as [id|]; [|done]. intros [Hf [Hn|Hs]]; unfold ends; destruct (memo s); tauto.
  - intros (id & tl & -> & Hf & Hc & Hrest). exists tl. split; [|by apply IH].
    exists id. split; [done|].
    destruct (memo s); [|done]. destruct Hc as [Hn|(a & Ha & Hp)]; [by right|].
    left. by exists a.
Qed.

Lemma consistent_fills s s' id p :
  fills s s' →
  thunks s !! id = Some (match p with
                         | None => emptyFunc
                         | Some p => linkFunc (p_head p) (p_tail p)
                         end) →
  consistent s id p → consistent s' id p.
Proof.
  intros (_ & _ & _ & _ & [more Hmore] & Htable) Hf Hc.
  assert (Hpairs : ∀ a q, pairs s !! a = Some q → pairs s' !! a = Some q).
  { intros a q Ha. rewrite Hmore. by apply lookup_app_l_Some. }
  destruct (Htable id) as [Heq | (Hnone & [(x & tl & a & Hl & Ha & Hp) | (He & Hn)])].
  - unfold consistent. rewrite Heq. destruct Hc as [?|Hc]; [by left|]. right.
    destruct p as [p|]; [|done]. destruct Hc as (a & Ha & Hp). exists a. auto.
  - right. destruct p as [[h t]|]; simpl in Hf; [|congruence].
    exists a. split; [done|]. congruence.
  - right. destruct p as [p|]; [congruence | done].
Qed.

Lemma stored_fills s s' t xs : fills s s' → stored s t xs → stored s' t xs.
Proof.
  intros Hfill. pose proof Hfill as (_ & _ & Hth & _).
  revert t. induction xs as [|x rest IH]; intros t; simpl.
  - destruct t as [id|]; [|done]. intros [Hf Hc]. rewrite Hth. split; [done|].
    by apply (consistent_fills s s' id None).
  - intros (id & tl & -> & Hf & Hc & Hrest). exists id, tl. rewrite Hth.
    split_and!; [done | done | | by apply IH].
    by apply (consistent_fills s s' id (Some (mkPair x tl))).
Qed.

Lemma stored_alloc f s t xs :
  fresh_above s → stored s t xs → stored (alloc f s) t xs.
Proof.
  intros Hfresh.
  assert (Hne : ∀ id g, thunks s !! id = Some g →
                        thunks (alloc f s) !! id = Some g).
  { intros id g Hg. simpl. rewrite lookup_insert_ne; [done|].
    apply (fresh_allocated _ _ _ Hfresh) in Hg. lia. }
  revert t. induction xs as [|x rest IH]; intros t; simpl.
  - destruct t as [id|]; [|done]. intros [Hf Hc]. split; [by apply Hne | done].
  - intros (id & tl & -> & Hf & Hc & Hrest). exists id, tl.
    split_and!; [done | by apply Hne | done | by apply IH].
Qed.

Lemma List_stored items :
  ∀ s, fresh_above s → room s (length items) → stored s Empty [] →
    ∃ t s', List items s = Ok t s' ∧ fresh_above s' ∧
            thunkId s' = (thunkId s + N.of_nat (length items))%N ∧
            stored s' t items ∧ stored s' Empty [].
Proof.
  induction items as [|x rest IH]; intros s Hfresh Hroom Hempty.
  - exists Empty, s. split; [done|]. split; [done|]. split; [simpl; lia | done].
  - cbn [List length] in *.
    destruct (IH s) as (t & s1 & HL & Hfresh1 & Hi & Hlist & Hempty1);
      [done | eapply room_le; [|exact Hroom]; lia | done |].
    rewrite (bind_eq _ _ _ _ _ HL). unfold Link.
    assert (Hroom1 : room s1 1) by (unfold room in *; lia).
    rewrite (newThunk_alloc _ _ Hroom1).
    eexists _, _. split; [done|]. split_and!.
    + exact (touches_fresh _ _ _ (touches_alloc _ _ Hfresh1 Hroom1) Hfresh1).
    + simpl. lia.
    + exists (thunkId s1 + 1)%N, t. split; [done|]. split; [apply lookup_insert_eq|].
      split; [|by apply stored_alloc].
      left. simpl. by destruct (Hfresh1 (thunkId s1 + 1)%N ltac:(lia)).
    + by apply (stored_alloc _ s1 Empty []).
Qed.

Lemma stored_forget s s' t xs :
  thunks s' = thunks s → pairs s' = pairs s →
  memoTable s' = memoTable s ∨ memoTable s' = ∅ →
  stored s t xs → stored s' t xs.
Proof.
  intros Hth Hp Htable.
  assert (Hc : ∀ id p, consistent s id p → consistent s' id p).
  { intros id p. unfold consistent. rewrite Hp.
    destruct Htable as [->| ->]; [done|]. intros _. left. apply lookup_empty. }
  revert t. induction xs as [|x rest IH]; intros t; simpl; rewrite Hth.
  - destruct t as [id|]; [|done]. intros [Hf Hid]. split; [done | by apply Hc].
  - intros (id & tl & -> & Hf & Hid & Hrest). exists id, tl.
    split_and!; [done | done | by apply Hc | by apply IH].
Qed.

Lemma stored_controls cs :
  ∀ s, ∃ s', controls cs s = Ok tt s' ∧ ∀ t xs, stored s t xs → stored s' t xs.
Proof.
  induction cs as [|c rest IH]; intros s.
  - exists s. by split.
  - assert (Hc : ∃ s1, control c s = Ok tt s1 ∧ ∀ t xs, stored s t xs → stored s1 t xs).
    { destruct c; eexists; (split; [reflexivity|]); intros t xs;
        apply stored_forget; try done; first [by left | by right]. }
    destruct Hc as (s1 & Hc & Hkeep). destruct (IH s1) as (s' & Hrest & Hkeep').
    exists s'. split; [cbn [controls]; by rewrite (bind_eq _ _ _ _ _ Hc)|].
    intros t xs Hs. by apply Hkeep', Hkeep.
Qed.

(** X27.  A list built by [List] (or [L]) does not depend on memoization:
    after any sequence of [StartMemo], [StopMemo] and [ResetMemo], [ToSlice]
    gives the same elements as before it. *)
Theorem List_after_memo_controls items cs s fuel :
  fresh_above s → room s (length items) → stored s Empty [] →
  (length items + 3 ≤ fuel)%nat →
  ∃ s', (let* t := L items in
         let* before := ToSlice fuel t in
         controls cs;;
         let* after := ToSlice fuel t in
         ret (before, after)) s = Ok (items, items) s'.
Proof.
  intros Hfresh Hroom Hempty Hfuel. unfold L.
  destruct (List_stored items s Hfresh Hroom Hempty)
    as (t & s1 & HL & _ & _ & Hlist & _).
  rewrite (bind_eq _ _ _ _ _ HL).
  destruct (ToSlice_list items s1 t fuel (stored_is_list _ _ _ Hlist) Hfuel)
    as (s2 & Hrun & Hfill).
  rewrite (bind_eq _ _ _ _ _ Hrun).
  destruct (stored_controls cs s2) as (s3 & Hcs & Hkeep).
  rewrite (bind_eq _ _ _ _ _ Hcs).
  destruct (ToSlice_list items s3 t fuel
              (stored_is_list _ _ _ (Hkeep _ _ (stored_fills _ _ _ _ Hfill Hlist))) Hfuel)
    as (s4 & Hrun' & _).
  rewrite (bind_eq _ _ _ _ _ Hrun'). by exists s4.
Qed.

(** [L(1, 2, 3)] read, then [StopMemo(); ResetMemo(); StartMemo()], then read
    again *)
Lemma List_after_memo_controls_witness :
  ∃ s', (let* t := L (ints [1; 2; 3]) in
         let* before := ToSlice 6 t in
         controls [Stop; Reset; Start];;
         let* after := ToSlice 6 t in
         ret (before, after)) init = Ok (ints [1; 2; 3], ints [1; 2; 3]) s'.
Proof.
  assert (Hfresh : fresh_above init) by concrete_fresh.
  assert (Hroom : room init (length (ints [1; 2; 3]))) by (unfold room; by vm_compute).
  assert (Hempty : stored init Empty []) by (split; [done | by left]).
  exact (List_after_memo_controls (ints [1; 2; 3]) [Stop; Reset; Start] init 6
           Hfresh Hroom Hempty ltac:(simpl; lia)).
Defined.
